(* ===== verification/_CoqProject ===== *)
-Q . S2P
Prelude.v
GoLib.v
Float64.v
GoTime.v
GoCrypto.v
GoNet.v
X509.v
Authz.v
Match.v
Inventory.v
Challenge.v
Policy.v
Verify.v
Pipeline.v
Replay.v
Limits.v
Buckets.v
Http.v
Middleware.v
MiddlewareLive.v
Base64.v
Pem.v
Der.v
Pkcs7.v
Csr.v
Bao.v
BaoTheory.v
Threads.v
Flow.v
BaoConc.v
BaoSafe.v
Est.v
EstTheory.v
Cms.v
ScepMessage.v
ScepHandler.v
ScepTheory.v
Config.v
Baotest.v
Main.v
MainTheory.v
Overlap.v
EstConc.v
ScepConc.v
BrokerConc.v
ScepOnce.v
Lifecycle.v
