(* ===== verification/Prelude.v ===== *)
(** * certbroker: a verification development

    certbroker (src/, in Go) brokers certificate enrolment: devices speak EST
    (RFC 7030) or SCEP (RFC 8894) to it, it authenticates and authorizes them,
    and asks an OpenBao PKI mount to sign what it decided.  This library models
    the program function by function and proves the properties the design
    rests on.

    ** The parts and their files

    Every definition carries the name of the Go function, method or type it
    models; where a Go name is taken, it is prefixed by its receiver's type
    ([Pipeline_Authorize]) or suffixed by an underscore.

    - internal/authz, the decision: [Authz.v] (requests, decisions, identities),
      [Match.v] (globs, role rules), [Inventory.v], [Challenge.v], [Policy.v]
      (SAN modes), [Pipeline.v] (the seven stages), [Verify.v] (the check on
      what was issued).
    - internal/scep/replay.go: [Replay.v].  internal/limits: [Limits.v] (token
      buckets and their bounded table, over any arithmetic), [Buckets.v] (what
      they promise in float64), [Middleware.v] (the middleware as interleaved
      steps of many requests: its client's bucket, the global bucket and the
      semaphore are steps of their own), [MiddlewareLive.v] (every request is
      answered).
    - internal/pkcs7: [Pkcs7.v].  internal/est/csr.go and server.go: [Csr.v].
      internal/est/handler.go: [Est.v], with its theorems in [EstTheory.v].
    - internal/bao: [Bao.v], theorems in [BaoTheory.v]; the same operations as
      programs of atomic steps, many calls on one client, in [BaoConc.v], and
      what such calls send and get back in [BaoSafe.v].
    - internal/baotest: [Baotest.v].
    - internal/cms: [Cms.v].  internal/scep/message.go and request.go:
      [ScepMessage.v]; internal/scep/handler.go: [ScepHandler.v], theorems in
      [ScepTheory.v].
    - internal/config: [Config.v].  cmd/certbroker/main.go: [Main.v], theorems
      on the assembled broker in [MainTheory.v]; the listener goroutines, the
      signal, the shutdown and the exit code in [Lifecycle.v].
    - Requests that overlap in time: [Overlap.v] (the steps they share the
      broker's state by), [EstConc.v] and [ScepConc.v] (the handlers over them),
      [BrokerConc.v] (the broker), [ScepOnce.v] (copies of a SCEP message).

    Underneath is the part of the Go library the program uses, written out:
    [GoLib.v] (strings, UTF-8, fmt, times), [Float64.v] (float64, its rounding
    and order), [GoTime.v] (time.ParseDuration and Duration.String),
    [GoCrypto.v] (SHA-256, hex), [GoNet.v] (IP addresses, URLs), [Http.v],
    [Base64.v], [Pem.v], [Der.v] (the asn1 package on the types used), [X509.v].
    [Threads.v] has goroutines as programs of atomic steps, their interleavings,
    bounds on their steps, a rely-guarantee logic and one with ghost state;
    [Flow.v] has handlers as such programs.
    This file has the error monad, the handler monad [Act] with its invariant
    calculus [act_keeps], machine integers, labelled runs of a step relation,
    and list lemmas.

    ** How the parts meet

    A handler is a function of its request and of a world: the authorizer, the
    enroller and the audit log (and the replay cache, for SCEP).  It is written
    in [Act]: each exit of the Go handler is one response.  The authorizer is
    the class [Authorizer], the enroller the class [Enroller]; the handlers are
    verified against these classes, for any authorizer and any enroller, and
    [Pipeline] and [Client] are the instances that the program runs.  The
    pipeline in turn is verified against [Inventory], [ChallengeValidator],
    [RoleSelector] and [ConstraintBuilder].  [Main.v] selects the instances
    from a configuration and shares one authorizer and one OpenBao client
    between the two listeners, behind one limiter; [serves] is a sequence of
    requests on them.
    A method that holds a mutex from its first access to its last is one atomic
    step, so that a concurrent run is a sequence of such steps.  There are two
    models of a run of the broker.  In [Main.v] a request is served as a whole,
    one after the other: the handlers' theorems are about this model, and hold
    for any authorizer and enroller.  In [BrokerConc.v] every request is a
    thread, and between any two of its atomic steps (a section under a mutex, an
    exchange with OpenBao, a reading of the clock, a line of the audit log)
    others run; there the enroller is the OpenBao client itself.  That the two
    renderings agree is the lemma [serving_refines]: each handler program, run
    alone, is the handler.  The limiter's semaphore, where requests wait for each
    other, is interleaved in [Middleware.v]; elsewhere whether a request gets a
    slot is an argument, and the theorems hold for both answers.

    ** What the theorems show

    - The assembled broker: no certificate without a credential, over any
      sequence of requests on its listeners ([MainTheory]) and in any
      interleaving of them, down to the wire ([BrokerConc]); each request is
      answered from the answer to its own call; the authorizer is the configured
      one; the decided validity is the one OpenBao is asked for.
    - The process: it ends when it should, its goroutines do not block, and its
      exit code says what happened ([Lifecycle]).
    - Termination: every OpenBao call and every request ends within a bound in
      any interleaving ([BaoConc], [BrokerConc]), and the limiter answers every
      request ([MiddlewareLive]).
    - The client shared by requests: what it sends and under which token, and a
      race between a renewal and a login that leaves a token with the other's
      expiry ([BaoSafe]).
    - Decisions: the pipeline allows exactly when every stage passes, denies
      exactly when a gate refuses and with that gate's reason, needs a secret when
      there is no certificate, keeps a renewing device to the names its
      certificate covers, and to its own names when those have no wildcard;
      globs, policies and the allowlist are characterised exactly; one-time codes
      are used once.
    - Issuance: EST and SCEP call the enroller only for what was authorized, with
      the role and constraints of the decision and the CSR that was checked; what
      is released, in the body of the reply, is the certificate that was verified
      against the decision, in its names and its lifetime, and was audited.  The
      lifetime check is characterised for every cap, those at the top of the int64
      range included, where its sum wraps or meets the saturated difference.
    - SCEP: identities come from the device anchor only, replays change nothing
      and are refused within the TTL, refusals are uniform, replies are bound to
      their requests; of copies of a message that overlap at most one gets a
      certificate ([ScepOnce]).
    - Resource bounds: the rate of entries over any window and the content of
      every bucket, in float64 with the rounding written out; concurrency, the
      sizes of both tables, body limits, and backoff.
    - Upstream: a request is retried on a transport error, a reply that breaks off
      or a 5xx and on nothing else, until the attempts are used up or the wait is
      interrupted.
    - Encodings: PKCS#7, PEM, base64, CSR attributes and request bodies are read
      back exactly.
    - Configuration: validation is characterised, durations are read exactly up
      to the 64-bit wrap-around, and every positive duration printed by Go is read
      back, fractions of a second included.
    - The test provisioning makes exactly its calls, in order, and fails only at
      the first that is refused, brings no usable value or cannot be made; its
      role and policy grant what the client needs ([Baotest]).

    ** Parameters

    Code outside the repository is a class, and nothing is assumed of it unless a
    theorem says so: [X509] (certificate parsing and path validation),
    [Pkcs7Lib] (smallstep/pkcs7), [Json], [Upstream] (network, clock, random
    source and context of the OpenBao client), [InventoryFile], [ConfigYaml] and
    [YamlNode] (yaml.v3), [Os] (environment and files), [KeyPairs]
    (tls.LoadX509KeyPair), [BaotestJson] and [CryptoRand] (the replies and the
    random suffix of [Baotest.v]), [UnicodeTables] (case folding and printability
    above ASCII).  Each has a concrete instance in the witnesses, on which the whole
    program runs.

    ** Conventions, bounds and fuel

    - An error is its message.  Strings are byte strings as in Go; int64 and
      time.Duration are integers with their wrap-around written out ([wrap64]);
      times are nanoseconds.  float64 is binary64 of the Standard Library
      ([SpecFloat]): the rate and the buckets are about it, the bounds on the
      table hold in any arithmetic, and only the comparison with an unbounded
      table is in exact rationals.
    - The limit on a request body is an int64 sum, wrap-around included: with the
      largest max_request_bytes it is negative and every body reads as empty.
    - Bounds on steps: an OpenBao request makes at most three steps per attempt,
      a call at most three requests (renewal, login, its own) and seven short
      steps, a broker request one call and five; the process at most sixteen
      after its listeners start.
    - Fuel: the parsers that recurse on a rest (PEM blocks, DER attributes,
      duration components) take the length of their input, which every step
      shortens; decimal printing takes 20 digits, enough for 64 bits; the retry
      loop counts down MaxRetries.
    - The order in which Go iterates a map is an argument, and the theorems hold
      for every order.

    ** Not modelled

    Logging apart from the audit record; HTTP and TLS transport; contexts and
    timeouts other than as errors of the calls they bound; the mux's redirection
    of unclean paths; the parsing of flags and the delivery of signals, which
    [Lifecycle.v] takes as given; Go tests and deployment files.  zero() of the
    EST handler scrubs a buffer after it was written out and has no result.
    What is left of the Go sources without a definition is package clauses,
    imports and interface declarations whose methods are the classes above.

    ** Still to come

    The semaphore inside the interleaving of [BrokerConc.v], and the audit log of
    overlapping requests: that every decision taken in a run is recorded. *)
From Stdlib Require Export ZArith Lia Bool Ascii String List.
From stdpp Require Export base tactics numbers option list gmap strings.

#[global] Open Scope Z_scope.
#[global] Arguments String.append !_ _ /.

Declare Scope go_scope.
Delimit Scope go_scope with go.

(** ** Go errors and fallible results *)

(** An [error] value is represented by the message its [Error()] method
    returns; the code never inspects an error in another way. *)
Abbreviation error := string (only parsing).

Inductive result (A : Type) : Type :=
| Ok (a : A)
| Err (e : error).
Arguments Ok {A} a.
Arguments Err {A} e.

Definition is_ok {A} (r : result A) : bool :=
  match r with Ok _ => true | Err _ => false end.

Definition result_bind {A B} (r : result A) (f : A -> result B) : result B :=
  match r with Ok a => f a | Err e => Err e end.

(** [if err != nil { return nil, wrap(err) }] *)
Definition map_err {A} (f : error -> error) (r : result A) : result A :=
  match r with Ok a => Ok a | Err e => Err (f e) end.

Definition of_option {A} (e : error) (o : option A) : result A :=
  match o with Some a => Ok a | None => Err e end.

Notation "'let?' x := m 'in' k" := (result_bind m (fun x => k))
  (at level 10, x pattern, m at level 100, k at level 200,
   format "'let?'  x  :=  m  'in' '//' k") : go_scope.
(** [if cond { return err }] *)
Notation "'when' b 'fail' e ; k" := (if b then Err e else k)
  (at level 10, b at level 100, e at level 100, k at level 200,
   format "'when'  b  'fail'  e ; '//' k") : go_scope.
#[global] Open Scope go_scope.

(** ** State with early return: the shape of an HTTP handler *)

(** [Act W R A]: code that reads and writes the world [W], and either
    returns from the whole handler with an [R] or goes on with an [A]. *)
Definition Act (W R A : Type) : Type := W -> W * (R + A).

Section Act.
Context {W R : Type}.

Definition act_ret {A} (a : A) : Act W R A := fun w => (w, inr a).
Definition act_exit {A} (r : R) : Act W R A := fun w => (w, inl r).
Definition act_bind {A B} (m : Act W R A) (f : A -> Act W R B) : Act W R B :=
  fun w => match m w with
           | (w', inl r) => (w', inl r)
           | (w', inr a) => f a w'
           end.
Definition act_modify (f : W -> W) : Act W R unit := fun w => (f w, inr tt).
(** A call into a stateful component: run it on the world. *)
Definition act_call {A} (f : W -> W * A) : Act W R A :=
  fun w => let '(w', a) := f w in (w', inr a).
(** A pure fallible step: on error run the error branch. *)
Definition act_try {A} (r : result A) (h : error -> Act W R A) : Act W R A :=
  match r with Ok a => act_ret a | Err e => h e end.
Definition act_run (m : Act W R R) (w : W) : W * R :=
  match m w with (w', inl r) => (w', r) | (w', inr r) => (w', r) end.
End Act.

Notation "'let!' x := m 'in' k" := (act_bind m (fun x => k))
  (at level 10, x pattern, m at level 100, k at level 200,
   format "'let!'  x  :=  m  'in' '//' k") : go_scope.
Notation "'do!' m ; k" := (act_bind m (fun _ => k))
  (at level 10, m at level 100, k at level 200,
   format "'do!'  m ; '//' k") : go_scope.

(** *** Invariants of handler code

    [act_keeps P m]: from a world with [P], [m] ends in one, whether it returns
    or goes on.  The hints reduce it to the calls [m] makes. *)
Section Keeps.
Context {W R : Type} (P : W -> Prop).

Definition act_keeps {A} (m : Act W R A) : Prop := forall w, P w -> P (fst (m w)).

Lemma keeps_ret {A} (a : A) : act_keeps (act_ret a).
Proof. by intros w Hw. Qed.

Lemma keeps_exit {A} (r : R) : act_keeps (A := A) (act_exit r).
Proof. by intros w Hw. Qed.

Lemma keeps_bind {A B} (m : Act W R A) (f : A -> Act W R B) :
  act_keeps m -> (forall a, act_keeps (f a)) -> act_keeps (act_bind m f).
Proof.
  intros Hm Hf w Hw. unfold act_bind. specialize (Hm w Hw).
  destruct (m w) as [w' [r|a]]; [done|by apply Hf].
Qed.

Lemma keeps_try {A} (r : result A) (h : error -> Act W R A) :
  (forall e, act_keeps (h e)) -> act_keeps (act_try r h).
Proof. intros Hh. destruct r; [apply keeps_ret|apply Hh]. Qed.

Lemma keeps_modify (f : W -> W) : (forall w, P w -> P (f w)) -> act_keeps (act_modify f).
Proof. intros Hf w Hw. by apply Hf. Qed.

Lemma keeps_call {A} (f : W -> W * A) : (forall w, P w -> P (fst (f w))) -> act_keeps (act_call f).
Proof. intros Hf w Hw. specialize (Hf w Hw). unfold act_call. by destruct (f w). Qed.

Lemma keeps_run (m : Act W R R) w : act_keeps m -> P w -> P (fst (act_run m w)).
Proof. intros Hm Hw. specialize (Hm w Hw). unfold act_run. by destruct (m w) as [w' [r|r]]. Qed.
End Keeps.

Create HintDb act.
#[export] Hint Resolve keeps_ret keeps_exit keeps_try : act.

(** Take handler code apart, down to its calls. *)
Ltac keeps :=
  repeat first
    [ solve [auto with act nocore]
    | match goal with
      | |- act_keeps _ (act_bind _ _) => apply keeps_bind; [|intros ?]
      | |- act_keeps _ (act_try _ _) => apply keeps_try; intros ?
      | |- act_keeps _ (if ?b then _ else _) => destruct b
      | |- act_keeps _ (match ?x with _ => _ end) => destruct x
      end ].

(** ** Machine integers *)

(** Two's complement wrap-around of Go's [int64] (and of [int] on the
    64-bit platforms the broker is built for). *)
Definition wrap64 (z : Z) : Z := (z + 2 ^ 63) mod 2 ^ 64 - 2 ^ 63.

Definition min_int64 : Z := - 2 ^ 63.
Definition max_int64 : Z := 2 ^ 63 - 1.
Definition is_int64 (z : Z) : Prop := min_int64 <= z <= max_int64.

Lemma wrap64_range z : is_int64 (wrap64 z).
Proof.
  unfold wrap64, is_int64, min_int64, max_int64.
  pose proof (Z.mod_pos_bound (z + 2 ^ 63) (2 ^ 64) ltac:(lia)). lia.
Qed.

Lemma wrap64_id z : is_int64 z -> wrap64 z = z.
Proof.
  unfold wrap64, is_int64, min_int64, max_int64. intros.
  rewrite Z.mod_small by lia. lia.
Qed.

(** One overflow past the top wraps to the bottom of the range. *)
Lemma wrap64_over z : max_int64 < z <= max_int64 + 2 ^ 64 -> wrap64 z = z - 2 ^ 64.
Proof.
  unfold wrap64, max_int64. intros.
  rewrite <- (Z.mod_unique (z + 2 ^ 63) (2 ^ 64) 1 (z + 2 ^ 63 - 2 ^ 64)); lia.
Qed.

(** ** Reflexive-transitive closure, for the interleaving semantics *)

Inductive steps {S L : Type} (step : S -> L -> S -> Prop) : S -> list L -> S -> Prop :=
| steps_nil s : steps step s [] s
| steps_cons s l s' ls s'' :
    step s l s' -> steps step s' ls s'' -> steps step s (l :: ls) s''.

Lemma steps_app {S L} (step : S -> L -> S -> Prop) s1 l1 s2 l2 s3 :
  steps step s1 l1 s2 -> steps step s2 l2 s3 -> steps step s1 (l1 ++ l2) s3.
Proof. induction 1; simpl; [done|]. intros. econstructor; eauto. Qed.

(** An invariant of every step is an invariant of every run. *)
Lemma steps_invariant {S L} (step : S -> L -> S -> Prop) (I : S -> Prop) :
  (forall s l s', I s -> step s l s' -> I s') ->
  forall s ls s', steps step s ls s' -> I s -> I s'.
Proof. intros Hstep s ls s' Hrun. induction Hrun; eauto. Qed.

(** Termination by a measure: a relation all of whose steps decrease it has no
    run longer than its value, and, where a state is final or has a step, every
    state leads to a final one. *)
Section Measure.
Context {S L : Type} (step : S -> L -> S -> Prop) (measure : S -> nat).
Hypothesis decreases : forall s l s', step s l s' -> (measure s' < measure s)%nat.

Lemma steps_bounded s ls s' : steps step s ls s' -> (length ls + measure s' <= measure s)%nat.
Proof.
  induction 1 as [s|s l s1 ls s' Hstep _ IH]; simpl; [lia|]. specialize (decreases _ _ _ Hstep). lia.
Qed.

Lemma steps_complete (I final : S -> Prop) :
  (forall s l s', I s -> step s l s' -> I s') -> (forall s, I s -> final s \/ exists l s', step s l s') ->
  forall s, I s -> exists ls s', steps step s ls s' /\ final s'.
Proof.
  intros Hkeep Hprogress s. remember (measure s) as m eqn:Hm. revert s Hm.
  induction m as [m IH] using lt_wf_ind. intros s -> HI. destruct (Hprogress s HI) as [Hf|(l & s1 & Hstep)].
  - exists [], s. split; [constructor|done].
  - destruct (IH _ (decreases _ _ _ Hstep) s1 eq_refl) as (ls & s' & Hrun & Hf); [by eapply Hkeep|].
    exists (l :: ls), s'. split; [by eapply steps_cons|done].
Qed.
End Measure.

(** ** Tactics and hints *)

Create HintDb go.

(** Case analysis on the head [match] or [if] of a hypothesis, discarding
    the branches that contradict the hypothesis. *)
Ltac branch H :=
  repeat (match type of H with context [match ?x with _ => _ end] =>
            destruct x eqn:?; simplify_eq/= end; try done).

(** Turn boolean conditions from the code into propositions. *)
Ltac reflect_bools :=
  repeat match goal with
  | H : (_ && _) = true |- _ => apply andb_true_iff in H as [? ?]
  | H : (_ && _) = false |- _ => apply andb_false_iff in H
  | H : (_ || _) = true |- _ => apply orb_true_iff in H
  | H : (_ || _) = false |- _ => apply orb_false_iff in H as [? ?]
  | H : negb _ = true |- _ => apply negb_true_iff in H
  | H : negb _ = false |- _ => apply negb_false_iff in H
  | H : (_ =? _)%string = true |- _ => apply String.eqb_eq in H
  | H : (_ =? _)%string = false |- _ => apply String.eqb_neq in H
  | H : (_ =? _)%Z = true |- _ => apply Z.eqb_eq in H
  | H : (_ =? _)%Z = false |- _ => apply Z.eqb_neq in H
  | H : (_ <? _)%Z = true |- _ => apply Z.ltb_lt in H
  | H : (_ <? _)%Z = false |- _ => apply Z.ltb_ge in H
  | H : (_ <=? _)%Z = true |- _ => apply Z.leb_le in H
  | H : (_ <=? _)%Z = false |- _ => apply Z.leb_gt in H
  | H : (_ =? _)%nat = true |- _ => apply Nat.eqb_eq in H
  | H : (_ =? _)%nat = false |- _ => apply Nat.eqb_neq in H
  | H : (_ <? _)%nat = true |- _ => apply Nat.ltb_lt in H
  | H : (_ <? _)%nat = false |- _ => apply Nat.ltb_ge in H
  | H : (_ <=? _)%nat = true |- _ => apply Nat.leb_le in H
  | H : (_ <=? _)%nat = false |- _ => apply Nat.leb_gt in H
  end.

Lemma result_bind_ok {A B} (r : result A) (f : A -> result B) b :
  result_bind r f = Ok b -> exists a, r = Ok a /\ f a = Ok b.
Proof. destruct r; naive_solver. Qed.

Lemma map_err_ok {A} f (r : result A) a : map_err f r = Ok a <-> r = Ok a.
Proof. destruct r; naive_solver. Qed.

(** Peel the error checks off a function that returned [Ok]. *)
Ltac peel H :=
  repeat match type of H with
  | result_bind _ _ = Ok _ => apply result_bind_ok in H as (? & ? & H)
  | (if ?b then Err _ else _) = Ok _ => destruct b eqn:?; [discriminate H|]
  end;
  repeat match goal with
  | H' : map_err _ _ = Ok _ |- _ => apply map_err_ok in H'
  end.

(** ** Lists *)

(** [existsb] and [forallb] as the quantifiers the specifications use. *)
Lemma existsb_elem {A} (f : A -> bool) l :
  existsb f l = true <-> exists x, x ∈ l /\ f x = true.
Proof. rewrite existsb_exists. by setoid_rewrite list_elem_of_In. Qed.

Lemma forallb_elem {A} (f : A -> bool) l :
  forallb f l = true <-> forall x, x ∈ l -> f x = true.
Proof. rewrite forallb_forall. by setoid_rewrite list_elem_of_In. Qed.

Lemma find_app_none {A} (f : A -> bool) l1 l2 :
  forallb (fun x => negb (f x)) l1 = true -> find f (l1 ++ l2) = find f l2.
Proof.
  induction l1 as [|x l1 IH]; simpl; [done|]. intros [Hx ?]%andb_true_iff.
  destruct (f x); [done|auto].
Qed.

(** The first element [find] returns splits the list. *)
Lemma find_first {A} (f : A -> bool) l x :
  find f l = Some x <->
  exists l1 l2, l = l1 ++ x :: l2 /\ f x = true /\ forallb (fun y => negb (f y)) l1 = true.
Proof.
  split.
  - induction l as [|y l IH]; simpl; [done|].
    destruct (f y) eqn:Hy; intros H; simplify_eq.
    + exists [], l. done.
    + destruct (IH H) as (l1 & l2 & -> & Hx & Hl). exists (y :: l1), l2.
      simpl. by rewrite Hy, Hl.
  - intros (l1 & l2 & -> & Hx & Hl). rewrite find_app_none by done. simpl. by rewrite Hx.
Qed.

(** How many elements of [l] satisfy [f]. *)
Fixpoint count {A} (f : A -> bool) (l : list A) : nat :=
  match l with
  | [] => O
  | x :: l' => ((if f x then 1 else 0) + count f l')%nat
  end.

Lemma count_app {A} (f : A -> bool) l1 l2 : count f (l1 ++ l2) = (count f l1 + count f l2)%nat.
Proof. induction l1; simpl; lia. Qed.

Lemma count_le_length {A} (f : A -> bool) l : (count f l <= length l)%nat.
Proof. induction l as [|x l IH]; simpl; [lia|]. destruct (f x); lia. Qed.
