(* ===== verification/GoLib.v ===== *)
(** * The parts of Go's standard library the broker computes with

    Strings are byte strings, as in Go: a Rocq [string] whose characters are
    the bytes.  Every function below follows the documented behaviour of the
    Go function of the same name ([strings], [unicode/utf8], [fmt],
    [strconv], [time]).  The only things left abstract are the three Unicode
    tables that the Go toolchain generates from the Unicode Character Database
    (case mapping, case folding and printability of non-ASCII runes); they are
    the class [UnicodeTables].  On ASCII strings no table is consulted. *)
From S2P Require Import Prelude.

(** ** Bytes and runes *)

Definition byte_val (c : ascii) : N := N_of_ascii c.

(** [c < utf8.RuneSelf] *)
Definition is_ascii_byte (c : ascii) : bool := (byte_val c <? 128)%N.

Definition byte_between (lo hi : N) (c : ascii) : bool :=
  ((lo <=? byte_val c) && (byte_val c <=? hi))%N.

Fixpoint string_forallb (f : ascii -> bool) (s : string) : bool :=
  match s with
  | EmptyString => true
  | String c s' => f c && string_forallb f s'
  end.

Fixpoint string_map (f : ascii -> ascii) (s : string) : string :=
  match s with
  | EmptyString => EmptyString
  | String c s' => String (f c) (string_map f s')
  end.

Definition string_rev (s : string) : string :=
  string_of_list_ascii (rev (list_ascii_of_string s)).

Definition is_ascii_string : string -> bool := string_forallb is_ascii_byte.

Definition RuneError : N := 65533%N.

(** Continuation-byte ranges of [utf8.DecodeRune] after a given first byte. *)
Definition second_byte_range (b0 : N) : N * N :=
  (if b0 =? 224 then (160, 191)
   else if b0 =? 237 then (128, 159)
   else if b0 =? 240 then (144, 191)
   else if b0 =? 244 then (128, 143)
   else (128, 191))%N.

Definition cont (c : ascii) : bool := byte_between 128 191 c.
Definition cont2 (c0 c : ascii) : bool :=
  let '(lo, hi) := second_byte_range (byte_val c0) in byte_between lo hi c.

Definition rune2 (c0 c1 : ascii) : N :=
  (N.land (byte_val c0) 31 * 64 + N.land (byte_val c1) 63)%N.
Definition rune3 (c0 c1 c2 : ascii) : N :=
  (N.land (byte_val c0) 15 * 4096 + N.land (byte_val c1) 63 * 64 + N.land (byte_val c2) 63)%N.
Definition rune4 (c0 c1 c2 c3 : ascii) : N :=
  (N.land (byte_val c0) 7 * 262144 + N.land (byte_val c1) 63 * 4096
   + N.land (byte_val c2) 63 * 64 + N.land (byte_val c3) 63)%N.

(** [for _, r := range s]: the runes of [s]; an invalid byte yields
    [RuneError] and consumes one byte.  The flag tells a decoded rune from an
    invalid byte. *)
Fixpoint runes (s : string) : list (bool * N) :=
  match s with
  | EmptyString => []
  | String c0 s1 =>
      let bad := (false, RuneError) in
      if is_ascii_byte c0 then (true, byte_val c0) :: runes s1
      else if byte_between 194 223 c0 then
        match s1 with
        | String c1 s2 => if cont c1 then (true, rune2 c0 c1) :: runes s2
                          else bad :: runes s1
        | EmptyString => [bad]
        end
      else if byte_between 224 239 c0 then
        match s1 with
        | String c1 (String c2 s3) =>
            if cont2 c0 c1 && cont c2 then (true, rune3 c0 c1 c2) :: runes s3
            else bad :: runes s1
        | _ => bad :: runes s1
        end
      else if byte_between 240 244 c0 then
        match s1 with
        | String c1 (String c2 (String c3 s4)) =>
            if cont2 c0 c1 && cont c2 && cont c3 then (true, rune4 c0 c1 c2 c3) :: runes s4
            else bad :: runes s1
        | _ => bad :: runes s1
        end
      else bad :: runes s1
  end.

Definition byte_chr (n : N) : ascii := ascii_of_N n.

(** [utf8.AppendRune] *)
Definition encode_rune (r : N) : string :=
  (if r <? 128 then String (byte_chr r) ""
   else if r <? 2048 then
     String (byte_chr (192 + r / 64)) (String (byte_chr (128 + r mod 64)) "")
   else if r <? 65536 then
     String (byte_chr (224 + r / 4096))
       (String (byte_chr (128 + (r / 64) mod 64)) (String (byte_chr (128 + r mod 64)) ""))
   else
     String (byte_chr (240 + r / 262144))
       (String (byte_chr (128 + (r / 4096) mod 64))
          (String (byte_chr (128 + (r / 64) mod 64)) (String (byte_chr (128 + r mod 64)) ""))))%N.

Class UnicodeTables := {
  (** [unicode.ToLower] on runes above ASCII *)
  table_ToLower : N -> N;
  (** two distinct runes lie on one [unicode.SimpleFold] orbit *)
  table_FoldEq : N -> N -> bool;
  (** [unicode.IsPrint] on runes above ASCII *)
  table_IsPrint : N -> bool;
}.

(** ** Package strings *)

Definition is_upper (c : ascii) : bool := byte_between 65 90 c.

(** [if 'A' <= c && c <= 'Z' { c += 'a' - 'A' }] *)
Definition lower_byte (c : ascii) : ascii :=
  if is_upper c then byte_chr (byte_val c + 32) else c.

Definition unicode_ToLower `{UnicodeTables} (r : N) : N :=
  (if r <? 128 then byte_val (lower_byte (byte_chr r)) else table_ToLower r)%N.

(** [strings.ToLower]: a byte loop on ASCII, else [strings.Map] over runes
    (which re-encodes an invalid byte as U+FFFD). *)
Definition ToLower `{UnicodeTables} (s : string) : string :=
  if is_ascii_string s then string_map lower_byte s
  else String.concat "" (map (fun r => encode_rune (unicode_ToLower (snd r))) (runes s)).

(** [unicode.IsSpace] on a single ASCII byte: \t \n \v \f \r and space. *)
Definition is_space_byte (c : ascii) : bool :=
  byte_between 9 13 c || (byte_val c =? 32)%N.

(** [unicode.IsSpace] above ASCII: NEL, NBSP and the White_Space property. *)
Definition is_space_rune (r : N) : bool :=
  ((r =? 133) || (r =? 160) || (r =? 5760) || ((8192 <=? r) && (r <=? 8202))
   || (r =? 8232) || (r =? 8233) || (r =? 8239) || (r =? 8287) || (r =? 12288))%N.

Definition space2 (c0 c1 : ascii) : bool :=
  byte_between 194 223 c0 && cont c1 && is_space_rune (rune2 c0 c1).
Definition space3 (c0 c1 c2 : ascii) : bool :=
  byte_between 224 239 c0 && cont2 c0 c1 && cont c2 && is_space_rune (rune3 c0 c1 c2).

(** [strings.TrimLeftFunc(s, unicode.IsSpace)] *)
Fixpoint trim_left_space (s : string) : string :=
  match s with
  | EmptyString => EmptyString
  | String c0 s1 =>
      if is_space_byte c0 then trim_left_space s1
      else match s1 with
           | String c1 s2 =>
               if space2 c0 c1 then trim_left_space s2
               else match s2 with
                    | String c2 s3 => if space3 c0 c1 c2 then trim_left_space s3 else s
                    | EmptyString => s
                    end
           | EmptyString => s
           end
  end.

(** [strings.TrimRightFunc(s, unicode.IsSpace)] on the reversed string: a
    space rune at the end is one byte, or two or three bytes read backwards. *)
Fixpoint trim_rev_space (s : string) : string :=
  match s with
  | EmptyString => EmptyString
  | String c0 s1 =>
      if is_space_byte c0 then trim_rev_space s1
      else match s1 with
           | String c1 s2 =>
               if space2 c1 c0 then trim_rev_space s2
               else match s2 with
                    | String c2 s3 => if space3 c2 c1 c0 then trim_rev_space s3 else s
                    | EmptyString => s
                    end
           | EmptyString => s
           end
  end.

(** [strings.TrimSpace] *)
Definition TrimSpace (s : string) : string :=
  string_rev (trim_rev_space (string_rev (trim_left_space s))).

(** [strings.HasPrefix], [strings.HasSuffix] *)
Definition HasPrefix (s p : string) : bool := String.prefix p s.

Fixpoint string_drop (n : nat) (s : string) : string :=
  match n, s with
  | O, _ => s
  | S n', String _ s' => string_drop n' s'
  | S _, EmptyString => EmptyString
  end.

Fixpoint string_take (n : nat) (s : string) : string :=
  match n, s with
  | S n', String c s' => String c (string_take n' s')
  | _, _ => EmptyString
  end.

Definition HasSuffix (s suf : string) : bool :=
  (String.length suf <=? String.length s)%nat
  && (string_drop (String.length s - String.length suf) s =? suf)%string.

(** [strings.TrimPrefix] *)
Definition TrimPrefix (s p : string) : string :=
  if HasPrefix s p then string_drop (String.length p) s else s.

(** [strings.TrimLeft/TrimRight/Trim] with a one-byte cutset *)
Fixpoint TrimLeft (s : string) (c : ascii) : string :=
  match s with
  | String d s' => if Ascii.eqb d c then TrimLeft s' c else s
  | EmptyString => EmptyString
  end.
Definition TrimRight (s : string) (c : ascii) : string :=
  string_rev (TrimLeft (string_rev s) c).
Definition Trim (s : string) (c : ascii) : string := TrimRight (TrimLeft s c) c.

(** [strings.Cut] with a one-byte separator: [Some (before, after)] when found. *)
Fixpoint Cut (s : string) (sep : ascii) : option (string * string) :=
  match s with
  | EmptyString => None
  | String c s' =>
      if Ascii.eqb c sep then Some (EmptyString, s')
      else match Cut s' sep with
           | Some (before, after) => Some (String c before, after)
           | None => None
           end
  end.

(** [i := strings.LastIndex(s, sep)], giving [(s[:i], s[i+1:])] when [i >= 0]. *)
Definition CutLast (s : string) (sep : ascii) : option (string * string) :=
  match Cut (string_rev s) sep with
  | Some (after, before) => Some (string_rev before, string_rev after)
  | None => None
  end.

(** [strings.Join] *)
Definition Join (l : list string) (sep : string) : string := String.concat sep l.

(** [strings.EqualFold] on two runes: equal, or the ASCII case pair, or on
    one folding orbit when the larger one is not ASCII. *)
Definition fold_rune_eq `{UnicodeTables} (a b : N) : bool :=
  let lo := N.min a b in
  let hi := N.max a b in
  ((a =? b) || (if hi <? 128 then (65 <=? lo) && (lo <=? 90) && (hi =? lo + 32)
                else table_FoldEq lo hi))%N.

Fixpoint list_forall2b {A} (f : A -> A -> bool) (l1 l2 : list A) : bool :=
  match l1, l2 with
  | [], [] => true
  | x :: l1', y :: l2' => f x y && list_forall2b f l1' l2'
  | _, _ => false
  end.

Definition EqualFold `{UnicodeTables} (s t : string) : bool :=
  list_forall2b fold_rune_eq (map snd (runes s)) (map snd (runes t)).

(** ** Package strconv and fmt *)

Definition digit_chr (d : Z) : ascii := byte_chr (Z.to_N (48 + d)).

(** The decimal digits of a natural number below [10 ^ fuel]. *)
Fixpoint digits_of (fuel : nat) (n : Z) (acc : string) : string :=
  match fuel with
  | O => acc
  | S fuel' =>
      let acc' := String (digit_chr (n mod 10)) acc in
      if n <? 10 then acc' else digits_of fuel' (n / 10) acc'
  end.

(** [strconv.Itoa]; a 64-bit integer has at most 20 digits. *)
Definition Itoa (n : Z) : string :=
  if n <? 0 then String "-" (digits_of 20 (- n) "") else digits_of 20 n "".

Definition hex_digit (d : N) : ascii :=
  if (d <? 10)%N then byte_chr (48 + d) else byte_chr (87 + d).

Definition hex_byte (n : N) : string :=
  String (hex_digit (n / 16)) (String (hex_digit (n mod 16)) "").

Fixpoint hex_digits (fuel : nat) (n : N) (acc : string) : string :=
  match fuel with
  | O => acc
  | S fuel' =>
      let acc' := String (hex_digit (n mod 16)) acc in
      if (n <? 16)%N then acc' else hex_digits fuel' (n / 16) acc'
  end.

(** [big.Int.Text(16)] *)
Definition Text16 (n : Z) : string :=
  let d := hex_digits (S (Pos.size_nat (Z.to_pos (Z.abs n)))) (Z.to_N (Z.abs n)) "" in
  if n <? 0 then String "-" d else d.

(** [strconv.Quote], the [%q] verb *)
Definition dquote : ascii := byte_chr 34.
Definition backslash : ascii := byte_chr 92.

Definition pad_hex (width : nat) (n : N) : string :=
  string_rev (string_take width
    (string_rev (String.append "00000000" (hex_digits 8 n "")))).

Definition quote_rune `{UnicodeTables} (r : bool * N) : string :=
  let '(valid, n) := r in
  let esc c := String backslash (String c "") in
  (if (n =? 34) || (n =? 92) then esc (byte_chr n)
   else if (32 <=? n) && (n <? 127) then String (byte_chr n) ""
   else if n =? 7 then esc "a"%char else if n =? 8 then esc "b"%char
   else if n =? 12 then esc "f"%char else if n =? 10 then esc "n"%char
   else if n =? 13 then esc "r"%char else if n =? 9 then esc "t"%char
   else if n =? 11 then esc "v"%char
   else if (n <? 32) || (n =? 127) then String.append (esc "x"%char) (hex_byte n)
   else if (128 <=? n) && table_IsPrint n then encode_rune n
   else if n <? 65536 then String.append (esc "u"%char) (pad_hex 4 n)
   else String.append (esc "U"%char) (pad_hex 8 n))%N.

(** Invalid bytes are written as [\xNN] of the byte itself; pairing each rune
    with its first byte keeps the byte available. *)
Fixpoint quote_body `{UnicodeTables} (fuel : nat) (s : string) : string :=
  match fuel, s with
  | S fuel', String c s' =>
      match runes s with
      | (true, r) :: _ =>
          String.append (quote_rune (true, r))
            (quote_body fuel' (string_drop (String.length (encode_rune r)) s))
      | _ => String.append (String backslash (String "x" (hex_byte (byte_val c))))
               (quote_body fuel' s')
      end
  | _, _ => EmptyString
  end.

Definition Quote `{UnicodeTables} (s : string) : string :=
  String.append (String dquote "")
    (String.append (quote_body (String.length s) s) (String dquote "")).

(** ** Package time: a [Duration] is an [int64] of nanoseconds *)

Abbreviation Duration := Z (only parsing).
(** A [time.Time] is the number of nanoseconds since the Unix epoch; its own
    range (an [int64] of seconds) is never approached and is not wrapped. *)
Abbreviation Time := Z (only parsing).

Definition Nanosecond : Duration := 1.
Definition Microsecond : Duration := 1000.
Definition Millisecond : Duration := 1000000.
Definition Second : Duration := 1000000000.
Definition Minute : Duration := 60 * Second.
Definition Hour : Duration := 60 * Minute.

(** [t.Sub(u)] saturates at the ends of the [int64] range. *)
Definition Sub (t u : Time) : Duration := Z.max min_int64 (Z.min max_int64 (t - u)).
(** [t.Add(d)] *)
Definition Add (t : Time) (d : Duration) : Time := t + d.
(** [t.Before(u)], [t.After(u)] *)
Definition Before (t u : Time) : bool := t <? u.
Definition After (t u : Time) : bool := u <? t.

(** A fraction [v / 10^prec] without its trailing zeros, with the point. *)
Fixpoint fmt_frac (prec : nat) (v : Z) (printing : bool) (acc : string) : string :=
  match prec with
  | O => if printing then String "." acc else acc
  | S prec' =>
      let digit := v mod 10 in
      let printing' := printing || negb (digit =? 0) in
      fmt_frac prec' (v / 10) printing' (if printing' then String (digit_chr digit) acc else acc)
  end.

(** [Duration.String]: "72h3m0.5s", with smaller units below a second. *)
Definition DurationString (d : Duration) : string :=
  let u := Z.abs d in
  let sign s := if d <? 0 then String "-" s else s in
  let frac prec unit_ := fmt_frac prec (u mod 10 ^ Z.of_nat prec) false unit_ in
  if u =? 0 then "0s"
  else if u <? Microsecond then sign (String.append (Itoa u) "ns")
  else if u <? Millisecond then
    sign (String.append (Itoa (u / Microsecond)) (frac 3%nat (String.append (encode_rune 181) "s")))
  else if u <? Second then sign (String.append (Itoa (u / Millisecond)) (frac 6%nat "ms"))
  else
    let secs := u / Second in
    let s := String.append (Itoa (secs mod 60)) (frac 9%nat "s") in
    let mins := secs / 60 in
    if mins =? 0 then sign s
    else
      let ms := String.append (Itoa (mins mod 60)) (String "m" s) in
      let hours := mins / 60 in
      if hours =? 0 then sign ms
      else sign (String.append (Itoa hours) (String "h" ms)).

(** Operands of a format string, by dynamic type. *)
Inductive fmt_arg : Type :=
| FStr (s : string)
| FInt (z : Z)
| FDur (d : Duration)
| FList (l : list string).

Definition fmt_plain (a : fmt_arg) : string :=
  match a with
  | FStr s => s
  | FInt z => Itoa z
  | FDur d => DurationString d
  | FList l => String.append "[" (String.append (Join l " ") "]")
  end.

Definition fmt_quoted `{UnicodeTables} (a : fmt_arg) : string :=
  match a with
  | FStr s => Quote s
  | FList l => String.append "[" (String.append (Join (map Quote l) " ") "]")
  | _ => fmt_plain a
  end.

(** [fmt.Sprintf]/[fmt.Errorf] for the verbs the code uses: %s %d %v %w %q. *)
Fixpoint Sprintf `{UnicodeTables} (format : string) (args : list fmt_arg) : string :=
  match format with
  | String "%" (String verb rest) =>
      match args with
      | a :: args' =>
          String.append (if Ascii.eqb verb "q" then fmt_quoted a else fmt_plain a)
            (Sprintf rest args')
      | [] => String.append "%!" (String verb (String.append "(MISSING)" (Sprintf rest [])))
      end
  | String c rest => String c (Sprintf rest args)
  | EmptyString => EmptyString
  end.

Definition Errorf `{UnicodeTables} : string -> list fmt_arg -> error := Sprintf.

(** ** Lemmas on byte strings *)

Lemma string_app_nil_r (s : string) : String.append s "" = s.
Proof. induction s as [|c s IH]; simpl; [done|]. by rewrite IH. Qed.

Lemma string_app_assoc (a b c : string) :
  String.append (String.append a b) c = String.append a (String.append b c).
Proof. induction a as [|x a IH]; simpl; [done|]. by rewrite IH. Qed.

Lemma string_length_app (a b : string) :
  String.length (String.append a b) = (String.length a + String.length b)%nat.
Proof. induction a as [|x a IH]; simpl; [done|]. by rewrite IH. Qed.

Lemma string_app_inj_l (a b c : string) : String.append a b = String.append a c -> b = c.
Proof. induction a as [|x a IH]; simpl; [done|]. intros ?. simplify_eq. auto. Qed.

Lemma string_take_drop n (s : string) : String.append (string_take n s) (string_drop n s) = s.
Proof.
  revert s. induction n as [|n IH]; intros s; simpl; [done|].
  destruct s as [|c s]; simpl; [done|]. by rewrite IH.
Qed.

Lemma string_length_drop n (s : string) :
  String.length (string_drop n s) = (String.length s - n)%nat.
Proof. revert s. induction n as [|n IH]; intros [|c s]; simpl; auto. Qed.

Lemma string_length_take n (s : string) :
  String.length (string_take n s) = Nat.min n (String.length s).
Proof. revert s. induction n as [|n IH]; intros [|c s]; simpl; auto. Qed.

Lemma string_drop_app (a b : string) : string_drop (String.length a) (String.append a b) = b.
Proof. induction a; simpl; auto. Qed.

Lemma HasPrefix_spec (s p : string) :
  HasPrefix s p = true <-> exists t, s = String.append p t.
Proof.
  unfold HasPrefix. revert s. induction p as [|c p IH]; intros s; simpl.
  - split; [by exists s|]. by intros _; destruct s.
  - destruct s as [|d s]; simpl.
    + split; [done|]. by intros [t ?].
    + destruct (ascii_dec c d) as [->|Hne].
      * rewrite IH. split; intros [t Ht]; exists t; congruence.
      * split; [done|]. intros [t Ht]. congruence.
Qed.

Lemma HasSuffix_spec (s suf : string) :
  HasSuffix s suf = true <-> exists t, s = String.append t suf.
Proof.
  unfold HasSuffix. split.
  - intros H. reflect_bools. exists (string_take (String.length s - String.length suf) s).
    by rewrite <- (string_take_drop (String.length s - String.length suf) s) at 1; f_equal.
  - intros [t ->]. rewrite string_length_app.
    replace (String.length t + String.length suf - String.length suf)%nat
      with (String.length t) by lia.
    rewrite string_drop_app, String.eqb_refl, andb_true_r. apply Nat.leb_le. lia.
Qed.

Lemma string_forallb_app f (a b : string) :
  string_forallb f (String.append a b) = string_forallb f a && string_forallb f b.
Proof. induction a as [|c a IH]; simpl; [done|]. by rewrite IH, andb_assoc. Qed.

Lemma string_map_app f (a b : string) :
  string_map f (String.append a b) = String.append (string_map f a) (string_map f b).
Proof. induction a as [|c a IH]; simpl; [done|]. by rewrite IH. Qed.

Lemma string_length_map f (s : string) : String.length (string_map f s) = String.length s.
Proof. induction s; simpl; auto. Qed.

Lemma string_rev_app (a b : string) :
  string_rev (String.append a b) = String.append (string_rev b) (string_rev a).
Proof.
  unfold string_rev.
  assert (Hl : forall x y, list_ascii_of_string (String.append x y)
                 = list_ascii_of_string x ++ list_ascii_of_string y)
    by (induction x; intros; simpl; congruence).
  assert (Hs : forall x y, string_of_list_ascii (x ++ y)
                 = String.append (string_of_list_ascii x) (string_of_list_ascii y))
    by (induction x; intros; simpl; congruence).
  by rewrite Hl, rev_app_distr, Hs.
Qed.

Lemma string_rev_involutive (s : string) : string_rev (string_rev s) = s.
Proof.
  unfold string_rev. rewrite list_ascii_of_string_of_list_ascii, rev_involutive.
  apply string_of_list_ascii_of_string.
Qed.

(** [Cut] finds the first separator: nothing before it contains one. *)
Lemma Cut_spec (s : string) sep before after :
  Cut s sep = Some (before, after) <->
  s = String.append before (String sep after) /\
  string_forallb (fun d => negb (Ascii.eqb d sep)) before = true.
Proof.
  revert before after. induction s as [|c s IH]; intros before after; simpl.
  - split; [done|]. intros [? ?]. by destruct before.
  - destruct (Ascii.eqb_spec c sep) as [->|Hne].
    + split.
      * intros ?. by simplify_eq.
      * intros [Hs Hb]. destruct before as [|d before]; simpl in *; [congruence|].
        apply andb_true_iff in Hb as [Hd _]. simplify_eq.
        by rewrite Ascii.eqb_refl in Hd.
    + destruct (Cut s sep) as [[b a]|] eqn:Hc.
      * destruct (proj1 (IH b a) eq_refl) as [-> Hb]. split.
        -- intros ?. simplify_eq. simpl. rewrite Hb.
           apply Ascii.eqb_neq in Hne. by rewrite Hne.
        -- intros [Hs Hbf]. destruct before as [|d before]; simpl in *; [congruence|].
           apply andb_true_iff in Hbf as [_ Hbf].
           injection Hs as -> Hs. pose proof (proj2 (IH before after) (conj Hs Hbf)). congruence.
      * split; [done|]. intros [Hs Hbf].
        destruct before as [|d before]; simpl in *; [congruence|].
        apply andb_true_iff in Hbf as [_ Hbf].
        injection Hs as -> Hs. pose proof (proj2 (IH before after) (conj Hs Hbf)). congruence.
Qed.

(** ** Lemmas on case folding *)

Lemma byte_val_chr n : (n < 256)%N -> byte_val (byte_chr n) = n.
Proof. apply N_ascii_embedding. Qed.

Lemma byte_val_bound c : (byte_val c < 256)%N.
Proof. apply N_ascii_bounded. Qed.

Lemma byte_val_inj c d : byte_val c = byte_val d -> c = d.
Proof. 
  unfold byte_val. intros H%(f_equal ascii_of_N). by rewrite !ascii_N_embedding in H.
Qed.

(** Facts about one or two bytes are checked on all of them. *)
Definition all_bytes : list ascii := map byte_chr (map N.of_nat (seq 0 256)).

Lemma elem_of_all_bytes c : In c all_bytes.
Proof.
  unfold all_bytes. apply in_map_iff. exists (byte_val c).
  split; [apply ascii_N_embedding|]. apply in_map_iff. exists (N.to_nat (byte_val c)).
  pose proof (byte_val_bound c). split; [lia|]. apply in_seq. lia.
Qed.

Lemma for_all_bytes (f : ascii -> bool) : forallb f all_bytes = true -> forall c, f c = true.
Proof. intros H c. rewrite forallb_forall in H. apply H, elem_of_all_bytes. Qed.

Lemma lower_byte_idempotent c : lower_byte (lower_byte c) = lower_byte c.
Proof.
  apply Ascii.eqb_eq.
  apply (for_all_bytes (fun c => Ascii.eqb (lower_byte (lower_byte c)) (lower_byte c))).
  vm_compute. reflexivity.
Qed.

Lemma lower_byte_ascii c : is_ascii_byte (lower_byte c) = is_ascii_byte c.
Proof.
  apply Bool.eqb_prop.
  apply (for_all_bytes (fun c => Bool.eqb (is_ascii_byte (lower_byte c)) (is_ascii_byte c))).
  vm_compute. reflexivity.
Qed.

Lemma ToLower_ascii `{UnicodeTables} s :
  is_ascii_string s = true -> ToLower s = string_map lower_byte s.
Proof. unfold ToLower. by intros ->. Qed.

Lemma is_ascii_string_lower s :
  is_ascii_string (string_map lower_byte s) = is_ascii_string s.
Proof.
  unfold is_ascii_string. induction s as [|c s IH]; simpl; [done|].
  by rewrite lower_byte_ascii, IH.
Qed.

Lemma ToLower_idempotent `{UnicodeTables} s :
  is_ascii_string s = true -> ToLower (ToLower s) = ToLower s.
Proof.
  intros Hs. rewrite !(ToLower_ascii s) by done.
  rewrite ToLower_ascii by (by rewrite is_ascii_string_lower).
  induction s as [|c s IH]; simpl; [done|].
  apply andb_true_iff in Hs as [? ?]. by rewrite lower_byte_idempotent, IH.
Qed.

(** Unicode tables for concrete runs on ASCII data: no rune above ASCII has
    case or folding, and all of them print. *)
Definition ascii_tables : UnicodeTables :=
  {| table_ToLower r := r; table_FoldEq _ _ := false; table_IsPrint _ := true |}.
