(* ===== verification/Float64.v ===== *)
(** * float64: rounding and order

    Go's [float64] is IEEE 754 binary64, here the Standard Library's executable
    specification of floats ([spec_float], 53 bits, exponents below 1024).  This
    file proves what the components need of its operations: a result is
    well formed and is the exact value rounded to a neighbour, the order of two
    floats is the order of their values, the sum and product of non-negative
    numbers is non-negative, one can be taken from a number that is at least one
    without its growing, and small integers are added and multiplied exactly. *)
From S2P Require Import Prelude GoLib.
From Stdlib Require Import SpecFloat.
#[local] Open Scope Z_scope.

Abbreviation fexp64 := (fexp 53 1024).
Abbreviation bounded64 := (bounded 53 1024).
Abbreviation round64 := (binary_round_aux 53 1024).

#[export] Instance spec_float_eq_dec : EqDecision spec_float.
Proof. solve_decision. Defined.

(** An integer converted: [float64(z)]. *)
Definition b64_of_Z (z : Z) : spec_float := binary_normalize 53 1024 z 0 false.

(** [uint64(f)] of a non-negative float64 in range: the integer part. *)
Definition b64_trunc (f : spec_float) : Z :=
  match f with
  | S754_finite _ m e => if 0 <=? e then Z.shiftl (Zpos m) e else Z.shiftr (Zpos m) (- e)
  | _ => 0
  end.

(** ** Digits and shifts *)

Lemma fexp64_max e : fexp64 e = Z.max (e - 53) (-1074).
Proof. reflexivity. Qed.

Lemma digits2_log2 p : Zpos (digits2_pos p) = Z.log2 (Zpos p) + 1.
Proof.
  induction p as [p IH|p IH|]; cbn [digits2_pos]; [| |done]; rewrite Pos2Z.inj_succ, IH.
  - rewrite Pos2Z.inj_xI, Z.log2_succ_double by lia. lia.
  - rewrite Pos2Z.inj_xO, Z.log2_double by lia. lia.
Qed.

Lemma Zdigits2_bounds m : 0 < m -> 1 <= Zdigits2 m /\ 2 ^ (Zdigits2 m - 1) <= m < 2 ^ Zdigits2 m.
Proof.
  intros Hm. destruct m as [|p|p]; [lia| |lia]. cbn [Zdigits2]. rewrite digits2_log2.
  pose proof (Z.log2_spec (Zpos p) ltac:(lia)) as Hl. pose proof (Z.log2_nonneg (Zpos p)).
  replace (Z.log2 (Zpos p) + 1 - 1) with (Z.log2 (Zpos p)) by lia.
  replace (Z.log2 (Zpos p) + 1) with (Z.succ (Z.log2 (Zpos p))) by lia. lia.
Qed.

Lemma Zdigits2_unique m d : 0 < d -> 2 ^ (d - 1) <= m < 2 ^ d -> Zdigits2 m = d.
Proof.
  intros Hd Hm. assert (0 < 2 ^ (d - 1)) by (apply Z.pow_pos_nonneg; lia).
  destruct (Zdigits2_bounds m ltac:(lia)) as [H1 [H2 H3]].
  assert (d - 1 < Zdigits2 m) by (apply (Z.pow_lt_mono_r_iff 2); lia).
  assert (Zdigits2 m - 1 < d) by (apply (Z.pow_lt_mono_r_iff 2); lia). lia.
Qed.

Lemma Zdigits2_le m d : 0 <= d -> 0 <= m < 2 ^ d -> Zdigits2 m <= d.
Proof.
  intros Hd Hm. destruct (Z.eq_dec m 0) as [->|Hne]; [done|].
  destruct (Zdigits2_bounds m ltac:(lia)) as [H1 [H2 H3]].
  assert (Zdigits2 m - 1 < d) by (apply (Z.pow_lt_mono_r_iff 2); lia). lia.
Qed.

(** [shr] drops the low bits and remembers whether there were any. *)
Lemma shr_1_spec m r s : 0 <= m ->
  shr_1 {| shr_m := m; shr_r := r; shr_s := s |} =
  {| shr_m := m / 2; shr_r := Z.odd m; shr_s := r || s |}.
Proof.
  intros Hm. destruct m as [|p|p]; [done| |lia]. destruct p as [p|p|]; cbn [shr_1]; [| |done]; f_equal.
  - rewrite Pos2Z.inj_xI. apply (Z.div_unique _ _ _ 1); lia.
  - rewrite Pos2Z.inj_xO. apply (Z.div_unique _ _ _ 0); lia.
Qed.

Definition no_bits (mrs : shr_record) : Prop := shr_r mrs = false /\ shr_s mrs = false.

Lemma iter_pos_iter {A} (f : A -> A) n x : iter_pos f n x = Nat.iter (Pos.to_nat n) f x.
Proof.
  revert x. induction n as [n IH|n IH|]; intros x; cbn [iter_pos]; [| |done]; rewrite !IH.
  - rewrite Pos2Nat.inj_xI, <- Nat.iter_succ_r, <- Nat.iter_add. f_equal. lia.
  - rewrite Pos2Nat.inj_xO, <- Nat.iter_add. f_equal. lia.
Qed.

Lemma shr_iter_spec n m l : 0 <= m ->
  shr_m (Nat.iter n shr_1 (shr_record_of_loc m l)) = m / 2 ^ Z.of_nat n /\
  (no_bits (Nat.iter n shr_1 (shr_record_of_loc m l)) <-> l = loc_Exact /\ m mod 2 ^ Z.of_nat n = 0).
Proof.
  intros Hm. induction n as [|n [IHm IHb]].
  - simpl. rewrite Z.div_1_r, Z.mod_1_r. unfold no_bits. split; [by destruct l as [|[]]|].
    destruct l as [|[]]; simpl; intuition discriminate.
  - assert (H2n : 0 < 2 ^ Z.of_nat n) by (apply Z.pow_pos_nonneg; lia). rewrite Nat.iter_succ.
    destruct (Nat.iter n shr_1 _) as [m' r s]. cbn [shr_m shr_r shr_s] in *. subst m'. unfold no_bits in IHb.
    cbn [shr_r shr_s] in IHb. rewrite shr_1_spec by (apply Z.div_pos; lia). unfold no_bits. cbn [shr_m shr_r shr_s].
    rewrite Nat2Z.inj_succ, Z.pow_succ_r, (Z.mul_comm 2) by lia. rewrite Z.div_div by lia. split; [done|].
    rewrite Z.rem_mul_r by lia. rewrite orb_false_iff, IHb.
    rewrite (Zmod_odd (m / 2 ^ Z.of_nat n)).
    pose proof (Z.mod_pos_bound m (2 ^ Z.of_nat n) H2n). destruct (Z.odd _); intuition nia.
Qed.

(** ** Rounding *)

Lemma pow2_pos n : 0 <= n -> 0 < 2 ^ n.
Proof. intros. by apply Z.pow_pos_nonneg. Qed.

(** The mantissa after one alignment: the shifted one, or its successor if bits
    were lost. *)
Definition rounded_to (m : Z) (l : location) (n r : Z) : Prop :=
  r = m / 2 ^ n \/ (r = m / 2 ^ n + 1 /\ ~ (l = loc_Exact /\ m mod 2 ^ n = 0)).

Lemma round_nearest_even_cases mx lx :
  round_nearest_even mx lx = mx \/ (round_nearest_even mx lx = mx + 1 /\ lx <> loc_Exact).
Proof. destruct lx as [|[]]; simpl; [tauto| |tauto|by right]. destruct (Z.even mx); [tauto|by right]. Qed.

Lemma shr_fexp_spec m e l :
  0 <= m -> e <= fexp64 (Zdigits2 m + e) ->
  let '(mrs, e') := shr_fexp 53 1024 m e l in
  e' = fexp64 (Zdigits2 m + e) /\ rounded_to m l (e' - e) (round_nearest_even (shr_m mrs) (loc_of_shr_record mrs)).
Proof.
  intros Hm He. unfold shr_fexp. set (n := fexp64 _ - e). assert (Hn : 0 <= n) by lia.
  assert (Hspec : exists k, shr (shr_record_of_loc m l) e n = (Nat.iter k shr_1 (shr_record_of_loc m l), e + n) /\ n = Z.of_nat k).
  { destruct n as [|p|p] eqn:Hp; [exists 0%nat; split; [simpl; f_equal; lia|done]| |lia].
    exists (Pos.to_nat p). cbn [shr]. rewrite iter_pos_iter. split; [done|lia]. }
  destruct Hspec as (k & -> & Hk). split; [lia|]. replace (e + n - e) with n by lia. rewrite Hk.
  destruct (shr_iter_spec k m l Hm) as [Hq Hb]. destruct (Nat.iter _ _ _) as [q r s]. cbn [shr_m] in *. subst q.
  unfold rounded_to. destruct (round_nearest_even_cases (m / 2 ^ Z.of_nat k) (loc_of_shr_record
    {| shr_m := m / 2 ^ Z.of_nat k; shr_r := r; shr_s := s |})) as [->|[-> Hl]]; [by left|right].
  split; [done|]. rewrite <- Hb. unfold no_bits. cbn [shr_r shr_s]. intros [-> ->]. by apply Hl.
Qed.

Lemma bounded_iff m e : bounded64 m e = true <-> fexp64 (Zpos (digits2_pos m) + e) = e /\ e <= 971.
Proof. unfold bounded, canonical_mantissa. rewrite andb_true_iff, Z.eqb_eq, Z.leb_le. done. Qed.

(** A mantissa that fits needs no second alignment; 2^53 is renormalised. *)
Lemma second_alignment m e l r :
  0 <= m -> e <= fexp64 (Zdigits2 m + e) ->
  rounded_to m l (fexp64 (Zdigits2 m + e) - e) r ->
  let e' := fexp64 (Zdigits2 m + e) in
  0 <= r <= 2 ^ 53 /\
  let '(mrs, e'') := shr_fexp 53 1024 r e' loc_Exact in
  e' <= e'' <= e' + 1 /\ shr_m mrs * 2 ^ (e'' - e') = r /\
  (0 < r -> fexp64 (Zdigits2 (shr_m mrs) + e'') = e'').
Proof.
  intros Hm He Hr e'. fold e' in Hr. set (n := e' - e) in *.
  assert (Hn : 0 <= n) by (unfold n, e'; lia). pose proof (pow2_pos n Hn) as H2n.
  assert (Hq : 0 <= m / 2 ^ n) by (apply Z.div_pos; lia).
  assert (Hd : 0 <= Zdigits2 m) by (destruct m; simpl; lia).
  assert (Hmlt : m < 2 ^ (53 + n)).
  { destruct (Z.eq_dec m 0) as [->|Hne]; [apply pow2_pos; lia|].
    destruct (Zdigits2_bounds m ltac:(lia)) as [H1 [H2 H3]].
    apply (Z.lt_le_trans _ _ _ H3), Z.pow_le_mono_r; [lia|]. unfold n, e'. rewrite fexp64_max. lia. }
  assert (Hqlt : m / 2 ^ n < 2 ^ 53).
  { apply Z.div_lt_upper_bound; [done|]. rewrite Z.pow_add_r in Hmlt by lia. lia. }
  assert (Hrb : 0 <= r <= 2 ^ 53) by (destruct Hr as [->|[-> _]]; lia). split; [done|].
  assert (Hmin : -1074 <= e') by (unfold e'; rewrite fexp64_max; lia).
  destruct (Z.eq_dec r (2 ^ 53)) as [->|Hne].
  - change (Z.pow_pos 2 53) with (2 ^ 53). unfold shr_fexp.
    replace (Zdigits2 (2 ^ 53)) with 54 by reflexivity. rewrite fexp64_max.
    replace (Z.max (54 + e' - 53) (-1074) - e') with 1 by lia. cbn [shr iter_pos].
    change (shr_m (shr_1 _)) with (2 ^ 53 / 2).
    replace (e' + 1 - e') with 1 by lia. split_and!; [lia|lia|reflexivity|].
    intros _. change (Zdigits2 (2 ^ 53 / 2)) with 53. rewrite fexp64_max. lia.
  - assert (Hrd : Zdigits2 r <= 53) by (apply Zdigits2_le; lia).
    assert (Hshr : shr_fexp 53 1024 r e' loc_Exact = (shr_record_of_loc r loc_Exact, e')).
    { unfold shr_fexp, shr. rewrite fexp64_max.
      destruct (Z.max (Zdigits2 r + e' - 53) (-1074) - e') eqn:Hs; [done| |done]. lia. }
    rewrite Hshr. cbn [shr_record_of_loc shr_m]. rewrite Z.sub_diag. split_and!; [lia|lia|lia|].
    intros Hpos. rewrite fexp64_max. destruct (Z.eq_dec e' (-1074)) as [->|Hnorm]; [lia|].
    assert (He' : e' = Zdigits2 m + e - 53) by (unfold e' in *; rewrite fexp64_max in *; lia).
    enough (Zdigits2 r = 53) as -> by lia. apply Zdigits2_unique; [lia|]. split; [|lia].
    assert (Hm0 : 0 < m).
    { destruct (Z.eq_dec m 0) as [->|]; [|lia]. exfalso.
      change (Zdigits2 0) with 0 in He'. unfold n in Hn. lia. }
    destruct (Zdigits2_bounds m Hm0) as [H1 [H2 H3]].
    assert (2 ^ 52 <= m / 2 ^ n).
    { apply Z.div_le_lower_bound; [done|]. rewrite <- Z.pow_add_r by lia.
      replace (n + 52) with (Zdigits2 m - 1) by (unfold n; lia). done. }
    change (2 ^ (53 - 1)) with (2 ^ 52). destruct Hr as [->|[-> _]]; lia.
Qed.

(** What [binary_round_aux] returns: the rounded mantissa, well formed, or the
    infinity when its exponent is too large. *)
Definition round_result (s : bool) (e r : Z) (x : spec_float) : Prop :=
  match x with
  | S754_zero t => t = s /\ r = 0
  | S754_finite t m k => t = s /\ bounded64 m k = true /\ e <= k <= e + 1 /\ Zpos m * 2 ^ (k - e) = r
  | S754_infinity t => t = s /\ exists m k, 972 <= k /\ e <= k <= e + 1 /\ 2 ^ 52 <= m /\ m * 2 ^ (k - e) = r
  | S754_nan => False
  end.

Lemma round64_spec s m e l :
  0 <= m -> e <= fexp64 (Zdigits2 m + e) ->
  exists r, rounded_to m l (fexp64 (Zdigits2 m + e) - e) r /\ 0 <= r <= 2 ^ 53 /\
    round_result s (fexp64 (Zdigits2 m + e)) r (round64 s m e l).
Proof.
  intros Hm He. pose proof (shr_fexp_spec m e l Hm He) as H1. unfold binary_round_aux.
  destruct (shr_fexp 53 1024 m e l) as [mrs e'] eqn:Hs1. destruct H1 as [He' Hr].
  set (r := round_nearest_even _ _) in *. exists r. split; [by rewrite <- He'|].
  rewrite He' in Hr. destruct (second_alignment m e l r Hm He Hr) as [Hrb H2]. split; [done|].
  rewrite <- He' in *. destruct (shr_fexp 53 1024 r e' loc_Exact) as [mrs2 e''].
  destruct H2 as (Hk & Hval & Hcan). destruct (shr_m mrs2) as [|p|p].
  - split; [done|lia].
  - pose proof (pow2_pos (e'' - e') ltac:(lia)) as Hp2. specialize (Hcan ltac:(nia)). cbn [Zdigits2] in Hcan.
    destruct (Z.leb_spec e'' (1024 - 53)) as [Hfit|Hbig].
    + split_and!; [done| |lia|lia|done]. apply bounded_iff. split; [done|lia].
    + split; [done|]. exists (Zpos p), e''. split_and!; [lia|lia|lia| |done].
      rewrite fexp64_max in Hcan. destruct (Zdigits2_bounds (Zpos p) ltac:(lia)) as [_ [Hlow _]].
      cbn [Zdigits2] in Hlow. replace (Zpos (digits2_pos p) - 1) with 52 in Hlow by lia. done.
  - exfalso. pose proof (pow2_pos (e'' - e') ltac:(lia)). nia.
Qed.

(** A rounded value is zero or infinite only for cause, never NaN; its order of
    magnitude is that of the exact value, or the next. *)
Lemma round64_valid s m e l :
  0 <= m -> e <= fexp64 (Zdigits2 m + e) -> valid_binary 53 1024 (round64 s m e l) = true /\
    round64 s m e l <> S754_nan.
Proof.
  intros Hm He. destruct (round64_spec s m e l Hm He) as (r & _ & _ & Hx).
  destruct (round64 s m e l); simpl in *; [done|done|done|]. by destruct Hx as (_ & -> & _).
Qed.

(** ** Non-negative floats *)

(** A float64 value that is a number, and is not negative. *)
Definition nonneg64 (x : spec_float) : Prop :=
  match x with
  | S754_zero _ => True
  | S754_infinity s => s = false
  | S754_nan => False
  | S754_finite s m e => s = false /\ bounded64 m e = true
  end.

Lemma round64_nonneg m e l :
  0 <= m -> e <= fexp64 (Zdigits2 m + e) -> nonneg64 (round64 false m e l).
Proof.
  intros Hm He. destruct (round64_spec false m e l Hm He) as (r & _ & _ & Hx).
  destruct (round64 false m e l); simpl in *; [done|by destruct Hx|done|by destruct Hx as (? & ? & _)].
Qed.

Lemma pos_iter_xO m p : Zpos (Pos.iter xO m p) = Zpos m * 2 ^ Zpos p.
Proof.
  induction p as [|p IH] using Pos.peano_ind; [simpl; lia|].
  rewrite Pos.iter_succ, Pos2Z.inj_xO, IH, Pos2Z.inj_succ, Z.pow_succ_r by lia. lia.
Qed.

(** Aligning to the left makes the exponent one that rounding accepts. *)
Lemma shl_align_spec m e e' :
  let '(mz, ez) := shl_align m e e' in ez = Z.min e e' /\ Zpos mz = Zpos m * 2 ^ (e - ez).
Proof.
  unfold shl_align. destruct (e' - e) as [|p|p] eqn:Hd.
  - split; [lia|]. rewrite Z.sub_diag. lia.
  - split; [lia|]. rewrite Z.sub_diag. lia.
  - split; [lia|]. replace (e - e') with (Zpos p) by lia.
    apply pos_iter_xO.
Qed.

Lemma Zdigits2_shift m k : 0 < m -> 0 <= k -> Zdigits2 (m * 2 ^ k) = Zdigits2 m + k.
Proof.
  intros Hm Hk. destruct (Zdigits2_bounds m Hm) as [H1 [H2 H3]]. apply Zdigits2_unique; [lia|].
  replace (Zdigits2 m + k - 1) with ((Zdigits2 m - 1) + k) by lia. rewrite !Z.pow_add_r by lia.
  pose proof (pow2_pos k Hk). nia.
Qed.

(** [binary_round] on any mantissa and exponent: the exponents of the aligned
    mantissa and of the result, and what is rounded. *)
Lemma binary_round_aligned s m e :
  exists mz ez, binary_round 53 1024 s m e = round64 s (Zpos mz) ez loc_Exact /\
    ez <= e /\ Zpos mz = Zpos m * 2 ^ (e - ez) /\ Zdigits2 (Zpos mz) + ez = Zdigits2 (Zpos m) + e /\
    ez = Z.min e (fexp64 (Zdigits2 (Zpos m) + e)).
Proof.
  unfold binary_round. pose proof (shl_align_spec m e (fexp64 (Z.pos (digits2_pos m) + e))) as Hs.
  destruct (shl_align _ _ _) as [mz ez]. destruct Hs as [Hez Hmz]. exists mz, ez.
  split_and!; [done|lia|done| |exact Hez]. rewrite Hmz, Zdigits2_shift by lia. lia.
Qed.

Lemma binary_round_ok s m e :
  exists mz ez, binary_round 53 1024 s m e = round64 s (Zpos mz) ez loc_Exact /\
    ez <= fexp64 (Zdigits2 (Zpos mz) + ez).
Proof.
  destruct (binary_round_aligned s m e) as (mz & ez & -> & _ & _ & Hd & Hez). exists mz, ez.
  split; [done|]. rewrite Hd. lia.
Qed.

Lemma binary_round_nonneg m e : nonneg64 (binary_round 53 1024 false m e).
Proof. destruct (binary_round_ok false m e) as (mz & ez & -> & H). by apply round64_nonneg. Qed.

Lemma binary_normalize_nonneg z e s : 0 <= z -> nonneg64 (binary_normalize 53 1024 z e s).
Proof. destruct z; [done|intros _; apply binary_round_nonneg|lia]. Qed.

Lemma add_nonneg x y : nonneg64 x -> nonneg64 y -> nonneg64 (SFadd 53 1024 x y).
Proof.
  destruct x as [[]|[]| |[] m e], y as [[]|[]| |[] m' e']; simpl; intros Hx Hy;
    try done; try (by destruct Hx); try (by destruct Hy). apply binary_round_nonneg.
Qed.

(** The exponent of a product is one that rounding accepts. *)
Lemma mul_exponent m e m' e' :
  bounded64 m e = true -> bounded64 m' e' = true ->
  e + e' <= fexp64 (Zdigits2 (Zpos (m * m')) + (e + e')).
Proof.
  rewrite !bounded_iff, !fexp64_max. intros [H1 _] [H2 _].
  destruct (Zdigits2_bounds (Zpos m) ltac:(lia)) as [D1 [L1 _]].
  destruct (Zdigits2_bounds (Zpos m') ltac:(lia)) as [D2 [L2 _]].
  destruct (Zdigits2_bounds (Zpos (m * m')) ltac:(lia)) as [D3 [_ U3]].
  cbn [Zdigits2] in *. set (a := Zpos (digits2_pos m)) in *. set (b := Zpos (digits2_pos m')) in *.
  set (c := Zpos (digits2_pos (m * m'))) in *.
  assert (2 ^ (a + b - 2) < 2 ^ c).
  { replace (a + b - 2) with ((a - 1) + (b - 1)) by lia. rewrite Z.pow_add_r by lia.
    rewrite Pos2Z.inj_mul in U3. nia. }
  assert (a + b - 2 < c) by (apply (Z.pow_lt_mono_r_iff 2); lia). lia.
Qed.

(** A finite number above zero, times a number. *)
Definition positive64 (x : spec_float) : Prop :=
  match x with S754_finite s m e => s = false /\ bounded64 m e = true | _ => False end.

Lemma mul_nonneg x y : positive64 x -> nonneg64 y -> nonneg64 (SFmul 53 1024 x y).
Proof.
  destruct x as [[]|[]| |[] m e]; simpl; try done; intros [Hs Hx]; try done.
  destruct y as [[]|[]| |[] m' e']; simpl; try done; intros Hy; try (by destruct Hy).
  apply round64_nonneg; [lia|]. apply mul_exponent; [done|by destruct Hy].
Qed.

(** ** The order of floats is the order of their values

    The value of a non-negative float, in units of 2^-1074, the smallest
    positive one; infinity is beyond every finite value. *)
Definition units (x : spec_float) : Z :=
  match x with
  | S754_finite _ m e => Zpos m * 2 ^ (e + 1074)
  | S754_infinity _ => 2 ^ 2098
  | _ => 0
  end.

Definition one_unit : Z := 2 ^ 1074.

Lemma bounded_bounds m e :
  bounded64 m e = true -> -1074 <= e <= 971 /\ Zpos m < 2 ^ 53 /\ (-1074 < e -> 2 ^ 52 <= Zpos m).
Proof.
  rewrite bounded_iff, fexp64_max. intros [Hc Hle].
  destruct (Zdigits2_bounds (Zpos m) ltac:(lia)) as [D [L U]]. cbn [Zdigits2] in *.
  split_and!; [lia|lia| |].
  - apply (Z.lt_le_trans _ _ _ U), Z.pow_le_mono_r; lia.
  - intros He. replace (Zpos (digits2_pos m) - 1) with 52 in L by lia. done.
Qed.

Lemma units_nonneg x : 0 <= units x.
Proof. destruct x as [| | |s m e]; cbn [units]; lia. Qed.

Lemma units_finite m e : bounded64 m e = true -> 0 < Zpos m * 2 ^ (e + 1074) < 2 ^ 2098.
Proof.
  intros Hb. destruct (bounded_bounds m e Hb) as (He & Hm & _). pose proof (pow2_pos (e + 1074) ltac:(lia)) as Hp.
  split; [nia|]. replace (2 ^ 2098) with (2 ^ 53 * 2 ^ 2045) by (rewrite <- Z.pow_add_r by lia; done).
  pose proof (Z.pow_le_mono_r 2 (e + 1074) 2045 ltac:(lia) ltac:(lia)). nia.
Qed.

(** A larger exponent is a larger value: only the least exponent has mantissas
    that do not fill the precision. *)
Lemma units_exponent m e m' e' :
  bounded64 m e = true -> bounded64 m' e' = true -> e < e' ->
  Zpos m * 2 ^ (e + 1074) < Zpos m' * 2 ^ (e' + 1074).
Proof.
  intros Hb Hb' Hlt. destruct (bounded_bounds m e Hb) as (He & Hm & _).
  destruct (bounded_bounds m' e' Hb') as (He' & _ & Hm'). specialize (Hm' ltac:(lia)).
  assert (Hsplit : 2 ^ (e' + 1074) = 2 ^ (e' - e - 1) * (2 * 2 ^ (e + 1074))).
  { rewrite <- Z.pow_succ_r, <- Z.pow_add_r by lia. f_equal. lia. }
  rewrite Hsplit. pose proof (pow2_pos (e + 1074) ltac:(lia)) as HP. pose proof (pow2_pos (e' - e - 1) ltac:(lia)) as HQ.
  set (P := 2 ^ (e + 1074)) in *. set (Q := 2 ^ (e' - e - 1)) in *. clearbody P Q.
  assert (H1 : Zpos m * P < 2 ^ 53 * P) by (by apply Zmult_lt_compat_r).
  assert (H2 : 2 ^ 52 * (2 * P) <= Zpos m' * (Q * (2 * P))) by (apply Z.mul_le_mono_nonneg; nia). lia.
Qed.

Lemma SFcompare_units x y :
  nonneg64 x -> nonneg64 y -> SFcompare x y = Some (units x ?= units y).
Proof.
  pose proof units_finite as Hfin. destruct x as [s|s| |s m e], y as [s'|s'| |s' m' e'];
    cbn [nonneg64 SFcompare units]; intros Hx Hy; try done; f_equal; subst; symmetry.
  - by apply Z.compare_lt_iff.
  - destruct Hy as [-> Hy]. by apply Z.compare_lt_iff, Hfin.
  - by apply Z.compare_gt_iff.
  - apply Z.compare_refl.
  - destruct Hy as [-> Hy]. by apply Z.compare_gt_iff, Hfin.
  - destruct Hx as [-> Hx]. by apply Z.compare_gt_iff, Hfin.
  - destruct Hx as [-> Hx]. by apply Z.compare_lt_iff, Hfin.
  - destruct Hx as [-> Hx], Hy as [-> Hy]. destruct (Z.compare_spec e e') as [->|Hlt|Hlt].
    + rewrite <- Zmult_compare_compat_r; [done|]. apply Z.lt_gt, pow2_pos.
      destruct (bounded_bounds m' e' Hy). lia.
    + apply Z.compare_lt_iff. by apply units_exponent.
    + apply Z.compare_gt_iff. by apply units_exponent.
Qed.

Lemma SFltb_units x y : nonneg64 x -> nonneg64 y -> SFltb x y = (units x <? units y).
Proof. intros Hx Hy. unfold SFltb. rewrite SFcompare_units by done. unfold Z.ltb. by destruct (_ ?= _). Qed.

Lemma SFleb_units x y : nonneg64 x -> nonneg64 y -> SFleb x y = (units x <=? units y).
Proof. intros Hx Hy. unfold SFleb. rewrite SFcompare_units by done. unfold Z.leb. by destruct (_ ?= _). Qed.

(** ** Small integers are exact *)

Lemma pow_diff a b c : c <= b <= a -> 2 ^ (a - c) = 2 ^ (a - b) * 2 ^ (b - c).
Proof. intros H. rewrite <- Z.pow_add_r by lia. f_equal. lia. Qed.

(** A mantissa whose low bits are zero is not rounded. *)
Lemma rounded_to_exact m n r : 0 <= n -> m mod 2 ^ n = 0 -> rounded_to m loc_Exact n r -> r * 2 ^ n = m.
Proof.
  intros Hn Hz [->|[_ Hne]]; [|by destruct Hne]. pose proof (Z.div_mod m (2 ^ n)) as Hd.
  pose proof (pow2_pos n Hn). lia.
Qed.

(** A positive integer below 2^53, as the mantissa [binary_round] aligns. *)
Lemma b64_of_pos p :
  Zpos p < 2 ^ 53 ->
  exists m e, b64_of_Z (Zpos p) = S754_finite false m e /\ bounded64 m e = true /\
    -52 <= e <= 0 /\ Zpos m = Zpos p * 2 ^ (- e) /\ 2 ^ 52 <= Zpos m < 2 ^ 53.
Proof.
  intros Hp. destruct (Zdigits2_bounds (Zpos p) ltac:(lia)) as [D [L U]].
  pose proof (Zdigits2_le (Zpos p) 53 ltac:(lia) ltac:(lia)) as Hd.
  destruct (binary_round_aligned false p 0) as (mz & ez & Hr & Hez & Hmz & Hdz & Hmin).
  unfold b64_of_Z, binary_normalize. rewrite Hr. rewrite fexp64_max in Hmin.
  assert (Hfix : fexp64 (Zdigits2 (Zpos mz) + ez) = ez) by (rewrite fexp64_max; lia).
  destruct (round64_spec false (Zpos mz) ez loc_Exact ltac:(lia) ltac:(lia)) as (r & Hto & Hrb & Hx).
  rewrite Hfix in *. rewrite Z.sub_diag in Hto.
  pose proof (rounded_to_exact _ 0 r ltac:(lia) (Z.mod_1_r _) Hto) as Hr'. rewrite Z.mul_1_r in Hr'. subst r.
  destruct (Zdigits2_bounds (Zpos mz) ltac:(lia)) as [D' [L' U']].
  replace (Zdigits2 (Zpos mz)) with 53 in * by lia. change (53 - 1) with 52 in L'.
  destruct (round64 false (Zpos mz) ez loc_Exact) as [s|s| |s m k]; simpl in Hx; [lia| |done|].
  - destruct Hx as (_ & m & k & Hk & Hk' & _). lia.
  - destruct Hx as (-> & Hb & Hk & Hval).
    assert (k = ez) as ->.
    { destruct (Z.eq_dec k (ez + 1)) as [->|]; [|lia]. replace (ez + 1 - ez) with 1 in Hval by lia.
      apply bounded_iff in Hb as [Hb _]. rewrite fexp64_max in Hb.
      destruct (Zdigits2_bounds (Zpos m) ltac:(lia)) as [Dm [Lm _]]. cbn [Zdigits2] in *.
      replace (Zpos (digits2_pos m) - 1) with 52 in Lm by lia. lia. }
    rewrite Z.sub_diag, Z.mul_1_r in Hval. exists m, ez. rewrite Hval.
    split_and!; [done|done|lia|lia| |lia|lia]. rewrite Hmz. by f_equal.
Qed.

(** The integer part of a float whose value is an integer. *)
Lemma b64_trunc_finite m e z :
  (0 <= e -> z = Zpos m * 2 ^ e) -> (e < 0 -> Zpos m = z * 2 ^ (- e)) -> b64_trunc (S754_finite false m e) = z.
Proof.
  intros Hpos Hneg. cbn [b64_trunc]. destruct (Z.leb_spec 0 e) as [He|He].
  - rewrite Z.shiftl_mul_pow2 by done. symmetry. auto.
  - rewrite Z.shiftr_div_pow2 by lia. rewrite Hneg by done. apply Z.div_mul. pose proof (pow2_pos (- e) ltac:(lia)). lia.
Qed.

(** The product of two positive integers is exact while it fits the mantissa. *)
Lemma b64_mul_exact a b :
  0 < a -> 0 < b -> a * b < 2 ^ 53 -> b64_trunc (SFmul 53 1024 (b64_of_Z a) (b64_of_Z b)) = a * b.
Proof.
  intros Ha Hb Hab. destruct a as [|a|]; [lia| |lia]. destruct b as [|b|]; [lia| |lia].
  destruct (b64_of_pos a ltac:(nia)) as (m & e & -> & Hm & He & Hma & Hm52).
  destruct (b64_of_pos b ltac:(nia)) as (m' & e' & -> & Hm' & He' & Hmb & Hm52').
  cbn [SFmul xorb]. set (z := Zpos a * Zpos b) in *.
  assert (Hz : Zpos (m * m') = z * 2 ^ (- (e + e'))).
  { rewrite Pos2Z.inj_mul, Hma, Hmb. unfold z. replace (- (e + e')) with (- e + - e') by lia.
    rewrite Z.pow_add_r by lia. lia. }
  assert (Hzd : Zdigits2 (Zpos (m * m')) = Zdigits2 z - (e + e')) by (rewrite Hz, Zdigits2_shift; lia).
  destruct (Zdigits2_bounds z ltac:(lia)) as [D [L U]]. pose proof (Zdigits2_le z 53 ltac:(lia) ltac:(lia)) as Hd.
  pose proof (mul_exponent m e m' e' Hm Hm') as Hexp.
  destruct (round64_spec false (Zpos (m * m')) (e + e') loc_Exact ltac:(lia) Hexp) as (r & Hto & _ & Hx).
  rewrite Hzd, fexp64_max in *. replace (Zdigits2 z - (e + e') + (e + e')) with (Zdigits2 z) in * by lia.
  set (k := Z.max (Zdigits2 z - 53) (-1074)) in *. assert (Hk : k = Zdigits2 z - 53) by lia.
  assert (Hr : r = z * 2 ^ (- k)).
  { rewrite Hz in Hto. assert (Hsplit : z * 2 ^ (- (e + e')) = (z * 2 ^ (- k)) * 2 ^ (k - (e + e'))).
    { rewrite <- Z.mul_assoc, <- Z.pow_add_r by lia. do 2 f_equal. lia. }
    rewrite Hsplit in Hto. pose proof (pow2_pos (k - (e + e')) ltac:(lia)).
    apply rounded_to_exact in Hto; [|lia|apply Z.mod_mul; lia]. nia. }
  destruct (round64 _ _ _ _) as [s|s| |s p j]; cbn [round_result] in Hx.
  - pose proof (pow2_pos (- k) ltac:(lia)). nia.
  - destruct Hx as (_ & q & j & Hj & Hj' & _). lia.
  - done.
  - destruct Hx as (-> & _ & Hj & Hv). apply b64_trunc_finite.
    + intros Hj0. rewrite Hr in Hv. replace (j - k) with (j + - k) in Hv by lia. rewrite Z.pow_add_r in Hv by lia.
      pose proof (pow2_pos (- k) ltac:(lia)). nia.
    + intros Hj0. rewrite Hr in Hv. rewrite <- (Z.sub_0_l k), (pow_diff 0 j k), Z.sub_0_l in Hv by lia.
      pose proof (pow2_pos (j - k) ltac:(lia)). nia.
Qed.

(** ** Rounding never passes a float *)

(** The value of [m * 2^e], in the same units, where the exponent allows. *)
Definition scaled (m e : Z) : Z := m * 2 ^ (e + 1074).

Lemma rounded_to_le m n r t : 0 <= n -> rounded_to m loc_Exact n r -> m <= t * 2 ^ n -> r <= t.
Proof.
  intros Hn Hr Ht. pose proof (pow2_pos n Hn) as Hp. pose proof (Z.div_mod m (2 ^ n) ltac:(lia)) as Hd.
  pose proof (Z.mod_pos_bound m (2 ^ n) Hp) as Hm. destruct Hr as [->|[-> Hne]]; [nia|].
  assert (m mod 2 ^ n <> 0) by (intros Hz; by apply Hne). nia.
Qed.

(** The value of a rounded result, infinity standing for less than its mantissa
    would. *)
Lemma round_result_units s k r x :
  -1074 <= k -> 0 <= r -> round_result s k r x ->
  units x <= scaled r k /\ units x <= 2 ^ 2098 /\
  (match x with S754_infinity _ => True | _ => units x = scaled r k end).
Proof.
  intros Hk Hr. unfold scaled. destruct x as [t|t| |t m j]; cbn [round_result units].
  - intros [_ ->]. lia.
  - intros (_ & m & j & Hj & Hjk & Hm & <-). split_and!; [|lia|done].
    rewrite <- Z.mul_assoc, <- Z.pow_add_r by lia. replace (j - k + (k + 1074)) with (j + 1074) by lia.
    replace (2 ^ 2098) with (2 ^ 52 * 2 ^ 2046) by (rewrite <- Z.pow_add_r by lia; done).
    pose proof (Z.pow_le_mono_r 2 2046 (j + 1074) ltac:(lia) ltac:(lia)).
    apply Z.mul_le_mono_nonneg; lia.
  - done.
  - intros (_ & Hb & Hj & <-). pose proof (units_finite m j Hb).
    enough (Heq : Zpos m * 2 ^ (j + 1074) = Zpos m * 2 ^ (j - k) * 2 ^ (k + 1074)) by (split_and!; lia).
    rewrite <- Z.mul_assoc, <- Z.pow_add_r by lia. do 2 f_equal. lia.
Qed.

(** A finite float at least as large as a value has an exponent at least that of
    the rounded value: it is a multiple of its last place. *)
Lemma float_above_exponent m e mt et :
  0 < m -> -1074 <= e -> bounded64 mt et = true -> scaled m e <= scaled (Zpos mt) et ->
  fexp64 (Zdigits2 m + e) <= et.
Proof.
  intros Hm He Hbt Hle. destruct (bounded_bounds mt et Hbt) as (Het & Hmt & _). unfold scaled in Hle.
  destruct (Zdigits2_bounds m Hm) as [D [L _]].
  assert (H1 : 2 ^ (Zdigits2 m - 1) * 2 ^ (e + 1074) <= m * 2 ^ (e + 1074)) by (apply Zmult_le_compat_r; [done|pose proof (pow2_pos (e + 1074)); lia]).
  assert (H2 : Zpos mt * 2 ^ (et + 1074) < 2 ^ 53 * 2 ^ (et + 1074))
    by (apply Zmult_lt_compat_r; [apply pow2_pos; lia|done]).
  rewrite <- Z.pow_add_r in H1, H2 by lia.
  assert (Zdigits2 m - 1 + (e + 1074) < 53 + (et + 1074)) by (apply (Z.pow_lt_mono_r_iff 2); lia).
  rewrite fexp64_max. lia.
Qed.

Lemma round64_le m e t :
  0 < m -> -1074 <= e -> e <= fexp64 (Zdigits2 m + e) -> nonneg64 t -> scaled m e <= units t ->
  units (round64 false m e loc_Exact) <= units t.
Proof.
  intros Hm He Hexp Ht Hle. destruct (round64_spec false m e loc_Exact ltac:(lia) Hexp) as (r & Hto & Hrb & Hx).
  set (k := fexp64 (Zdigits2 m + e)) in *.
  destruct (round_result_units false k r _ ltac:(lia) ltac:(lia) Hx) as (Hu & Htop & _).
  assert (Hpos : 0 < scaled m e) by (unfold scaled; pose proof (pow2_pos (e + 1074)); lia).
  destruct t as [s|s| |s mt et]; cbn [nonneg64 units] in *; [lia|lia|done|].
  destruct Ht as [-> Hbt]. pose proof (float_above_exponent m e mt et Hm He Hbt Hle) as Hket. fold k in Hket.
  apply (Z.le_trans _ _ _ Hu). unfold scaled in *.
  enough (Hr : r <= Zpos mt * 2 ^ (et - k)).
  { replace (2 ^ (et + 1074)) with (2 ^ (et - k) * 2 ^ (k + 1074)) by (rewrite <- Z.pow_add_r by lia; f_equal; lia).
    rewrite Z.mul_assoc. apply Zmult_le_compat_r; [done|]. pose proof (pow2_pos (k + 1074)); lia. }
  apply (rounded_to_le m (k - e)); [lia|done|]. rewrite <- Z.mul_assoc, <- Z.pow_add_r by lia.
  replace (et - k + (k - e)) with (et - e) by lia. apply (Z.mul_le_mono_pos_r _ _ (2 ^ (e + 1074))); [apply pow2_pos; lia|].
  rewrite <- Z.mul_assoc, <- Z.pow_add_r by lia. by replace (et - e + (e + 1074)) with (et + 1074) by lia.
Qed.

Lemma scaled_shift m e k : -1074 <= k <= e -> scaled (m * 2 ^ (e - k)) k = scaled m e.
Proof.
  intros Hk. unfold scaled. rewrite <- Z.mul_assoc, <- Z.pow_add_r by lia. do 2 f_equal. lia.
Qed.

Lemma binary_round_le p e t :
  -1074 <= e -> nonneg64 t -> scaled (Zpos p) e <= units t -> units (binary_round 53 1024 false p e) <= units t.
Proof.
  intros He Ht Hle. destruct (binary_round_aligned false p e) as (mz & ez & -> & Hez & Hmz & Hdz & Hmin).
  rewrite fexp64_max in Hmin. apply round64_le; [lia|lia|rewrite fexp64_max; lia|done|].
  rewrite Hmz, scaled_shift by lia. done.
Qed.

(** Taking one from a number that is at least one leaves a number that is not
    negative, and not above it. *)
Definition one64 : spec_float := b64_of_Z 1.

Lemma sub_one x :
  nonneg64 x -> units one64 <= units x ->
  nonneg64 (SFsub 53 1024 x one64) /\ units (SFsub 53 1024 x one64) <= units x.
Proof.
  assert (H1 : one64 = S754_finite false 4503599627370496 (-52)) by (vm_compute; reflexivity).
  rewrite H1. intros Hx Hle. destruct x as [s|s| |s m e]; cbn [SFsub nonneg64 units] in *; [| |done|].
  - exfalso. change (Zpos 4503599627370496 * 2 ^ (-52 + 1074)) with (2 ^ 52 * 2 ^ 1022) in Hle.
    pose proof (pow2_pos 52 ltac:(lia)); pose proof (pow2_pos 1022 ltac:(lia)). nia.
  - subst s. done.
  - destruct Hx as [-> Hb]. pose proof (bounded_bounds m e Hb) as (He & Hm & _).
    assert (He52 : -52 <= e).
    { apply (Z.le_trans _ (fexp64 (Zdigits2 (2 ^ 52) + -52))); [by vm_compute|].
      by apply (float_above_exponent (2 ^ 52) (-52) m e). }
    rewrite Z.min_r by lia. cbn [cond_Zopp].
    pose proof (shl_align_spec m e (-52)) as Hs. destruct (shl_align m e (-52)) as [mz ez].
    destruct Hs as [Hez Hmz]. rewrite Z.min_r in Hez by lia. subst ez.
    change (fst (shl_align 4503599627370496 (-52) (-52))) with 4503599627370496%positive. cbn [fst].
    assert (Hval : scaled (Zpos mz) (-52) = scaled (Zpos m) e) by (rewrite Hmz; apply scaled_shift; lia).
    change (scaled (2 ^ 52) (-52) <= scaled (Zpos m) e) in Hle. fold (scaled (Zpos m) e).
    rewrite <- Hval in *. unfold scaled in Hle. pose proof (pow2_pos (-52 + 1074) ltac:(lia)) as Hp.
    apply Z.mul_le_mono_pos_r in Hle; [|done]. change (2 ^ 52) with (Zpos 4503599627370496) in Hle.
    split; [apply binary_normalize_nonneg; lia|].
    destruct (Zpos mz - Zpos 4503599627370496) as [|p|p] eqn:Hd; [|clear Hle|lia]; cbn [binary_normalize].
    { cbn [units]. unfold scaled. lia. }
    assert (Ht : units (S754_finite false m e) = scaled (Zpos mz) (-52)) by (by rewrite Hval).
    rewrite <- Ht. apply binary_round_le; [lia|done|]. rewrite Ht. unfold scaled. apply Zmult_le_compat_r; lia.
Qed.

(** ** How much rounding can add

    A result exceeds the exact value by at most one part in 2^52, and by one
    unit where the exponent is the least one. *)

Lemma rounded_to_upper m l n r : 0 <= m -> 0 <= n -> rounded_to m l n r -> r * 2 ^ n <= m + 2 ^ n.
Proof.
  intros Hm Hn Hr. pose proof (pow2_pos n Hn) as Hp. pose proof (Z.div_mod m (2 ^ n) ltac:(lia)) as Hd.
  pose proof (Z.mod_pos_bound m (2 ^ n) Hp). destruct Hr as [->|[-> _]]; lia.
Qed.

(** The last place of a value whose mantissa fills the precision. *)
Lemma last_place m e :
  0 < m -> -1074 < fexp64 (Zdigits2 m + e) -> e <= fexp64 (Zdigits2 m + e) ->
  2 ^ 52 * 2 ^ (fexp64 (Zdigits2 m + e) - e) <= m.
Proof.
  intros Hm Hk He. destruct (Zdigits2_bounds m Hm) as [D [L _]]. rewrite fexp64_max in *.
  rewrite <- Z.pow_add_r by lia.
  apply (Z.le_trans _ (2 ^ (Zdigits2 m - 1))); [apply Z.pow_le_mono_r; lia|done].
Qed.

Lemma round64_relative m e l r :
  0 < m -> -1074 < fexp64 (Zdigits2 m + e) -> e <= fexp64 (Zdigits2 m + e) ->
  rounded_to m l (fexp64 (Zdigits2 m + e) - e) r ->
  r * 2 ^ (fexp64 (Zdigits2 m + e) - e) * 2 ^ 52 <= m * (2 ^ 52 + 1).
Proof.
  intros Hm Hk He Hr. pose proof (last_place m e Hm Hk He).
  pose proof (rounded_to_upper m l (fexp64 (Zdigits2 m + e) - e) r ltac:(lia) ltac:(lia) Hr). lia.
Qed.

(** Sums are multiples of the unit, so a sum is rounded relatively or not at all. *)
Lemma binary_round_upper p e :
  -1074 <= e ->
  units (binary_round 53 1024 false p e) * 2 ^ 52 <= scaled (Zpos p) e * (2 ^ 52 + 1).
Proof.
  intros He. destruct (binary_round_aligned false p e) as (m & k & -> & Hk & Hm & Hd & Hmin).
  rewrite fexp64_max in Hmin. rewrite <- (scaled_shift (Zpos p) e k), <- Hm by lia.
  assert (Hexp : k <= fexp64 (Zdigits2 (Zpos m) + k)) by (rewrite fexp64_max; lia).
  destruct (round64_spec false (Zpos m) k loc_Exact ltac:(lia) Hexp) as (r & Hto & Hrb & Hx).
  set (j := fexp64 (Zdigits2 (Zpos m) + k)) in *.
  destruct (round_result_units false j r _ ltac:(lia) ltac:(lia) Hx) as (Hu & _).
  apply (Z.le_trans _ (scaled r j * 2 ^ 52)); [apply Zmult_le_compat_r; [done|lia]|]. unfold scaled.
  pose proof (pow2_pos (k + 1074) ltac:(lia)) as Hp.
  replace (2 ^ (j + 1074)) with (2 ^ (j - k) * 2 ^ (k + 1074)) by (rewrite <- Z.pow_add_r by lia; f_equal; lia).
  enough (Hrel : r * 2 ^ (j - k) * 2 ^ 52 <= Zpos m * (2 ^ 52 + 1)).
  { pose proof (Z.mul_le_mono_nonneg_r _ _ (2 ^ (k + 1074)) ltac:(lia) Hrel). lia. }
  destruct (Z.eq_dec j (-1074)) as [Hj|Hj].
  - replace (j - k) with 0 in * by lia. apply rounded_to_exact in Hto; [|lia|apply Z.mod_1_r]. lia.
  - apply (round64_relative (Zpos m) k loc_Exact); [lia|fold j; lia|done|done].
Qed.

(** Nor is a sum rounded to nothing. *)
Lemma binary_round_positive p e : -1074 <= e -> 0 < units (binary_round 53 1024 false p e).
Proof.
  intros He. destruct (binary_round_aligned false p e) as (m & k & -> & Hk & Hm & Hd & Hmin).
  rewrite fexp64_max in Hmin. assert (Hexp : k <= fexp64 (Zdigits2 (Zpos m) + k)) by (rewrite fexp64_max; lia).
  destruct (round64_spec false (Zpos m) k loc_Exact ltac:(lia) Hexp) as (r & Hto & Hrb & Hx).
  set (j := fexp64 (Zdigits2 (Zpos m) + k)) in *.
  destruct (round_result_units false j r _ ltac:(lia) ltac:(lia) Hx) as (_ & _ & Heq).
  pose proof (pow2_pos (j - k) ltac:(lia)) as Hn. pose proof (pow2_pos (j + 1074) ltac:(lia)).
  assert (Hr : 0 < r).
  { enough (1 <= Zpos m / 2 ^ (j - k)) by (destruct Hto as [->|[-> _]]; lia).
    apply Z.div_le_lower_bound; [done|]. destruct (Z.eq_dec j (-1074)) as [Hj|Hj].
    - replace (j - k) with 0 by lia. lia.
    - pose proof (last_place (Zpos m) k ltac:(lia) ltac:(fold j; lia) Hexp) as Hl. fold j in Hl. lia. }
  destruct (round64 _ _ _ _); cbn [round_result] in Hx; [|apply pow2_pos; lia|done|]; rewrite Heq; unfold scaled; lia.
Qed.

Definition finite64 (x : spec_float) : Prop :=
  match x with S754_zero _ => True | S754_finite s m e => s = false /\ bounded64 m e = true | _ => False end.

Lemma finite64_nonneg x : finite64 x -> nonneg64 x.
Proof. by destruct x. Qed.

Lemma finite64_iff x : finite64 x <-> nonneg64 x /\ units x < 2 ^ 2098.
Proof.
  destruct x as [s|s| |s m e]; cbn [finite64 nonneg64 units].
  - split; [split; [done|apply pow2_pos; lia]|done].
  - split; [done|lia].
  - tauto.
  - split; [|tauto]. intros [Hs Hb]. destruct (units_finite m e Hb). by split.
Qed.

Lemma add_upper x y :
  finite64 x -> finite64 y ->
  units (SFadd 53 1024 x y) * 2 ^ 52 <= (units x + units y) * (2 ^ 52 + 1).
Proof.
  destruct x as [s|s| |s m e], y as [s'|s'| |s' m' e']; cbn [finite64]; intros Hx Hy; try done.
  - destruct s, s'; cbn [SFadd units]; lia.
  - cbn [SFadd units]. pose proof (units_nonneg (S754_finite s' m' e')) as Hu. cbn [units] in Hu. lia.
  - cbn [SFadd units]. pose proof (units_nonneg (S754_finite s m e)) as Hu. cbn [units] in Hu. lia.
  - destruct Hx as [-> Hb], Hy as [-> Hb']. cbn [SFadd units cond_Zopp].
    destruct (bounded_bounds m e Hb) as (He & _). destruct (bounded_bounds m' e' Hb') as (He' & _).
    set (ez := Z.min e e').
    pose proof (shl_align_spec m e ez) as H1. destruct (shl_align m e ez) as [mz k1]. destruct H1 as [-> H1].
    pose proof (shl_align_spec m' e' ez) as H2. destruct (shl_align m' e' ez) as [mz' k2]. destruct H2 as [-> H2].
    replace (Z.min e ez) with ez in * by lia. replace (Z.min e' ez) with ez in * by lia. cbn [fst].
    change (Zpos mz + Zpos mz') with (Zpos (mz + mz')). cbn [binary_normalize].
    pose proof (binary_round_upper (mz + mz') ez ltac:(lia)) as Hu.
    assert (Hsum : scaled (Zpos (mz + mz')) ez = scaled (Zpos m) e + scaled (Zpos m') e').
    { rewrite Pos2Z.inj_add, H1, H2. rewrite <- (scaled_shift (Zpos m) e ez), <- (scaled_shift (Zpos m') e' ez) by lia.
      unfold scaled. lia. }
    rewrite Hsum in Hu. exact Hu.
Qed.

Lemma add_positive x y :
  finite64 x -> finite64 y -> 0 < units x + units y -> 0 < units (SFadd 53 1024 x y).
Proof.
  destruct x as [s|s| |s m e], y as [s'|s'| |s' m' e']; cbn [finite64]; intros Hx Hy; try done.
  - cbn [SFadd units]. rewrite Z.add_0_r. intros H. exact H.
  - intros _. destruct Hx as [-> Hb], Hy as [-> Hb']. cbn [SFadd cond_Zopp].
    destruct (bounded_bounds m e Hb) as (He & _). destruct (bounded_bounds m' e' Hb') as (He' & _).
    set (ez := Z.min e e'). change (Zpos ?a + Zpos ?b) with (Zpos (a + b)). cbn [binary_normalize].
    apply binary_round_positive. lia.
Qed.

(** A product may fall below the unit: it is at most one unit too large then. *)
Lemma mul_upper x y :
  finite64 x -> finite64 y ->
  units (SFmul 53 1024 x y) * one_unit * 2 ^ 52 <= units x * units y * (2 ^ 52 + 1) + one_unit * 2 ^ 52.
Proof.
  unfold one_unit. destruct x as [s|s| |s m e], y as [s'|s'| |s' m' e']; cbn [finite64]; intros Hx Hy; try done;
    try (cbn [SFmul units xorb]; pose proof (pow2_pos 1074 ltac:(lia)); lia).
  destruct Hx as [-> Hb], Hy as [-> Hb']. cbn [SFmul units xorb].
  destruct (bounded_bounds m e Hb) as (He & _). destruct (bounded_bounds m' e' Hb') as (He' & _).
  pose proof (mul_exponent m e m' e' Hb Hb') as Hexp.
  destruct (round64_spec false (Zpos (m * m')) (e + e') loc_Exact ltac:(lia) Hexp) as (r & Hto & Hrb & Hx).
  assert (Hexact : Zpos m * 2 ^ (e + 1074) * (Zpos m' * 2 ^ (e' + 1074)) = Zpos (m * m') * 2 ^ (e + e' + 2148)).
  { replace (2 ^ (e + e' + 2148)) with (2 ^ (e + 1074) * 2 ^ (e' + 1074)) by (rewrite <- Z.pow_add_r by lia; f_equal; lia).
    rewrite Pos2Z.inj_mul. ring. }
  rewrite Hexact. set (n := Zpos (m * m')) in *. set (k := fexp64 (Zdigits2 n + (e + e'))) in *.
  assert (Hk : -1074 <= k) by (unfold k; rewrite fexp64_max; lia).
  destruct (round_result_units false k r _ Hk ltac:(lia) Hx) as (Hu & _).
  assert (Hle : units (round64 false n (e + e') loc_Exact) * 2 ^ 1074 <= r * 2 ^ (k - (e + e')) * 2 ^ (e + e' + 2148)).
  { apply (Z.le_trans _ (scaled r k * 2 ^ 1074)); [apply Zmult_le_compat_r; [done|lia]|]. unfold scaled.
    rewrite <- !Z.mul_assoc, <- !Z.pow_add_r by lia. replace (k + 1074 + 1074) with (k - (e + e') + (e + e' + 2148)) by lia. lia. }
  pose proof (pow2_pos (e + e' + 2148) ltac:(lia)) as Hp.
  destruct (Z.eq_dec k (-1074)) as [Hk1|Hk1].
  - pose proof (rounded_to_upper n loc_Exact (k - (e + e')) r ltac:(lia) ltac:(lia) Hto) as Hup.
    assert (Hone : 2 ^ (k - (e + e')) * 2 ^ (e + e' + 2148) = 2 ^ 1074) by (rewrite <- Z.pow_add_r by lia; f_equal; lia).
    pose proof (Z.mul_le_mono_nonneg_r _ _ (2 ^ (e + e' + 2148)) ltac:(lia) Hup) as Hup'.
    rewrite Z.mul_add_distr_r, Hone in Hup'. assert (0 <= n * 2 ^ (e + e' + 2148)) by (unfold n; lia). lia.
  - pose proof (round64_relative n (e + e') loc_Exact r ltac:(lia) ltac:(fold k; lia) Hexp Hto) as Hrel. fold k in Hrel.
    pose proof (Z.mul_le_mono_nonneg_r _ _ (2 ^ (e + e' + 2148)) ltac:(lia) Hrel) as Hrel'.
    pose proof (pow2_pos 1074 ltac:(lia)). lia.
Qed.

(** Sums and products of finite numbers are infinite only when they are large. *)
Lemma sub_one_upper x :
  finite64 x -> units one64 <= units x ->
  units (SFsub 53 1024 x one64) * 2 ^ 52 <= (units x - units one64) * (2 ^ 52 + 1).
Proof.
  assert (H1 : one64 = S754_finite false 4503599627370496 (-52)) by (vm_compute; reflexivity).
  rewrite H1. intros Hx Hle. destruct x as [s|s| |s m e]; cbn [SFsub finite64 units] in *; [|done|done|].
  - exfalso. pose proof (pow2_pos (-52 + 1074) ltac:(lia)). lia.
  - destruct Hx as [-> Hb]. pose proof (bounded_bounds m e Hb) as (He & Hm & _).
    assert (He52 : -52 <= e).
    { apply (Z.le_trans _ (fexp64 (Zdigits2 (2 ^ 52) + -52))); [by vm_compute|].
      by apply (float_above_exponent (2 ^ 52) (-52) m e). }
    rewrite Z.min_r by lia. cbn [cond_Zopp].
    pose proof (shl_align_spec m e (-52)) as Hs. destruct (shl_align m e (-52)) as [mz ez].
    destruct Hs as [Hez Hmz]. rewrite Z.min_r in Hez by lia. subst ez.
    change (fst (shl_align 4503599627370496 (-52) (-52))) with 4503599627370496%positive. cbn [fst].
    assert (Hval : scaled (Zpos mz) (-52) = scaled (Zpos m) e) by (rewrite Hmz; apply scaled_shift; lia).
    fold (scaled (Zpos m) e). fold (scaled (Zpos 4503599627370496) (-52)).
    change (scaled (Zpos 4503599627370496) (-52) <= scaled (Zpos m) e) in Hle.
    rewrite <- Hval in *. unfold scaled in *. pose proof (pow2_pos (-52 + 1074) ltac:(lia)) as Hp.
    apply Z.mul_le_mono_pos_r in Hle; [|done].
    destruct (Zpos mz - Zpos 4503599627370496) as [|p|p] eqn:Hd; [|clear Hle|lia]; cbn [binary_normalize].
    { cbn [units]. lia. }
    pose proof (binary_round_upper p (-52) ltac:(lia)) as Hu. unfold scaled in Hu.
    replace (Zpos mz) with (Zpos p + Zpos 4503599627370496) by lia. lia.
Qed.

(** ** Duration.Seconds *)

(** [float64(d / Second) + float64(d % Second)/1e9], with truncating division. *)
Definition Seconds64 (d : Duration) : spec_float :=
  SFadd 53 1024 (b64_of_Z (Z.quot d Second))
    (SFdiv 53 1024 (b64_of_Z (Z.rem d Second)) (b64_of_Z 1000000000)).

Lemma b64_of_Z_exact z : 0 <= z < 2 ^ 53 -> finite64 (b64_of_Z z) /\ units (b64_of_Z z) = z * one_unit.
Proof.
  intros Hz. destruct z as [|p|p]; [done| |lia].
  destruct (b64_of_pos p ltac:(lia)) as (m & e & -> & Hb & He & Hm & _). split; [done|]. cbn [units]. unfold one_unit.
  rewrite Hm, <- Z.mul_assoc, <- Z.pow_add_r by lia. do 2 f_equal. lia.
Qed.

(** A fraction of a second: a positive number of nanoseconds over a billion. *)
Lemma nanos_div p :
  Zpos p < 1000000000 ->
  let x := SFdiv 53 1024 (b64_of_Z (Zpos p)) (b64_of_Z 1000000000) in
  nonneg64 x /\ 0 < units x /\ units x * 1000000000 * 2 ^ 52 <= Zpos p * one_unit * (2 ^ 52 + 1).
Proof.
  intros Hp. destruct (b64_of_pos p ltac:(lia)) as (m & e & -> & Hb & He & Hm & Hm52).
  assert (Hbillion : b64_of_Z 1000000000 = S754_finite false 8388608000000000 (-23)) by (vm_compute; reflexivity).
  rewrite Hbillion. cbn [SFdiv xorb]. unfold SFdiv_core_binary.
  change (Zdigits2 8388608000000000) with 53.
  replace (Zdigits2 (Zpos m)) with 53 by (symmetry; apply Zdigits2_unique; lia). rewrite fexp64_max.
  replace (Z.min (Z.max (53 + e - (53 + -23) - 53) (-1074)) (e - -23)) with (e - 30) by lia.
  replace (e - -23 - (e - 30)) with 53 by lia.
  rewrite Z.shiftl_mul_pow2 by lia. pose proof (Z_div_mod (Zpos m * 2 ^ 53) 8388608000000000 ltac:(lia)) as Hqr.
  destruct (Z.div_eucl _ _) as [q t]. destruct Hqr as [Hq Ht]. set (l := new_location _ _).
  assert (Hq52 : 2 ^ 52 <= q < 2 ^ 54) by lia.
  destruct (Zdigits2_bounds q ltac:(lia)) as [D [L U]].
  assert (52 < Zdigits2 q) by (apply (Z.pow_lt_mono_r_iff 2); lia).
  assert (Hk : fexp64 (Zdigits2 q + (e - 30)) = Zdigits2 q + (e - 30) - 53) by (rewrite fexp64_max; lia).
  destruct (round64_spec false q (e - 30) l ltac:(lia) ltac:(lia)) as (r & Hto & Hrb & Hx).
  split; [by apply round64_nonneg; lia|].
  pose proof (round64_relative q (e - 30) l r ltac:(lia) ltac:(lia) ltac:(lia) Hto) as Hrel.
  rewrite Hk in *. set (k := Zdigits2 q + (e - 30) - 53) in *.
  destruct (round_result_units false k r _ ltac:(lia) ltac:(lia) Hx) as (Hu & _ & Heq).
  pose proof (pow2_pos (k - (e - 30)) ltac:(lia)) as Hn. pose proof (pow2_pos (k + 1074) ltac:(lia)) as Hk2.
  assert (Hr : 0 < r).
  { assert (q / 2 ^ (k - (e - 30)) <> 0); [|destruct Hto as [->|[-> _]]; pose proof (Z.div_pos q _ ltac:(lia) Hn); lia].
    assert (1 <= q / 2 ^ (k - (e - 30))); [|lia]. apply Z.div_le_lower_bound; [done|].
    pose proof (Z.pow_le_mono_r 2 (k - (e - 30)) (Zdigits2 q - 1) ltac:(lia) ltac:(lia)). lia. }
  split.
  - destruct (round64 false q (e - 30) l); cbn [round_result] in Hx; [|apply pow2_pos; lia|done|];
      rewrite Heq; unfold scaled; lia.
  - assert (Hscaled : scaled r k = r * 2 ^ (k - (e - 30)) * 2 ^ (e - 30 + 1074)).
    { unfold scaled. rewrite <- Z.mul_assoc, <- Z.pow_add_r by lia. do 2 f_equal. lia. }
    pose proof (pow2_pos (e - 30 + 1074) ltac:(lia)) as He2.
    pose proof (Z.mul_le_mono_nonneg_r _ _ (2 ^ (e - 30 + 1074)) ltac:(lia) Hrel) as Hrel2.
    assert (Hqm : q * 8388608000000000 * 2 ^ (e - 30 + 1074) <= Zpos m * 2 ^ 53 * 2 ^ (e - 30 + 1074))
      by (apply Zmult_le_compat_r; lia).
    assert (Hmp : Zpos m * 2 ^ 53 * 2 ^ (e - 30 + 1074) = Zpos p * one_unit * 2 ^ 23).
    { unfold one_unit. rewrite Hm, <- !Z.mul_assoc, <- !Z.pow_add_r by lia. do 2 f_equal. lia. }
    rewrite Hmp in Hqm. rewrite Hscaled in Hu. lia.
Qed.

(** A positive duration is a positive number of seconds, at most one part in
    2^51 and a bit too large; any other is none. *)
Lemma Seconds64_positive d :
  0 < d <= 2 ^ 63 ->
  positive64 (Seconds64 d) /\ units (Seconds64 d) * 1000000000 * 2 ^ 50 <= d * one_unit * (2 ^ 50 + 1).
Proof.
  intros Hd. unfold Seconds64. change Second with 1000000000.
  rewrite Z.quot_div_nonneg, Z.rem_mod_nonneg by lia.
  pose proof (Z.div_mod d 1000000000 ltac:(lia)) as Hdm. pose proof (Z.mod_pos_bound d 1000000000 ltac:(lia)) as Hr.
  pose proof (Z.div_pos d 1000000000 ltac:(lia) ltac:(lia)) as Hq.
  destruct (b64_of_Z_exact (d / 1000000000) ltac:(lia)) as [Hqf Hqu]. set (x := b64_of_Z (d / 1000000000)) in *.
  set (y := SFdiv _ _ _ _).
  assert (Hone : 0 < one_unit) by (apply pow2_pos; lia).
  assert (Hy : finite64 y /\ (0 < d mod 1000000000 -> 0 < units y) /\
    units y * 1000000000 * 2 ^ 52 <= d mod 1000000000 * one_unit * (2 ^ 52 + 1)).
  { unfold y. destruct (d mod 1000000000) as [|p|p]; [done| |lia].
    destruct (nanos_div p ltac:(lia)) as (Hn & Hpos & Hup). split_and!; [|done|done].
    apply finite64_iff. split; [done|]. unfold one_unit in *.
    replace (2 ^ 2098) with (2 ^ 1024 * 2 ^ 1074) by (rewrite <- Z.pow_add_r by lia; done).
    assert (2 ^ 54 <= 2 ^ 1024) by (apply Z.pow_le_mono_r; lia). nia. }
  destruct Hy as (Hyf & Hypos & Hyu).
  pose proof (add_upper x y Hqf Hyf) as Hup.
  assert (Hpos : 0 < units (SFadd 53 1024 x y)).
  { apply add_positive; [done..|]. rewrite Hqu. pose proof (units_nonneg y).
    destruct (Z.eq_dec (d mod 1000000000) 0); [|lia]. assert (0 < d / 1000000000) by lia. nia. }
  rewrite Hqu in Hup.
  assert (Hmain : units (SFadd 53 1024 x y) * 1000000000 * 2 ^ 50 <= d * one_unit * (2 ^ 50 + 1)) by nia.
  split; [|done].
  assert (Hfin : finite64 (SFadd 53 1024 x y)).
  { apply finite64_iff. split; [apply add_nonneg; by apply finite64_nonneg|]. unfold one_unit in *.
    replace (2 ^ 2098) with (2 ^ 1024 * 2 ^ 1074) by (rewrite <- Z.pow_add_r by lia; done).
    assert (2 ^ 64 <= 2 ^ 1024) by (apply Z.pow_le_mono_r; lia). nia. }
  destruct (SFadd 53 1024 x y); cbn [finite64 positive64 units] in *; lia || done.
Qed.

(** Not above zero: what the operations on negative numbers give. *)
Definition not_positive (x : spec_float) : Prop :=
  match x with S754_finite false _ _ | S754_infinity false => False | _ => True end.

Lemma round64_not_positive m e l : not_positive (round64 true m e l).
Proof.
  unfold binary_round_aux. destruct (shr_fexp 53 1024 m e l) as [mrs e'].
  destruct (shr_fexp _ _ _ e' _) as [mrs2 e'']. destruct (shr_m mrs2); [done| |done]. by destruct (_ <=? _).
Qed.

Lemma b64_of_Z_not_positive z : z <= 0 -> not_positive (b64_of_Z z).
Proof.
  intros Hz. destruct z as [|p|p]; [done|lia|]. unfold b64_of_Z, binary_normalize, binary_round.
  destruct (shl_align _ _ _). apply round64_not_positive.
Qed.

Lemma add_not_positive x y : not_positive x -> not_positive y -> not_positive (SFadd 53 1024 x y).
Proof.
  destruct x as [[]|[]| |[] m e], y as [[]|[]| |[] m' e']; cbn [not_positive]; intros Hx Hy; try done.
  cbn [SFadd cond_Zopp]. change (- Zpos ?a + - Zpos ?b) with (Zneg (a + b)).
  cbn [binary_normalize]. unfold binary_round. destruct (shl_align _ _ (fexp64 _)). apply round64_not_positive.
Qed.

Lemma div_not_positive x m e : not_positive x -> not_positive (SFdiv 53 1024 x (S754_finite false m e)).
Proof.
  destruct x as [[]|[]| |[] m' e']; cbn [not_positive]; intros Hx; try done.
  cbn [SFdiv xorb]. destruct (SFdiv_core_binary _ _ _ _ _ _) as [[mz ez] lz]. apply round64_not_positive.
Qed.

Lemma Seconds64_none d : d <= 0 -> SFltb (S754_zero false) (Seconds64 d) = false.
Proof.
  intros Hd. assert (Hn : not_positive (Seconds64 d)).
  { unfold Seconds64. change Second with 1000000000.
    assert (Hbillion : b64_of_Z 1000000000 = S754_finite false 8388608000000000 (-23)) by (vm_compute; reflexivity).
    rewrite Hbillion. apply add_not_positive; [|apply div_not_positive]; apply b64_of_Z_not_positive.
    - rewrite <- (Z.opp_involutive d), Z.quot_opp_l, Z.quot_div_nonneg by lia.
      pose proof (Z.div_pos (- d) 1000000000 ltac:(lia) ltac:(lia)). lia.
    - rewrite <- (Z.opp_involutive d), Z.rem_opp_l, Z.rem_mod_nonneg by lia.
      pose proof (Z.mod_pos_bound (- d) 1000000000 ltac:(lia)). lia. }
  destruct (Seconds64 d) as [[]|[]| |[] m e]; cbn [not_positive] in Hn; done.
Qed.

(** Elapsed time is positive exactly when the duration is. *)
Lemma elapsed_positive d :
  d <= 2 ^ 63 -> SFltb (S754_zero false) (Seconds64 d) = (0 <? d).
Proof.
  intros Hd. destruct (Z.ltb_spec 0 d) as [Hpos|Hneg]; [|by apply Seconds64_none].
  destruct (Seconds64_positive d ltac:(lia)) as [Hp _].
  destruct (Seconds64 d) as [[]|[]| |[] m e]; cbn [positive64] in Hp; try done. by destruct Hp.
Qed.
