(* ===== verification/GoTime.v ===== *)
(** * Reading a duration: time.ParseDuration

    The Go library's parser of "1h30m", "90s", "1.5h", after which the
    configuration's durations are read (config.go discards its error, so a
    malformed text is [None]).  Counters are uint64 in Go; the comparisons below
    are the library's, and no product exceeds 2^64.  What Duration.String prints
    of a positive duration is read back. *)
From S2P Require Import Prelude GoLib Float64.
From Stdlib Require Import SpecFloat.
#[local] Open Scope Z_scope.

Definition is_digit (c : ascii) : bool := byte_between 48 57 c.
Definition digit_val (c : ascii) : Z := Z.of_N (byte_val c) - 48.

(** [leadingInt]: [None] on overflow. *)
Fixpoint leadingInt (x : Z) (s : string) : option (Z * string) :=
  match s with
  | String c s' =>
      if is_digit c then
        if 2 ^ 63 / 10 <? x then None
        else let x' := x * 10 + digit_val c in
             if 2 ^ 63 <? x' then None else leadingInt x' s'
      else Some (x, s)
  | EmptyString => Some (x, s)
  end.

(** [leadingFraction]: the digits after a point and their scale; digits that
    would overflow are skipped. *)
Fixpoint leadingFraction (x scale : Z) (overflow : bool) (s : string) : Z * Z * string :=
  match s with
  | String c s' =>
      if is_digit c then
        if overflow then leadingFraction x scale true s'
        else if (2 ^ 63 - 1) / 10 <? x then leadingFraction x scale true s'
        else let y := x * 10 + digit_val c in
             if 2 ^ 63 <? y then leadingFraction x scale true s'
             else leadingFraction y (scale * 10) false s'
      else (x, scale, s)
  | EmptyString => (x, scale, s)
  end.

(** The text up to the next digit or point. *)
Fixpoint take_unit (s : string) : string * string :=
  match s with
  | String c s' =>
      if Ascii.eqb c "." || is_digit c then ("", s)
      else let '(u, rest) := take_unit s' in (String c u, rest)
  | EmptyString => ("", "")
  end.

Definition unitMap (u : string) : option Duration :=
  if (u =? "ns")%string then Some Nanosecond
  else if (u =? "us")%string then Some Microsecond
  else if (u =? String.append (encode_rune 181) "s")%string then Some Microsecond
  else if (u =? String.append (encode_rune 956) "s")%string then Some Microsecond
  else if (u =? "ms")%string then Some Millisecond
  else if (u =? "s")%string then Some Second
  else if (u =? "m")%string then Some Minute
  else if (u =? "h")%string then Some Hour
  else None.

(** [uint64(float64(f) * (float64(unit) / scale))] *)
Definition fraction_ns (f scale : Z) (unit_ : Duration) : Z :=
  b64_trunc (SFmul 53 1024 (b64_of_Z f) (SFdiv 53 1024 (b64_of_Z unit_) (b64_of_Z scale))).

(** What may follow the integer part: a point and digits, and whether there
    was any digit. *)
Definition parse_fraction (s : string) : Z * Z * string * bool :=
  match s with
  | String c s' =>
      if Ascii.eqb c "." then
        let '(f, scale, rest) := leadingFraction 0 1 false s' in
        (f, scale, rest, negb (String.length s' =? String.length rest)%nat)
      else (0, 1, s, false)
  | EmptyString => (0, 1, s, false)
  end.

(** One number with its unit: its value and the rest of the text. *)
Definition parse_component (s : string) : option (Z * string) :=
  match s with
  | EmptyString => None
  | String c _ =>
      if negb (Ascii.eqb c "." || is_digit c) then None
      else match leadingInt 0 s with
      | None => None
      | Some (v, s1) =>
          let pre := negb (String.length s =? String.length s1)%nat in
          let '(f, scale, s2, post) := parse_fraction s1 in
          if negb pre && negb post then None
          else let '(u, rest) := take_unit s2 in
          if (u =? "")%string then None
          else match unitMap u with
          | None => None
          | Some unit_ =>
              if 2 ^ 63 / unit_ <? v then None
              else
                let v := v * unit_ in
                let v' := if 0 <? f then v + fraction_ns f scale unit_ else v in
                if (0 <? f) && (2 ^ 63 <? v') then None else Some (v', rest)
          end
      end
  end.

(** The loop over the components; a component consumes text, so the length of
    the text is enough fuel. *)
Fixpoint parse_components (fuel : nat) (d : Z) (s : string) : option Z :=
  match s, fuel with
  | EmptyString, _ => Some d
  | _, O => None
  | _, S fuel' =>
      match parse_component s with
      | None => None
      | Some (v, rest) => if 2 ^ 63 <? d + v then None else parse_components fuel' (d + v) rest
      end
  end.

Definition parse_sign (s : string) : bool * string :=
  match s with
  | String c s' =>
      if Ascii.eqb c "-" then (true, s') else if Ascii.eqb c "+" then (false, s') else (false, s)
  | EmptyString => (false, s)
  end.

Definition ParseDuration (orig : string) : option Duration :=
  let '(neg, s) := parse_sign orig in
  if (s =? "0")%string then Some 0
  else if (s =? "")%string then None
  else match parse_components (String.length s) 0 s with
  | None => None
  | Some d => if neg then Some (- d) else if 2 ^ 63 - 1 <? d then None else Some d
  end.

Example parse_durations :
  map ParseDuration ["15s"; "1h30m"; "1.5h"; "-250ms"; "100"; "0"; ".5s"; "1 h"; "9223372036s"; "9223372037s"; ""] =
  [Some (15 * Second); Some (90 * Minute); Some (90 * Minute); Some (-250 * Millisecond); None; Some 0;
   Some (500 * Millisecond); None; Some (9223372036 * Second); None; None].
Proof. vm_compute. reflexivity. Qed.

Example parse_reads_back :
  map (fun d => ParseDuration (DurationString d)) [0; 1; 1500; 2160 * Hour; 90 * Second; -5 * Minute; 1234567890123] =
  map Some [0; 1; 1500; 2160 * Hour; 90 * Second; -5 * Minute; 1234567890123].
Proof. vm_compute. reflexivity. Qed.

(** ** Whole numbers of a unit *)

Lemma digit_chr_spec d : 0 <= d < 10 -> is_digit (digit_chr d) = true /\ digit_val (digit_chr d) = d.
Proof.
  intros Hd. assert (Hall : forallb (fun n => is_digit (digit_chr n) && (digit_val (digit_chr n) =? n))
                      [0; 1; 2; 3; 4; 5; 6; 7; 8; 9] = true) by (vm_compute; reflexivity).
  rewrite forallb_forall in Hall. specialize (Hall d). rewrite andb_true_iff, Z.eqb_eq in Hall.
  apply Hall. assert (d = 0 \/ d = 1 \/ d = 2 \/ d = 3 \/ d = 4 \/ d = 5 \/ d = 6 \/ d = 7 \/ d = 8 \/ d = 9) by lia.
  simpl. naive_solver.
Qed.

Lemma leadingInt_digit x d s :
  0 <= d < 10 -> 0 <= x -> x * 10 + d <= 2 ^ 63 ->
  leadingInt x (String (digit_chr d) s) = leadingInt (x * 10 + d) s.
Proof.
  intros Hd Hx Hle. destruct (digit_chr_spec d Hd) as [Hi Hv]. cbn [leadingInt]. rewrite Hi, Hv.
  destruct (Z.ltb_spec (2 ^ 63 / 10) x); [exfalso; change (2 ^ 63 / 10) with 922337203685477580 in *; lia|].
  destruct (Z.ltb_spec (2 ^ 63) (x * 10 + d)); [lia|done].
Qed.

Lemma leadingInt_digits fuel n acc :
  0 <= n < 10 ^ Z.of_nat fuel -> (0 < fuel)%nat -> n <= 2 ^ 63 ->
  leadingInt 0 (digits_of fuel n acc) = leadingInt n acc.
Proof.
  revert n acc. induction fuel as [|fuel IH]; intros n acc Hn Hf Hle; [lia|]. cbn [digits_of].
  pose proof (Z.mod_pos_bound n 10 ltac:(lia)) as Hm. pose proof (Z.div_mod n 10 ltac:(lia)) as Hdm.
  rewrite Nat2Z.inj_succ, Z.pow_succ_r in Hn by lia. destruct (Z.ltb_spec n 10) as [Hlt|Hge].
  - rewrite leadingInt_digit by lia. rewrite Z.mod_small by lia. f_equal; lia.
  - assert (Hq : 1 <= n / 10) by (apply Z.div_le_lower_bound; lia).
    assert (Hq2 : n / 10 < 10 ^ Z.of_nat fuel) by (apply Z.div_lt_upper_bound; lia).
    rewrite IH; [|lia| |lia].
    + rewrite leadingInt_digit by lia. f_equal; lia.
    + destruct fuel; [simpl in Hq2; lia|lia].
Qed.

(** A decimal number starts with a digit. *)
Lemma digits_of_head fuel n acc :
  (0 < fuel)%nat -> 0 <= n -> exists d s, 0 <= d < 10 /\ digits_of fuel n acc = String (digit_chr d) s /\
    (String.length acc <= String.length s)%nat.
Proof.
  revert n acc. induction fuel as [|fuel IH]; intros n acc Hf Hn; [lia|]. cbn [digits_of].
  pose proof (Z.mod_pos_bound n 10 ltac:(lia)) as Hm. destruct (Z.ltb_spec n 10) as [Hlt|Hge].
  - exists (n mod 10), acc. split_and!; [lia|lia|done|lia].
  - destruct fuel as [|fuel]; [by exists (n mod 10), acc|].
    destruct (IH (n / 10) (String (digit_chr (n mod 10)) acc) ltac:(lia)) as (d & s & Hd & Hs & Hl);
      [apply Z.div_pos; lia|]. exists d, s. split_and!; [lia|lia|done|]. simpl in Hl. lia.
Qed.

(** What follows a number: no digit, no point. *)
Definition starts_unit (s : string) : bool :=
  match s with String c _ => negb (Ascii.eqb c "." || is_digit c) | EmptyString => false end.

Lemma digits_of_app fuel n acc rest :
  digits_of fuel n (String.append acc rest) = String.append (digits_of fuel n acc) rest.
Proof.
  revert n acc. induction fuel as [|fuel IH]; intros n acc; [done|]. cbn [digits_of].
  destruct (n <? 10); [done|]. by rewrite <- IH.
Qed.

(** A whole number of a unit, "<n><unit>", reads as the product; a bare number
    other than 0 does not parse. *)
Lemma take_unit_whole u :
  string_forallb (fun c => negb (Ascii.eqb c "." || is_digit c)) u = true -> take_unit u = (u, "").
Proof.
  induction u as [|c u IH]; [done|]. simpl. intros [Hc Hu]%andb_true_iff.
  apply negb_true_iff in Hc. rewrite Hc. by rewrite IH.
Qed.

Lemma unitMap_text u d :
  unitMap u = Some d ->
  string_forallb (fun c => negb (Ascii.eqb c "." || is_digit c)) u = true /\ starts_unit u = true /\ 0 < d.
Proof.
  unfold unitMap.
  repeat match goal with |- context [(u =? ?s)%string] => destruct (String.eqb_spec u s) as [->|_] end;
    intros; simplify_eq; split_and!; vm_compute; reflexivity.
Qed.

(** A decimal number in front of a unit, or of nothing. *)
Lemma leadingInt_Itoa n u :
  0 <= n <= 2 ^ 63 -> u = "" \/ starts_unit u = true ->
  exists x s, 0 <= x < 10 /\ String.append (Itoa n) u = String (digit_chr x) s /\
    (String.length u <= String.length s)%nat /\ leadingInt 0 (String (digit_chr x) s) = Some (n, u).
Proof.
  intros Hn Hu. assert (Hitoa : String.append (Itoa n) u = digits_of 20 n u).
  { unfold Itoa. destruct (Z.ltb_spec n 0); [lia|]. by rewrite <- digits_of_app. }
  destruct (digits_of_head 20 n u ltac:(lia) ltac:(lia)) as (x & s & Hx & Hs & Hlen).
  exists x, s. rewrite Hitoa. split_and!; [lia|lia|done|done|]. rewrite <- Hs.
  rewrite leadingInt_digits; [|change (10 ^ Z.of_nat 20) with (10 ^ 20); lia|lia|lia].
  destruct Hu as [->|Hu]; [done|]. destruct u as [|c u]; [done|]. cbn [leadingInt]. simpl in Hu.
  by apply negb_true_iff, orb_false_iff in Hu as [_ ->].
Qed.

Lemma parse_fraction_unit u : u = "" \/ starts_unit u = true -> parse_fraction u = (0, 1, u, false).
Proof.
  intros [->|Hu]; [done|]. destruct u as [|c u]; [done|]. simpl in Hu |- *.
  by apply negb_true_iff, orb_false_iff in Hu as [-> _].
Qed.

Lemma parse_sign_digit x s :
  0 <= x < 10 -> parse_sign (String (digit_chr x) s) = (false, String (digit_chr x) s).
Proof.
  intros Hx. assert (x = 0 \/ x = 1 \/ x = 2 \/ x = 3 \/ x = 4 \/ x = 5 \/ x = 6 \/ x = 7 \/ x = 8 \/ x = 9) by lia.
  destruct_or?; subst x; reflexivity.
Qed.

(** A whole number of a unit, "<n><unit>", reads as the product. *)
Lemma ParseDuration_whole n u d :
  unitMap u = Some d -> 0 <= n -> n * d <= max_int64 ->
  ParseDuration (String.append (Itoa n) u) = Some (n * d).
Proof.
  intros Hu Hn Hle. destruct (unitMap_text u d Hu) as (Hall & Hstart & Hd). unfold max_int64 in Hle.
  destruct (leadingInt_Itoa n u) as (x & s & Hx & -> & Hlen & Hlead); [nia|by right|].
  assert (Hne : u <> "") by (by intros ->).
  assert (Hs : s <> "") by (destruct u, s; simpl in *; [done..|lia|done]).
  unfold ParseDuration. rewrite parse_sign_digit by done.
  destruct (String.eqb_spec (String (digit_chr x) s) "0") as [[= _ ->]|_]; [done|].
  assert (Hc : parse_component (String (digit_chr x) s) = Some (n * d, "")).
  { unfold parse_component. rewrite Hlead. destruct (digit_chr_spec x Hx) as [-> _].
    rewrite orb_true_r, parse_fraction_unit by (by right). cbn [negb andb].
    assert (Hpre : (String.length (String (digit_chr x) s) =? String.length u)%nat = false)
      by (apply Nat.eqb_neq; simpl; lia).
    rewrite Hpre, take_unit_whole by done. cbn [negb andb].
    rewrite (proj2 (String.eqb_neq u "") Hne), Hu.
    destruct (Z.ltb_spec (2 ^ 63 / d) n) as [Hbig|_]; [|done].
    assert (n <= 2 ^ 63 / d) by (apply Z.div_le_lower_bound; lia). lia. }
  cbn [String.eqb String.length parse_components]. rewrite Hc.
  rewrite Z.add_0_l. destruct (Z.ltb_spec (2 ^ 63) (n * d)); [lia|].
  destruct (String.length s); cbn [parse_components];
    (destruct (Z.ltb_spec (2 ^ 63 - 1) (n * d)); [lia|done]).
Qed.

(** A number without a unit does not parse, 0 apart. *)
Lemma ParseDuration_bare n : 0 < n <= max_int64 -> ParseDuration (Itoa n) = None.
Proof.
  intros Hn. unfold max_int64 in Hn.
  destruct (leadingInt_Itoa n "") as (x & s & Hx & Heq & Hlen & Hlead); [lia|by left|].
  rewrite string_app_nil_r in Heq. rewrite Heq. unfold ParseDuration. rewrite parse_sign_digit by done.
  destruct (String.eqb_spec (String (digit_chr x) s) "0") as [Hz|_].
  { rewrite Hz in Hlead. vm_compute in Hlead. injection Hlead as <-. lia. }
  cbn [String.eqb String.length parse_components]. unfold parse_component. rewrite Hlead.
  destruct (digit_chr_spec x Hx) as [-> _]. by rewrite orb_true_r.
Qed.

(** ** What String prints is read back *)

(** *** A fraction *)

(** [k] decimal digits of [f]. *)
Fixpoint pad (k : nat) (f : Z) (acc : string) : string :=
  match k with O => acc | S k' => pad k' (f / 10) (String (digit_chr (f mod 10)) acc) end.

Lemma fmt_frac_printing prec v acc : fmt_frac prec v true acc = String "." (pad prec v acc).
Proof. revert v acc. induction prec as [|prec IH]; intros v acc; [done|]. cbn [fmt_frac pad orb]. by rewrite IH. Qed.

Lemma fmt_frac_zero prec acc : fmt_frac prec 0 false acc = acc.
Proof. induction prec as [|prec IH]; [done|]. cbn [fmt_frac]. exact IH. Qed.

(** What is printed of a fraction: a point and its digits, without the trailing
    zeros. *)
Lemma fmt_frac_digits prec v acc :
  0 < v < 10 ^ Z.of_nat prec ->
  exists k f, (1 <= k <= prec)%nat /\ 0 < f < 10 ^ Z.of_nat k /\ f * 10 ^ Z.of_nat (prec - k) = v /\
    fmt_frac prec v false acc = String "." (pad k f acc).
Proof.
  revert v. induction prec as [|prec IH]; intros v Hv; [simpl in Hv; lia|]. cbn [fmt_frac orb].
  destruct (Z.eqb_spec (v mod 10) 0) as [Hz|Hnz]; cbn [negb].
  - rewrite Nat2Z.inj_succ, Z.pow_succ_r in Hv by lia.
    pose proof (Z.div_mod v 10 ltac:(lia)) as Hdm. rewrite Hz, Z.add_0_r in Hdm.
    destruct (IH (v / 10)) as (k & f & Hk & Hf & Hfk & ->); [lia|]. exists k, f. split_and!; [lia..| |done].
    replace (S prec - k)%nat with (S (prec - k)) by lia. rewrite Nat2Z.inj_succ, Z.pow_succ_r by lia. lia.
  - exists (S prec), v. split_and!; [lia..| |].
    + rewrite Nat.sub_diag. lia.
    + by rewrite fmt_frac_printing.
Qed.

Lemma leadingFraction_pad k f x scale acc :
  0 <= f < 10 ^ Z.of_nat k -> 0 <= x -> x * 10 ^ Z.of_nat k + f < 10 ^ 17 ->
  leadingFraction x scale false (pad k f acc) =
  leadingFraction (x * 10 ^ Z.of_nat k + f) (scale * 10 ^ Z.of_nat k) false acc.
Proof.
  revert f acc. induction k as [|k IH]; intros f acc Hf Hx Hle.
  - simpl in *. replace f with 0 by lia. f_equal; lia.
  - cbn [pad]. rewrite Nat2Z.inj_succ, Z.pow_succ_r in * by lia.
    pose proof (Z.div_mod f 10 ltac:(lia)) as Hdm. pose proof (Z.mod_pos_bound f 10 ltac:(lia)) as Hm.
    rewrite IH; [|split; [apply Z.div_pos; lia|apply Z.div_lt_upper_bound; lia]|done|lia].
    destruct (digit_chr_spec (f mod 10) Hm) as [Hd Hv]. cbn [leadingFraction]. rewrite Hd, Hv.
    set (y := x * 10 ^ Z.of_nat k + f / 10). assert (Hy : 0 <= y) by (pose proof (Z.div_pos f 10); nia).
    assert (Hy10 : y * 10 + f mod 10 < 10 ^ 17) by (unfold y; lia).
    destruct (Z.ltb_spec ((2 ^ 63 - 1) / 10) y) as [Hbig|_];
      [exfalso; change ((2 ^ 63 - 1) / 10) with 922337203685477580 in Hbig; lia|].
    destruct (Z.ltb_spec (2 ^ 63) (y * 10 + f mod 10)); [exfalso; lia|]. unfold y. f_equal; lia.
Qed.

(** The float64 arithmetic of a fraction is exact: the scale is a power of ten
    that divides the unit, and the product is small. *)
Lemma fraction_ns_exact prec k f :
  (1 <= k <= prec)%nat -> (prec <= 9)%nat -> 0 < f < 10 ^ Z.of_nat k ->
  fraction_ns f (10 ^ Z.of_nat k) (10 ^ Z.of_nat prec) = f * 10 ^ Z.of_nat (prec - k).
Proof.
  intros Hk Hp Hf. unfold fraction_ns.
  assert (Hall : forallb (fun pk => bool_decide (SFdiv 53 1024 (b64_of_Z (10 ^ Z.of_nat (fst pk)))
                    (b64_of_Z (10 ^ Z.of_nat (snd pk))) = b64_of_Z (10 ^ Z.of_nat (fst pk - snd pk))))
            (flat_map (fun p => map (fun k => (p, k)) (seq 1 p)) (seq 1 9)) = true) by (vm_compute; reflexivity).
  assert (Hin : In (prec, k) (flat_map (fun p => map (fun k => (p, k)) (seq 1 p)) (seq 1 9))).
  { apply in_flat_map. exists prec. split; [apply in_seq; lia|].
    apply in_map_iff. exists k. split; [done|]. apply in_seq. lia. }
  rewrite forallb_forall in Hall. specialize (Hall _ Hin). apply bool_decide_eq_true in Hall. cbn [fst snd] in Hall.
  rewrite Hall. apply b64_mul_exact; [lia|apply Z.pow_pos_nonneg; lia|].
  assert (Hmul : 10 ^ Z.of_nat k * 10 ^ Z.of_nat (prec - k) = 10 ^ Z.of_nat prec)
    by (rewrite <- Z.pow_add_r by lia; f_equal; lia).
  assert (10 ^ Z.of_nat prec <= 10 ^ 9) by (apply Z.pow_le_mono_r; lia).
  assert (0 < 10 ^ Z.of_nat (prec - k)) by (apply Z.pow_pos_nonneg; lia). nia.
Qed.

(** *** A number, its fraction and its unit *)

(** A whole part, a fraction [v / 10^prec], and a unit. *)
Record component := { c_whole : Z; c_prec : nat; c_frac : Z; c_unit : string }.

Fixpoint component_text (cs : list component) : string :=
  match cs with
  | [] => ""
  | c :: cs' => String.append (Itoa (c_whole c))
                  (fmt_frac (c_prec c) (c_frac c) false (String.append (c_unit c) (component_text cs')))
  end.

(** The value: a number of a known unit; a fraction has the unit's digits. *)
Definition component_ok (c : component) (v : Z) : Prop :=
  exists d, unitMap (c_unit c) = Some d /\ 0 <= c_whole c /\ v = c_whole c * d + c_frac c /\
    (c_frac c = 0 \/ 0 < c_frac c < d /\ d = 10 ^ Z.of_nat (c_prec c) /\ (c_prec c <= 9)%nat).

Definition starts_digit (s : string) : bool := match s with String c _ => is_digit c | EmptyString => true end.

Lemma take_unit_before u rest :
  string_forallb (fun c => negb (Ascii.eqb c "." || is_digit c)) u = true -> starts_digit rest = true ->
  take_unit (String.append u rest) = (u, rest).
Proof.
  intros Hu Hr. induction u as [|c u IH].
  - destruct rest as [|c rest]; [done|]. simpl in Hr |- *. by rewrite Hr, orb_true_r.
  - simpl in Hu |- *. apply andb_true_iff in Hu as [Hc Hu]. apply negb_true_iff in Hc. by rewrite Hc, IH.
Qed.

Lemma component_text_digit cs vs : Forall2 component_ok cs vs -> starts_digit (component_text cs) = true.
Proof.
  intros Hcs. destruct Hcs as [|c v cs vs (d & Hu & Hn & _) _]; [done|]. cbn [component_text].
  unfold Itoa. destruct (Z.ltb_spec (c_whole c) 0); [lia|].
  destruct (digits_of_head 20 (c_whole c) "" ltac:(lia) Hn) as (x & s & Hx & -> & _). simpl. by apply digit_chr_spec.
Qed.

Lemma starts_unit_app u rest : starts_unit u = true -> starts_unit (String.append u rest) = true.
Proof. by destruct u. Qed.

(** A number in front of a point or a unit. *)
Lemma leadingInt_before n t :
  0 <= n <= 2 ^ 63 -> match t with String c _ => is_digit c = false | EmptyString => True end ->
  exists x s, 0 <= x < 10 /\ String.append (Itoa n) t = String (digit_chr x) s /\
    (String.length t <= String.length s)%nat /\ leadingInt 0 (String (digit_chr x) s) = Some (n, t).
Proof.
  intros Hn Ht. assert (Hitoa : String.append (Itoa n) t = digits_of 20 n t).
  { unfold Itoa. destruct (Z.ltb_spec n 0); [lia|]. by rewrite <- digits_of_app. }
  destruct (digits_of_head 20 n t ltac:(lia) ltac:(lia)) as (x & s & Hx & Hs & Hlen).
  exists x, s. rewrite Hitoa. split_and!; [lia|lia|done|done|]. rewrite <- Hs.
  rewrite leadingInt_digits; [|change (10 ^ Z.of_nat 20) with (10 ^ 20); lia|lia|lia].
  destruct t as [|c t]; [done|]. cbn [leadingInt]. by rewrite Ht.
Qed.

Lemma not_starts_digit u rest : starts_unit u = true ->
  match String.append u rest with String c _ => is_digit c = false | EmptyString => True end.
Proof. destruct u as [|c u]; [done|]. simpl. by intros [_ ?]%negb_true_iff%orb_false_iff. Qed.

Lemma pad_length k f acc : String.length (pad k f acc) = (k + String.length acc)%nat.
Proof. revert f acc. induction k as [|k IH]; intros f acc; [done|]. cbn [pad]. rewrite IH. simpl. lia. Qed.

Lemma parse_fraction_text prec v acc :
  0 < v < 10 ^ Z.of_nat prec -> (prec <= 9)%nat ->
  match acc with String c _ => is_digit c = false | EmptyString => True end ->
  exists k f, (1 <= k <= prec)%nat /\ 0 < f < 10 ^ Z.of_nat k /\ f * 10 ^ Z.of_nat (prec - k) = v /\
    parse_fraction (fmt_frac prec v false acc) = (f, 10 ^ Z.of_nat k, acc, true).
Proof.
  intros Hv Hp Hacc. destruct (fmt_frac_digits prec v acc Hv) as (k & f & Hk & Hf & Hfk & ->).
  exists k, f. split_and!; [lia..|done|]. cbn [parse_fraction]. change (Ascii.eqb "." ".") with true. cbn iota.
  assert (10 ^ Z.of_nat k <= 10 ^ 9) by (apply Z.pow_le_mono_r; lia).
  rewrite leadingFraction_pad by lia. rewrite Z.mul_0_l, Z.add_0_l, Z.mul_1_l.
  assert (Hstop : leadingFraction f (10 ^ Z.of_nat k) false acc = (f, 10 ^ Z.of_nat k, acc))
    by (destruct acc as [|c acc]; [done|]; cbn [leadingFraction]; by rewrite Hacc).
  rewrite Hstop, pad_length. do 2 f_equal. apply negb_true_iff, Nat.eqb_neq. lia.
Qed.

(** A component reads as its value. *)
Lemma parse_component_text c v rest :
  component_ok c v -> v <= 2 ^ 63 -> starts_digit rest = true ->
  parse_component (String.append (Itoa (c_whole c)) (fmt_frac (c_prec c) (c_frac c) false (String.append (c_unit c) rest))) =
  Some (v, rest).
Proof.
  destruct c as [n prec f0 u]. intros (d & Hu & Hn & Hv & Hf) Hle Hrest. cbn [c_whole c_prec c_frac c_unit] in *.
  destruct (unitMap_text u d Hu) as (Hall & Hstart & Hd).
  set (tail := String.append u rest). pose proof (not_starts_digit u rest Hstart) as Htail. fold tail in Htail.
  set (t := fmt_frac prec f0 false tail).
  assert (Hparse : exists f scale, parse_fraction t = (f, scale, tail, negb (f0 =? 0)) /\ 0 <= f /\
            (if 0 <? f then n * d + fraction_ns f scale d else n * d) = v /\ (f = 0 <-> f0 = 0)).
  { destruct Hf as [->|(Hf & -> & Hp)].
    - unfold t. rewrite fmt_frac_zero. exists 0, 1. split_and!; [|lia|simpl; lia|done].
      unfold tail. apply parse_fraction_unit. right. by apply starts_unit_app.
    - unfold t. destruct (parse_fraction_text prec f0 tail Hf Hp Htail) as (k & f & Hk & Hfk & Hval & ->).
      exists f, (10 ^ Z.of_nat k). split_and!; [|lia| |lia].
      + by destruct (Z.eqb_spec f0 0); [lia|].
      + destruct (Z.ltb_spec 0 f); [|lia]. rewrite fraction_ns_exact by lia. lia. }
  destruct Hparse as (f & scale & Hparse & Hf0 & Hval & Hff).
  assert (Ht : match t with String c _ => is_digit c = false | EmptyString => True end).
  { destruct Hf as [->|(Hf & -> & Hp)]; [unfold t; by rewrite fmt_frac_zero|].
    unfold t. by destruct (fmt_frac_digits prec f0 tail Hf) as (k & g & _ & _ & _ & ->). }
  destruct (leadingInt_before n t) as (x & s & Hx & -> & Hlen & Hlead); [nia|done|].
  unfold parse_component. rewrite Hlead. destruct (digit_chr_spec x Hx) as [-> _].
  rewrite orb_true_r, Hparse. cbn [negb andb].
  assert (Hpre : (String.length (String (digit_chr x) s) =? String.length t)%nat = false)
    by (apply Nat.eqb_neq; simpl; lia).
  rewrite Hpre. cbn [negb andb]. unfold tail. rewrite take_unit_before by done.
  assert (Hne : u <> "") by (by intros ->).
  rewrite (proj2 (String.eqb_neq u "") Hne), Hu.
  destruct (Z.ltb_spec (2 ^ 63 / d) n) as [Hbig|_].
  { exfalso. assert (n <= 2 ^ 63 / d); [apply Z.div_le_lower_bound; [done|]|lia].
    destruct Hf as [->|(? & _)]; lia. }
  rewrite Hval. destruct (Z.ltb_spec (2 ^ 63) v); [lia|]. by rewrite andb_false_r.
Qed.

Fixpoint zsum (l : list Z) : Z := match l with [] => 0 | x :: l' => x + zsum l' end.

Lemma component_ok_nonneg c v : component_ok c v -> 0 <= v.
Proof. intros (d & Hu & Hn & -> & Hf). destruct (unitMap_text _ _ Hu) as (_ & _ & Hd). destruct Hf as [->|(? & _)]; nia. Qed.

Lemma zsum_nonneg cs vs : Forall2 component_ok cs vs -> 0 <= zsum vs.
Proof. induction 1 as [|c v cs vs Hc _ IH]; simpl; [lia|]. pose proof (component_ok_nonneg c v Hc). lia. Qed.

Lemma Itoa_length n : 0 <= n -> (0 < String.length (Itoa n))%nat.
Proof.
  intros Hn. unfold Itoa. destruct (Z.ltb_spec n 0); [lia|].
  destruct (digits_of_head 20 n "" ltac:(lia) Hn) as (x & s & _ & -> & _). simpl. lia.
Qed.

Lemma fmt_frac_length prec v b acc : (String.length acc <= String.length (fmt_frac prec v b acc))%nat.
Proof.
  revert v b acc. induction prec as [|prec IH]; intros v b acc; cbn [fmt_frac]; [destruct b; simpl; lia|].
  etrans; [|apply IH]. destruct (b || _); simpl; lia.
Qed.

Lemma parse_components_text cs vs fuel d0 :
  Forall2 component_ok cs vs -> 0 <= d0 -> d0 + zsum vs <= 2 ^ 63 ->
  (String.length (component_text cs) <= fuel)%nat ->
  parse_components fuel d0 (component_text cs) = Some (d0 + zsum vs).
Proof.
  intros Hcs. revert fuel d0.
  induction Hcs as [|c v cs vs Hc Hcs IH]; intros fuel d0 Hd0 Hle Hfuel; simpl in Hle.
  - destruct fuel; simpl; f_equal; lia.
  - pose proof (zsum_nonneg _ _ Hcs) as Hsum. pose proof (component_ok_nonneg c v Hc) as Hv.
    cbn [component_text] in *. rewrite string_length_app in Hfuel.
    assert (Hn : 0 <= c_whole c) by (by destruct Hc as (d & _ & Hn & _)).
    pose proof (Itoa_length (c_whole c) Hn) as Hlen.
    pose proof (fmt_frac_length (c_prec c) (c_frac c) false (String.append (c_unit c) (component_text cs))) as Hl2.
    rewrite string_length_app in Hl2.
    pose proof (parse_component_text c v (component_text cs) Hc ltac:(lia) (component_text_digit _ _ Hcs)) as Hp.
    destruct fuel as [|fuel]; [lia|].
    destruct (String.append (Itoa _) _) as [|ch s] eqn:Hs.
    { apply (f_equal String.length) in Hs. rewrite string_length_app in Hs. simpl in Hs. lia. }
    cbn [parse_components]. rewrite Hp. destruct (Z.ltb_spec (2 ^ 63) (d0 + v)); [lia|].
    rewrite IH by lia. simpl. f_equal. lia.
Qed.

(** A text of components, the first of which is not the bare "0". *)
Lemma ParseDuration_text c cs v vs :
  Forall2 component_ok (c :: cs) (v :: vs) -> v + zsum vs <= max_int64 ->
  ParseDuration (component_text (c :: cs)) = Some (v + zsum vs).
Proof.
  intros Hcs Hle. unfold max_int64 in Hle.
  pose proof (parse_components_text (c :: cs) (v :: vs) (String.length (component_text (c :: cs))) 0 Hcs ltac:(lia) ltac:(simpl; lia) ltac:(lia)) as Hp.
  inversion Hcs as [|? ? ? ? Hc Hrest]; subst. pose proof (zsum_nonneg _ _ Hrest) as Hsum.
  pose proof Hc as (d & Hu & Hn & Hv & Hf). destruct (unitMap_text _ _ Hu) as (_ & Hstart & Hd).
  pose proof (component_ok_nonneg c v Hc) as Hv0.
  set (t := fmt_frac (c_prec c) (c_frac c) false (String.append (c_unit c) (component_text cs))).
  assert (Ht : match t with String c _ => is_digit c = false | EmptyString => True end /\ (0 < String.length t)%nat).
  { assert (Hl : (String.length (String.append (c_unit c) (component_text cs)) <= String.length t)%nat)
      by apply fmt_frac_length.
    rewrite string_length_app in Hl.
    assert (Hul : (0 < String.length (c_unit c))%nat) by (destruct (c_unit c); [done|simpl; lia]).
    split; [|lia]. unfold t. destruct Hf as [->|(Hf & -> & _)].
    - rewrite fmt_frac_zero. by apply not_starts_digit.
    - by destruct (fmt_frac_digits (c_prec c) (c_frac c) (String.append (c_unit c) (component_text cs)) Hf)
        as (k & g & _ & _ & _ & ->). }
  destruct Ht as [Ht Htl].
  destruct (leadingInt_before (c_whole c) t) as (x & s & Hx & Hs & Hlen & _);
    [destruct Hf as [Hf|(? & _)]; nia|done|].
  cbn [component_text] in *. fold t in Hp |- *. rewrite Hs in *. unfold ParseDuration. rewrite parse_sign_digit by done.
  destruct (String.eqb_spec (String (digit_chr x) s) "0") as [[= _ ->]|_]; [simpl in Hlen; lia|].
  replace (String (digit_chr x) s =? "")%string with false by done. rewrite Hp. rewrite Z.add_0_l.
  cbn [zsum]. by destruct (Z.ltb_spec (2 ^ 63 - 1) (v + zsum vs)); [lia|].
Qed.

(** ** The components of a duration *)

Definition whole_ (n : Z) (u : string) : component := {| c_whole := n; c_prec := 0; c_frac := 0; c_unit := u |}.

Definition micro_sign : string := String.append (encode_rune 181) "s".

Definition duration_components (d : Z) : list component :=
  if d <? Microsecond then [whole_ d "ns"]
  else if d <? Millisecond then
    [{| c_whole := d / Microsecond; c_prec := 3; c_frac := d mod Microsecond; c_unit := micro_sign |}]
  else if d <? Second then
    [{| c_whole := d / Millisecond; c_prec := 6; c_frac := d mod Millisecond; c_unit := "ms" |}]
  else
    let secs := d / Second in
    let s := {| c_whole := secs mod 60; c_prec := 9; c_frac := d mod Second; c_unit := "s" |} in
    if secs / 60 =? 0 then [s]
    else if secs / 60 / 60 =? 0 then [whole_ (secs / 60 mod 60) "m"; s]
    else [whole_ (secs / 60 / 60) "h"; whole_ (secs / 60 mod 60) "m"; s].

Lemma DurationString_components d : 0 < d -> DurationString d = component_text (duration_components d).
Proof.
  intros Hd. unfold DurationString, duration_components. rewrite (Z.abs_eq d) by lia.
  destruct (Z.eqb_spec d 0); [lia|]. destruct (Z.ltb_spec d 0); [lia|].
  destruct (d <? Microsecond); [cbn [component_text whole_ c_whole c_prec c_frac c_unit fmt_frac]; by rewrite string_app_nil_r|].
  destruct (d <? Millisecond); [cbn [component_text c_whole c_prec c_frac c_unit]; by rewrite string_app_nil_r|].
  destruct (d <? Second); [cbn [component_text c_whole c_prec c_frac c_unit]; by rewrite string_app_nil_r|].
  destruct (d / Second / 60 =? 0); [done|]. by destruct (d / Second / 60 / 60 =? 0).
Qed.

Lemma component_whole n u d : unitMap u = Some d -> 0 <= n -> component_ok (whole_ n u) (n * d).
Proof. intros Hu Hn. exists d. simpl. split_and!; [done..|lia|by left]. Qed.

Lemma component_split x prec d u :
  unitMap u = Some d -> d = 10 ^ Z.of_nat prec -> (prec <= 9)%nat -> 0 <= x ->
  forall n, 0 <= n -> component_ok {| c_whole := n; c_prec := prec; c_frac := x mod d; c_unit := u |} (n * d + x mod d).
Proof.
  intros Hu Hd Hp Hx n Hn. destruct (unitMap_text u d Hu) as (_ & _ & Hd0). exists d. simpl. split_and!; [done..|].
  pose proof (Z.mod_pos_bound x d Hd0). destruct (Z.eq_dec (x mod d) 0); [by left|right]. split_and!; [lia|lia|done|done].
Qed.

(** Every positive duration, up to the largest, is read back from its text. *)
Lemma ParseDuration_DurationString d :
  0 < d <= max_int64 -> ParseDuration (DurationString d) = Some d.
Proof.
  intros [Hd Hle]. rewrite DurationString_components by done. unfold duration_components.
  assert (Htotal : forall c cs v vs, component_ok c v -> Forall2 component_ok cs vs -> v + zsum vs = d ->
            ParseDuration (component_text (c :: cs)) = Some d).
  { intros c cs v vs Hc Hcs Hv. rewrite <- Hv. apply ParseDuration_text; [by constructor|lia]. }
  destruct (d <? Microsecond).
  { eapply Htotal; [apply (component_whole d "ns" Nanosecond); [done|lia]|constructor|]. unfold Nanosecond. simpl. lia. }
  pose proof (fun u prec k Hu Hk Hp => component_split d prec k u Hu Hk Hp ltac:(lia)) as Hsplit.
  destruct (d <? Millisecond).
  { eapply Htotal; [apply (Hsplit micro_sign 3%nat Microsecond); [done|done|lia|apply Z.div_pos; [lia|done]]|constructor|].
    pose proof (Z.div_mod d Microsecond ltac:(done)). simpl. lia. }
  destruct (d <? Second).
  { eapply Htotal; [apply (Hsplit "ms" 6%nat Millisecond); [done|done|lia|apply Z.div_pos; [lia|done]]|constructor|].
    pose proof (Z.div_mod d Millisecond ltac:(done)). simpl. lia. }
  set (secs := d / Second). set (m := secs / 60). set (h := m / 60). cbv zeta.
  assert (Hdsecs : d = Second * secs + d mod Second) by (apply Z.div_mod; done).
  assert (Hsecs : secs = 60 * m + secs mod 60) by (apply Z.div_mod; lia).
  assert (Hm : m = 60 * h + m mod 60) by (apply Z.div_mod; lia).
  pose proof (Z.mod_pos_bound secs 60 ltac:(lia)) as Hsb. pose proof (Z.mod_pos_bound m 60 ltac:(lia)) as Hmb.
  assert (Hs0 : 0 <= secs) by (apply Z.div_pos; [lia|done]).
  assert (Hm0 : 0 <= m) by (apply Z.div_pos; lia). assert (Hh0 : 0 <= h) by (apply Z.div_pos; lia).
  pose proof (Hsplit "s" 9%nat Second eq_refl eq_refl ltac:(lia) (secs mod 60) ltac:(lia)) as Hsok.
  pose proof (component_whole (m mod 60) "m" Minute eq_refl ltac:(lia)) as Hmok.
  pose proof (component_whole h "h" Hour eq_refl Hh0) as Hhok.
  assert (Hmin : Minute = 60 * Second) by done. assert (Hhour : Hour = 60 * 60 * Second) by done.
  destruct (Z.eqb_spec m 0) as [Hz|_]; [|destruct (Z.eqb_spec h 0) as [Hz|_]].
  - eapply Htotal; [exact Hsok|constructor|]. simpl. nia.
  - eapply Htotal; [exact Hmok|constructor; [exact Hsok|constructor]|]. simpl. nia.
  - eapply Htotal; [exact Hhok|constructor; [exact Hmok|constructor; [exact Hsok|constructor]]|]. simpl. nia.
Qed.
