(* ===== verification/GoCrypto.v ===== *)
(** * crypto/sha256 and encoding/hex

    SHA-256 (FIPS 180-4) over byte strings, executable, so that certificate
    fingerprints and replay-cache keys are the values the broker computes. *)
From S2P Require Import Prelude GoLib.

(** A [[]byte] value. *)
Abbreviation bytes := (list Byte.byte).

Definition bytes_of_string : string -> bytes := list_byte_of_string.
Definition string_of_bytes : bytes -> string := string_of_list_byte.

(** [byte(n)] for [n < 256] *)
Definition byte_of (n : N) : Byte.byte := match Byte.of_N n with Some b => b | None => Byte.x00 end.

Lemma byte_of_to_N b : byte_of (Byte.to_N b) = b.
Proof. unfold byte_of. by rewrite Byte.of_to_N. Qed.

Lemma byte_to_N_bound b : (Byte.to_N b < 256)%N.
Proof. pose proof (Byte.to_N_bounded b). lia. Qed.

Lemma to_N_byte_of n : (n < 256)%N -> Byte.to_N (byte_of n) = n.
Proof.
  intros Hn. unfold byte_of. destruct (Byte.of_N n) as [b|] eqn:Hb.
  - by apply Byte.to_of_N.
  - apply Byte.of_N_None_iff in Hb. lia.
Qed.

(** [hex.EncodeToString] *)
Definition hex_EncodeToString (b : bytes) : string :=
  String.concat "" (map (fun x => hex_byte (Byte.to_N x)) b).

Module Sha256.
Local Open Scope N_scope.

Definition mask (x : N) : N := x mod 4294967296.
Definition rotr (n x : N) : N := N.lor (N.shiftr x n) (mask (N.shiftl x (32 - n))).
Definition lnot32 (x : N) : N := N.lxor x 4294967295.
Definition ch (x y z : N) : N := N.lxor (N.land x y) (N.land (lnot32 x) z).
Definition maj (x y z : N) : N := N.lxor (N.lxor (N.land x y) (N.land x z)) (N.land y z).
Definition bsig0 x := N.lxor (N.lxor (rotr 2 x) (rotr 13 x)) (rotr 22 x).
Definition bsig1 x := N.lxor (N.lxor (rotr 6 x) (rotr 11 x)) (rotr 25 x).
Definition ssig0 x := N.lxor (N.lxor (rotr 7 x) (rotr 18 x)) (N.shiftr x 3).
Definition ssig1 x := N.lxor (N.lxor (rotr 17 x) (rotr 19 x)) (N.shiftr x 10).

(** The first 64 primes, from which FIPS 180-4 derives the constants: the
    first 32 fractional bits of cube roots (round constants) and of square
    roots (initial state). *)
Definition primes : list N :=
  filter (fun p => forallb (fun d => negb (p mod d =? 0)) (map N.of_nat (seq 2 (N.to_nat p - 2))))
    (map N.of_nat (seq 2 310)).

(** Integer cube root, one bit at a time from bit [n]. *)
Fixpoint cube_root (n : nat) (target root : N) : N :=
  let bit := 2 ^ N.of_nat n in
  let root' := if (root + bit) ^ 3 <=? target then root + bit else root in
  match n with O => root' | S n' => cube_root n' target root' end.

Definition K : list N := Eval vm_compute in map (fun p => mask (cube_root 35 (p * 2 ^ 96) 0)) primes.
Definition H0 : list N := Eval vm_compute in map (fun p => mask (N.sqrt (p * 2 ^ 64))) (firstn 8 primes).

Definition byte_at (shift x : N) : Byte.byte :=
  match Byte.of_N (N.land (N.shiftr x shift) 255) with Some b => b | None => Byte.x00 end.
Definition word_bytes (x : N) : bytes := [byte_at 24 x; byte_at 16 x; byte_at 8 x; byte_at 0 x].

(** Message padding: 0x80, zeros, and the bit length in eight bytes. *)
Definition pad (m : bytes) : bytes :=
  let len := N.of_nat (length m) in
  let zeros := (119 - len mod 64) mod 64 in
  m ++ [Byte.x80] ++ repeat Byte.x00 (N.to_nat zeros)
    ++ word_bytes (mask (N.shiftr (8 * len) 32)) ++ word_bytes (mask (8 * len)).

Fixpoint words (m : bytes) : list N :=
  match m with
  | a :: b :: c :: d :: m' =>
      (Byte.to_N a * 16777216 + Byte.to_N b * 65536 + Byte.to_N c * 256 + Byte.to_N d) :: words m'
  | _ => []
  end.

Definition w_at (n : nat) (ws : list N) : N := List.nth n ws 0.

(** The message schedule, most recent word first. *)
Fixpoint schedule (n : nat) (rev_ws : list N) : list N :=
  match n with
  | O => rev rev_ws
  | S n' =>
      let x := mask (ssig1 (w_at 1 rev_ws) + w_at 6 rev_ws + ssig0 (w_at 14 rev_ws) + w_at 15 rev_ws) in
      schedule n' (x :: rev_ws)
  end.

Definition round (h : list N) (kw : N * N) : list N :=
  match h with
  | [a; b; c; d; e; f; g; h] =>
      let t1 := h + bsig1 e + ch e f g + fst kw + snd kw in
      let t2 := bsig0 a + maj a b c in
      [mask (t1 + t2); a; b; c; mask (d + t1); e; f; g]
  | _ => h
  end.

Definition block (h : list N) (ws : list N) : list N :=
  let h' := fold_left round (combine K (schedule 48 (rev ws))) h in
  map (fun p => mask (fst p + snd p)) (combine h h').

Fixpoint blocks (n : nat) (h : list N) (ws : list N) : list N :=
  match n with
  | O => h
  | S n' => blocks n' (block h (firstn 16 ws)) (skipn 16 ws)
  end.

(** [sha256.Sum256] *)
Definition Sum256 (m : bytes) : bytes :=
  let p := pad m in
  concat (map word_bytes (blocks (length p / 64) H0 (words p))).
End Sha256.

(** The FIPS 180-4 test vectors for the empty message and for "abc". *)
Lemma sha256_vectors :
  hex_EncodeToString (Sha256.Sum256 (bytes_of_string "")) =
    "e3b0c44298fc1c149afbf4c8996fb92427ae41e4649b934ca495991b7852b855" /\
  hex_EncodeToString (Sha256.Sum256 (bytes_of_string "abc")) =
    "ba7816bf8f01cfea414140de5dae2223b00361a396177a9cb410ff61f20015ad".
Proof. split; vm_compute; reflexivity. Qed.
