(* ===== verification/GoNet.v ===== *)
(** * net and net/url: IP addresses, host:port pairs, path escaping

    [net.IP] is a byte slice of 4 or 16 bytes.  [ParseIP] and [IP_String]
    follow [net/netip]; [SplitHostPort] follows [net]; [PathEscape] follows
    [net/url]. *)
From S2P Require Import Prelude GoLib GoCrypto.

Abbreviation IP := (list N).

(** [ip.To4()]: the 4-byte form of an IPv4 or IPv4-mapped address. *)
Definition To4 (ip : IP) : option IP :=
  match ip with
  | [_; _; _; _] => Some ip
  | [0; 0; 0; 0; 0; 0; 0; 0; 0; 0; 255; 255; a; b; c; d]%N => Some [a; b; c; d]
  | _ => None
  end.

Definition list_eqb_N (a b : list N) : bool := list_forall2b N.eqb a b.

(** [ip.Equal(x)]: an IPv4 address equals its IPv4-mapped form. *)
Definition IP_Equal (ip x : IP) : bool :=
  match To4 ip, To4 x with
  | Some a, Some b => list_eqb_N a b
  | None, None => list_eqb_N ip x
  | _, _ => false
  end.

Definition N_Itoa (n : N) : string := Itoa (Z.of_N n).

(** 16-bit groups of a 16-byte address. *)
Fixpoint groups (ip : list N) : list N :=
  match ip with
  | a :: b :: rest => (a * 256 + b)%N :: groups rest
  | _ => []
  end.

Fixpoint zero_run (g : list N) : nat :=
  match g with
  | 0%N :: g' => S (zero_run g')
  | _ => O
  end.

(** The first longest run of at least two zero groups: (start, length). *)
Fixpoint longest_run (i : nat) (g : list N) (best : nat * nat) : nat * nat :=
  match g with
  | [] => best
  | _ :: g' =>
      let l := zero_run g in
      longest_run (S i) g' (if (snd best <? l)%nat && (2 <=? l)%nat then (i, l) else best)
  end.

Definition hex_group (n : N) : string := hex_digits 4 n "".

(** [net.IP.String] *)
Definition IP_String (ip : IP) : string :=
  match ip with
  | [] => "<nil>"
  | _ =>
    match To4 ip with
    | Some b => Join (map N_Itoa b) "."
    | None =>
        if (length ip =? 16)%nat then
          let g := groups ip in
          match longest_run 0 g (O, O) with
          | (_, O) => Join (map hex_group g) ":"
          | (start, len) =>
              String.append (Join (map hex_group (firstn start g)) ":")
                (String.append "::" (Join (map hex_group (skipn (start + len) g)) ":"))
          end
        else String "?" (String.concat "" (map hex_byte ip))
    end
  end.

Definition is_digit (c : ascii) : bool := byte_between 48 57 c.

(** One dotted-decimal octet loop of [netip.parseIPv4Fields]: [acc] holds the
    finished fields in reverse, [val] and [len] the field being read. *)
Fixpoint ipv4_fields (s : string) (acc : list N) (val : N) (len : nat) : option (list N) :=
  match s with
  | EmptyString => if (length acc =? 3)%nat && (0 <? len)%nat then Some (rev (val :: acc)) else None
  | String c s' =>
      if is_digit c then
        let val' := (val * 10 + (byte_val c - 48))%N in
        if ((len =? 1)%nat && (val =? 0)%N) || (255 <? val')%N then None
        else ipv4_fields s' acc val' (S len)
      else if Ascii.eqb c "." then
        if (len =? 0)%nat || (length acc =? 3)%nat then None
        else ipv4_fields s' (val :: acc) 0%N 0
      else None
  end.

Definition parseIPv4 (s : string) : option (list N) := ipv4_fields s [] 0%N 0.

Definition hex_val (c : ascii) : option N :=
  (if byte_between 48 57 c then Some (byte_val c - 48)
   else if byte_between 97 102 c then Some (byte_val c - 87)
   else if byte_between 65 70 c then Some (byte_val c - 55)
   else None)%N.

(** The hex digits at the head of [s]: value, number of digits, rest; [None]
    when there are more than four. *)
Fixpoint hex_group_prefix (s : string) (off : nat) (acc : N) : option (N * nat * string) :=
  match s with
  | String c s' =>
      match hex_val c with
      | Some d => if (3 <? off)%nat then None else hex_group_prefix s' (S off) (acc * 16 + d)%N
      | None => Some (acc, off, s)
      end
  | EmptyString => Some (acc, off, s)
  end.

(** The group loop of [netip.parseIPv6]: [out] is what is parsed so far,
    [ellipsis] where "::" was.  Each turn consumes two bytes of the address,
    so eight turns are enough. *)
Fixpoint ipv6_loop (fuel : nat) (s : string) (out : list N) (ellipsis : option nat)
    : option (list N * option nat) :=
  match fuel with
  | O => match s with EmptyString => Some (out, ellipsis) | _ => None end
  | S fuel' =>
      match hex_group_prefix s 0 0%N with
      | None | Some (_, O, _) => None
      | Some (acc, _, rest) =>
          match rest with
          | String "." _ =>
              if (match ellipsis with None => negb (length out =? 12)%nat | Some _ => false end)
                 || (12 <? length out)%nat then None
              else match parseIPv4 s with
                   | Some v4 => Some (out ++ v4, ellipsis)
                   | None => None
                   end
          | _ =>
              let out' := out ++ [acc / 256; acc mod 256]%N in
              match rest with
              | EmptyString => Some (out', ellipsis)
              | String ":" (String ":" rest') =>
                  match ellipsis with
                  | Some _ => None
                  | None => match rest' with
                            | EmptyString => Some (out', Some (length out'))
                            | _ => ipv6_loop fuel' rest' out' (Some (length out'))
                            end
                  end
              | String ":" (String c rest') => ipv6_loop fuel' (String c rest') out' ellipsis
              | _ => None
              end
          end
      end
  end.

Definition expand_ellipsis (p : list N * option nat) : option (list N) :=
  let '(out, ellipsis) := p in
  match ellipsis with
  | None => if (length out =? 16)%nat then Some out else None
  | Some k => if (length out <? 16)%nat
              then Some (firstn k out ++ repeat 0%N (16 - length out) ++ skipn k out)
              else None
  end.

Definition parseIPv6 (s : string) : option (list N) :=
  match s with
  | String ":" (String ":" EmptyString) => Some (repeat 0%N 16)
  | String ":" (String ":" rest) => ipv6_loop 8 rest [] (Some O) ≫= expand_ellipsis
  | _ => ipv6_loop 8 s [] None ≫= expand_ellipsis
  end.

(** The first of '.', ':' and '%' decides the syntax, as in [netip.ParseAddr]. *)
Fixpoint first_separator (s : string) : option ascii :=
  match s with
  | EmptyString => None
  | String c s' =>
      if Ascii.eqb c "." || Ascii.eqb c ":" || Ascii.eqb c "%" then Some c else first_separator s'
  end.

(** [net.ParseIP]: the 16-byte form, or [None] for nil.  A zone ("%eth0") is
    never accepted: '%' is no hex digit. *)
Definition ParseIP (s : string) : option IP :=
  match first_separator s with
  | Some "."%char =>
      match parseIPv4 s with
      | Some v4 => Some (repeat 0%N 10 ++ [255; 255]%N ++ v4)
      | None => None
      end
  | Some ":"%char => parseIPv6 s
  | _ => None
  end.

(** [strings.IndexByte(s, c) >= 0] *)
Definition contains_byte (s : string) (c : ascii) : bool :=
  negb (string_forallb (fun d => negb (Ascii.eqb d c)) s).

(** [net.SplitHostPort]: [None] on any of its errors. *)
Definition SplitHostPort (hostport : string) : option (string * string) :=
  match CutLast hostport ":" with
  | None => None
  | Some (before, port) =>
      match hostport with
      | String "[" rest =>
          match Cut rest "]" with
          | None => None
          | Some (host, after) =>
              (* after must be exactly ":port" *)
              if negb (after =? String ":" port)%string then None
              else if contains_byte host "[" || contains_byte after "[" || contains_byte after "]"
              then None
              else Some (host, port)
          end
      | _ =>
          if contains_byte before ":" then None
          else if contains_byte hostport "[" || contains_byte hostport "]" then None
          else Some (before, port)
      end
  end.

(** [url.PathEscape]: unreserved bytes and "$&+:=@" are kept in a path segment. *)
Definition path_segment_byte (c : ascii) : bool :=
  byte_between 48 57 c || byte_between 65 90 c || byte_between 97 122 c
  || existsb (Ascii.eqb c) ["-"; "_"; "."; "~"; "$"; "&"; "+"; ":"; "="; "@"]%char.

Definition upper_hex_digit (d : N) : ascii :=
  if (d <? 10)%N then byte_chr (48 + d) else byte_chr (55 + d).

Fixpoint PathEscape (s : string) : string :=
  match s with
  | EmptyString => EmptyString
  | String c s' =>
      if path_segment_byte c then String c (PathEscape s')
      else String "%" (String (upper_hex_digit (byte_val c / 16)%N)
             (String (upper_hex_digit (byte_val c mod 16)%N) (PathEscape s')))
  end.
