(* ===== verification/X509.v ===== *)
(** * crypto/x509 and crypto/tls data the broker reads

    The fields of [x509.Certificate], [x509.CertificateRequest] and
    [tls.ConnectionState] that the broker uses.  Parsing, signatures and chain
    building are the cryptographic library's: they are operations of the class
    [X509], with no law assumed about them. *)
From S2P Require Import Prelude GoLib GoCrypto GoNet.

(** [pkix.Name] *)
Record Name := {
  CommonName : string;
  OrganizationalUnit : list string;
  Organization : list string;
}.

(** A parsed [url.URL]; the broker only ever calls its [String] method. *)
Record URL := { URL_String : string }.

Inductive Curve := P224 | P256 | P384 | P521 | OtherCurve (name : string).

#[export] Instance Curve_eq_dec : EqDecision Curve.
Proof. solve_decision. Defined.

Definition Curve_Name (c : Curve) : string :=
  match c with
  | P224 => "P-224" | P256 => "P-256" | P384 => "P-384" | P521 => "P-521"
  | OtherCurve n => n
  end.

(** The dynamic type of a public key. *)
Inductive PublicKey :=
| RSAKey (N_BitLen : Z)
| ECDSAKey (curve : Curve)
| Ed25519Key
| OtherKey (type_name : string).

Record Certificate := {
  Raw : bytes;
  Subject : Name;
  SerialNumber : Z;
  NotBefore : Time;
  NotAfter : Time;
  DNSNames : list string;
  EmailAddresses : list string;
  IPAddresses : list IP;
  URIs : list URL;
}.

Record CertificateRequest := {
  CSR_Raw : bytes;
  CSR_RawTBS : bytes;
  CSR_Subject : Name;
  CSR_PublicKey : PublicKey;
  CSR_DNSNames : list string;
  CSR_IPAddresses : list IP;
  CSR_URIs : list URL;
}.

Inductive ExtKeyUsage := ExtKeyUsageAny | ExtKeyUsageServerAuth | ExtKeyUsageClientAuth.

#[export] Instance ExtKeyUsage_eq_dec : EqDecision ExtKeyUsage.
Proof. solve_decision. Defined.

(** A trust-anchor pool is known by the certificates added to it. *)
Record CertPool := { pool_certs : list Certificate }.
Definition NewCertPool : CertPool := {| pool_certs := [] |}.
Definition AddCert (p : CertPool) (c : Certificate) : CertPool :=
  {| pool_certs := pool_certs p ++ [c] |}.

Record VerifyOptions := {
  Roots : CertPool;
  Intermediates : CertPool;
  KeyUsages : list ExtKeyUsage;
}.

(** [tls.ConnectionState] *)
Record ConnectionState := { PeerCertificates : list Certificate }.

Class X509 := {
  ParseCertificate : bytes -> result Certificate;
  ParseCertificateRequest : bytes -> result CertificateRequest;
  (** [csr.CheckSignature()] *)
  CheckSignature : CertificateRequest -> result unit;
  (** [leaf.Verify(opts)] *)
  Verify : Certificate -> VerifyOptions -> result unit;
}.

(** ** Concrete certificates and requests, for the runs of the witnesses *)

Definition exampleName (cn : string) : Name :=
  {| CommonName := cn; OrganizationalUnit := ["devices"]; Organization := [] |}.

Definition exampleCert (cn : string) (dns : list string) (lifetime : Duration) : Certificate :=
  {| Raw := bytes_of_string cn; Subject := exampleName cn; SerialNumber := 31;
     NotBefore := 0; NotAfter := lifetime; DNSNames := dns; EmailAddresses := [];
     IPAddresses := []; URIs := [] |}.

Definition exampleCSR (cn : string) (dns : list string) : CertificateRequest :=
  {| CSR_Raw := bytes_of_string cn; CSR_RawTBS := []; CSR_Subject := exampleName cn;
     CSR_PublicKey := ECDSAKey P256; CSR_DNSNames := dns; CSR_IPAddresses := []; CSR_URIs := [] |}.

(** A library in which a certificate or a request is the text of its common
    name, every request is signed, and a leaf verifies if its common name is the
    one of a root. *)
Definition toyX509 : X509 := {|
  ParseCertificate b := Ok (exampleCert (string_of_bytes b) [] Hour);
  ParseCertificateRequest b := Ok (exampleCSR (string_of_bytes b) []);
  CheckSignature _ := Ok tt;
  Verify leaf o :=
    if existsb (fun c => (CommonName (Subject c) =? CommonName (Subject leaf))%string) (pool_certs (Roots o))
    then Ok tt else Err "x509: certificate signed by unknown authority";
|}.
