(* ===== verification/Authz.v ===== *)
(** * internal/authz: the vocabulary of the policy engine

    [authz.go] and [identity.go]: requests, decisions, the [Authorizer]
    interface with its two trivial implementations, and the separation of the
    authenticated identity from the requested one. *)
From S2P Require Import Prelude GoLib GoCrypto GoNet X509.

(** ** authz.go *)

Inductive Operation := OpSimpleEnroll | OpSimpleReenroll | OpServerKeyGen.

#[export] Instance Operation_eq_dec : EqDecision Operation.
Proof. solve_decision. Defined.

Record Request := {
  Req_Operation : Operation;
  Req_ClientCert : option Certificate;
  Req_CSR : option CertificateRequest;
  Req_ChallengePassword : string;
  Req_Label : string;
  Req_RemoteAddr : string;
}.

Record CertConstraints := {
  C_CommonName : string;
  C_DNSNames : list string;
  C_IPs : list string;
  C_URIs : list string;
  C_TTL : Duration;
  C_ExcludeCNFromSANs : bool;
}.

Definition zeroConstraints : CertConstraints :=
  {| C_CommonName := ""; C_DNSNames := []; C_IPs := []; C_URIs := [];
     C_TTL := 0; C_ExcludeCNFromSANs := false |}.

Record Decision := {
  Allow : bool;
  D_Role : string;
  D_Constraints : CertConstraints;
  Reason : string;
}.

Definition Deny (reason : string) : Decision :=
  {| Allow := false; D_Role := ""; D_Constraints := zeroConstraints; Reason := reason |}.

(** The zero [Decision{}] returned with an error. *)
Definition zeroDecision : Decision := Deny "".

(** The [Authorizer] interface.  An authorizer may hold state (the one-time
    codes of a challenge store), so a call returns the authorizer it leaves
    behind; the clock it may read is an argument. *)
Class Authorizer (A : Type) :=
  Authorize : A -> Time -> Request -> A * result Decision.

Inductive DenyAll := MkDenyAll.

#[export] Instance DenyAll_Authorize : Authorizer DenyAll :=
  fun a _ _ => (a, Ok (Deny "no authorizer configured")).

Definition urisToStrings (us : list URL) : list string := map URL_String us.

Definition ipsToStrings (csr : CertificateRequest) : list string :=
  map IP_String (CSR_IPAddresses csr).

Record AllowAllEcho := { Echo_Role : string }.

#[export] Instance AllowAllEcho_Authorize : Authorizer AllowAllEcho :=
  fun a _ req =>
    let c := match Req_CSR req with
             | Some csr =>
                 {| C_CommonName := CommonName (CSR_Subject csr);
                    C_DNSNames := CSR_DNSNames csr;
                    C_IPs := ipsToStrings csr;
                    C_URIs := urisToStrings (CSR_URIs csr);
                    C_TTL := 0; C_ExcludeCNFromSANs := false |}
             | None => zeroConstraints
             end in
    (a, Ok {| Allow := true; D_Role := Echo_Role a; D_Constraints := c;
              Reason := "allow-all-echo (dev only)" |}).

(** ** identity.go *)

Record Identity := {
  Authenticated : bool;
  Id_CommonName : string;
  OrgUnits : list string;
  Orgs : list string;
  Id_DNSNames : list string;
  Serial : string;
  Fingerprint : string;
  Label : string;
  RequestedCN : string;
  RequestedDNS : list string;
  RequestedIPs : list string;
  RequestedURIs : list string;
}.

Definition resolveIdentity `{UnicodeTables} (req : Request) : Identity :=
  let cert := Req_ClientCert req in
  let csr := Req_CSR req in
  {| Authenticated := match cert with Some _ => true | None => false end;
     Id_CommonName := match cert with Some c => CommonName (Subject c) | None => "" end;
     OrgUnits := match cert with Some c => OrganizationalUnit (Subject c) | None => [] end;
     Orgs := match cert with Some c => Organization (Subject c) | None => [] end;
     Id_DNSNames := match cert with Some c => DNSNames c | None => [] end;
     Serial := match cert with Some c => ToLower (Text16 (SerialNumber c)) | None => "" end;
     Fingerprint := match cert with
                    | Some c => hex_EncodeToString (Sha256.Sum256 (Raw c))
                    | None => ""
                    end;
     Label := Req_Label req;
     RequestedCN := match csr with Some r => CommonName (CSR_Subject r) | None => "" end;
     RequestedDNS := match csr with Some r => CSR_DNSNames r | None => [] end;
     RequestedIPs := match csr with Some r => ipsToStrings r | None => [] end;
     RequestedURIs := match csr with Some r => urisToStrings (CSR_URIs r) | None => [] end |}.

(** Nothing is authenticated without a client certificate: every
    authenticated attribute is then empty. *)
Lemma resolveIdentity_unauthenticated `{UnicodeTables} req :
  Req_ClientCert req = None ->
  let id := resolveIdentity req in
  Authenticated id = false /\ Id_CommonName id = "" /\ OrgUnits id = [] /\ Orgs id = []
  /\ Id_DNSNames id = [] /\ Serial id = "" /\ Fingerprint id = "".
Proof. intros Hc. simpl. by rewrite Hc. Qed.

Lemma resolveIdentity_authenticated `{UnicodeTables} req :
  Authenticated (resolveIdentity req) = true <-> exists c, Req_ClientCert req = Some c.
Proof. simpl. destruct (Req_ClientCert req); naive_solver. Qed.

(** A request as a handler would build it, for the runs of the witnesses. *)
Definition exampleRequest (op : Operation) (cert : option Certificate) (csr : CertificateRequest)
    (password : string) : Request :=
  {| Req_Operation := op; Req_ClientCert := cert; Req_CSR := Some csr;
     Req_ChallengePassword := password; Req_Label := ""; Req_RemoteAddr := "192.0.2.1:4711" |}.
