(* ===== verification/Match.v ===== *)
(** * internal/authz/match.go and roles.go: globs and role selectors *)
From S2P Require Import Prelude GoLib GoCrypto X509 Authz.

Section Match.
Context `{UnicodeTables}.

(** ** match.go *)

Definition globMatch (pattern value : string) : bool :=
  let pattern := ToLower (TrimSpace pattern) in
  let value := ToLower (TrimSpace value) in
  if (pattern =? "*")%string then true
  else if HasPrefix pattern "*." then
    let suffix := string_drop 1 pattern in
    HasSuffix value suffix && (String.length suffix <? String.length value)%nat
  else (pattern =? value)%string.

Definition anyGlobMatch (pattern : string) (values : list string) : bool :=
  existsb (fun v => globMatch pattern v) values.

Fixpoint allAllowed (names patterns : list string) : bool :=
  match names with
  | [] => true
  | n :: names' =>
      if existsb (fun p => globMatch p n) patterns then allAllowed names' patterns
      else false
  end.

(** ** roles.go *)

Record Rule := { Rule_Match : string; Rule_Role : string }.

(** A bare "*" matches anything; "key:pattern" looks at one attribute. *)
Definition matchSelector (selector : string) (id : Identity) : bool :=
  let selector := TrimSpace selector in
  if (selector =? "*")%string then true
  else match Cut selector ":" with
  | None => false
  | Some (key, pattern) =>
      let key := ToLower (TrimSpace key) in
      let pattern := TrimSpace pattern in
      if (key =? "cn")%string then
        let cn := if (Id_CommonName id =? "")%string then RequestedCN id else Id_CommonName id in
        globMatch pattern cn
      else if (key =? "ou")%string then anyGlobMatch pattern (OrgUnits id)
      else if (key =? "o")%string then anyGlobMatch pattern (Orgs id)
      else if (key =? "san")%string then anyGlobMatch pattern (RequestedDNS id)
      else if (key =? "label")%string then globMatch pattern (Label id)
      else if (key =? "serial")%string then globMatch pattern (Serial id)
      else false
  end.

Class RoleSelector (R : Type) := Role : R -> Identity -> string.

Record RuleSelector := { Rules : list Rule; Default : string }.

Definition NewRuleSelector (rules : list Rule) (def : string) : RuleSelector :=
  {| Rules := rules; Default := def |}.

Fixpoint firstRole (rules : list Rule) (def : string) (id : Identity) : string :=
  match rules with
  | [] => def
  | r :: rules' => if matchSelector (Rule_Match r) id then Rule_Role r
                   else firstRole rules' def id
  end.

#[export] Instance RuleSelector_Role : RoleSelector RuleSelector :=
  fun s id => firstRole (Rules s) (Default s) id.
End Match.

Section MatchTheorems.
Context `{UnicodeTables}.

(** What two names are compared on: trimmed and lower-cased. *)
Definition norm (s : string) : string := ToLower (TrimSpace s).

(** The three documented pattern forms, on normalised strings. *)
Inductive glob_matches : string -> string -> Prop :=
| glob_any v : glob_matches "*" v
| glob_suffix suffix labels :
    labels <> "" ->
    glob_matches (String.append "*." suffix) (String.append labels (String "." suffix))
| glob_exact p : HasPrefix p "*." = false -> p <> "*" -> glob_matches p p.

Lemma globMatch_iff pattern value :
  globMatch pattern value = true <-> glob_matches (norm pattern) (norm value).
Proof.
  unfold globMatch. fold (norm pattern) (norm value).
  generalize (norm pattern) (norm value). intros p v.
  destruct (String.eqb_spec p "*") as [->|Hstar]; [split; [constructor|done]|].
  destruct (HasPrefix p "*.") eqn:Hp.
  - apply HasPrefix_spec in Hp as [suf ->]. simpl.
    rewrite andb_true_iff, HasSuffix_spec, Nat.ltb_lt. split.
    + intros [[t ->] Hlen]. apply (glob_suffix suf t). intros ->. simpl in Hlen. lia.
    + intros Hg. inversion Hg as [|suf' labels Hl Heq|? Hq]; simplify_eq/=.
      * split; [by exists labels|]. rewrite string_length_app. simpl.
        destruct labels; simpl; [done|lia].
      * unfold HasPrefix in Hq. by destruct suf.
  - rewrite String.eqb_eq. split.
    + intros ->. by constructor.
    + intros Hg. inversion Hg as [|suf ? ? Heq|]; simplify_eq/=; [|done].
      unfold HasPrefix in Hp. by destruct suf.
Qed.

Lemma globMatch_norm_r pattern v v' :
  norm v = norm v' -> globMatch pattern v = globMatch pattern v'.
Proof. unfold globMatch. fold (norm pattern) (norm v) (norm v'). by intros ->. Qed.

Lemma anyGlobMatch_iff pattern values :
  anyGlobMatch pattern values = true <->
  exists v, v ∈ values /\ globMatch pattern v = true.
Proof. apply existsb_elem. Qed.

Lemma allAllowed_iff names patterns :
  allAllowed names patterns = true <->
  forall n, n ∈ names -> exists p, p ∈ patterns /\ globMatch p n = true.
Proof.
  induction names as [|n names IH]; simpl.
  - split; [|done]. intros _ n Hn. by apply not_elem_of_nil in Hn.
  - destruct (existsb _ _) eqn:He.
    + rewrite IH. apply existsb_elem in He. set_solver.
    + split; [done|]. intros Hall.
      assert (Ht : existsb (fun p => globMatch p n) patterns = true)
        by (apply existsb_elem, Hall; set_solver).
      congruence.
Qed.

(** ** Role selection *)

(** The key a selector reads, if it is not the bare "*". *)
Definition selectorKey (selector : string) : option string :=
  let selector := TrimSpace selector in
  if (selector =? "*")%string then None
  else match Cut selector ":" with
       | Some (key, _) => Some (ToLower (TrimSpace key))
       | None => None
       end.

(** Two identities with the same authenticated attributes and label, free
    to differ in everything the CSR asked for. *)
Definition same_authenticated (id id' : Identity) : Prop :=
  Id_CommonName id = Id_CommonName id' /\ OrgUnits id = OrgUnits id' /\
  Orgs id = Orgs id' /\ Label id = Label id' /\ Serial id = Serial id'.

Lemma matchSelector_same sel id id' :
  same_authenticated id id' ->
  selectorKey sel <> Some "san" ->
  (selectorKey sel = Some "cn" -> Id_CommonName id <> "") ->
  matchSelector sel id = matchSelector sel id'.
Proof.
  intros (Hcn & Hou & Ho & Hl & Hs). unfold selectorKey, matchSelector.
  destruct (TrimSpace sel =? "*")%string; [done|].
  destruct (Cut _ _) as [[key pat]|]; [|done].
  rewrite <- Hcn, Hou, Ho, Hl, Hs. intros Hsan Hcnne.
  destruct (String.eqb_spec (ToLower (TrimSpace key)) "cn") as [Hk|]; [|].
  - rewrite Hk in *. specialize (Hcnne eq_refl).
    destruct (String.eqb_spec (Id_CommonName id) ""); done.
  - destruct (String.eqb_spec (ToLower (TrimSpace key)) "ou"); [done|].
    destruct (String.eqb_spec (ToLower (TrimSpace key)) "o"); [done|].
    destruct (String.eqb_spec (ToLower (TrimSpace key)) "san"); [congruence|done].
Qed.

Lemma firstRole_find rules def id :
  firstRole rules def id =
  match find (fun r => matchSelector (Rule_Match r) id) rules with
  | Some r => Rule_Role r
  | None => def
  end.
Proof. induction rules as [|r rules IH]; simpl; [done|]. by destruct (matchSelector _ _). Qed.
End MatchTheorems.

Section MatchProperties.
Context `{UnicodeTables}.

(** C39. [globMatch] decides exactly the three documented pattern forms, on
    trimmed and lower-cased strings: "*" matches anything, "*.suffix" matches
    one or more leading characters before ".suffix" (never the bare suffix),
    and anything else matches only itself. *)
Theorem globMatch_correct pattern value :
  globMatch pattern value = true <-> glob_matches (norm pattern) (norm value).
Proof. apply globMatch_iff. Qed.

(** The role selector is first-match-wins with a default: either some
    rule matches, no earlier one does, and its role is the answer; or no rule
    matches and the default (possibly empty) is. *)
Theorem role_first_match (s : RuleSelector) (id : Identity) :
  (exists pre r post, Rules s = pre ++ r :: post /\
     matchSelector (Rule_Match r) id = true /\
     (forall r', r' ∈ pre -> matchSelector (Rule_Match r') id = false) /\
     Role s id = Rule_Role r) \/
  ((forall r, r ∈ Rules s -> matchSelector (Rule_Match r) id = false) /\
   Role s id = Default s).
Proof.
  change (Role s id) with (firstRole (Rules s) (Default s) id). rewrite firstRole_find.
  destruct (find _ (Rules s)) as [r|] eqn:Hf.
  - left. apply find_first in Hf as (pre & post & Hr & Hm & Hpre).
    exists pre, r, post. split_and!; try done.
    intros r' Hin. rewrite forallb_elem in Hpre. by apply negb_true_iff, Hpre.
  - right. split; [|done]. intros r Hin. apply list_elem_of_In in Hin.
    by apply (find_none _ _ Hf).
Qed.

(** A requester cannot steer role selection through its CSR when the
    rules read the authenticated side: no "san" selector, and "cn" selectors
    only for identities that have an authenticated CN.  Two requests with the
    same authenticated attributes and label then get the same role, whatever
    names their CSRs ask for. *)
Theorem role_ignores_csr (s : RuleSelector) (id id' : Identity)
    (Hsame : same_authenticated id id')
    (Hrules : forall r, r ∈ Rules s ->
       selectorKey (Rule_Match r) <> Some "san" /\
       (selectorKey (Rule_Match r) = Some "cn" -> Id_CommonName id <> "")) :
  Role s id = Role s id'.
Proof.
  change (firstRole (Rules s) (Default s) id = firstRole (Rules s) (Default s) id').
  induction (Rules s) as [|r rules IH]; simpl; [done|].
  destruct (Hrules r) as [Hsan Hcn]; [by left|].
  rewrite (matchSelector_same _ id id') by done.
  destruct (matchSelector _ _); [done|]. apply IH. intros r' Hr'. apply Hrules. by right.
Qed.
End MatchProperties.

(** An identity with everything empty, for concrete runs. *)
Definition anonymous : Identity :=
  {| Authenticated := false; Id_CommonName := ""; OrgUnits := []; Orgs := []; Id_DNSNames := [];
     Serial := ""; Fingerprint := ""; Label := ""; RequestedCN := ""; RequestedDNS := [];
     RequestedIPs := []; RequestedURIs := [] |}.

Lemma role_ignores_csr_witness :
  let _ := ascii_tables in
  let s := NewRuleSelector [{| Rule_Match := "ou:devices"; Rule_Role := "device" |}] "fallback" in
  let id cn := {| Authenticated := true; Id_CommonName := "d1"; OrgUnits := ["devices"];
                  Orgs := []; Id_DNSNames := []; Serial := "1f"; Fingerprint := ""; Label := "";
                  RequestedCN := cn; RequestedDNS := [cn]; RequestedIPs := []; RequestedURIs := [] |} in
  Role s (id "d1") = "device" /\ Role s (id "d1") = Role s (id "admin").
Proof.
  intros U s id. split; [vm_compute; reflexivity|].
  apply (role_ignores_csr (H := ascii_tables) s (id "d1") (id "admin")).
  - vm_compute. repeat split.
  - intros r Hr. apply list_elem_of_singleton in Hr as ->. vm_compute. split; discriminate.
Defined.
