(* ===== verification/Inventory.v ===== *)
(** * internal/authz/inventory.go: the device allowlist

    [Record] and the [Inventory] interface, the permit-all [NoInventory], and
    the YAML-backed [FileInventory] with its atomic [Reload].  Reading the file
    and parsing the YAML are outside the repository ([os], [gopkg.in/yaml.v3]):
    they are the operations of [InventoryFile]. *)
From S2P Require Import Prelude GoLib GoCrypto X509 Authz Match.

Record Record_ := {
  Found : bool;
  AllowedDNSNames : list string;
  R_RequireChallenge : bool;
  R_Role : string;
}.

(** The [Inventory] interface.  A lookup takes the read lock, copies the slice
    header and changes nothing, so it is a function of the inventory's state. *)
Class Inventory (I : Type) := Lookup : I -> Identity -> result Record_.

Inductive NoInventory := MkNoInventory.

#[export] Instance NoInventory_Lookup : Inventory NoInventory :=
  fun _ _ => Ok {| Found := true; AllowedDNSNames := []; R_RequireChallenge := false; R_Role := "" |}.

Record deviceEntry := {
  CN : string;
  E_Serial : string;
  E_Fingerprint : string;
  E_AllowedDNSNames : list string;
  E_RequireChallenge : bool;
  E_Role : string;
}.

Class InventoryFile := {
  inv_ReadFile : string -> result bytes;
  inv_yaml_Unmarshal : bytes -> result (list deviceEntry);
}.

Record FileInventory := { path : string; devices : list deviceEntry }.

Section Inventory.
Context `{UnicodeTables} `{InventoryFile}.

(** Every match key that is set on the entry must match. *)
Definition entryMatches (d : deviceEntry) (id : Identity) (cn : string) : bool :=
  if negb (CN d =? "")%string && negb (globMatch (CN d) cn) then false
  else if negb (E_Serial d =? "")%string && negb (EqualFold (E_Serial d) (Serial id)) then false
  else if negb (E_Fingerprint d =? "")%string && negb (EqualFold (E_Fingerprint d) (Fingerprint id))
  then false
  else true.

Fixpoint lookupDevices (ds : list deviceEntry) (id : Identity) (cn : string) : Record_ :=
  match ds with
  | [] => {| Found := false; AllowedDNSNames := []; R_RequireChallenge := false; R_Role := "" |}
  | d :: ds' =>
      if negb (entryMatches d id cn) then lookupDevices ds' id cn
      else {| Found := true; AllowedDNSNames := E_AllowedDNSNames d;
              R_RequireChallenge := E_RequireChallenge d; R_Role := E_Role d |}
  end.

#[export] Instance FileInventory_Lookup : Inventory FileInventory :=
  fun f id =>
    let cn := if (Id_CommonName id =? "")%string then RequestedCN id else Id_CommonName id in
    Ok (lookupDevices (devices f) id cn).

Definition hasMatchKey (d : deviceEntry) : bool :=
  negb ((CN d =? "") && (E_Serial d =? "") && (E_Fingerprint d =? ""))%string.

(** The validation loop over the parsed entries. *)
Fixpoint checkEntries (i : Z) (ds : list deviceEntry) : result unit :=
  match ds with
  | [] => Ok tt
  | d :: ds' =>
      if ((CN d =? "") && (E_Serial d =? "") && (E_Fingerprint d =? ""))%string
      then Err (Errorf "inventory: device[%d] has no match key (cn/serial/fingerprint)" [FInt i])
      else checkEntries (i + 1) ds'
  end.

Definition readDevices (p : string) : result (list deviceEntry) :=
  let? raw := map_err (fun e => Errorf "inventory: read %s: %w" [FStr p; FStr e]) (inv_ReadFile p) in
  let? parsed := map_err (fun e => Errorf "inventory: parse %s: %w" [FStr p; FStr e])
                   (inv_yaml_Unmarshal raw) in
  let? _ := checkEntries 0 parsed in
  Ok parsed.

Definition Reload (f : FileInventory) : FileInventory * result unit :=
  match readDevices (path f) with
  | Ok ds => ({| path := path f; devices := ds |}, Ok tt)
  | Err e => (f, Err e)
  end.

Definition NewFileInventory (p : string) : result FileInventory :=
  let '(fi, err) := Reload {| path := p; devices := [] |} in
  let? _ := err in Ok fi.

(** ** Theorems *)

Lemma entryMatches_iff d id cn :
  entryMatches d id cn = true <->
  (CN d <> "" -> globMatch (CN d) cn = true) /\
  (E_Serial d <> "" -> EqualFold (E_Serial d) (Serial id) = true) /\
  (E_Fingerprint d <> "" -> EqualFold (E_Fingerprint d) (Fingerprint id) = true).
Proof.
  unfold entryMatches.
  destruct (String.eqb_spec (CN d) ""), (String.eqb_spec (E_Serial d) ""),
    (String.eqb_spec (E_Fingerprint d) ""), (globMatch (CN d) cn),
    (EqualFold (E_Serial d) (Serial id)),
    (EqualFold (E_Fingerprint d) (Fingerprint id)); simpl; naive_solver.
Qed.

Lemma checkEntries_ok i ds :
  checkEntries i ds = Ok tt <-> forall d, d ∈ ds -> hasMatchKey d = true.
Proof.
  revert i. induction ds as [|d ds IH]; intros i; simpl.
  - split; [|done]. intros _ d Hd. by apply not_elem_of_nil in Hd.
  - unfold hasMatchKey in *. destruct ((_ && _ && _)%string) eqn:Hk.
    + split; [done|]. intros Hall. specialize (Hall d ltac:(left)).
      by rewrite Hk in Hall.
    + rewrite IH. split.
      * intros Hall d' [->|Hd]%elem_of_cons; [by rewrite Hk|auto].
      * intros Hall d' Hd. apply Hall. by right.
Qed.

Lemma lookupDevices_find ds id cn :
  lookupDevices ds id cn =
  match find (fun d => entryMatches d id cn) ds with
  | Some d => {| Found := true; AllowedDNSNames := E_AllowedDNSNames d;
                 R_RequireChallenge := E_RequireChallenge d; R_Role := E_Role d |}
  | None => {| Found := false; AllowedDNSNames := []; R_RequireChallenge := false; R_Role := "" |}
  end.
Proof. induction ds as [|d ds IH]; simpl; [done|]. by destruct (entryMatches d id cn). Qed.

Lemma EqualFold_empty_r s : s <> "" -> EqualFold s "" = false.
Proof.
  unfold EqualFold. destruct s as [|c s]; [done|]. intros _. simpl.
  destruct (is_ascii_byte c); [done|].
  repeat match goal with
         | |- context [match ?x with _ => _ end] => destruct x; try done
         end.
Qed.

(** Whoever a serial- or fingerprint-pinned entry matches has presented a
    certificate. *)
Lemma pinned_entry_authenticates d req cn :
  E_Serial d <> "" \/ E_Fingerprint d <> "" ->
  entryMatches d (resolveIdentity req) cn = true ->
  Authenticated (resolveIdentity req) = true.
Proof.
  intros Hpin (_ & Hs & Hf)%entryMatches_iff.
  destruct (Req_ClientCert req) as [c|] eqn:Hc.
  - apply resolveIdentity_authenticated. eauto.
  - apply resolveIdentity_unauthenticated in Hc as (_ & _ & _ & _ & _ & Hser & Hfp).
    rewrite Hser in Hs. rewrite Hfp in Hf. exfalso.
    destruct Hpin as [Hp|Hp].
    + specialize (Hs Hp). by rewrite (EqualFold_empty_r _ Hp) in Hs.
    + specialize (Hf Hp). by rewrite (EqualFold_empty_r _ Hp) in Hf.
Qed.
End Inventory.

Section InventoryProperties.
Context `{UnicodeTables} `{InventoryFile}.

(** [Reload] is all-or-nothing: an unreadable, unparsable or invalid file
    leaves the devices that were there; a successful reload installs the
    parsed entries, each of which has at least one match key. *)
Theorem reload_atomic (f f' : FileInventory) (r : result unit) :
  Reload f = (f', r) ->
  path f' = path f /\
  match r with
  | Err _ => f' = f
  | Ok _ => (exists raw, inv_ReadFile (path f) = Ok raw /\ inv_yaml_Unmarshal raw = Ok (devices f'))
            /\ forall d, d ∈ devices f' -> hasMatchKey d = true
  end.
Proof.
  unfold Reload, readDevices.
  destruct (inv_ReadFile (path f)) as [raw|] eqn:Hraw; simpl; [|naive_solver].
  destruct (inv_yaml_Unmarshal raw) as [ds|] eqn:Hds; simpl; [|naive_solver].
  destruct (checkEntries 0 ds) as [[]|] eqn:Hck; simpl; [|naive_solver].
  intros ?. simplify_eq/=. split; [done|]. split; [by exists raw|]. by eapply checkEntries_ok.
Qed.

(** [Lookup] answers with the first entry that matches, copying its
    per-device constraints, and reports a device as not found exactly when no
    entry matches; an unauthenticated CN is looked up under the requested
    one. *)
Theorem lookup_first_match (f : FileInventory) (id : Identity) :
  let cn := if (Id_CommonName id =? "")%string then RequestedCN id else Id_CommonName id in
  exists rec, Lookup f id = Ok rec /\
  ((exists pre d post, devices f = pre ++ d :: post /\ entryMatches d id cn = true /\
      (forall d', d' ∈ pre -> entryMatches d' id cn = false) /\
      rec = {| Found := true; AllowedDNSNames := E_AllowedDNSNames d;
               R_RequireChallenge := E_RequireChallenge d; R_Role := E_Role d |}) \/
   ((forall d, d ∈ devices f -> entryMatches d id cn = false) /\ Found rec = false)).
Proof.
  intros cn. eexists. split; [reflexivity|]. fold cn. rewrite lookupDevices_find.
  destruct (find _ (devices f)) as [d|] eqn:Hf.
  - left. apply find_first in Hf as (pre & post & Hd & Hm & Hpre).
    exists pre, d, post. split_and!; try done.
    intros d' Hin. rewrite forallb_elem in Hpre. by apply negb_true_iff, Hpre.
  - right. split; [|done]. intros d Hin. apply list_elem_of_In in Hin.
    by apply (find_none _ _ Hf).
Qed.

(** An allowlist pinned by serial or fingerprint is an authenticator: if
    every entry that could match carries one of those keys, a device is found
    only when a client certificate was presented. *)
Theorem pinned_inventory_requires_certificate (f : FileInventory) (req : Request) (rec : Record_) :
  (forall d, d ∈ devices f -> E_Serial d <> "" \/ E_Fingerprint d <> "") ->
  Lookup f (resolveIdentity req) = Ok rec -> Found rec = true ->
  exists c, Req_ClientCert req = Some c.
Proof.
  intros Hpin Hl Hf. apply resolveIdentity_authenticated.
  unfold Lookup, FileInventory_Lookup in Hl. injection Hl as <-.
  rewrite lookupDevices_find in Hf.
  destruct (find _ _) as [d|] eqn:Hd in Hf; [|done].
  apply find_some in Hd as [Hin Hm]. apply list_elem_of_In in Hin.
  eapply pinned_entry_authenticates; eauto.
Qed.
End InventoryProperties.

Definition exampleEntry (cn serial : string) (allowed : list string) : deviceEntry :=
  {| CN := cn; E_Serial := serial; E_Fingerprint := ""; E_AllowedDNSNames := allowed;
     E_RequireChallenge := false; E_Role := "" |}.

(** A file system holding one inventory file. *)
Definition exampleInventoryFile (entries : list deviceEntry) : InventoryFile :=
  {| inv_ReadFile p := if (p =? "inventory.yaml")%string then Ok [] else Err "no such file";
     inv_yaml_Unmarshal _ := Ok entries |}.

(** A valid file is installed; one with a keyless entry changes nothing. *)
Lemma reload_atomic_witness :
  let good := exampleEntry "dev.example.com" "" ["dev.example.com"] in
  let bad := exampleEntry "" "" ["*"] in
  let old := {| path := "inventory.yaml"; devices := [] |} in
  (exists f', Reload (H := ascii_tables) (H0 := exampleInventoryFile [good]) old = (f', Ok tt)
     /\ devices f' = [good] /\ hasMatchKey good = true) /\
  (exists f' e, Reload (H := ascii_tables) (H0 := exampleInventoryFile [good; bad]) old = (f', Err e)
     /\ f' = old).
Proof.
  intros good bad old. split.
  - eexists. split; [reflexivity|]. split; [reflexivity|].
    refine (proj2 (proj2 (reload_atomic (H := ascii_tables) (H0 := exampleInventoryFile [good])
      old _ (Ok tt) eq_refl)) good _). by left.
  - eexists _, _. split; [reflexivity|].
    exact (proj2 (reload_atomic (H := ascii_tables) (H0 := exampleInventoryFile [good; bad])
      old _ _ eq_refl)).
Defined.

Lemma pinned_inventory_requires_certificate_witness :
  let f := {| path := ""; devices := [exampleEntry "" "1f" ["a.example.com"]] |} in
  let req := exampleRequest OpSimpleEnroll (Some (exampleCert "a" [] 0)) (exampleCSR "a" []) "" in
  exists c, Req_ClientCert req = Some c.
Proof.
  intros f req.
  eapply (pinned_inventory_requires_certificate (H := ascii_tables) f req).
  - intros d Hd. apply list_elem_of_singleton in Hd as ->. left. discriminate.
  - vm_compute. reflexivity.
  - reflexivity.
Defined.
