(* ===== verification/Challenge.v ===== *)
(** * internal/authz/challenge.go: challenge validators

    The [ChallengeValidator] interface with its three implementations.  Every
    operation of [MemoryStore] holds its mutex from start to end, so the
    operations of concurrent callers are a sequence; [MemoryStore.run] is such
    a sequence. *)
From S2P Require Import Prelude GoLib GoCrypto X509 Authz.

Definition ErrChallenge : error := "challenge validation failed".

(** [Validate] may consume a code, so it returns the validator it leaves. *)
Class ChallengeValidator (C : Type) :=
  Validate : C -> Time -> Identity -> string -> C * result unit.

Inductive NoChallenge := MkNoChallenge.

#[export] Instance NoChallenge_Validate : ChallengeValidator NoChallenge :=
  fun c _ _ _ => (c, Ok tt).

(** [subtle.ConstantTimeCompare]: the length test, then the bitwise
    difference of every byte accumulated. *)
Fixpoint diff_bytes (a b : string) (v : N) : N :=
  match a, b with
  | String x a', String y b' => diff_bytes a' b' (N.lor v (N.lxor (byte_val x) (byte_val y)))
  | _, _ => v
  end.

Definition ConstantTimeCompare (a b : string) : Z :=
  if negb (String.length a =? String.length b)%nat then 0
  else if (diff_bytes a b 0 =? 0)%N then 1 else 0.

Record StaticSecret := { secret : string }.

Definition NewStaticSecret (s : string) : result StaticSecret :=
  if (s =? "")%string then Err "challenge: static secret must not be empty"
  else Ok {| secret := s |}.

#[export] Instance StaticSecret_Validate : ChallengeValidator StaticSecret :=
  fun s _ _ provided =>
    if negb (ConstantTimeCompare provided (secret s) =? 1) then (s, Err ErrChallenge)
    else (s, Ok tt).

Record otp := { otp_secret : string; expires : Time }.

Record MemoryStore := { codes : gmap string otp }.

Definition NewMemoryStore : MemoryStore := {| codes := ∅ |}.

Definition MemoryStore_Add (m : MemoryStore) (now : Time) (key code : string) (ttl : Duration)
    : MemoryStore :=
  {| codes := <[key := {| otp_secret := code; expires := Add now ttl |}]> (codes m) |}.

Definition candidateKeys (id : Identity) : list string :=
  (if negb (Id_CommonName id =? "")%string then [Id_CommonName id] else [])
  ++ (if negb (RequestedCN id =? "")%string && negb (RequestedCN id =? Id_CommonName id)%string
      then [RequestedCN id] else [])
  ++ (if negb (Serial id =? "")%string then [Serial id] else []).

Fixpoint validateKeys (keys : list string) (m : MemoryStore) (now : Time) (provided : string)
    : MemoryStore * result unit :=
  match keys with
  | [] => (m, Err ErrChallenge)
  | key :: keys' =>
      match codes m !! key with
      | None => validateKeys keys' m now provided
      | Some code =>
          if After now (expires code) then
            ({| codes := delete key (codes m) |}, Err ErrChallenge)
          else if negb (ConstantTimeCompare provided (otp_secret code) =? 1) then
            (m, Err ErrChallenge)
          else ({| codes := delete key (codes m) |}, Ok tt)
      end
  end.

#[export] Instance MemoryStore_Validate : ChallengeValidator MemoryStore :=
  fun m now id provided =>
    if (provided =? "")%string then (m, Err ErrChallenge)
    else validateKeys (candidateKeys id) m now provided.

(** ** Theorems *)

Lemma diff_bytes_zero a b v :
  String.length a = String.length b ->
  (diff_bytes a b v = 0)%N <-> v = 0%N /\ a = b.
Proof.
  revert b v. induction a as [|x a IH]; intros [|y b] v Hlen; simpl in *; try lia; [naive_solver|].
  rewrite IH by lia. rewrite N.lor_eq_0_iff, N.lxor_eq_0_iff.
  split; [|naive_solver]. intros [[? Hxy%byte_val_inj] ?]. naive_solver.
Qed.

(** The constant-time comparison decides equality. *)
Lemma ConstantTimeCompare_eq a b : (ConstantTimeCompare a b =? 1) = (a =? b)%string.
Proof.
  unfold ConstantTimeCompare. apply Bool.eq_iff_eq_true. rewrite String.eqb_eq.
  destruct (Nat.eqb_spec (String.length a) (String.length b)) as [Hl|Hl]; simpl.
  - destruct (N.eqb_spec (diff_bytes a b 0) 0) as [Hd|Hd];
      rewrite (diff_bytes_zero a b 0 Hl) in Hd; simpl; naive_solver.
  - split; [done|]. by intros ->.
Qed.

(** What an implementation must promise to count as proof of a secret: [Knows]
    is what a caller who was accepted must have known. *)
Class ChallengeSound (C : Type) `{ChallengeValidator C} := {
  Knows : C -> Time -> Identity -> string -> Prop;
  validate_sound : forall c now id provided c',
    Validate c now id provided = (c', Ok tt) -> provided <> "" -> Knows c now id provided;
}.

#[export] Instance StaticSecret_Sound : ChallengeSound StaticSecret.
Proof.
  refine {| Knows := fun s _ _ provided => provided = secret s |}.
  intros s now id provided s' Hv _. unfold Validate, StaticSecret_Validate in Hv.
  rewrite ConstantTimeCompare_eq in Hv.
  destruct (String.eqb_spec provided (secret s)); [done|]. by simpl in Hv.
Defined.

(** The code that decides a [MemoryStore.Validate]: the first candidate key
    that has one. *)
Definition decidingKey (m : MemoryStore) (id : Identity) : option string :=
  find (fun k => match codes m !! k with Some _ => true | None => false end) (candidateKeys id).

Lemma validateKeys_decides keys m now provided :
  validateKeys keys m now provided =
  match find (fun k => match codes m !! k with Some _ => true | None => false end) keys with
  | None => (m, Err ErrChallenge)
  | Some key => validateKeys [key] m now provided
  end.
Proof.
  induction keys as [|k keys IH]; [done|]. simpl.
  destruct (codes m !! k) eqn:Hk; simpl; [|exact IH]. by rewrite Hk.
Qed.

(** [Validate] accepts exactly a non-empty, unexpired, equal code under the
    deciding key, and then the code is gone. *)
Lemma MemoryStore_Validate_iff (m : MemoryStore) now id provided m' :
  Validate m now id provided = (m', Ok tt) <->
  exists key code, decidingKey m id = Some key /\ codes m !! key = Some code /\
    provided <> "" /\ provided = otp_secret code /\ now <= expires code /\
    m' = {| codes := delete key (codes m) |}.
Proof.
  unfold Validate, MemoryStore_Validate, decidingKey. rewrite validateKeys_decides.
  destruct (String.eqb_spec provided "") as [->|Hne]; [naive_solver|].
  destruct (find _ _) as [key|] eqn:Hf; [|naive_solver].
  apply find_some in Hf as [_ Hf]. simpl.
  destruct (codes m !! key) as [code|] eqn:Hk; [|done].
  rewrite ConstantTimeCompare_eq. unfold After.
  destruct (Z.ltb_spec (expires code) now); simpl.
  - split; [done|]. intros (? & ? & ? & ? & ? & ? & ? & ?). simplify_eq. lia.
  - destruct (String.eqb_spec provided (otp_secret code)); simpl.
    + split; [|naive_solver]. intros ?. simplify_eq. eexists _, _. naive_solver.
    + naive_solver.
Qed.

(** Every outcome leaves the store as it was or deletes the deciding key. *)
Lemma MemoryStore_Validate_store (m : MemoryStore) now id provided m' r :
  Validate m now id provided = (m', r) ->
  m' = m \/ exists key, m' = {| codes := delete key (codes m) |}.
Proof.
  unfold Validate, MemoryStore_Validate. rewrite validateKeys_decides. intros Hv.
  destruct (_ =? _)%string; [naive_solver|]. destruct (find _ _); [|naive_solver].
  simpl in Hv. branch Hv; naive_solver.
Qed.

#[export] Instance MemoryStore_Sound : ChallengeSound MemoryStore.
Proof.
  refine {| Knows := fun m now id provided =>
              exists key code, key ∈ candidateKeys id /\ codes m !! key = Some code /\
                otp_secret code = provided /\ now <= expires code |}.
  intros m now id provided m' Hv _.
  apply MemoryStore_Validate_iff in Hv as (key & code & Hf & Hk & _ & Hs & He & _).
  apply find_some in Hf as [Hin _]. exists key, code.
  rewrite list_elem_of_In. naive_solver.
Defined.

(** ** Sequences of operations on a store *)

Inductive mem_op :=
| MemAdd (now : Time) (key code : string) (ttl : Duration)
| MemValidate (now : Time) (id : Identity) (provided : string).

(** The key whose code an accepted operation used up. *)
Definition mem_step (m : MemoryStore) (op : mem_op) : MemoryStore * option string :=
  match op with
  | MemAdd now key code ttl => (MemoryStore_Add m now key code ttl, None)
  | MemValidate now id provided =>
      match Validate m now id provided with
      | (m', Ok _) => (m', decidingKey m id)
      | (m', Err _) => (m', None)
      end
  end.

Fixpoint mem_run (m : MemoryStore) (ops : list mem_op) : MemoryStore * list (option string) :=
  match ops with
  | [] => (m, [])
  | op :: ops' =>
      let '(m', k) := mem_step m op in
      let '(m'', ks) := mem_run m' ops' in (m'', k :: ks)
  end.

Definition used (key : string) (k : option string) : bool :=
  match k with Some k' => (k' =? key)%string | None => false end.

Definition adds (key : string) (op : mem_op) : bool :=
  match op with MemAdd _ k _ _ => (k =? key)%string | MemValidate _ _ _ => false end.

Definition present (m : MemoryStore) (key : string) : nat :=
  match codes m !! key with Some _ => 1%nat | None => 0%nat end.

(** One operation pays for what it accepts: an accepted code was present and
    no longer is; only [Add] of that key can put it back. *)
Lemma mem_step_credit m op m' k key :
  mem_step m op = (m', k) ->
  (count (used key) [k] + present m' key <= present m key + count (adds key) [op])%nat.
Proof.
  unfold mem_step, present. destruct op as [now k0 code ttl|now id pw].
  - intros ?. simplify_eq/=. rewrite lookup_insert.
    destruct (String.eqb_spec k0 key), (decide (k0 = key)); simplify_eq;
      destruct (codes m !! key); simpl; lia.
  - destruct (Validate m now id pw) as [m1 [[]|e]] eqn:Hv; intros ?; simplify_eq/=.
    + apply MemoryStore_Validate_iff in Hv as (kd & code & Hf & Hk & _ & _ & _ & ->).
      rewrite Hf. simpl. rewrite lookup_delete.
      destruct (String.eqb_spec kd key), (decide (kd = key)); simplify_eq; try lia.
      rewrite Hk. lia.
    + apply MemoryStore_Validate_store in Hv as [->|[kd ->]]; simpl; [lia|].
      rewrite lookup_delete. destruct (decide _); simpl; destruct (codes m !! key); lia.
Qed.

Lemma mem_run_credit m ops m' ks key :
  mem_run m ops = (m', ks) ->
  (count (used key) ks + present m' key <= present m key + count (adds key) ops)%nat.
Proof.
  revert m ks. induction ops as [|op ops IH]; intros m ks; simpl.
  - intros ?. simplify_eq/=. lia.
  - destruct (mem_step m op) as [m1 k] eqn:Hs, (mem_run m1 ops) as [m2 ks'] eqn:Hr.
    intros ?. simplify_eq/=. apply mem_step_credit with (key := key) in Hs.
    apply IH in Hr. simpl in Hs. lia.
Qed.

(** ** Properties *)

(** A one-time code authenticates exactly when it is non-empty, equal to the
    code under the identity's first registered key, and not expired; accepting
    it deletes it from the store. *)
Theorem otp_validate_correct (m m' : MemoryStore) now id provided :
  Validate m now id provided = (m', Ok tt) <->
  exists key code, decidingKey m id = Some key /\ codes m !! key = Some code /\
    provided <> "" /\ provided = otp_secret code /\ now <= expires code /\
    m' = {| codes := delete key (codes m) |}.
Proof. apply MemoryStore_Validate_iff. Qed.

(** C18. Codes are single-use: in any sequence of [Add] and [Validate] operations
    on an initially empty store, by any callers at any times, the code of a key
    is accepted at most as often as it was added. *)
Theorem otp_single_use (ops : list mem_op) (key : string) :
  (count (used key) (snd (mem_run NewMemoryStore ops)) <= count (adds key) ops)%nat.
Proof.
  destruct (mem_run NewMemoryStore ops) as [m' ks] eqn:Hr.
  apply mem_run_credit with (key := key) in Hr.
  change (present NewMemoryStore key) with 0%nat in Hr. simpl. lia.
Qed.

(** A static secret accepts exactly itself, the constant-time comparison
    notwithstanding, and cannot be built empty; validating never changes it. *)
Theorem static_secret_correct (s : string) :
  (NewStaticSecret s = Err "challenge: static secret must not be empty" <-> s = "") /\
  forall v, NewStaticSecret s = Ok v ->
  forall now id provided,
    Validate v now id provided = (v, if (provided =? s)%string then Ok tt else Err ErrChallenge).
Proof.
  unfold NewStaticSecret. destruct (String.eqb_spec s "") as [->|Hne]; split; try done.
  intros v [=<-] now id provided. unfold Validate, StaticSecret_Validate.
  rewrite ConstantTimeCompare_eq. simpl. by destruct (provided =? s)%string.
Qed.
