(* ===== verification/Policy.v ===== *)
(** * internal/authz/policy.go: the SAN constraint policy

    [StandardConstraints] turns an identity and an inventory record into the
    parameters the broker is willing to ask the CA for. *)
From S2P Require Import Prelude GoLib GoCrypto X509 Authz Match Inventory.

Definition SANModeIdentity : string := "identity".
Definition SANModeAllowlist : string := "allowlist".
Definition SANModeCSR : string := "csr".

(** The [ConstraintBuilder] interface *)
Class ConstraintBuilder (B : Type) := Build : B -> Identity -> Record_ -> result CertConstraints.

Record StandardConstraints := { Mode : string; MaxValidity : Duration }.

Definition NewStandardConstraints (mode : string) (maxValidity : Duration) : StandardConstraints :=
  {| Mode := if (mode =? "")%string then SANModeIdentity else mode; MaxValidity := maxValidity |}.

Section Policy.
Context `{UnicodeTables}.

Definition nonempty {A} (l : list A) : bool := match l with [] => false | _ => true end.

Definition fromAuthenticatedIdentity (b : StandardConstraints) (id : Identity)
    : result CertConstraints :=
  let permitted := Id_CommonName id :: Id_DNSNames id in
  when negb (RequestedCN id =? "")%string && negb (allAllowed [RequestedCN id] permitted)
    fail Errorf "requested CN %q is not part of the authenticated identity" [FStr (RequestedCN id)];
  when negb (allAllowed (RequestedDNS id) permitted)
    fail "requested SANs exceed the authenticated identity";
  when nonempty (RequestedIPs id) || nonempty (RequestedURIs id)
    fail "IP/URI SANs are not permitted in identity mode";
  Ok {| C_CommonName := Id_CommonName id;
        C_DNSNames := if nonempty (RequestedDNS id) then RequestedDNS id else Id_DNSNames id;
        C_IPs := []; C_URIs := []; C_TTL := MaxValidity b; C_ExcludeCNFromSANs := false |}.

Definition allowlist (b : StandardConstraints) (id : Identity) (rec : Record_)
    : result CertConstraints :=
  when negb (nonempty (AllowedDNSNames rec)) fail "no allowed names for this device";
  when negb (RequestedCN id =? "")%string
       && negb (allAllowed [RequestedCN id] (AllowedDNSNames rec))
    fail Errorf "requested CN %q is not allowed for this device" [FStr (RequestedCN id)];
  when negb (allAllowed (RequestedDNS id) (AllowedDNSNames rec))
    fail "requested SANs are not allowed for this device";
  when nonempty (RequestedIPs id) || nonempty (RequestedURIs id)
    fail "IP/URI SANs are not permitted in allowlist mode";
  Ok {| C_CommonName := RequestedCN id; C_DNSNames := RequestedDNS id;
        C_IPs := []; C_URIs := []; C_TTL := MaxValidity b; C_ExcludeCNFromSANs := false |}.

Definition build (b : StandardConstraints) (id : Identity) (rec : Record_)
    : result CertConstraints :=
  if (Mode b =? SANModeCSR)%string then
    Ok {| C_CommonName := RequestedCN id; C_DNSNames := RequestedDNS id;
          C_IPs := RequestedIPs id; C_URIs := RequestedURIs id;
          C_TTL := MaxValidity b; C_ExcludeCNFromSANs := false |}
  else if (Mode b =? SANModeAllowlist)%string then allowlist b id rec
  else if (Mode b =? SANModeIdentity)%string then
    if Authenticated id then fromAuthenticatedIdentity b id else allowlist b id rec
  else Err (Errorf "unknown SAN constraint mode %q" [FStr (Mode b)]).

#[export] Instance StandardConstraints_Build : ConstraintBuilder StandardConstraints :=
  fun b id rec =>
    let? c := build b id rec in
    when (C_CommonName c =? "")%string && negb (nonempty (C_DNSNames c))
         && negb (nonempty (C_IPs c)) && negb (nonempty (C_URIs c))
      fail "request names no subject";
    Ok c.

(** ** Lemmas *)

(** Some pattern of the list permits the name. *)
Definition covered (n : string) (patterns : list string) : Prop :=
  exists p, p ∈ patterns /\ globMatch p n = true.

Lemma allAllowed_covered names patterns :
  allAllowed names patterns = true <-> forall n, n ∈ names -> covered n patterns.
Proof. apply allAllowed_iff. Qed.

Lemma nonempty_false {A} (l : list A) : nonempty l = false <-> l = [].
Proof. by destruct l. Qed.

(** The two name checks shared by both constrained modes. *)
Lemma requestedCN_check cn patterns :
  negb (cn =? "")%string && negb (allAllowed [cn] patterns) = false <->
  (cn <> "" -> covered cn patterns).
Proof.
  destruct (String.eqb_spec cn "") as [->|Hne]; [naive_solver|].
  change (negb (allAllowed [cn] patterns) = false <-> (cn <> "" -> covered cn patterns)).
  rewrite negb_false_iff, allAllowed_covered. set_solver.
Qed.

Lemma fromAuthenticatedIdentity_iff b id c :
  fromAuthenticatedIdentity b id = Ok c <->
  let permitted := Id_CommonName id :: Id_DNSNames id in
  (RequestedCN id <> "" -> covered (RequestedCN id) permitted) /\
  (forall n, n ∈ RequestedDNS id -> covered n permitted) /\
  RequestedIPs id = [] /\ RequestedURIs id = [] /\
  c = {| C_CommonName := Id_CommonName id;
         C_DNSNames := if nonempty (RequestedDNS id) then RequestedDNS id else Id_DNSNames id;
         C_IPs := []; C_URIs := []; C_TTL := MaxValidity b; C_ExcludeCNFromSANs := false |}.
Proof.
  cbv zeta. unfold fromAuthenticatedIdentity.
  rewrite <- requestedCN_check, <- allAllowed_covered, <- !nonempty_false.
  destruct (negb (_ =? _)%string && _); [naive_solver|].
  destruct (allAllowed (RequestedDNS id) _); [|naive_solver].
  destruct (nonempty (RequestedIPs id)), (nonempty (RequestedURIs id)); naive_solver.
Qed.

Lemma allowlist_iff b id rec c :
  allowlist b id rec = Ok c <->
  AllowedDNSNames rec <> [] /\
  (RequestedCN id <> "" -> covered (RequestedCN id) (AllowedDNSNames rec)) /\
  (forall n, n ∈ RequestedDNS id -> covered n (AllowedDNSNames rec)) /\
  RequestedIPs id = [] /\ RequestedURIs id = [] /\
  c = {| C_CommonName := RequestedCN id; C_DNSNames := RequestedDNS id;
         C_IPs := []; C_URIs := []; C_TTL := MaxValidity b; C_ExcludeCNFromSANs := false |}.
Proof.
  unfold allowlist.
  rewrite <- requestedCN_check, <- allAllowed_covered, <- !nonempty_false.
  destruct (AllowedDNSNames rec) as [|p ps]; [simpl; naive_solver|].
  cbn [nonempty negb].
  destruct (negb (_ =? _)%string && _); [naive_solver|].
  destruct (allAllowed (RequestedDNS id) _); [|naive_solver].
  destruct (nonempty (RequestedIPs id)), (nonempty (RequestedURIs id)); naive_solver.
Qed.

Definition namesSubject (c : CertConstraints) : Prop :=
  C_CommonName c <> "" \/ C_DNSNames c <> [] \/ C_IPs c <> [] \/ C_URIs c <> [].

Lemma nonempty_true {A} (l : list A) : nonempty l = true <-> l <> [].
Proof. by destruct l. Qed.

Lemma namesSubject_check c :
  (C_CommonName c =? "")%string && negb (nonempty (C_DNSNames c))
  && negb (nonempty (C_IPs c)) && negb (nonempty (C_URIs c)) = false <-> namesSubject c.
Proof.
  unfold namesSubject.
  rewrite !andb_false_iff, !negb_false_iff, !nonempty_true, String.eqb_neq. tauto.
Qed.

Lemma Build_iff (b : StandardConstraints) id rec c :
  Build b id rec = Ok c <-> build b id rec = Ok c /\ namesSubject c.
Proof.
  unfold Build, StandardConstraints_Build.
  destruct (build b id rec) as [c'|e]; simpl; [|naive_solver].
  pose proof (namesSubject_check c') as Hc.
  destruct (_ && _ && _ && _); naive_solver.
Qed.

Lemma build_ttl b id rec c : build b id rec = Ok c -> C_TTL c = MaxValidity b.
Proof.
  unfold build.
  destruct (_ =? _)%string; [naive_solver|].
  destruct (_ =? _)%string; [intros Ha%allowlist_iff; naive_solver|].
  destruct (_ =? _)%string; [|done]. destruct (Authenticated id).
  - intros Ha%fromAuthenticatedIdentity_iff. naive_solver.
  - intros Ha%allowlist_iff. naive_solver.
Qed.

(** A name with neither wildcard form is a pattern for itself only. *)
Definition literal (p : string) : Prop := norm p <> "*" /\ HasPrefix (norm p) "*." = false.

Lemma globMatch_literal p n : literal p -> globMatch p n = true <-> norm n = norm p.
Proof.
  intros [Hstar Hpre]. unfold globMatch. fold (norm p) (norm n).
  rewrite Hpre. destruct (String.eqb_spec (norm p) "*"); [done|].
  rewrite String.eqb_eq. naive_solver.
Qed.
End Policy.

(** ** Properties *)

Section PolicyProperties.
Context `{UnicodeTables}.

(** Every name is a pattern for itself, wildcard forms included. *)
Lemma globMatch_refl n : globMatch n n = true.
Proof.
  unfold globMatch. fold (norm n). generalize (norm n). intros p.
  destruct (String.eqb_spec p "*") as [->|]; [done|].
  destruct (HasPrefix p "*.") eqn:Hp; [|by rewrite String.eqb_refl].
  apply HasPrefix_spec in Hp as [suf ->]. simpl. apply andb_true_iff. split.
  - apply HasSuffix_spec. by exists "*"%string.
  - apply Nat.ltb_lt. lia.
Qed.

Lemma covered_self n l : n ∈ l -> covered n l.
Proof. intros Hin. exists n. by rewrite globMatch_refl. Qed.

(** Names none of which is a wildcard cover only themselves. *)
Lemma covered_literal n l : (forall p, p ∈ l -> literal p) -> covered n l -> norm n ∈ map norm l.
Proof.
  intros Hlit (p & Hp & Hm). rewrite (list_elem_of_In (map _ _)), in_map_iff. exists p.
  rewrite <- list_elem_of_In. split; [|done]. symmetry. by apply globMatch_literal; [apply Hlit|].
Qed.

(** Identity mode with an authenticated certificate: the request is built
    exactly when every requested name is covered by a name of the certificate
    and no IP or URI SAN is requested.  The CN is then the certificate's, the
    DNS names are the requested subset (or all the certificate's), every one
    of them covered by the certificate, and the validity is the policy cap. *)
Theorem identity_mode_pins_names (b : StandardConstraints) id rec c
    (Hmode : Mode b = SANModeIdentity) (Hauth : Authenticated id = true) :
  Build b id rec = Ok c <->
  let certNames := Id_CommonName id :: Id_DNSNames id in
  (RequestedCN id <> "" -> covered (RequestedCN id) certNames) /\
  (forall n, n ∈ RequestedDNS id -> covered n certNames) /\
  RequestedIPs id = [] /\ RequestedURIs id = [] /\ namesSubject c /\
  C_CommonName c = Id_CommonName id /\
  C_DNSNames c = (if nonempty (RequestedDNS id) then RequestedDNS id else Id_DNSNames id) /\
  (forall n, n ∈ C_DNSNames c -> covered n certNames) /\
  C_IPs c = [] /\ C_URIs c = [] /\ C_TTL c = MaxValidity b /\ C_ExcludeCNFromSANs c = false.
Proof.
  cbv zeta. rewrite Build_iff. unfold build. rewrite Hmode, Hauth. simpl.
  rewrite fromAuthenticatedIdentity_iff. cbv zeta. split.
  - intros [(Hcn & Hdns & Hip & Huri & ->) Hs]. simpl. split_and!; try done.
    destruct (nonempty (RequestedDNS id)); [done|].
    intros n Hn. apply covered_self. by right.
  - destruct c; simpl. intros (? & ? & ? & ? & ? & -> & -> & ? & -> & -> & -> & ->). done.
Qed.

(** C17. A device cannot rename itself: when its certificate carries no
    wildcard name, everything identity mode asks the CA for is, up to letter
    case and surrounding space, a name the certificate already carries. *)
Theorem identity_mode_no_rename (b : StandardConstraints) id rec c
    (Hmode : Mode b = SANModeIdentity) (Hauth : Authenticated id = true)
    (Hlit : forall p, p ∈ Id_CommonName id :: Id_DNSNames id -> literal p)
    (Hb : Build b id rec = Ok c) n :
  n ∈ C_CommonName c :: C_DNSNames c ->
  norm n ∈ map norm (Id_CommonName id :: Id_DNSNames id).
Proof.
  apply Build_iff in Hb as [Hb _]. unfold build in Hb. rewrite Hmode, Hauth in Hb. simpl in Hb.
  apply fromAuthenticatedIdentity_iff in Hb as (_ & Hdns & _ & _ & ->).
  cbn [C_CommonName C_DNSNames]. intros [->|Hn]%elem_of_cons; apply covered_literal; try done.
  - apply covered_self. by left.
  - destruct (nonempty (RequestedDNS id)); [by apply Hdns|]. apply covered_self. by right.
Qed.

(** Allowlist mode, and identity mode for an unauthenticated bootstrap:
    the request is built exactly when the record has an allowlist, every
    requested name is covered by it, no IP or URI SAN is requested and some
    name is; it then asks for exactly the requested names. *)
Theorem allowlist_mode_correct (b : StandardConstraints) id rec c
    (Hmode : Mode b = SANModeAllowlist \/ Mode b = SANModeIdentity /\ Authenticated id = false) :
  Build b id rec = Ok c <->
  AllowedDNSNames rec <> [] /\
  (RequestedCN id <> "" -> covered (RequestedCN id) (AllowedDNSNames rec)) /\
  (forall n, n ∈ RequestedDNS id -> covered n (AllowedDNSNames rec)) /\
  RequestedIPs id = [] /\ RequestedURIs id = [] /\
  (RequestedCN id <> "" \/ RequestedDNS id <> []) /\
  c = {| C_CommonName := RequestedCN id; C_DNSNames := RequestedDNS id;
         C_IPs := []; C_URIs := []; C_TTL := MaxValidity b; C_ExcludeCNFromSANs := false |}.
Proof.
  rewrite Build_iff.
  assert (build b id rec = allowlist b id rec) as ->.
  { unfold build. destruct Hmode as [->|[-> ->]]; done. }
  rewrite allowlist_iff. unfold namesSubject. split.
  - intros [(? & ? & ? & ? & ? & ->) Hs]. simpl in Hs. split_and!; try done. tauto.
  - intros (? & ? & ? & ? & ? & Hs & ->). simpl. split_and!; try done. tauto.
Qed.

(** In every mode a request that is built names a subject, carries the
    policy's validity cap, and carries IP or URI SANs only in "csr" mode; a
    mode that is none of the three builds nothing. *)
Theorem build_bounded (b : StandardConstraints) id rec c (Hb : Build b id rec = Ok c) :
  namesSubject c /\ C_TTL c = MaxValidity b /\
  (Mode b = SANModeCSR \/ (Mode b = SANModeAllowlist \/ Mode b = SANModeIdentity) /\
                          C_IPs c = [] /\ C_URIs c = []).
Proof.
  apply Build_iff in Hb as [Hb Hs]. split_and!; [done|by eapply build_ttl|].
  revert Hb. unfold build.
  destruct (String.eqb_spec (Mode b) SANModeCSR); [tauto|].
  destruct (String.eqb_spec (Mode b) SANModeAllowlist).
  { intros Ha%allowlist_iff. right. destruct Ha as (_ & _ & _ & _ & _ & ->). auto. }
  destruct (String.eqb_spec (Mode b) SANModeIdentity); [|done].
  destruct (Authenticated id); intros Ha; right.
  - apply fromAuthenticatedIdentity_iff in Ha as (_ & _ & _ & _ & ->). auto.
  - apply allowlist_iff in Ha as (_ & _ & _ & _ & _ & ->). auto.
Qed.
End PolicyProperties.

(** Concrete identities for the witnesses. *)
Definition exampleIdentity (cert : option Certificate) (csr : CertificateRequest) : Identity :=
  resolveIdentity (H := ascii_tables) (exampleRequest OpSimpleReenroll cert csr "").

Definition exampleRecord (allowed : list string) : Record_ :=
  {| Found := true; AllowedDNSNames := allowed; R_RequireChallenge := false; R_Role := "" |}.

Definition identityPolicy : StandardConstraints := NewStandardConstraints "" (720 * Hour).
Definition allowlistPolicy : StandardConstraints :=
  NewStandardConstraints SANModeAllowlist (720 * Hour).

Definition exampleConstraints (cn : string) (dns : list string) : CertConstraints :=
  {| C_CommonName := cn; C_DNSNames := dns; C_IPs := []; C_URIs := [];
     C_TTL := 720 * Hour; C_ExcludeCNFromSANs := false |}.

(** A device with two names narrows its renewal to one of them. *)
Lemma identity_mode_pins_names_witness :
  let id := exampleIdentity (Some (exampleCert "d.example.com" ["d.example.com"; "e.example.com"] 0))
              (exampleCSR "D.example.com" ["e.example.com"]) in
  let c := exampleConstraints "d.example.com" ["e.example.com"] in
  covered (H := ascii_tables) "e.example.com" ["d.example.com"; "d.example.com"; "e.example.com"].
Proof.
  intros id c.
  assert (Hb : Build (ConstraintBuilder := StandardConstraints_Build (H := ascii_tables))
                 identityPolicy id (exampleRecord []) = Ok c) by (vm_compute; reflexivity).
  refine (proj1 (proj2 (proj1 (identity_mode_pins_names (H := ascii_tables) identityPolicy id
    (exampleRecord []) c eq_refl eq_refl) Hb)) "e.example.com"%string _).
  by left.
Defined.

Lemma identity_mode_no_rename_witness :
  let id := exampleIdentity (Some (exampleCert "d.example.com" ["d.example.com"] 0))
              (exampleCSR "" [" D.example.com"]) in
  norm (H := ascii_tables) " D.example.com" ∈ ["d.example.com"; "d.example.com"]%string.
Proof.
  intros id.
  apply (identity_mode_no_rename (H := ascii_tables) identityPolicy id (exampleRecord [])
           (exampleConstraints "d.example.com" [" D.example.com"%string]) eq_refl eq_refl).
  - intros p Hp. assert (p = "d.example.com"%string) as ->.
    { apply elem_of_cons in Hp as [->|Hp]; [done|]. by apply list_elem_of_singleton in Hp. }
    vm_compute. split; [discriminate|reflexivity].
  - vm_compute. reflexivity.
  - right. by left.
Defined.

Lemma allowlist_mode_correct_witness :
  let id := exampleIdentity None (exampleCSR "d.example.com" []) in
  Build (ConstraintBuilder := StandardConstraints_Build (H := ascii_tables))
    allowlistPolicy id (exampleRecord ["*.example.com"])
  = Ok (exampleConstraints "d.example.com" []).
Proof.
  intros id. apply (allowlist_mode_correct (H := ascii_tables) allowlistPolicy id
    (exampleRecord ["*.example.com"]) (exampleConstraints "d.example.com" []) (or_introl eq_refl)).
  split_and!; try done.
  - intros _. exists "*.example.com"%string. split; [by left|]. vm_compute. reflexivity.
  - intros n Hn. by apply not_elem_of_nil in Hn.
  - by left.
Defined.

Lemma build_bounded_witness :
  let id := exampleIdentity None (exampleCSR "d.example.com" []) in
  namesSubject (exampleConstraints "d.example.com" []).
Proof.
  intros id. refine (proj1 (build_bounded (H := ascii_tables) allowlistPolicy id
    (exampleRecord ["*.example.com"]) _ _)). vm_compute. reflexivity.
Defined.

(** A wildcard certificate is not pinned to its own name: presented with CN
    "*.example.com", identity mode asks the CA for any name under it. *)
Lemma wildcard_certificate_renames :
  let id := exampleIdentity (Some (exampleCert "*.example.com" [] 0))
              (exampleCSR "" ["other.example.com"]) in
  Build (ConstraintBuilder := StandardConstraints_Build (H := ascii_tables))
    identityPolicy id (exampleRecord [])
  = Ok (exampleConstraints "*.example.com" ["other.example.com"]).
Proof. vm_compute. reflexivity. Qed.
