(* ===== verification/Verify.v ===== *)
(** * internal/authz/verify.go: re-checking the issued certificate *)
From S2P Require Import Prelude GoLib GoCrypto GoNet X509 Authz Policy.

Definition ttlSlack : Duration := Hour.

(** The byte loop of [equalFoldASCII], run when the lengths agree. *)
Fixpoint foldBytes (a b : string) : bool :=
  match a, b with
  | String x a', String y b' =>
      if negb (Ascii.eqb (lower_byte x) (lower_byte y)) then false else foldBytes a' b'
  | _, _ => true
  end.

Definition equalFoldASCII (a b : string) : bool :=
  if negb (String.length a =? String.length b)%nat then false else foldBytes a b.

Definition containsFold (list : list string) (want : string) : bool :=
  existsb (fun v => equalFoldASCII v want) list.

Definition containsIP (list : list string) (want : IP) : bool :=
  existsb (fun v => match ParseIP v with
                    | Some parsed => IP_Equal parsed want
                    | None => false
                    end) list.

Definition namesConstrained (c : CertConstraints) : bool :=
  negb (C_CommonName c =? "")%string || nonempty (C_DNSNames c)
  || nonempty (C_IPs c) || nonempty (C_URIs c).

Section Verify.
Context `{UnicodeTables}.

(** [for _, x := range l { if !ok(x) { return err(x) } }] *)
Fixpoint checkEach {A} (ok : A -> bool) (err : A -> error) (l : list A) : result unit :=
  match l with
  | [] => Ok tt
  | x :: l' => if negb (ok x) then Err (err x) else checkEach ok err l'
  end.

Definition permittedDNS (c : CertConstraints) : list string :=
  if negb (C_CommonName c =? "")%string && negb (C_ExcludeCNFromSANs c)
  then C_DNSNames c ++ [C_CommonName c] else C_DNSNames c.

Definition verifyNames (cert : Certificate) (c : CertConstraints) : result unit :=
  when negb (C_CommonName c =? "")%string
       && negb (equalFoldASCII (CommonName (Subject cert)) (C_CommonName c))
    fail Errorf "issued CN %q does not match the authorized CN %q"
           [FStr (CommonName (Subject cert)); FStr (C_CommonName c)];
  let? _ := checkEach (containsFold (permittedDNS c))
              (fun name => Errorf "issued cert carries unauthorized DNS SAN %q (authorized: %v)"
                             [FStr name; FList (permittedDNS c)])
              (DNSNames cert) in
  let? _ := checkEach (containsIP (C_IPs c))
              (fun ip => Errorf "issued cert carries unauthorized IP SAN %q (authorized: %v)"
                           [FStr (IP_String ip); FList (C_IPs c)])
              (IPAddresses cert) in
  checkEach (fun u => containsFold (C_URIs c) (URL_String u))
    (fun u => Errorf "issued cert carries unauthorized URI SAN %q (authorized: %v)"
                [FStr (URL_String u); FList (C_URIs c)])
    (URIs cert).

Definition VerifyIssued (cert : option Certificate) (c : CertConstraints) : result unit :=
  match cert with
  | None => Err "no certificate to verify"
  | Some cert =>
      let? _ := if namesConstrained c then verifyNames cert c else Ok tt in
      if 0 <? C_TTL c then
        let lifetime := Sub (NotAfter cert) (NotBefore cert) in
        if wrap64 (C_TTL c + ttlSlack) <? lifetime then
          Err (Errorf "issued cert lifetime %v exceeds the authorized TTL %v"
                 [FDur lifetime; FDur (C_TTL c)])
        else Ok tt
      else Ok tt
  end.

(** ** Lemmas *)

(** Equality up to ASCII letter case. *)
Definition fold (s : string) : string := string_map lower_byte s.

Lemma foldBytes_eq a b :
  String.length a = String.length b -> foldBytes a b = true <-> fold a = fold b.
Proof.
  unfold fold. revert b. induction a as [|x a IH]; intros [|y b] Hl; simpl in *; try lia; [done|].
  destruct (Ascii.eqb_spec (lower_byte x) (lower_byte y)); simpl.
  - rewrite IH by lia. split; congruence.
  - split; congruence.
Qed.

Lemma equalFoldASCII_eq a b : equalFoldASCII a b = true <-> fold a = fold b.
Proof.
  unfold equalFoldASCII. destruct (Nat.eqb_spec (String.length a) (String.length b)); simpl.
  - by apply foldBytes_eq.
  - split; [done|]. intros Hf%(f_equal String.length).
    unfold fold in Hf. by rewrite !string_length_map in Hf.
Qed.

Lemma containsFold_iff l want :
  containsFold l want = true <-> fold want ∈ map fold l.
Proof.
  unfold containsFold. rewrite existsb_elem, list_elem_of_In, in_map_iff.
  setoid_rewrite equalFoldASCII_eq. setoid_rewrite list_elem_of_In. naive_solver.
Qed.

Lemma containsIP_iff l want :
  containsIP l want = true <->
  exists v ip, v ∈ l /\ ParseIP v = Some ip /\ IP_Equal ip want = true.
Proof.
  unfold containsIP. rewrite existsb_elem. split.
  - intros (v & Hv & Hm). destruct (ParseIP v) eqn:?; naive_solver.
  - intros (v & ip & Hv & Hp & He). exists v. by rewrite Hp.
Qed.

Lemma checkEach_ok {A} (ok : A -> bool) err l :
  checkEach ok err l = Ok tt <-> forall x, x ∈ l -> ok x = true.
Proof.
  rewrite <- (forallb_elem ok). induction l as [|x l IH]; simpl; [done|].
  destruct (ok x); simpl; [done|]. naive_solver.
Qed.

(** What the certificate may carry once a subject was authorized. *)
Definition names_within (cert : Certificate) (c : CertConstraints) : Prop :=
  (C_CommonName c <> "" -> fold (CommonName (Subject cert)) = fold (C_CommonName c)) /\
  (forall n, n ∈ DNSNames cert -> fold n ∈ map fold (permittedDNS c)) /\
  (forall ip, ip ∈ IPAddresses cert ->
     exists v ip', v ∈ C_IPs c /\ ParseIP v = Some ip' /\ IP_Equal ip' ip = true) /\
  (forall u, u ∈ URIs cert -> fold (URL_String u) ∈ map fold (C_URIs c)).

Lemma result_unit_bind (r k : result unit) :
  result_bind r (fun _ => k) = Ok tt <-> r = Ok tt /\ k = Ok tt.
Proof. destruct r as [[]|]; naive_solver. Qed.

Lemma verifyNames_iff cert c : verifyNames cert c = Ok tt <-> names_within cert c.
Proof.
  unfold verifyNames, names_within.
  destruct (negb (C_CommonName c =? "")%string
            && negb (equalFoldASCII (CommonName (Subject cert)) (C_CommonName c))) eqn:Hcn.
  - reflect_bools. split; [done|]. intros [Hf _]. apply Hf in H0 as Hf'.
    apply equalFoldASCII_eq in Hf'. congruence.
  - rewrite !result_unit_bind, !checkEach_ok.
    setoid_rewrite containsFold_iff. setoid_rewrite containsIP_iff.
    split; [|naive_solver]. intros ?. split; [|done]. intros Hne.
    apply andb_false_iff in Hcn as [Hcn|Hcn]; reflect_bools; [done|].
    by apply equalFoldASCII_eq.
Qed.
End Verify.

(** ** Properties *)

Section VerifyProperties.
Context `{UnicodeTables}.

Lemma namesConstrained_iff c : namesConstrained c = true <-> namesSubject c.
Proof.
  unfold namesConstrained, namesSubject.
  rewrite !orb_true_iff, negb_true_iff, String.eqb_neq, !nonempty_true. tauto.
Qed.

Definition lifetime_within (cert : Certificate) (c : CertConstraints) : Prop :=
  0 < C_TTL c -> Sub (NotAfter cert) (NotBefore cert) <= wrap64 (C_TTL c + ttlSlack).

Lemma VerifyIssued_iff cert c :
  VerifyIssued (Some cert) c = Ok tt <->
  (namesSubject c -> names_within cert c) /\ lifetime_within cert c.
Proof.
  unfold VerifyIssued. rewrite result_unit_bind, <- verifyNames_iff, <- namesConstrained_iff.
  unfold lifetime_within.
  assert (Hn : (if namesConstrained c then verifyNames cert c else Ok tt) = Ok tt <->
               (namesConstrained c = true -> verifyNames cert c = Ok tt))
    by (destruct (namesConstrained c); naive_solver).
  assert (Ht : (if 0 <? C_TTL c then
                  if wrap64 (C_TTL c + ttlSlack) <? Sub (NotAfter cert) (NotBefore cert)
                  then Err (Errorf "issued cert lifetime %v exceeds the authorized TTL %v"
                         [FDur (Sub (NotAfter cert) (NotBefore cert)); FDur (C_TTL c)])
                  else Ok tt
                else Ok tt) = Ok tt <->
               (0 < C_TTL c ->
                Sub (NotAfter cert) (NotBefore cert) <= wrap64 (C_TTL c + ttlSlack))).
  { destruct (Z.ltb_spec 0 (C_TTL c)); [|split; [lia|done]].
    destruct (Z.ltb_spec (wrap64 (C_TTL c + ttlSlack)) (Sub (NotAfter cert) (NotBefore cert)));
      split; try done; lia. }
  cbv zeta. rewrite Hn, Ht. done.
Qed.

(** C15. The post-issuance check accepts exactly the certificates that stay
    within the decision: when the decision names any subject, the issued CN
    equals the authorized one (if one was), every DNS, IP and URI SAN is an
    authorized one (the CN counts as a DNS name unless excluded), all up to
    ASCII case; and the lifetime is within the cap plus slack.  A nil
    certificate is refused. *)
Theorem verify_issued_correct cert c :
  VerifyIssued None c = Err "no certificate to verify" /\
  (VerifyIssued (Some cert) c = Ok tt <->
   (namesSubject c -> names_within cert c) /\ lifetime_within cert c).
Proof. split; [done|apply VerifyIssued_iff]. Qed.

(** C22. The lifetime check bounds the real lifetime, in spite of the 64-bit
    durations.  As long as the cap and the hour of slack stay below the top of
    the int64 range, a certificate whose names are in order is accepted exactly
    when its real lifetime, however long, is within the cap plus the hour, also
    when [Sub] saturates; a cap less than an hour from the top wraps to a negative
    limit and accepts no certificate at all; and at the one cap in between, where
    the sum is the largest int64, which [Sub] saturates to, the check lets every
    lifetime pass. *)
Theorem verify_bounds_lifetime cert c
    (Httl : 0 < C_TTL c <= max_int64) (Horder : NotBefore cert <= NotAfter cert) :
  (C_TTL c + ttlSlack < max_int64 ->
   VerifyIssued (Some cert) c = Ok tt <->
   (namesSubject c -> names_within cert c) /\ NotAfter cert - NotBefore cert <= C_TTL c + ttlSlack) /\
  (max_int64 < C_TTL c + ttlSlack -> VerifyIssued (Some cert) c <> Ok tt) /\
  (C_TTL c + ttlSlack = max_int64 ->
   VerifyIssued (Some cert) c = Ok tt <-> (namesSubject c -> names_within cert c)).
Proof.
  rewrite VerifyIssued_iff. unfold lifetime_within, Sub. split_and!; intros Hc.
  - rewrite wrap64_id by (unfold is_int64, min_int64, max_int64, ttlSlack, Hour, Minute, Second in *; lia).
    assert (Hlt : forall P Q R : Prop, (Q <-> R) -> (P /\ Q <-> P /\ R)) by tauto. apply Hlt.
    unfold min_int64, max_int64 in *. split; [intros Hl; specialize (Hl ltac:(lia)); lia|lia].
  - rewrite wrap64_over by (unfold max_int64, ttlSlack, Hour, Minute, Second in *; lia).
    intros [_ Hl]. specialize (Hl ltac:(lia)).
    unfold min_int64, max_int64, ttlSlack, Hour, Minute, Second in *. lia.
  - rewrite Hc, wrap64_id by done. unfold min_int64, max_int64. split; [tauto|]. intros ?. split; [done|]. lia.
Qed.
End VerifyProperties.

Lemma verify_bounds_lifetime_witness :
  let c := exampleConstraints "d.example.com" [] in
  let cert := exampleCert "D.Example.com" ["d.example.com"] (720 * Hour) in
  C_TTL c = 720 * Hour /\ VerifyIssued (H := ascii_tables) (Some cert) c = Ok tt /\
  NotAfter cert - NotBefore cert <= 721 * Hour.
Proof.
  intros c cert. assert (Hv : VerifyIssued (H := ascii_tables) (Some cert) c = Ok tt) by (vm_compute; reflexivity).
  split; [reflexivity|]. split; [exact Hv|].
  refine (proj2 (proj1 (proj1 (verify_bounds_lifetime (H := ascii_tables) cert c _ _) _) Hv)).
  - vm_compute. split; [reflexivity|discriminate].
  - vm_compute. discriminate.
  - vm_compute. reflexivity.
Defined.

(** The cap an hour below the top of the range: a certificate of a thousand
    years passes. *)
Example saturating_cap_checks_nothing :
  let c := {| C_CommonName := ""; C_DNSNames := []; C_IPs := []; C_URIs := []; C_TTL := max_int64 - Hour;
              C_ExcludeCNFromSANs := false |} in
  let cert := exampleCert "d.example.com" [] (1000 * 365 * 24 * Hour) in
  NotAfter cert - NotBefore cert = 1000 * 365 * 24 * Hour /\
  VerifyIssued (H := ascii_tables) (Some cert) c = Ok tt.
Proof. vm_compute. split; reflexivity. Qed.

(** A decision that names only DNS SANs leaves the issued CN unchecked, and
    e-mail SANs are never looked at: this certificate for another CN with an
    e-mail name is accepted under a decision for "d.example.com" alone. *)
Lemma verify_skips_cn_and_email :
  let c := exampleConstraints "" ["d.example.com"] in
  let cert := {| Raw := []; Subject := exampleName "admin.example.com"; SerialNumber := 1;
                 NotBefore := 0; NotAfter := Hour; DNSNames := ["d.example.com"];
                 EmailAddresses := ["root@example.com"]; IPAddresses := []; URIs := [] |} in
  VerifyIssued (H := ascii_tables) (Some cert) c = Ok tt.
Proof. vm_compute. reflexivity. Qed.
