(* ===== verification/Pipeline.v ===== *)
(** * internal/authz/pipeline.go: the production authorizer

    [Pipeline] composes the inventory, the challenge validator, the role
    selector and the constraint builder through their interfaces; every
    theorem here holds for any implementation of them. *)
From S2P Require Import Prelude GoLib GoCrypto X509 Authz Match Inventory Challenge Policy.

Section Pipeline.
Context `{UnicodeTables} {I C R B : Type}
  `{Inventory I} `{ChallengeValidator C} `{RoleSelector R} `{ConstraintBuilder B}.

(** A nil interface field is [None]. *)
Record Pipeline := {
  P_Inventory : option I;
  P_Challenge : option C;
  P_Roles : option R;
  P_Constraints : option B;
  RequireChallenge : bool;
  AllowUnauthenticated : bool;
}.

Definition withChallenge (p : Pipeline) (c : C) : Pipeline :=
  {| P_Inventory := P_Inventory p; P_Challenge := Some c; P_Roles := P_Roles p;
     P_Constraints := P_Constraints p; RequireChallenge := RequireChallenge p;
     AllowUnauthenticated := AllowUnauthenticated p |}.

(** Stage 3: a nil inventory is [NoInventory]. *)
Definition lookupInventory (p : Pipeline) (id : Identity) : result Record_ :=
  match P_Inventory p with
  | Some inv => Lookup inv id
  | None => Lookup MkNoInventory id
  end.

(** Stage 4: a denial, or whether a non-empty secret was validated. *)
Definition challengeStage (p : Pipeline) (now : Time) (id : Identity) (rec : Record_)
    (password : string) : Pipeline * (Decision + bool) :=
  let challengeRequired := RequireChallenge p || R_RequireChallenge rec in
  if challengeRequired then
    match P_Challenge p with
    | None => (p, inl (Deny "challenge required but no validator configured"))
    | Some c =>
        match Validate c now id password with
        | (c', Err _) => (withChallenge p c', inl (Deny "challenge validation failed"))
        | (c', Ok _) => (withChallenge p c', inr (negb (password =? "")%string))
        end
    end
  else if negb (password =? "")%string then
    match P_Challenge p with
    | None => (p, inr false)
    | Some c =>
        match Validate c now id password with
        | (c', Err _) => (withChallenge p c', inl (Deny "challenge validation failed"))
        | (c', Ok _) => (withChallenge p c', inr true)
        end
    end
  else (p, inr false).

(** Stage 6 *)
Definition selectRole (p : Pipeline) (id : Identity) (rec : Record_) : string :=
  if (R_Role rec =? "")%string then
    match P_Roles p with Some r => Role r id | None => R_Role rec end
  else R_Role rec.

#[export] Instance Pipeline_Authorize : Authorizer Pipeline :=
  fun p now req =>
    let id := resolveIdentity req in
    if bool_decide (Req_Operation req = OpSimpleReenroll) && negb (Authenticated id) then
      (p, Ok (Deny "re-enrollment requires a client certificate"))
    else match lookupInventory p id with
    | Err err => (p, Err err)
    | Ok rec =>
      if negb (Found rec) then (p, Ok (Deny "device not permitted by inventory"))
      else match challengeStage p now id rec (Req_ChallengePassword req) with
      | (p', inl denied) => (p', Ok denied)
      | (p', inr challengeValidated) =>
        if negb (Authenticated id) && negb challengeValidated && negb (AllowUnauthenticated p)
        then (p', Ok (Deny "unauthenticated: no client certificate and no validated challenge"))
        else
          let role := selectRole p id rec in
          if (role =? "")%string then (p', Ok (Deny "no OpenBao role for identity"))
          else match P_Constraints p with
          | None => (p', Ok (Deny "no constraint policy configured"))
          | Some b =>
              match Build b id rec with
              | Err err => (p', Ok (Deny err))
              | Ok cons_ =>
                  (p', Ok {| Allow := true; D_Role := role; D_Constraints := cons_;
                             Reason := "authorized" |})
              end
          end
      end
    end.

(** ** The specification: what it takes to be authorized *)

Definition challengeRequired (p : Pipeline) (rec : Record_) : Prop :=
  RequireChallenge p = true \/ R_RequireChallenge rec = true.

(** How a request passes the challenge stage: the secret it proved. *)
Inductive challenge_passed (p : Pipeline) (now : Time) (id : Identity) (rec : Record_)
    (password : string) : Pipeline -> bool -> Prop :=
| passed_checked c c' :
    P_Challenge p = Some c ->
    challengeRequired p rec \/ password <> "" ->
    Validate c now id password = (c', Ok tt) ->
    challenge_passed p now id rec password (withChallenge p c') (negb (password =? "")%string)
| passed_skipped :
    ~ challengeRequired p rec ->
    password = "" \/ P_Challenge p = None ->
    challenge_passed p now id rec password p false.

Record authorized (p : Pipeline) (now : Time) (req : Request) (p' : Pipeline) (d : Decision)
    (rec : Record_) (validated : bool) (b : B) : Prop := {
  az_continuity : Req_Operation req = OpSimpleReenroll ->
    Authenticated (resolveIdentity req) = true;
  az_lookup : lookupInventory p (resolveIdentity req) = Ok rec;
  az_found : Found rec = true;
  az_challenge : challenge_passed p now (resolveIdentity req) rec
    (Req_ChallengePassword req) p' validated;
  az_gate : Authenticated (resolveIdentity req) = true \/ validated = true
    \/ AllowUnauthenticated p = true;
  az_role : selectRole p (resolveIdentity req) rec <> "";
  az_policy : P_Constraints p = Some b;
  az_build : Build b (resolveIdentity req) rec = Ok (D_Constraints d);
  az_decision : d = {| Allow := true; D_Role := selectRole p (resolveIdentity req) rec;
                       D_Constraints := D_Constraints d; Reason := "authorized" |};
}.

Lemma challengeStage_passed p now id rec password p' v :
  challengeStage p now id rec password = (p', inr v) ->
  challenge_passed p now id rec password p' v.
Proof.
  unfold challengeStage.
  destruct (RequireChallenge p || R_RequireChallenge rec) eqn:Hreq.
  - apply orb_true_iff in Hreq.
    destruct (P_Challenge p) as [c|] eqn:Hc; [|done].
    destruct (Validate c now id password) as [c' [[]|e]] eqn:Hv; intros ?; simplify_eq.
    by eapply passed_checked; eauto.
  - apply orb_false_iff in Hreq as [Hp Hr].
    assert (~ challengeRequired p rec) by (unfold challengeRequired; rewrite Hp, Hr; naive_solver).
    destruct (String.eqb_spec password "") as [->|Hne]; simpl; [intros ?; simplify_eq|].
    { apply passed_skipped; auto. }
    destruct (P_Challenge p) as [c|] eqn:Hc; [|intros ?; simplify_eq; apply passed_skipped; auto].
    destruct (Validate c now id password) as [c' [[]|e]] eqn:Hv; intros ?; simplify_eq.
    replace true with (negb (password =? "")%string)
      by (apply String.eqb_neq in Hne; by rewrite Hne).
    eapply passed_checked; eauto.
Qed.

Lemma passed_challengeStage p now id rec password p' v :
  challenge_passed p now id rec password p' v ->
  challengeStage p now id rec password = (p', inr v).
Proof.
  unfold challengeStage. intros [c c' Hc Hwhy Hv|Hnot Hwhy].
  - rewrite Hc, Hv. destruct (RequireChallenge p || R_RequireChallenge rec) eqn:Hreq; [done|].
    apply orb_false_iff in Hreq as [Hp Hr].
    destruct (String.eqb_spec password "") as [->|Hne]; [|done].
    unfold challengeRequired in Hwhy. rewrite Hp, Hr in Hwhy. naive_solver.
  - unfold challengeRequired in Hnot.
    destruct (RequireChallenge p), (R_RequireChallenge rec); simpl; try naive_solver.
    destruct Hwhy as [->|Hn]; [done|]. rewrite Hn. by destruct (negb _).
Qed.

Lemma challengeStage_iff p now id rec password p' v :
  challengeStage p now id rec password = (p', inr v) <->
  challenge_passed p now id rec password p' v.
Proof. split; [apply challengeStage_passed|apply passed_challengeStage]. Qed.

(** How a request fails it: no validator where one is needed, or a secret the
    validator rejects. *)
Inductive challenge_failed (p : Pipeline) (now : Time) (id : Identity) (rec : Record_) (password : string)
    : Pipeline -> string -> Prop :=
| failed_unconfigured :
    challengeRequired p rec -> P_Challenge p = None ->
    challenge_failed p now id rec password p "challenge required but no validator configured"
| failed_rejected c c' e :
    P_Challenge p = Some c -> challengeRequired p rec \/ password <> "" ->
    Validate c now id password = (c', Err e) ->
    challenge_failed p now id rec password (withChallenge p c') "challenge validation failed".

Lemma challengeRequired_iff p rec : RequireChallenge p || R_RequireChallenge rec = true <-> challengeRequired p rec.
Proof. apply orb_true_iff. Qed.

Lemma challengeStage_denied p now id rec password p' d :
  challengeStage p now id rec password = (p', inl d) <->
  exists reason, d = Deny reason /\ challenge_failed p now id rec password p' reason.
Proof.
  unfold challengeStage. split.
  - destruct (RequireChallenge p || R_RequireChallenge rec) eqn:Hreq.
    + apply challengeRequired_iff in Hreq. destruct (P_Challenge p) as [c|] eqn:Hc.
      * destruct (Validate c now id password) as [c' [[]|e]] eqn:Hv; intros ?; simplify_eq.
        eexists. split; [done|]. eapply failed_rejected; eauto.
      * intros ?; simplify_eq. eexists. split; [done|]. by apply failed_unconfigured.
    + destruct (String.eqb_spec password "") as [->|Hne]; simpl; [done|].
      destruct (P_Challenge p) as [c|] eqn:Hc; [|done].
      destruct (Validate c now id password) as [c' [[]|e]] eqn:Hv; intros ?; simplify_eq.
      eexists. split; [done|]. eapply failed_rejected; eauto.
  - intros (reason & -> & [Hreq Hn|c c' e Hc Hwhy Hv]).
    + apply challengeRequired_iff in Hreq. by rewrite Hreq, Hn.
    + rewrite Hc, Hv. destruct (RequireChallenge p || R_RequireChallenge rec) eqn:Hreq; [done|].
      destruct Hwhy as [Hwhy|Hne%String.eqb_neq]; [apply challengeRequired_iff in Hwhy; congruence|].
      by rewrite Hne.
Qed.

(** *** What it takes to be refused: the first gate that does not pass *)

(** Past the first gates: no renewal without a certificate, and an inventory
    hit. *)
Record admitted_device (p : Pipeline) (req : Request) (rec : Record_) : Prop := {
  ad_continuity : Req_Operation req = OpSimpleReenroll -> Req_ClientCert req <> None;
  ad_lookup : lookupInventory p (resolveIdentity req) = Ok rec;
  ad_found : Found rec = true;
}.

(** Past the authentication gate too: a certificate, a validated secret, or the
    explicit opt-out. *)
Record admitted_requester (p : Pipeline) (now : Time) (req : Request) (rec : Record_) (p' : Pipeline) : Prop := {
  ar_device : admitted_device p req rec;
  ar_gate : exists validated,
    challenge_passed p now (resolveIdentity req) rec (Req_ChallengePassword req) p' validated /\
    (Req_ClientCert req <> None \/ validated = true \/ AllowUnauthenticated p = true);
}.

Inductive refused (p : Pipeline) (now : Time) (req : Request) : Pipeline -> string -> Prop :=
| refused_continuity :
    Req_Operation req = OpSimpleReenroll -> Req_ClientCert req = None ->
    refused p now req p "re-enrollment requires a client certificate"
| refused_inventory rec :
    (Req_Operation req = OpSimpleReenroll -> Req_ClientCert req <> None) ->
    lookupInventory p (resolveIdentity req) = Ok rec -> Found rec = false ->
    refused p now req p "device not permitted by inventory"
| refused_challenge rec p' reason :
    admitted_device p req rec ->
    challenge_failed p now (resolveIdentity req) rec (Req_ChallengePassword req) p' reason ->
    refused p now req p' reason
| refused_unauthenticated rec p' :
    admitted_device p req rec ->
    challenge_passed p now (resolveIdentity req) rec (Req_ChallengePassword req) p' false ->
    Req_ClientCert req = None -> AllowUnauthenticated p = false ->
    refused p now req p' "unauthenticated: no client certificate and no validated challenge"
| refused_role rec p' :
    admitted_requester p now req rec p' -> selectRole p (resolveIdentity req) rec = "" ->
    refused p now req p' "no OpenBao role for identity"
| refused_no_policy rec p' :
    admitted_requester p now req rec p' -> selectRole p (resolveIdentity req) rec <> "" ->
    P_Constraints p = None ->
    refused p now req p' "no constraint policy configured"
| refused_policy rec p' b e :
    admitted_requester p now req rec p' -> selectRole p (resolveIdentity req) rec <> "" ->
    P_Constraints p = Some b -> Build b (resolveIdentity req) rec = Err e ->
    refused p now req p' e.

Lemma authenticated_cert req : Authenticated (resolveIdentity req) = true <-> Req_ClientCert req <> None.
Proof. simpl. by destruct (Req_ClientCert req). Qed.

Lemma unauthenticated_cert req : Authenticated (resolveIdentity req) = false <-> Req_ClientCert req = None.
Proof. simpl. by destruct (Req_ClientCert req). Qed.

Lemma continuity_gate req :
  bool_decide (Req_Operation req = OpSimpleReenroll) && negb (Authenticated (resolveIdentity req)) = false <->
  (Req_Operation req = OpSimpleReenroll -> Req_ClientCert req <> None).
Proof.
  rewrite andb_false_iff, bool_decide_eq_false, negb_false_iff, authenticated_cert.
  destruct (decide (Req_Operation req = OpSimpleReenroll)); tauto.
Qed.

Lemma authentication_gate p req v :
  negb (Authenticated (resolveIdentity req)) && negb v && negb (AllowUnauthenticated p) = false <->
  Req_ClientCert req <> None \/ v = true \/ AllowUnauthenticated p = true.
Proof. rewrite !andb_false_iff, !negb_false_iff, authenticated_cert. tauto. Qed.

Lemma denied_refused p now req p' d :
  Authorize p now req = (p', Ok d) -> Allow d = false -> exists reason, d = Deny reason /\ refused p now req p' reason.
Proof.
  unfold Authorize, Pipeline_Authorize. intros Ha Hd.
  destruct (bool_decide _ && _) eqn:Hop.
  { simplify_eq. eexists. split; [done|]. apply andb_true_iff in Hop as [Hop%bool_decide_eq_true Hna%negb_true_iff].
    apply refused_continuity; [done|by apply unauthenticated_cert]. }
  pose proof (proj1 (continuity_gate req) Hop) as Hcont. destruct (lookupInventory _ _) as [rec|] eqn:Hl; [|done].
  destruct (Found rec) eqn:Hf; cbn [negb] in Ha; [|simplify_eq; eexists; split; [done|by eapply refused_inventory]].
  assert (Hdev : admitted_device p req rec) by by split.
  destruct (challengeStage _ _ _ _ _) as [p1 [denied|v]] eqn:Hcs.
  { apply challengeStage_denied in Hcs as (reason & -> & Hc). simplify_eq. eexists. split; [done|by eapply refused_challenge]. }
  apply challengeStage_iff in Hcs. destruct (_ && _ && _) eqn:Hg.
  { simplify_eq. apply andb_true_iff in Hg as [[Hc%negb_true_iff%unauthenticated_cert Hv%negb_true_iff]%andb_true_iff Hu%negb_true_iff].
    subst v. eexists. split; [done|by eapply refused_unauthenticated]. }
  apply authentication_gate in Hg. assert (Hreq : admitted_requester p now req rec p1) by (split; [done|by exists v]).
  destruct (String.eqb_spec (selectRole p (resolveIdentity req) rec) "") as [Hr|Hr].
  { simplify_eq. eexists. split; [done|by eapply refused_role]. }
  destruct (P_Constraints p) as [b|] eqn:Hb; [|simplify_eq; eexists; split; [done|by eapply refused_no_policy]].
  destruct (Build b _ rec) as [c|e] eqn:Hbuild; simplify_eq. eexists. split; [done|by eapply refused_policy].
Qed.

Lemma refused_denied p now req p' reason :
  refused p now req p' reason -> Authorize p now req = (p', Ok (Deny reason)).
Proof.
  unfold Authorize, Pipeline_Authorize.
  intros [Hop Hc|rec Hop Hl Hf|rec p1 why [Hop Hl Hf] Hch|rec p1 [Hop Hl Hf] Hch Hc Hu
         |rec p1 [[Hop Hl Hf] (v & Hch & Hg)] Hr|rec p1 [[Hop Hl Hf] (v & Hch & Hg)] Hr Hb
         |rec p1 b e [[Hop Hl Hf] (v & Hch & Hg)] Hr Hb Hbuild].
  { apply unauthenticated_cert in Hc. by rewrite bool_decide_true, Hc by done. }
  all: rewrite (proj2 (continuity_gate req) Hop), Hl, Hf; cbn [negb].
  { done. }
  { by rewrite (proj2 (challengeStage_denied _ _ _ _ _ _ _) (ex_intro _ why (conj eq_refl Hch))). }
  all: apply challengeStage_iff in Hch; rewrite Hch.
  { apply unauthenticated_cert in Hc. by rewrite Hc, Hu. }
  all: rewrite (proj2 (authentication_gate p req v) Hg).
  - by rewrite Hr.
  - apply String.eqb_neq in Hr. by rewrite Hr, Hb.
  - apply String.eqb_neq in Hr. by rewrite Hr, Hb, Hbuild.
Qed.

Lemma authorize_sound p now req p' d :
  Authorize p now req = (p', Ok d) -> Allow d = true ->
  exists rec v b, authorized p now req p' d rec v b.
Proof.
  intros Ha Hd. unfold Authorize, Pipeline_Authorize in Ha.
  destruct (bool_decide _ && _) eqn:Hop; [naive_solver|].
  destruct (lookupInventory _ _) as [rec|] eqn:Hl; [|naive_solver].
  destruct (Found rec) eqn:Hf; simpl in Ha; [|naive_solver].
  destruct (challengeStage _ _ _ _ _) as [p1 [denied|v]] eqn:Hcs.
  { apply challengeStage_denied in Hcs as (? & -> & _). naive_solver. }
  apply challengeStage_iff in Hcs.
  destruct (_ && _ && _) eqn:Hg; [naive_solver|].
  destruct (String.eqb_spec (selectRole p (resolveIdentity req) rec) ""); [naive_solver|].
  destruct (P_Constraints p) as [b|] eqn:Hb; [|naive_solver].
  destruct (Build b _ rec) as [cons_|] eqn:Hbuild; [|naive_solver].
  simplify_eq. exists rec, v, b. split; auto.
  - intros Hre. rewrite bool_decide_true in Hop by done.
    by apply negb_false_iff in Hop.
  - rewrite !andb_false_iff, !negb_false_iff in Hg. tauto.
Qed.

Lemma authorize_complete p now req p' d rec v b :
  authorized p now req p' d rec v b -> Authorize p now req = (p', Ok d).
Proof.
  intros [Hc Hl Hf Hch Hg Hr Hp Hb Hd]. unfold Authorize, Pipeline_Authorize.
  destruct (bool_decide _ && _) eqn:Hop.
  { apply andb_true_iff in Hop as [Hop%bool_decide_eq_true Hna].
    by rewrite (Hc Hop) in Hna. }
  rewrite Hl, Hf. simpl. apply challengeStage_iff in Hch. rewrite Hch.
  destruct (_ && _ && _) eqn:Hgate.
  { rewrite !andb_true_iff, !negb_true_iff in Hgate. naive_solver congruence. }
  apply String.eqb_neq in Hr. rewrite Hr, Hp, Hb. by rewrite <- Hd.
Qed.

End Pipeline.
Arguments Pipeline : clear implicits.

(** ** Properties *)

Section PipelineProperties.
Context `{UnicodeTables} {I C R B : Type}
  `{Inventory I} `{ChallengeValidator C} `{RoleSelector R} `{ConstraintBuilder B}.

(** C5. The pipeline authorizes a request exactly when every stage passes:
    renewal continuity, an inventory hit, the challenge stage, the
    authentication gate, a non-empty role and a built constraint set, which
    are then what the decision carries. *)
Theorem authorize_allow_iff (p : Pipeline I C R B) now req p' d :
  Authorize p now req = (p', Ok d) /\ Allow d = true <->
  exists rec v b, authorized p now req p' d rec v b.
Proof.
  split.
  - intros [Ha Hd]. by apply (authorize_sound p now req p' d).
  - intros (rec & v & b & Haz). split; [by eapply authorize_complete|].
    by rewrite (az_decision _ _ _ _ _ _ _ _ Haz).
Qed.

(** Authorization is never authentication: unless open enrollment was
    turned on, a request without a verified client certificate is allowed
    only on a non-empty challenge secret that the configured validator
    vouches for. *)
Theorem unauthenticated_needs_secret {Sound : ChallengeSound C} (p : Pipeline I C R B) now req p' d
    (Ha : Authorize p now req = (p', Ok d)) (Hallow : Allow d = true)
    (Hcert : Req_ClientCert req = None) (Hopen : AllowUnauthenticated p = false) :
  exists c, P_Challenge p = Some c /\ Req_ChallengePassword req <> "" /\
    Knows c now (resolveIdentity req) (Req_ChallengePassword req).
Proof.
  apply (authorize_sound p now req p' d) in Ha as (rec & v & b & Haz); [|done].
  destruct (az_gate _ _ _ _ _ _ _ _ Haz) as [Hg|[Hg|Hg]]; [..|congruence].
  - apply resolveIdentity_authenticated in Hg as [c Hc]. congruence.
  - destruct (az_challenge _ _ _ _ _ _ _ _ Haz) as [c c' Hc _ Hv|]; [|done].
    apply negb_true_iff, String.eqb_neq in Hg.
    exists c. split_and!; try done. by eapply validate_sound.
Qed.

(** A wrong challenge secret is a hard failure, required or not: when the
    validator rejects a supplied secret the request is not allowed. *)
Theorem wrong_challenge_denies (p : Pipeline I C R B) now req p' d c c' e
    (Hc : P_Challenge p = Some c) (Hpw : Req_ChallengePassword req <> "")
    (Hv : Validate c now (resolveIdentity req) (Req_ChallengePassword req) = (c', Err e))
    (Ha : Authorize p now req = (p', Ok d)) :
  Allow d = false.
Proof.
  apply not_true_is_false. intros Hd.
  apply (authorize_sound p now req p' d) in Ha as (rec & v & b & Haz); [|done].
  destruct (az_challenge _ _ _ _ _ _ _ _ Haz) as [c1 c1' Hc1 _ Hv1|_ [Hp|Hn]]; [|done|congruence].
  rewrite Hc in Hc1. simplify_eq. congruence.
Qed.

(** C38. Every gap fails closed, and says which: the pipeline denies a request
    exactly when some gate does not pass, with the reason of the first one that
    does not.  The gates are, in order, a certificate for a renewal, an inventory
    hit, a validator where a challenge is required, a secret the validator
    accepts (also where none was required), a certificate or a validated secret
    unless open enrollment was turned on, a role, a constraint policy, and a
    constraint set that the policy builds.  A denial carries no role and no names.
    The only failure that is no denial is the inventory's own, after the first
    gate, and it consumes nothing. *)
Theorem pipeline_fails_closed (p : Pipeline I C R B) now req :
  (forall p' d, Authorize p now req = (p', Ok d) /\ Allow d = false <->
     exists reason, refused p now req p' reason /\
       d = {| Allow := false; D_Role := ""; D_Constraints := zeroConstraints; Reason := reason |}) /\
  (forall p' e, Authorize p now req = (p', Err e) <->
     p' = p /\ lookupInventory p (resolveIdentity req) = Err e /\
     (Req_Operation req = OpSimpleReenroll -> Req_ClientCert req <> None)).
Proof.
  split.
  - intros p' d. split.
    + intros [Ha Hd]. destruct (denied_refused p now req p' d Ha Hd) as (reason & -> & Hr). by exists reason.
    + intros (reason & Hr & ->). split; [by apply refused_denied|done].
  - intros p' e. unfold Authorize, Pipeline_Authorize. rewrite <- continuity_gate.
    destruct (bool_decide _ && _); [naive_solver|].
    destruct (lookupInventory _ _) as [rec|] eqn:Hl; [|naive_solver].
    destruct (negb (Found rec)); [naive_solver|].
    destruct (challengeStage _ _ _ _ _) as [p1 [denied|v]]; [naive_solver|].
    destruct (_ && _ && _); [naive_solver|].
    destruct (_ =? _)%string; [naive_solver|].
    destruct (P_Constraints p) as [b|]; [|naive_solver].
    destruct (Build b _ rec); naive_solver.
Qed.
End PipelineProperties.

(** C16. Renewal continuity, end to end through the policy: a re-enrollment in
    identity mode is allowed only for a presented certificate, and the CA is
    then asked for that certificate's CN, for DNS names that its names cover as
    patterns, for no IP or URI names, and for the policy's validity.  When none
    of the certificate's names is a wildcard, every name asked for is, up to
    letter case and surrounding space, one the certificate carries; a wildcard
    certificate may be given any name under its wildcard. *)
Theorem reenroll_keeps_identity `{UnicodeTables} {I C R} `{Inventory I} `{ChallengeValidator C}
    `{RoleSelector R} (p : Pipeline I C R StandardConstraints) b now req p' d
    (Hb : P_Constraints p = Some b) (Hmode : Mode b = SANModeIdentity)
    (Hop : Req_Operation req = OpSimpleReenroll)
    (Ha : Authorize p now req = (p', Ok d)) (Hallow : Allow d = true) :
  exists cert, Req_ClientCert req = Some cert /\
    let names := CommonName (Subject cert) :: DNSNames cert in
    C_CommonName (D_Constraints d) = CommonName (Subject cert) /\
    (forall n, n ∈ C_DNSNames (D_Constraints d) -> covered n names) /\
    ((forall pat, pat ∈ names -> literal pat) ->
     forall n, n ∈ C_CommonName (D_Constraints d) :: C_DNSNames (D_Constraints d) -> norm n ∈ map norm names) /\
    C_IPs (D_Constraints d) = [] /\ C_URIs (D_Constraints d) = [] /\
    C_TTL (D_Constraints d) = MaxValidity b.
Proof.
  apply (authorize_sound p now req p' d) in Ha as (rec & v & b' & Haz); [|done].
  pose proof (az_continuity _ _ _ _ _ _ _ _ Haz Hop) as Hauth.
  pose proof (az_policy _ _ _ _ _ _ _ _ Haz) as Hb'. rewrite Hb in Hb'. simplify_eq.
  pose proof (az_build _ _ _ _ _ _ _ _ Haz) as Hbuild.
  apply resolveIdentity_authenticated in Hauth as Hcert. destruct Hcert as [cert Hcert].
  exists cert. split; [done|]. cbv zeta.
  apply Build_iff in Hbuild as [Hbuild _]. unfold build in Hbuild. rewrite Hmode, Hauth in Hbuild.
  simpl in Hbuild. apply fromAuthenticatedIdentity_iff in Hbuild as (_ & Hdns & _ & _ & ->).
  simpl in *. rewrite Hcert in *.
  assert (Hcov : forall n, n ∈ (if nonempty (match Req_CSR req with Some r => CSR_DNSNames r | None => [] end)
      then match Req_CSR req with Some r => CSR_DNSNames r | None => [] end else DNSNames cert) ->
      covered n (CommonName (Subject cert) :: DNSNames cert)).
  { intros n Hn. destruct (nonempty _); [by apply Hdns|]. apply covered_self. by right. }
  split_and!; try done. intros Hlit n [->|Hn]%elem_of_cons; (apply (covered_literal _ (_ :: _)); [done|]).
  - apply covered_self. by left.
  - by apply Hcov.
Qed.

(** ** Concrete runs *)

Section Examples.
#[local] Existing Instance ascii_tables.

(** A file inventory with one device, a static secret, one role and the
    default policy. *)
Definition examplePipeline : Pipeline FileInventory StaticSecret RuleSelector StandardConstraints :=
  {| P_Inventory := Some {| path := "";
       devices := [exampleEntry "d.example.com" "" ["d.example.com"]] |};
     P_Challenge := Some {| secret := "s3cret" |};
     P_Roles := Some (NewRuleSelector [] "device-role");
     P_Constraints := Some identityPolicy;
     RequireChallenge := false; AllowUnauthenticated := false |}.

Definition exampleDecision : Decision :=
  {| Allow := true; D_Role := "device-role";
     D_Constraints := exampleConstraints "d.example.com" []; Reason := "authorized" |}.

Lemma unauthenticated_needs_secret_witness :
  let req := exampleRequest OpSimpleEnroll None (exampleCSR "d.example.com" []) "s3cret" in
  exists c, P_Challenge examplePipeline = Some c /\ Req_ChallengePassword req <> "" /\
    Knows c 0 (resolveIdentity req) (Req_ChallengePassword req).
Proof.
  intros req.
  apply (unauthenticated_needs_secret examplePipeline 0 req examplePipeline exampleDecision);
    vm_compute; reflexivity.
Defined.

Lemma wrong_challenge_denies_witness :
  exists d, snd (Authorize examplePipeline 0
    (exampleRequest OpSimpleEnroll (Some (exampleCert "d.example.com" [] 0))
       (exampleCSR "d.example.com" []) "guess")) = Ok d /\ Allow d = false.
Proof.
  eexists. split; [vm_compute; reflexivity|].
  apply (wrong_challenge_denies examplePipeline 0
    (exampleRequest OpSimpleEnroll (Some (exampleCert "d.example.com" [] 0))
       (exampleCSR "d.example.com" []) "guess")
    examplePipeline _ {| secret := "s3cret" |} {| secret := "s3cret" |} ErrChallenge);
    vm_compute; first [reflexivity|discriminate].
Defined.

(** The same pipeline denies a device it knows that proves nothing. *)
Lemma pipeline_fails_closed_witness :
  let req := exampleRequest OpSimpleEnroll None (exampleCSR "d.example.com" []) "" in
  refused examplePipeline 0 req examplePipeline
    "unauthenticated: no client certificate and no validated challenge".
Proof.
  intros req. destruct (proj1 (proj1 (pipeline_fails_closed examplePipeline 0 req) examplePipeline
    (Deny "unauthenticated: no client certificate and no validated challenge"))) as (reason & Hr & [= <-]);
    [split; vm_compute; reflexivity|exact Hr].
Defined.

Lemma reenroll_keeps_identity_witness :
  let cert := exampleCert "d.example.com" ["d.example.com"] 0 in
  let req := exampleRequest OpSimpleReenroll (Some cert) (exampleCSR "" []) "" in
  exists cert', Req_ClientCert req = Some cert' /\ CommonName (Subject cert') = "d.example.com".
Proof.
  intros cert req.
  destruct (reenroll_keeps_identity examplePipeline identityPolicy 0 req examplePipeline
    {| Allow := true; D_Role := "device-role";
       D_Constraints := exampleConstraints "d.example.com" ["d.example.com"];
       Reason := "authorized" |}) as (cert' & Hc & Hcn & _);
    [vm_compute; reflexivity ..|].
  exists cert'. split; [exact Hc|]. symmetry. exact Hcn.
Defined.
End Examples.
