(* ===== verification/Replay.v ===== *)
(** * internal/scep/replay.go: the replay cache

    [Check] holds the mutex from the lookup to the insertion, so concurrent
    checks are a sequence; [replay_run] is such a sequence, each check with the
    time it happened at. *)
From S2P Require Import Prelude GoLib GoCrypto.

Abbreviation TransactionID := string (only parsing).
Abbreviation Nonce := bytes (only parsing).

Definition DefaultReplayTTL : Duration := 15 * Minute.
Definition DefaultReplayMaxEntries : Z := 100000.

Record ReplayCache := {
  seen : gmap string Time;
  ttl : Duration;
  maxSize : Z;
}.

Definition NewReplayCache (ttl : Duration) (maxSize : Z) : ReplayCache :=
  {| seen := ∅;
     ttl := if ttl <=? 0 then DefaultReplayTTL else ttl;
     maxSize := if maxSize <=? 0 then DefaultReplayMaxEntries else maxSize |}.

(** What [replayKey] hashes: the pair with a NUL between. *)
Definition replayPreimage (txID : TransactionID) (nonce : Nonce) : bytes :=
  bytes_of_string txID ++ [Byte.x00] ++ nonce.

Definition replayKey (txID : TransactionID) (nonce : Nonce) : string :=
  hex_EncodeToString (Sha256.Sum256 (replayPreimage txID nonce)).

Definition Size (c : ReplayCache) : Z := Z.of_nat (size (seen c)).

Definition withSeen (c : ReplayCache) (m : gmap string Time) : ReplayCache :=
  {| seen := m; ttl := ttl c; maxSize := maxSize c |}.

Definition live (now : Time) (m : gmap string Time) : gmap string Time :=
  filter (fun kv => Before now kv.2 = true) m.

Definition evictLocked (c : ReplayCache) (now : Time) : ReplayCache :=
  let c := withSeen c (live now (seen c)) in
  if maxSize c <=? Size c then withSeen c ∅ else c.

(** [expiry, ok := c.seen[key]; ok && now.Before(expiry)] *)
Definition unexpired (c : ReplayCache) (now : Time) (key : string) : bool :=
  match seen c !! key with Some expiry => Before now expiry | None => false end.

(** [Check] for a key already hashed, and the exported operation. *)
Definition checkKey (c : ReplayCache) (now : Time) (key : string) : ReplayCache * bool :=
  if unexpired c now key then (c, false)
  else
    let c := if maxSize c <=? Size c then evictLocked c now else c in
    (withSeen c (<[key := Add now (ttl c)]> (seen c)), true).

Definition Check (c : ReplayCache) (now : Time) (txID : TransactionID) (nonce : Nonce)
    : ReplayCache * bool :=
  checkKey c now (replayKey txID nonce).

(** ** Sequences of checks *)

Fixpoint replay_run (c : ReplayCache) (ops : list (Time * string)) : ReplayCache * list bool :=
  match ops with
  | [] => (c, [])
  | (now, key) :: ops' =>
      let '(c', fresh) := checkKey c now key in
      let '(c'', rs) := replay_run c' ops' in (c'', fresh :: rs)
  end.

Definition after (c : ReplayCache) (ops : list (Time * string)) : ReplayCache := fst (replay_run c ops).

(** ** Lemmas *)

Lemma live_lookup now m key t :
  live now m !! key = Some t <-> m !! key = Some t /\ now < t.
Proof.
  unfold live, Before. rewrite map_lookup_filter_Some. simpl. by rewrite Z.ltb_lt.
Qed.

Lemma live_size now m : (size (live now m) <= size m)%nat.
Proof. apply map_subseteq_size, map_filter_subseteq. Qed.

Lemma checkKey_params c now key :
  ttl (fst (checkKey c now key)) = ttl c /\ maxSize (fst (checkKey c now key)) = maxSize c.
Proof.
  unfold checkKey, evictLocked. destruct (unexpired c now key); [done|].
  destruct (maxSize c <=? Size c); simpl; [|done].
  by destruct (maxSize c <=? Size _).
Qed.

(** After eviction there is room for one more entry. *)
Lemma evictLocked_room c now : 0 < maxSize c -> Size (evictLocked c now) < maxSize c.
Proof.
  unfold evictLocked, Size. intros Hpos. simpl.
  destruct (Z.leb_spec (maxSize c) (Z.of_nat (size (live now (seen c))))); simpl; [|done].
  rewrite map_size_empty. lia.
Qed.

Lemma insert_size key t (m : gmap string Time) : (size (<[key := t]> m) <= S (size m))%nat.
Proof. rewrite map_size_insert. destruct (m !! key); simpl; lia. Qed.

Lemma checkKey_bounded c now key :
  0 < maxSize c -> Size c <= maxSize c -> Size (fst (checkKey c now key)) <= maxSize c.
Proof.
  intros Hpos Hle. unfold checkKey. destruct (unexpired c now key); [done|].
  destruct (Z.leb_spec (maxSize c) (Size c)) as [Hfull|Hroom];
    unfold Size in *; cbn [fst seen withSeen].
  - pose proof (evictLocked_room c now Hpos) as Hr. unfold Size in Hr.
    pose proof (insert_size key (Add now (ttl (evictLocked c now))) (seen (evictLocked c now))).
    lia.
  - pose proof (insert_size key (Add now (ttl c)) (seen c)). lia.
Qed.

(** An unexpired entry survives a check unless the table is full of them. *)
Lemma checkKey_keeps c now key k t :
  seen c !! k = Some t -> now < t ->
  Z.of_nat (size (live now (seen c))) < maxSize c ->
  seen (fst (checkKey c now key)) !! k = Some t.
Proof.
  intros Hk Hlive Hroom. unfold checkKey.
  destruct (unexpired c now key) eqn:Hseen; [done|]. simpl.
  assert (Hne : key <> k).
  { intros ->. unfold unexpired in Hseen. rewrite Hk in Hseen. unfold Before in Hseen. apply Z.ltb_ge in Hseen. lia. }
  rewrite lookup_insert_ne by done.
  destruct (maxSize c <=? Size c); [|done].
  unfold evictLocked, Size. simpl.
  destruct (Z.leb_spec (maxSize c) (Z.of_nat (size (live now (seen c))))); [lia|].
  simpl. by apply live_lookup.
Qed.

Lemma checkKey_fresh_records c now key c' :
  checkKey c now key = (c', true) -> seen c' !! key = Some (now + ttl c).
Proof.
  unfold checkKey. destruct (unexpired c now key); [done|].
  intros [=<-]. simpl. rewrite lookup_insert_eq. f_equal. unfold Add. f_equal.
  destruct (maxSize c <=? Size c); [|done]. unfold evictLocked. simpl.
  by destruct (_ <=? _).
Qed.

Lemma checkKey_refused c now key c' :
  checkKey c now key = (c', false) <->
  c' = c /\ exists t, seen c !! key = Some t /\ now < t.
Proof.
  unfold checkKey, unexpired, Before. destruct (seen c !! key) as [t|].
  - destruct (Z.ltb_spec now t).
    + split; [intros ?; simplify_eq; eauto|by intros [-> _]].
    + split; [done|]. intros [_ (? & ? & ?)]. simplify_eq. lia.
  - split; [done|]. naive_solver.
Qed.

(** Every entry of the table was put there by some check of that key. *)
Lemma checkKey_origin c now key k t :
  seen (fst (checkKey c now key)) !! k = Some t ->
  seen c !! k = Some t \/ k = key /\ t = now + ttl c.
Proof.
  destruct (checkKey c now key) as [c' fresh] eqn:Hc. simpl. intros Hk. destruct fresh.
  - destruct (decide (k = key)) as [->|Hne].
    + right. apply checkKey_fresh_records in Hc. split; [done|congruence].
    + left. revert Hc Hk. unfold checkKey.
      destruct (unexpired c now key); [done|]. intros [=<-]. simpl.
      rewrite lookup_insert_ne by done. destruct (maxSize c <=? Size c); [|done].
      unfold evictLocked. simpl. destruct (_ <=? _); simpl; [done|].
      by intros [? _]%live_lookup.
  - apply checkKey_refused in Hc as [-> _]. by left.
Qed.

Lemma after_cons c now key ops :
  after c ((now, key) :: ops) = after (fst (checkKey c now key)) ops.
Proof.
  unfold after. simpl. destruct (checkKey c now key) as [c' f]. simpl.
  by destruct (replay_run c' ops).
Qed.

Lemma after_params c ops : ttl (after c ops) = ttl c /\ maxSize (after c ops) = maxSize c.
Proof.
  revert c. induction ops as [|[now key] ops IH]; intros c; [done|].
  rewrite after_cons. destruct (IH (fst (checkKey c now key))) as [-> ->].
  apply checkKey_params.
Qed.

Lemma after_origin c ops k t :
  seen (after c ops) !! k = Some t ->
  seen c !! k = Some t \/ exists now, (now, k) ∈ ops /\ t = now + ttl c.
Proof.
  revert c. induction ops as [|[now key] ops IH]; intros c; [by left|].
  rewrite after_cons. intros [Hk|(now' & Hin & ->)]%IH.
  - apply checkKey_origin in Hk as [Hk|[-> ->]]; [by left|].
    right. exists now. split; [by left|done].
  - right. exists now'. split; [by right|]. by rewrite (proj1 (checkKey_params _ _ _)).
Qed.

(** At every check of the sequence fewer than [maxSize] unexpired entries are
    stored: the condition under which the table is never cleared. *)
Fixpoint never_full (c : ReplayCache) (ops : list (Time * string)) : bool :=
  match ops with
  | [] => true
  | (now, key) :: ops' =>
      (Z.of_nat (size (live now (seen c))) <? maxSize c)
      && never_full (fst (checkKey c now key)) ops'
  end.

Lemma after_keeps c ops k t :
  seen c !! k = Some t -> (forall now key, (now, key) ∈ ops -> now < t) ->
  never_full c ops = true ->
  seen (after c ops) !! k = Some t.
Proof.
  revert c. induction ops as [|[now key] ops IH]; intros c Hk Htime Hroom; [done|].
  rewrite after_cons. simpl in Hroom. apply andb_true_iff in Hroom as [Hroom Hrest].
  apply Z.ltb_lt in Hroom. apply IH; [|by intros; eapply Htime; right|done].
  apply checkKey_keeps; [done| |done]. eapply Htime. by left.
Qed.

Lemma bytes_of_string_inj a b : bytes_of_string a = bytes_of_string b -> a = b.
Proof.
  unfold bytes_of_string. intros H%(f_equal string_of_list_byte).
  by rewrite !string_of_list_byte_of_string in H.
Qed.

(** ** Properties *)

(** The table never outgrows its cap, whatever is checked and when: memory
    is bounded by the configured number of entries (a non-positive
    configuration means the default). *)
Theorem replay_table_bounded (t : Duration) (n : Z) (ops : list (Time * string)) :
  let c := after (NewReplayCache t n) ops in
  0 < maxSize c /\ Size c <= maxSize c.
Proof.
  assert (Hgen : forall c, 0 < maxSize c -> Size c <= maxSize c ->
            0 < maxSize (after c ops) /\ Size (after c ops) <= maxSize (after c ops)).
  { induction ops as [|[now key] ops IH]; intros c Hpos Hle; [done|].
    rewrite after_cons. pose proof (proj2 (checkKey_params c now key)) as Hm.
    apply IH; rewrite Hm; [done|]. by apply checkKey_bounded. }
  apply Hgen; simpl.
  - unfold DefaultReplayMaxEntries. destruct (Z.leb_spec n 0); lia.
  - unfold Size, DefaultReplayMaxEntries. simpl. rewrite map_size_empty.
    destruct (Z.leb_spec n 0); simpl; lia.
Qed.

(** C19. A message that was accepted is refused whenever it comes back within the
    TTL, whatever was checked in between, provided the table never filled up
    with unexpired entries. *)
Theorem replay_refused_within_ttl c now txID nonce c' ops now'
    (Hfresh : Check c now txID nonce = (c', true))
    (Htimes : forall t key, (t, key) ∈ ops -> t < now + ttl c)
    (Hroom : never_full c' ops = true)
    (Hwindow : now' < now + ttl c) :
  snd (Check (after c' ops) now' txID nonce) = false.
Proof.
  apply checkKey_fresh_records in Hfresh as Hk.
  pose proof (after_keeps c' ops _ _ Hk Htimes Hroom) as Hk'.
  unfold Check. destruct (checkKey (after c' ops) now' _) as [c'' f] eqn:Hc.
  assert (Hr : checkKey (after c' ops) now' (replayKey txID nonce) = (after c' ops, false))
    by (apply checkKey_refused; eauto).
  rewrite Hr in Hc. by simplify_eq.
Qed.

(** Only replays are refused: on a cache built by any sequence of checks, a
    check says "seen" only for a key that was checked before and is still
    within its TTL. *)
Theorem replay_refuses_only_seen (t : Duration) (n : Z) ops now key :
  snd (checkKey (after (NewReplayCache t n) ops) now key) = false ->
  exists now0, (now0, key) ∈ ops /\ now < now0 + ttl (NewReplayCache t n).
Proof.
  set (c := NewReplayCache t n).
  destruct (checkKey (after c ops) now key) as [c' f] eqn:Hc. simpl. intros ->.
  apply checkKey_refused in Hc as [_ (e & He & Hlt)].
  apply after_origin in He as [He|(now0 & Hin & ->)]; [done|eauto].
Qed.

(** The separator does its job: two well-formed messages hash the same bytes
    only when transaction ID and nonce are both the same (nonces have a fixed
    length). *)
Theorem replay_preimage_injective txID nonce txID' nonce'
    (Hlen : length nonce = length nonce')
    (Heq : replayPreimage txID nonce = replayPreimage txID' nonce') :
  txID = txID' /\ nonce = nonce'.
Proof.
  unfold replayPreimage in Heq.
  assert (Hl : length (bytes_of_string txID) = length (bytes_of_string txID')).
  { apply (f_equal length) in Heq. rewrite !length_app in Heq. simpl in Heq. lia. }
  apply app_inj_1 in Heq as [Ht Hn]; [|done]. simplify_eq. split; [|done].
  by apply bytes_of_string_inj.
Qed.

(** A full table of unexpired entries is cleared by the next fresh message, and
    everything seen before is accepted again at once: protection lasts for the
    TTL only while fewer than [maxSize] messages arrive in it. *)
Theorem flood_reopens_replay c now key k
    (Hfull : Z.of_nat (size (live now (seen c))) = maxSize c) (Hpos : 0 < maxSize c)
    (Hsz : Size c <= maxSize c)
    (Hnew : seen c !! key = None) (Hk : key <> k) :
  snd (checkKey (fst (checkKey c now key)) now k) = true.
Proof.
  assert (Hc : seen (fst (checkKey c now key)) = {[key := now + ttl c]}).
  { unfold checkKey, unexpired. rewrite Hnew.
    pose proof (live_size now (seen c)). unfold Size in *.
    destruct (Z.leb_spec (maxSize c) (Z.of_nat (size (seen c)))); [|lia].
    unfold evictLocked, Size. simpl.
    destruct (Z.leb_spec (maxSize c) (Z.of_nat (size (live now (seen c))))); [|lia].
    done. }
  unfold checkKey at 1, unexpired. rewrite Hc, lookup_singleton_ne by done. done.
Qed.

(** ** Concrete runs *)

Definition exampleNonce : Nonce := repeat Byte.x07 16.

Lemma replay_refused_within_ttl_witness :
  let c := NewReplayCache (15 * Minute) 100 in
  let c' := fst (Check c 0 "tx-1" exampleNonce) in
  snd (Check (after c' [(Minute, "other"%string); (2 * Minute, "another"%string)]) (14 * Minute)
         "tx-1" exampleNonce) = false.
Proof.
  intros c c'.
  apply (replay_refused_within_ttl c 0 "tx-1" exampleNonce c').
  - vm_compute. reflexivity.
  - intros t key Hin. apply elem_of_cons in Hin as [Hin|Hin].
    + injection Hin as -> _. vm_compute. reflexivity.
    + apply list_elem_of_singleton in Hin. injection Hin as -> _. vm_compute. reflexivity.
  - vm_compute. reflexivity.
  - vm_compute. reflexivity.
Defined.

Lemma replay_refuses_only_seen_witness :
  exists now0, (now0, "k"%string) ∈ [(0, "k"%string); (1, "l"%string)] /\
    2 < now0 + ttl (NewReplayCache Minute 8).
Proof.
  apply (replay_refuses_only_seen Minute 8 [(0, "k"%string); (1, "l"%string)] 2 "k").
  vm_compute. reflexivity.
Defined.

Lemma replay_preimage_injective_witness : "ab"%string = "ab"%string /\ exampleNonce = exampleNonce.
Proof. apply (replay_preimage_injective "ab" exampleNonce "ab" exampleNonce); reflexivity. Defined.

(** Three fresh messages through a table of two: the first is accepted again. *)
Lemma flood_reopens_replay_witness :
  let c := after (NewReplayCache Minute 2) [(0, "captured"%string); (1, "filler"%string)] in
  snd (checkKey (fst (checkKey c 2 "flood")) 2 "captured") = true.
Proof.
  intros c. apply (flood_reopens_replay c 2 "flood" "captured");
    vm_compute; first [reflexivity|discriminate].
Defined.
