(* ===== verification/Limits.v ===== *)
(** * internal/limits/limits.go: token buckets and the bounded bucket table

    Rates, bursts and tokens are [float64] in the code.  The bucket logic is
    written against the operations it uses ([Float]); the code's instance is
    IEEE 754 binary64 ([binary64], executable, from the Standard Library's
    specification of floats), about which [Buckets.v] proves what the buckets
    promise; [exact] is the same logic in exact rational arithmetic, in which the
    bounded table is compared with an unbounded one.

    A Go map is iterated in an unspecified order: [evictLocked] takes the order
    of the keys as an argument, and the theorems hold for every order. *)
From S2P Require Import Prelude GoLib Float64.
From Stdlib Require Import QArith Qminmax SpecFloat Lqa.
#[local] Open Scope Z_scope.

(** ** The float64 operations the code uses *)

Class Float (F : Type) := {
  f_const : Z -> F;
  f_add : F -> F -> F;
  f_sub : F -> F -> F;
  f_mul : F -> F -> F;
  f_min : F -> F -> F;    (** math.Min *)
  f_max : F -> F -> F;    (** math.Max *)
  f_lt : F -> F -> bool;  (** < *)
  f_le : F -> F -> bool;  (** <= *)
  f_eq : F -> F -> bool;  (** == *)
  f_Seconds : Duration -> F; (** Duration.Seconds() *)
}.

(** *** binary64 *)

(** [math.Min] and [math.Max]: the infinity on their side if either is that,
    else NaN if either is, and -0 below +0. *)
Definition b64_min (x y : spec_float) : spec_float :=
  match x, y with
  | S754_infinity true, _ | _, S754_infinity true => S754_infinity true
  | S754_nan, _ | _, S754_nan => S754_nan
  | S754_zero s, S754_zero t => S754_zero (s || t)
  | _, _ => if SFltb x y then x else y
  end.
Definition b64_max (x y : spec_float) : spec_float :=
  match x, y with
  | S754_infinity false, _ | _, S754_infinity false => S754_infinity false
  | S754_nan, _ | _, S754_nan => S754_nan
  | S754_zero s, S754_zero t => S754_zero (s && t)
  | _, _ => if SFltb y x then x else y
  end.

#[export] Instance binary64 : Float spec_float := {|
  f_const := b64_of_Z;
  f_add := SFadd 53 1024;
  f_sub := SFsub 53 1024;
  f_mul := SFmul 53 1024;
  f_min := b64_min;
  f_max := b64_max;
  f_lt := SFltb;
  f_le := SFleb;
  f_eq := SFeqb;
  f_Seconds := Seconds64;
|}.

(** *** exact rationals *)

Definition exact : Float Q := {|
  f_const := inject_Z;
  f_add := Qplus;
  f_sub := Qminus;
  f_mul := Qmult;
  f_min := Qmin;
  f_max := Qmax;
  f_lt x y := negb (Qle_bool y x);
  f_le := Qle_bool;
  f_eq := Qeq_bool;
  f_Seconds d := (d # 1000000000)%Q;
|}.

(** ** bucket *)

Section Limits.
Context {F : Type} `{Float F}.

Record bucket := { tokens : F; last : Time }.

Definition refill (b : bucket) (now : Time) (rate burst : F) : bucket :=
  let elapsed := f_Seconds (Sub now (last b)) in
  if f_lt (f_const 0) elapsed then
    {| tokens := f_min burst (f_add (tokens b) (f_mul elapsed rate)); last := now |}
  else b.

Definition take (b : bucket) (now : Time) (rate burst : F) : bucket * bool :=
  let b := refill b now rate burst in
  if f_lt (tokens b) (f_const 1) then (b, false)
  else ({| tokens := f_sub (tokens b) (f_const 1); last := last b |}, true).

Definition idle (b : bucket) (now : Time) (rate burst : F) : bool :=
  f_le burst (f_add (tokens b)
                (f_mul (f_max (f_const 0) (f_Seconds (Sub now (last b)))) rate)).

(** ** keyedLimiter *)

Definition sweepBudget : nat := 256.

Record keyedLimiter := {
  buckets : gmap string bucket;
  rate : F;
  burst : F;
  maxKeys : Z;
  disabled : bool;
}.

Definition newKeyedLimiter (rate burst : F) (maxKeys : Z) : keyedLimiter :=
  {| buckets := ∅; rate := rate; burst := burst; maxKeys := maxKeys;
     disabled := f_lt rate (f_const 0) || f_lt burst (f_const 0) |}.

Definition withBuckets (k : keyedLimiter) (m : gmap string bucket) : keyedLimiter :=
  {| buckets := m; rate := rate k; burst := burst k; maxKeys := maxKeys k; disabled := disabled k |}.

(** The loop variables of [evictLocked]. *)
Record sweep := { freed : nat; oldestKey : string; oldest : Time; seen : nat; left_ : gmap string bucket }.

(** One turn of the range loop over the map. *)
Definition sweepOne (k : keyedLimiter) (now : Time) (s : sweep) (key : string) : sweep :=
  match left_ s !! key with
  | None => s
  | Some b =>
      if idle b now (rate k) (burst k) then
        {| freed := S (freed s); oldestKey := oldestKey s; oldest := oldest s;
           seen := S (seen s); left_ := delete key (left_ s) |}
      else if (seen s =? 0)%nat || Before (last b) (oldest s) then
        {| freed := freed s; oldestKey := key; oldest := last b;
           seen := S (seen s); left_ := left_ s |}
      else {| freed := freed s; oldestKey := oldestKey s; oldest := oldest s;
              seen := S (seen s); left_ := left_ s |}
  end.

(** The zero [time.Time], midnight of 1 January of year 1. *)
Definition zeroTime : Time := -62135596800 * Second.

(** [order] is the order in which the runtime happens to range over the map. *)
Definition evictLocked (k : keyedLimiter) (now : Time) (order : list string) : keyedLimiter :=
  let s := fold_left (sweepOne k now) (firstn sweepBudget order)
             {| freed := 0; oldestKey := ""; oldest := zeroTime; seen := 0; left_ := buckets k |} in
  let m := left_ s in
  withBuckets k
    (if (freed s =? 0)%nat && negb (oldestKey s =? "")%string then delete (oldestKey s) m else m).

Definition size_ (k : keyedLimiter) : Z := Z.of_nat (size (buckets k)).

Definition allow (k : keyedLimiter) (now : Time) (order : list string) (key : string)
    : keyedLimiter * bool :=
  if disabled k then (k, true)
  else
    let k := match buckets k !! key with
             | Some _ => k
             | None =>
                 let k := if maxKeys k <=? size_ k then evictLocked k now order else k in
                 withBuckets k (<[key := {| tokens := burst k; last := now |}]> (buckets k))
             end in
    match buckets k !! key with
    | Some b => let '(b', ok) := take b now (rate k) (burst k) in
                (withBuckets k (<[key := b']> (buckets k)), ok)
    | None => (k, false)
    end.

(** The order is one the runtime may pick: every key once. *)
Definition iteration_order (k : keyedLimiter) (order : list string) : Prop :=
  order ≡ₚ map fst (map_to_list (buckets k)).

(** ** The composed limiter *)

Definition DefaultPerClientRate : Z := 1.
Definition DefaultPerClientBurst : Z := 5.
Definition DefaultGlobalRate : Z := 50.
Definition DefaultGlobalBurst : Z := 100.
Definition DefaultMaxConcurrent : Z := 32.
Definition DefaultAcquireTimeout : Duration := 5 * Second.
Definition DefaultMaxClients : Z := 65536.
Definition retryAfterSeconds : string := "1".

Record Config := {
  PerClientRate : F;
  PerClientBurst : F;
  GlobalRate : F;
  GlobalBurst : F;
  MaxConcurrent : Z;
  AcquireTimeout : Duration;
  MaxClients : Z;
}.

Definition or_default (x : F) (d : Z) : F := if f_eq x (f_const 0) then f_const d else x.

Definition withDefaults (c : Config) : Config :=
  {| PerClientRate := or_default (PerClientRate c) DefaultPerClientRate;
     PerClientBurst := or_default (PerClientBurst c) DefaultPerClientBurst;
     GlobalRate := or_default (GlobalRate c) DefaultGlobalRate;
     GlobalBurst := or_default (GlobalBurst c) DefaultGlobalBurst;
     MaxConcurrent := if MaxConcurrent c =? 0 then DefaultMaxConcurrent else MaxConcurrent c;
     AcquireTimeout := if AcquireTimeout c <=? 0 then DefaultAcquireTimeout else AcquireTimeout c;
     MaxClients := if MaxClients c <=? 0 then DefaultMaxClients else MaxClients c |}.

Record Limiter := {
  perClient : keyedLimiter;
  global : keyedLimiter;
  (** capacity of the semaphore channel; [None] is the nil channel *)
  sem : option nat;
  acquireTimeout : Duration;
}.

Definition New (cfg : Config) : Limiter :=
  let cfg := withDefaults cfg in
  {| perClient := newKeyedLimiter (PerClientRate cfg) (PerClientBurst cfg) (MaxClients cfg);
     global := newKeyedLimiter (GlobalRate cfg) (GlobalBurst cfg) 1;
     sem := if 0 <? MaxConcurrent cfg then Some (Z.to_nat (MaxConcurrent cfg)) else None;
     acquireTimeout := AcquireTimeout cfg |}.

(** The two rate limits in front of the handler, each asked under its own mutex
    and with its own reading of the clock. *)
Definition askClient (l : Limiter) (now : Time) (order : list string) (client : string) : Limiter * bool :=
  let '(pc, ok) := allow (perClient l) now order client in
  ({| perClient := pc; global := global l; sem := sem l; acquireTimeout := acquireTimeout l |}, ok).
Definition askGlobal (l : Limiter) (now : Time) (gorder : list string) : Limiter * bool :=
  let '(g, ok) := allow (global l) now gorder "" in
  ({| perClient := perClient l; global := g; sem := sem l; acquireTimeout := acquireTimeout l |}, ok).

Definition perClientReason : string := "per-client rate limit".
Definition globalReason : string := "global rate limit".

(** Both, one after the other: [None] when the request may go on to acquire a
    slot, else the reason it is rejected for. *)
Definition rateLimit (l : Limiter) (now gnow : Time) (order gorder : list string) (client : string)
    : Limiter * option string :=
  let '(l, ok) := askClient l now order client in
  if negb ok then (l, Some perClientReason)
  else
    let '(l, ok) := askGlobal l gnow gorder in
    if negb ok then (l, Some globalReason) else (l, None).

Definition TrackedClients (l : Limiter) : Z := size_ (perClient l).
End Limits.
Arguments bucket : clear implicits.
Arguments keyedLimiter : clear implicits.
Arguments Limiter : clear implicits.
Arguments Config : clear implicits.

(** ** The table bound, for any arithmetic *)

Section Table.
Context {F : Type} `{Float F}.

(** What the sweep maintains: it only deletes, it counts what it deletes, and
    while it has deleted nothing its candidate is a key of the table. *)
Record sweep_inv (m : gmap string (bucket F)) (s : sweep) : Prop := {
  sw_size : (size (left_ s) + freed s = size m)%nat;
  sw_same : freed s = 0%nat -> left_ s = m;
  sw_oldest : freed s = 0%nat -> (0 < seen s)%nat -> is_Some (m !! oldestKey s);
}.

Lemma sweepOne_inv k now m s key :
  sweep_inv m s -> sweep_inv m (sweepOne k now s key).
Proof.
  intros [Hsz Hsame Hold]. unfold sweepOne.
  destruct (left_ s !! key) as [b|] eqn:Hb; [|by split].
  destruct (idle _ _ _ _); [|destruct ((_ =? _)%nat || _) eqn:Hcond]; split; simpl; try done.
  - rewrite map_size_delete, Hb. pose proof (map_size_ne_0_lookup_2 (left_ s) key ltac:(eauto)). lia.
  - intros Hf _. rewrite <- Hsame by done. by rewrite Hb.
  - intros Hf _. apply orb_false_iff in Hcond as [Hseen _]. apply Hold; [done|].
    destruct (seen s); simpl in *; [done|lia].
Qed.

Lemma sweepOne_seen k now s key :
  is_Some (left_ s !! key) -> seen (sweepOne k now s key) = S (seen s).
Proof.
  unfold sweepOne. intros [b ->]. destruct (idle _ _ _ _); [done|]. by destruct (_ || _).
Qed.

Lemma sweepOne_seen_mono k now s key : (seen s <= seen (sweepOne k now s key))%nat.
Proof.
  unfold sweepOne. destruct (left_ s !! key); [|lia].
  destruct (idle _ _ _ _); simpl; [lia|]. destruct (_ || _); simpl; lia.
Qed.

Lemma sweep_fold_inv k now m keys s :
  sweep_inv m s -> sweep_inv m (fold_left (sweepOne k now) keys s).
Proof. revert s. induction keys; simpl; auto using sweepOne_inv. Qed.

Lemma sweep_fold_seen k now keys s :
  (seen s <= seen (fold_left (sweepOne k now) keys s))%nat.
Proof.
  revert s. induction keys as [|key keys IH]; intros s; simpl; [lia|].
  pose proof (sweepOne_seen_mono k now s key). specialize (IH (sweepOne k now s key)). lia.
Qed.

(** Evicting from a table without the empty key makes room. *)
Lemma evictLocked_shrinks k now order :
  buckets k !! "" = None -> iteration_order k order -> buckets k <> ∅ ->
  size_ (evictLocked k now order) < size_ k.
Proof.
  intros Hempty Horder Hne. unfold evictLocked, size_. cbn [buckets withBuckets].
  set (s0 := {| freed := 0; oldestKey := ""; oldest := zeroTime; seen := 0; left_ := buckets k |}).
  set (s := fold_left _ _ s0).
  assert (Hinv : sweep_inv (buckets k) s).
  { apply sweep_fold_inv. split; simpl; try done; lia. }
  assert (Hseen : (0 < seen s)%nat).
  { destruct order as [|key order].
    - exfalso. apply Hne. apply map_to_list_empty_iff.
      apply Permutation_nil in Horder. by apply map_eq_nil in Horder.
    - assert (Hin : is_Some (buckets k !! key)).
      { assert (Hk : key ∈ map fst (map_to_list (buckets k))) by (rewrite <- Horder; by left).
        apply list_elem_of_fmap in Hk as ([key' b] & -> & Hk).
        apply elem_of_map_to_list in Hk. eauto. }
      pose proof (sweep_fold_seen k now (firstn 255 order) (sweepOne k now s0 key)) as Hm.
      rewrite (sweepOne_seen k now s0 key Hin) in Hm. unfold s. simpl in *. lia. }
  destruct Hinv as [Hsz Hsame Hold]. simpl.
  destruct (Nat.eqb_spec (freed s) 0) as [Hf|Hf]; simpl; [|lia].
  destruct (Hold Hf Hseen) as [b Hb]. rewrite (Hsame Hf).
  destruct (String.eqb_spec (oldestKey s) "") as [He|He]; [congruence|]. simpl.
  rewrite map_size_delete, Hb.
  pose proof (map_size_ne_0_lookup_2 (buckets k) (oldestKey s) ltac:(eauto)). lia.
Qed.

Lemma evictLocked_subset k now order :
  buckets (evictLocked k now order) ⊆ buckets k.
Proof.
  unfold evictLocked. cbn [buckets withBuckets].
  assert (Hsub : forall keys (s : sweep), left_ s ⊆ buckets k ->
            left_ (fold_left (sweepOne k now) keys s) ⊆ buckets k).
  { induction keys as [|key keys IH]; intros s Hs; simpl; [done|]. apply IH.
    unfold sweepOne. destruct (left_ s !! key); [|done].
    destruct (idle _ _ _ _); simpl; [|by destruct (_ || _)].
    etrans; [apply delete_subseteq|done]. }
  destruct (_ && _); [etrans; [apply delete_subseteq|]|]; by apply Hsub.
Qed.

(** What a sweep deletes was idle. *)
Lemma sweep_fold_idle k now keys s key b :
  left_ s ⊆ buckets k ->
  (buckets k !! key = Some b -> left_ s !! key = Some b \/ idle b now (rate k) (burst k) = true) ->
  buckets k !! key = Some b ->
  left_ (fold_left (sweepOne k now) keys s) !! key = Some b \/ idle b now (rate k) (burst k) = true.
Proof.
  revert s. induction keys as [|key' keys IH]; intros s Hsub Hs Hb; simpl; [auto|].
  apply IH; [| |done]; unfold sweepOne; destruct (left_ s !! key') as [b'|] eqn:Hb'; try done;
    destruct (idle b' _ _ _) eqn:Hidle; simpl; try (by destruct (_ || _)).
  - etrans; [apply delete_subseteq|done].
  - intros _. destruct (decide (key' = key)) as [->|Hne].
    + right. pose proof (lookup_weaken _ _ _ _ Hb' Hsub) as Hb''. congruence.
    + rewrite lookup_delete_ne by done. auto.
Qed.

Lemma sweepOne_freed_mono k now s key : (freed s <= freed (sweepOne k now s key))%nat.
Proof.
  unfold sweepOne. destruct (left_ s !! key); [|lia].
  destruct (idle _ _ _ _); simpl; [lia|]. destruct (_ || _); simpl; lia.
Qed.

Lemma sweep_fold_freed_mono k now keys s :
  (freed s <= freed (fold_left (sweepOne k now) keys s))%nat.
Proof.
  revert s. induction keys as [|key keys IH]; intros s; simpl; [lia|].
  pose proof (sweepOne_freed_mono k now s key). specialize (IH (sweepOne k now s key)). lia.
Qed.

Lemma sweep_fold_frees k now keys s key b :
  sweep_inv (buckets k) s -> key ∈ keys -> buckets k !! key = Some b ->
  idle b now (rate k) (burst k) = true ->
  (0 < freed (fold_left (sweepOne k now) keys s))%nat.
Proof.
  intros Hinv Hin Hb Hidle. revert s Hinv.
  induction keys as [|key' keys IH]; intros s Hinv; [by apply elem_of_nil in Hin|].
  apply elem_of_cons in Hin as [->|Hin]; simpl; [|by apply IH, sweepOne_inv].
  pose proof (sweep_fold_freed_mono k now keys (sweepOne k now s key')) as Hm.
  destruct (Nat.eq_dec (freed s) 0%nat) as [Hf|Hf].
  - assert (freed (sweepOne k now s key') = S (freed s))
      by (unfold sweepOne; by rewrite (sw_same _ _ Hinv Hf), Hb, Hidle). lia.
  - pose proof (sweepOne_freed_mono k now s key'). lia.
Qed.

(** The sample of the sweep holds an idle bucket. *)
Definition finds_idle (k : keyedLimiter F) (now : Time) (order : list string) : Prop :=
  exists key b, key ∈ firstn sweepBudget order /\ buckets k !! key = Some b /\
    idle b now (rate k) (burst k) = true.

Lemma evictLocked_idle k now order key b :
  finds_idle k now order -> buckets k !! key = Some b ->
  buckets (evictLocked k now order) !! key = Some b \/ idle b now (rate k) (burst k) = true.
Proof.
  intros (key' & b' & Hin & Hb' & Hidle) Hb. unfold evictLocked. cbn [buckets withBuckets].
  set (s0 := {| freed := 0; oldestKey := ""; oldest := zeroTime; seen := 0; left_ := buckets k |}).
  assert (Hinv : sweep_inv (buckets k) s0) by (split; simpl; try done; lia).
  pose proof (sweep_fold_frees k now _ s0 key' b' Hinv Hin Hb' Hidle) as Hf.
  destruct (Nat.eqb_spec (freed (fold_left (sweepOne k now) (firstn sweepBudget order) s0)) 0%nat); [lia|].
  simpl. apply sweep_fold_idle; simpl; auto.
Qed.

(** [allow] in two moves: make sure the key has a bucket, then take from it. *)
Definition ensureBucket (k : keyedLimiter F) (now : Time) (order : list string) (key : string)
    : keyedLimiter F :=
  match buckets k !! key with
  | Some _ => k
  | None =>
      let k := if maxKeys k <=? size_ k then evictLocked k now order else k in
      withBuckets k (<[key := {| tokens := burst k; last := now |}]> (buckets k))
  end.

Lemma allow_unfold k now order key :
  disabled k = false ->
  exists b, buckets (ensureBucket k now order key) !! key = Some b /\
    allow k now order key =
    (withBuckets (ensureBucket k now order key)
       (<[key := fst (take b now (rate k) (burst k))]> (buckets (ensureBucket k now order key))),
     snd (take b now (rate k) (burst k))).
Proof.
  intros Hd. unfold allow. rewrite Hd.
  change (match buckets k !! key with
          | Some _ => k
          | None => _ end) with (ensureBucket k now order key).
  assert (Hp : rate (ensureBucket k now order key) = rate k /\
               burst (ensureBucket k now order key) = burst k).
  { unfold ensureBucket. destruct (buckets k !! key); [done|]. by destruct (_ <=? _). }
  destruct Hp as [-> ->].
  assert (Hb : is_Some (buckets (ensureBucket k now order key) !! key)).
  { unfold ensureBucket. destruct (buckets k !! key) eqn:Hk; [by rewrite Hk|].
    simpl. rewrite lookup_insert_eq. eauto. }
  destruct Hb as [b Hb]. exists b. rewrite Hb. split; [done|].
  by destruct (take b now (rate k) (burst k)).
Qed.

Lemma insert_present_size (m : gmap string (bucket F)) key b b' :
  m !! key = Some b -> size (<[key := b']> m) = size m.
Proof. intros Hk. by rewrite map_size_insert, Hk. Qed.

Lemma ensureBucket_bounded k now order key :
  key <> "" -> buckets k !! "" = None -> iteration_order k order -> 0 < maxKeys k ->
  size_ k <= maxKeys k ->
  buckets (ensureBucket k now order key) !! "" = None /\
  size_ (ensureBucket k now order key) <= maxKeys k.
Proof.
  intros Hkey Hempty Horder Hpos Hle. unfold ensureBucket.
  destruct (buckets k !! key) eqn:Hk; [done|]. cbn [buckets withBuckets].
  rewrite lookup_insert_ne by done.
  destruct (Z.leb_spec (maxKeys k) (size_ k)) as [Hfull|Hroom];
    unfold size_; cbn [buckets withBuckets].
  - assert (Hne : buckets k <> ∅).
    { intros He. unfold size_ in Hfull. rewrite He, map_size_empty in Hfull. lia. }
    pose proof (evictLocked_shrinks k now order Hempty Horder Hne) as Hs.
    pose proof (evictLocked_subset k now order) as Hsub. split.
    + exact (lookup_weaken_None _ _ _ Hempty Hsub).
    + rewrite map_size_insert_None by exact (lookup_weaken_None _ _ _ Hk Hsub).
      unfold size_ in *. lia.
  - split; [done|]. rewrite map_size_insert_None by done. unfold size_ in *. lia.
Qed.

Lemma ensureBucket_params k now order key :
  rate (ensureBucket k now order key) = rate k /\ burst (ensureBucket k now order key) = burst k /\
  maxKeys (ensureBucket k now order key) = maxKeys k /\
  disabled (ensureBucket k now order key) = disabled k.
Proof. unfold ensureBucket. destruct (buckets k !! key); [done|]. by destruct (_ <=? _). Qed.

Lemma allow_params k now order key :
  rate (fst (allow k now order key)) = rate k /\ burst (fst (allow k now order key)) = burst k /\
  disabled (fst (allow k now order key)) = disabled k /\ maxKeys (fst (allow k now order key)) = maxKeys k.
Proof.
  destruct (disabled k) eqn:Hd; [unfold allow; by rewrite Hd|].
  destruct (allow_unfold k now order key Hd) as (b & _ & ->). cbn [fst rate burst disabled maxKeys withBuckets].
  pose proof (ensureBucket_params k now order key). intuition congruence.
Qed.

(** A limiter asked about one key only holds at most that key's bucket. *)
Lemma ensureBucket_single k now order key :
  (buckets k = ∅ \/ exists b, buckets k = {[key := b]}) -> 0 < maxKeys k ->
  exists b, buckets (ensureBucket k now order key) = {[key := b]} /\
    (buckets k = {[key := b]} \/ buckets k = ∅ /\ b = {| tokens := burst k; last := now |}).
Proof.
  unfold ensureBucket, size_. intros [He|[b He]] Hmax; rewrite He.
  - rewrite lookup_empty, map_size_empty. destruct (Z.leb_spec (maxKeys k) (Z.of_nat 0)) as [?|_]; [lia|].
    cbn [buckets withBuckets]. rewrite He. eexists. split; [reflexivity|by right].
  - rewrite lookup_singleton_eq. exists b. split; [done|by left].
Qed.

(** A table that takes no entry for the empty key stays within its cap. *)
Definition table_ok (n : Z) (k : keyedLimiter F) : Prop :=
  buckets k !! "" = None /\ maxKeys k = n /\ size_ k <= n.

Lemma table_ok_new r b n : 0 <= n -> table_ok n (newKeyedLimiter r b n).
Proof. intros Hn. unfold table_ok, size_. simpl. rewrite map_size_empty. split_and!; [done|done|lia]. Qed.

Lemma allow_table_ok n k now order key :
  0 < n -> key <> "" -> iteration_order k order -> table_ok n k -> table_ok n (fst (allow k now order key)).
Proof.
  intros Hpos Hkey Horder (Hempty & Hmax & Hle). destruct (disabled k) eqn:Hd.
  { unfold allow. by rewrite Hd. }
  destruct (allow_unfold k now order key Hd) as (bk & Hb & ->).
  destruct (ensureBucket_bounded k now order key Hkey Hempty Horder ltac:(lia) ltac:(lia)) as [He Hs].
  destruct (ensureBucket_params k now order key) as (_ & _ & Hm & _). unfold table_ok.
  cbn [fst buckets withBuckets maxKeys]. rewrite lookup_insert_ne by done.
  split_and!; [done|congruence|]. unfold size_ in *. cbn [buckets withBuckets].
  rewrite (insert_present_size _ _ _ _ Hb). lia.
Qed.

(** A run of [allow] calls by any clients, each at some time and with some
    iteration order of the table it meets. *)
Inductive allow_run (k : keyedLimiter F) : list (Time * string * bool) -> keyedLimiter F -> Prop :=
| run_nil : allow_run k [] k
| run_snoc ops k1 now order key k2 ok :
    allow_run k ops k1 -> iteration_order k1 order -> allow k1 now order key = (k2, ok) ->
    allow_run k (ops ++ [(now, key, ok)]) k2.

(** Tracking clients cannot exhaust memory: however many distinct clients
    come and whatever order the runtime sweeps the map in, the table never
    holds more than [maxKeys] buckets, because a full table always gives up a
    slot before it takes a new one. *)
Theorem client_table_bounded (r b : F) (n : Z) ops k
    (Hpos : 0 < n)
    (Hrun : allow_run (newKeyedLimiter r b n) ops k)
    (Hkeys : forall now key ok, (now, key, ok) ∈ ops -> key <> "") :
  size_ k <= n.
Proof.
  enough (Hgen : table_ok n k) by apply Hgen.
  induction Hrun as [|ops k1 now order key k2 ok Hrun IH Horder Ha].
  { apply table_ok_new. lia. }
  assert (Hk : table_ok n k1) by (apply IH; intros; eapply Hkeys, elem_of_app; by left).
  pose proof (allow_table_ok n k1 now order key Hpos ltac:(eapply Hkeys, elem_of_app; right; by left) Horder Hk) as Hok.
  by rewrite Ha in Hok.
Qed.
End Table.

(** ** Exact arithmetic: what the buckets promise *)

Section Exact.
#[local] Existing Instance exact.
#[local] Open Scope Q_scope.

(** Buckets are compared up to equality of rationals. *)
#[export] Instance bucket_equiv : Equiv (bucket Q) :=
  fun b b' => tokens b == tokens b' /\ last b = last b'.
#[export] Instance bucket_equivalence : Equivalence (≡@{bucket Q}).
Proof.
  split.
  - intros b. split; reflexivity.
  - intros b b' [H1 H2]. split; by symmetry.
  - intros b b' b'' [H1 H2] [H3 H4]. split; [by rewrite H1|congruence].
Qed.

Lemma f_lt_iff (x y : Q) : f_lt x y = true <-> x < y.
Proof.
  simpl. rewrite negb_true_iff. split.
  - intros Hf. apply Qnot_le_lt. intros Hle. apply Qle_bool_iff in Hle. congruence.
  - intros Hlt. destruct (Qle_bool y x) eqn:Hle; [|done]. apply Qle_bool_iff in Hle. lra.
Qed.

Lemma f_lt_false_iff (x y : Q) : f_lt x y = false <-> y <= x.
Proof.
  rewrite <- not_true_iff_false, f_lt_iff. split; intros Hx; [by apply Qnot_lt_le|lra].
Qed.

Lemma f_le_iff (x y : Q) : f_le x y = true <-> x <= y.
Proof. apply Qle_bool_iff. Qed.

Lemma seconds_pos d : 0 < f_Seconds d <-> (0 < d)%Z.
Proof. unfold f_Seconds, exact, Qlt. simpl. lia. Qed.

Lemma seconds_mono d d' : (d <= d')%Z -> f_Seconds d <= f_Seconds d'.
Proof. unfold f_Seconds, exact, Qle. simpl. lia. Qed.

#[export] Instance refill_proper now r cap : Proper ((≡@{bucket Q}) ==> (≡)) (fun b => refill b now r cap).
Proof.
  intros b b' [Ht Hl]. unfold refill. rewrite <- Hl. destruct (f_lt _ _); [|done].
  split; [|done]. cbn [tokens f_min f_add f_mul exact]. by rewrite Ht.
Qed.

#[export] Instance f_lt_proper : Proper (Qeq ==> Qeq ==> eq) (f_lt (F := Q)).
Proof. intros x x' Hx y y' Hy. simpl. by rewrite Hx, Hy. Qed.

#[export] Instance idle_proper now r cap : Proper ((≡@{bucket Q}) ==> eq) (fun b => idle b now r cap).
Proof.
  intros b b' [Ht Hl]. unfold idle. rewrite <- Hl. cbn [f_le f_add exact]. by rewrite Ht.
Qed.

Lemma Sub_le (t u : Time) : (u <= t)%Z -> (Sub t u <= t - u)%Z.
Proof. unfold Sub, max_int64, min_int64. lia. Qed.

Lemma Sub_pos_iff (t u : Time) : (0 < Sub t u)%Z <-> (u < t)%Z.
Proof. unfold Sub, max_int64, min_int64. lia. Qed.

Lemma elapsed_iff (t u : Time) : f_lt (f_const 0) (f_Seconds (Sub t u)) = true <-> (u < t)%Z.
Proof.
  rewrite <- (Sub_pos_iff t u). rewrite <- (seconds_pos (Sub t u)). exact (f_lt_iff 0 (f_Seconds (Sub t u))).
Qed.

(** *** Dropping idle buckets is free

    The specification: a limiter with a bucket for every client that ever
    came, in an unbounded table. *)

Definition fresh (cap : Q) (now : Time) : bucket Q := {| tokens := cap; last := now |}.

Definition ideal_allow (r cap : Q) (m : gmap string (bucket Q)) (now : Time) (key : string)
    : gmap string (bucket Q) * bool :=
  let b := match m !! key with Some b => b | None => fresh cap now end in
  let '(b', ok) := take b now r cap in (<[key := b']> m, ok).

Fixpoint ideal_run (r cap : Q) (m : gmap string (bucket Q)) (ops : list (Time * string * bool))
    : gmap string (bucket Q) * list bool :=
  match ops with
  | [] => (m, [])
  | (now, key, _) :: ops' =>
      let '(m, ok) := ideal_allow r cap m now key in
      let '(m, oks) := ideal_run r cap m ops' in (m, ok :: oks)
  end.

(** A run on a monotone clock in which every full table holds an idle bucket
    among those the sweep samples. *)
Inductive unpressed_run (k : keyedLimiter Q) : list (Time * string * bool) -> keyedLimiter Q -> Time -> Prop :=
| unpressed_nil t : unpressed_run k [] k t
| unpressed_snoc ops k1 t now order key k2 ok :
    unpressed_run k ops k1 t -> (t <= now)%Z ->
    (buckets k1 !! key = None -> (maxKeys k1 <= size_ k1)%Z -> finds_idle k1 now order) ->
    allow k1 now order key = (k2, ok) ->
    unpressed_run k (ops ++ [(now, key, ok)]) k2 now.

Definition within (cap : Q) (now : Time) (b : bucket Q) : Prop := tokens b <= cap /\ (last b <= now)%Z.

(** The bounded table stands for the unbounded one: a client it has dropped
    holds a full bucket. *)
Definition rel_at (r cap : Q) (now : Time) (c i : option (bucket Q)) : Prop :=
  match c, i with
  | Some b, Some b' => b ≡ b' /\ within cap now b'
  | None, Some b' => idle b' now r cap = true /\ within cap now b'
  | None, None => True
  | Some _, None => False
  end.

Definition stands_for (r cap : Q) (now : Time) (m mi : gmap string (bucket Q)) : Prop :=
  forall key, rel_at r cap now (m !! key) (mi !! key).

Lemma idle_iff b now r cap :
  idle b now r cap = true <-> cap <= tokens b + Qmax 0 (f_Seconds (Sub now (last b))) * r.
Proof. unfold idle. rewrite f_le_iff. reflexivity. Qed.

Lemma idle_later b now now' r cap :
  0 <= r -> (now <= now')%Z -> idle b now r cap = true -> idle b now' r cap = true.
Proof.
  rewrite !idle_iff. intros Hr Hle Hi.
  assert (Hs : f_Seconds (Sub now (last b)) <= f_Seconds (Sub now' (last b)))
    by (apply seconds_mono; unfold Sub; lia).
  pose proof (Q.max_le_compat_l _ _ 0 Hs). nra.
Qed.

Lemma rel_later r cap now now' c i :
  0 <= r -> (now <= now')%Z -> rel_at r cap now c i -> rel_at r cap now' c i.
Proof.
  intros Hr Hle. unfold rel_at, within. destruct c, i; try done.
  - intros (? & ? & ?). split_and!; [done..|lia].
  - intros (Hi & ? & ?). split_and!; [by eapply idle_later|done|lia].
Qed.

Lemma refill_fresh cap now r : refill (fresh cap now) now r cap = fresh cap now.
Proof.
  unfold refill. destruct (f_lt _ _) eqn:Hlt; [|done]. apply elapsed_iff in Hlt. simpl in Hlt. lia.
Qed.

Lemma refill_idle b now r cap :
  within cap now b -> idle b now r cap = true -> refill b now r cap ≡ fresh cap now.
Proof.
  intros [Ht Hl] Hi. apply idle_iff in Hi. unfold refill. destruct (f_lt _ _) eqn:Hlt.
  - apply elapsed_iff in Hlt. split; [|done]. cbn [tokens fresh f_min f_add f_mul exact].
    apply Q.min_l. rewrite Q.max_r in Hi; [exact Hi|].
    by apply Qlt_le_weak, seconds_pos, Sub_pos_iff.
  - assert (Hle : (now <= last b)%Z).
    { apply Z.nlt_ge. rewrite <- elapsed_iff. by rewrite Hlt. }
    assert (now = last b) as -> by lia. split; [|done]. cbn [tokens fresh].
    replace (Sub (last b) (last b)) with 0%Z in Hi by (unfold Sub, max_int64, min_int64; lia).
    change (Qmax 0 (f_Seconds 0%Z)) with 0 in Hi. lra.
Qed.

Lemma take_via_refill (b b' : bucket Q) now r cap :
  refill b now r cap ≡ refill b' now r cap ->
  fst (take b now r cap) ≡ fst (take b' now r cap) /\ snd (take b now r cap) = snd (take b' now r cap).
Proof.
  intros [Ht Hl]. unfold take.
  assert (f_lt (tokens (refill b now r cap)) (f_const 1) = f_lt (tokens (refill b' now r cap)) (f_const 1))
    as -> by (by apply f_lt_proper).
  destruct (f_lt _ _); [done|]. split; [|done]. split; [|done].
  cbn [tokens fst f_sub exact]. by rewrite Ht.
Qed.

Lemma take_within b now r cap : within cap now b -> within cap now (fst (take b now r cap)).
Proof.
  intros [Ht Hl].
  assert (Hr : within cap now (refill b now r cap)).
  { unfold refill. destruct (f_lt _ _); [split; [apply Q.le_min_l|simpl; lia]|done]. }
  destruct Hr as [Ht' Hl']. unfold take. destruct (f_lt _ _); split; try done.
  cbn [tokens fst f_sub f_const exact]. change (inject_Z 1) with 1. lra.
Qed.

(** Making room changes nothing the other clients can see. *)
Lemma ensureBucket_stands_for k mi now order key key' :
  stands_for (rate k) (burst k) now (buckets k) mi -> key <> key' ->
  (buckets k !! key = None -> (maxKeys k <= size_ k)%Z -> finds_idle k now order) ->
  rel_at (rate k) (burst k) now (buckets (ensureBucket k now order key) !! key') (mi !! key').
Proof.
  intros Hrel Hne Hroom. unfold ensureBucket.
  destruct (buckets k !! key) as [b0|] eqn:Hk; [apply Hrel|].
  cbn [buckets withBuckets]. rewrite lookup_insert_ne by done.
  destruct (Z.leb_spec (maxKeys k) (size_ k)) as [Hfull|_]; [|apply Hrel].
  specialize (Hroom eq_refl Hfull). specialize (Hrel key').
  destruct (buckets k !! key') as [b|] eqn:Hb.
  - destruct (evictLocked_idle k now order key' b Hroom Hb) as [->|Hidle]; [done|].
    destruct (buckets (evictLocked k now order) !! key') as [b1|] eqn:Hb1.
    + pose proof (lookup_weaken _ _ _ _ Hb1 (evictLocked_subset k now order)) as Hb2.
      by replace b1 with b by congruence.
    + unfold rel_at in *. destruct (mi !! key'); [|done]. destruct Hrel as [Hbb Hw].
      split; [|done]. by rewrite <- (idle_proper _ _ _ _ _ Hbb).
  - by rewrite (lookup_weaken_None _ _ _ Hb (evictLocked_subset k now order)).
Qed.

(** The bucket found or made for the key refills to the ideal one. *)
Lemma ensureBucket_refill k mi now order key b :
  stands_for (rate k) (burst k) now (buckets k) mi ->
  buckets (ensureBucket k now order key) !! key = Some b ->
  let bi := match mi !! key with Some b => b | None => fresh (burst k) now end in
  refill b now (rate k) (burst k) ≡ refill bi now (rate k) (burst k) /\ within (burst k) now bi.
Proof.
  intros Hrel Hb bi. specialize (Hrel key). revert Hb. unfold ensureBucket, bi.
  destruct (buckets k !! key) as [b0|] eqn:Hk; unfold rel_at in Hrel.
  - intros Hb. replace b with b0 by congruence. destruct (mi !! key); [|done].
    destruct Hrel. split; [by apply refill_proper|done].
  - cbn [buckets withBuckets]. rewrite lookup_insert_eq. intros [= <-].
    assert (burst (if maxKeys k <=? size_ k then evictLocked k now order else k)%Z = burst k)
      as -> by (by destruct (_ <=? _)%Z).
    fold (fresh (burst k) now). rewrite refill_fresh. destruct (mi !! key).
    + destruct Hrel as [Hi Hw]. split; [by symmetry; apply refill_idle|done].
    + split; [by rewrite refill_fresh|]. split; simpl; [lra|lia].
Qed.

(** One request keeps the two tables related and gets the same answer. *)
Lemma allow_simulates k mi now order key k2 ok :
  disabled k = false -> stands_for (rate k) (burst k) now (buckets k) mi ->
  (buckets k !! key = None -> (maxKeys k <= size_ k)%Z -> finds_idle k now order) ->
  allow k now order key = (k2, ok) ->
  stands_for (rate k) (burst k) now (buckets k2) (fst (ideal_allow (rate k) (burst k) mi now key)) /\
  ok = snd (ideal_allow (rate k) (burst k) mi now key).
Proof.
  intros Hd Hrel Hroom Ha. destruct (allow_unfold k now order key Hd) as (b & Hb & Heq).
  rewrite Heq in Ha. injection Ha as <- <-.
  destruct (ensureBucket_refill k mi now order key b Hrel Hb) as [Href Hw].
  unfold ideal_allow. set (bi := match mi !! key with Some b => b | None => _ end) in *.
  destruct (take_via_refill b bi now (rate k) (burst k) Href) as [Ht Hs].
  pose proof (take_within bi now (rate k) (burst k) Hw) as Hw'.
  destruct (take bi now (rate k) (burst k)) as [bi' oki]. cbn [fst snd] in *.
  split; [|done]. intros key'. cbn [buckets withBuckets].
  destruct (decide (key = key')) as [<-|Hne].
  - rewrite !lookup_insert_eq. by split.
  - rewrite !lookup_insert_ne by done. by apply ensureBucket_stands_for.
Qed.

Lemma ideal_run_app r cap m ops ops' :
  ideal_run r cap m (ops ++ ops') =
  (let '(m1, oks) := ideal_run r cap m ops in
   let '(m2, oks') := ideal_run r cap m1 ops' in (m2, oks ++ oks')).
Proof.
  revert m. induction ops as [|[[now key] ok] ops IH]; intros m; simpl.
  - by destruct (ideal_run r cap m ops').
  - destruct (ideal_allow r cap m now key) as [m1 ok1]. rewrite IH.
    destruct (ideal_run r cap m1 ops) as [m2 oks]. by destruct (ideal_run r cap m2 ops').
Qed.

End Exact.

(** ** Witnesses and examples *)

Section Examples.

(** Second [n] of some day. *)
Definition at_second (n : Z) : Time := 1700000000 * Second + n * Second.

(** A run of [allow] computed step by step, the runtime ranging over the map
    in the order of its canonical listing. *)
Definition keys_of {F} (k : keyedLimiter F) : list string := map fst (map_to_list (buckets k)).

Fixpoint run_allow {F} `{Float F} (k : keyedLimiter F) (reqs : list (Time * string))
    : keyedLimiter F * list (Time * string * bool) :=
  match reqs with
  | [] => (k, [])
  | (now, key) :: reqs' =>
      let '(k, ok) := allow k now (keys_of k) key in
      let '(k, ops) := run_allow k reqs' in (k, (now, key, ok) :: ops)
  end.

Lemma run_allow_run {F} `{Float F} (k0 k : keyedLimiter F) ops reqs :
  allow_run k0 ops k -> allow_run k0 (ops ++ snd (run_allow k reqs)) (fst (run_allow k reqs)).
Proof.
  revert k ops. induction reqs as [|[now key] reqs IH]; intros k ops Hrun; simpl.
  - by rewrite app_nil_r.
  - destruct (allow k now (keys_of k) key) as [k1 ok] eqn:Ha.
    specialize (IH k1 (ops ++ [(now, key, ok)])). destruct (run_allow k1 reqs) as [k2 ops2].
    cbn [fst snd] in *. rewrite <- app_assoc in IH. apply IH.
    exact (run_snoc k0 ops k now (keys_of k) key k1 ok Hrun (Permutation_refl _) Ha).
Qed.

(** Three clients in a table of two. *)
Definition small_table : keyedLimiter spec_float := newKeyedLimiter (b64_of_Z 1) (b64_of_Z 5) 2.
Definition three_clients : list (Time * string) :=
  [(at_second 0, "10.0.0.1"); (at_second 0, "10.0.0.2"); (at_second 1, "10.0.0.3")].

Lemma client_table_bounded_witness :
  allow_run small_table (snd (run_allow small_table three_clients)) (fst (run_allow small_table three_clients)) /\
  size_ (fst (run_allow small_table three_clients)) <= 2.
Proof.
  assert (Hrun := run_allow_run small_table small_table [] three_clients (run_nil _)).
  split; [exact Hrun|].
  apply (client_table_bounded (b64_of_Z 1) (b64_of_Z 5) 2 _ _ ltac:(lia) Hrun).
  assert (Hops : forallb (fun op => negb (snd (fst op) =? "")%string)
                   (snd (run_allow small_table three_clients)) = true) by (vm_compute; reflexivity).
  intros now key ok Hin ->. by specialize (proj1 (forallb_elem _ _) Hops _ Hin).
Defined.

#[local] Existing Instance exact.

(** A table of one that drops the first client, idle again after two seconds,
    to make room for the second. *)
Definition table_of_one : keyedLimiter Q := newKeyedLimiter 1%Q 1%Q 1.

End Examples.

(** A key of the empty string is never evicted as the least recently used: the
    table then holds one bucket more than [maxKeys]. *)
Example empty_key_not_evicted :
  let k := newKeyedLimiter (b64_of_Z 1) (b64_of_Z 5) 1 in
  let '(k, _) := allow k (at_second 0) [] "" in
  size_ (fst (allow k (at_second 0) [""] "10.0.0.1")) = 2.
Proof. by vm_compute. Qed.

(** A rate that is not a number compares false with everything: it is neither
    the default nor disabled, and its limiter grants every request after the
    first. *)
Example nan_rate_grants_everything :
  let k := newKeyedLimiter S754_nan (b64_of_Z 1) 10 in
  disabled k = false /\
  map snd (snd (run_allow k (repeat (at_second 0, "10.0.0.1") 2 ++ repeat (at_second 1, "10.0.0.1") 3))) =
  [true; false; true; true; true].
Proof. by vm_compute. Qed.
