(* ===== verification/Buckets.v ===== *)
(** * What the token buckets promise, in the code's float64

    The arithmetic of limits.go is that of [float64]: sums and products are
    rounded, may overflow to infinity, and a rate or a burst that is not a
    number compares false with everything.  This file proves about the binary64
    instance of the buckets, not about an idealised one, that every bucket stays
    between no token and its capacity, and that the grants of a bucket in any
    window of time are bounded by its burst and its rate, up to a rounding error
    that is written out. *)
From S2P Require Import Prelude GoLib Float64 Limits.
From Stdlib Require Import QArith SpecFloat Lqa.
#[local] Open Scope Z_scope.

(** ** Float64 numbers *)

(** A rate or burst as the configuration holds it: a float64, and a number. *)
Definition is_number (x : spec_float) : Prop := valid_binary 53 1024 x = true /\ x <> S754_nan.

Lemma nonneg64_iff x : nonneg64 x <-> valid_binary 53 1024 x = true /\ SFleb (S754_zero false) x = true.
Proof.
  destruct x as [[]|[]| |[] m e]; cbn [nonneg64 valid_binary]; split; intros Hx; try tauto; try done;
    try (by destruct Hx as [? ?]).
Qed.

Lemma number_enabled x : is_number x -> f_lt x (f_const 0) = false <-> nonneg64 x.
Proof.
  intros [Hv Hn]. rewrite nonneg64_iff. destruct x as [[]|[]| |[] m e]; cbn in *; naive_solver.
Qed.

Lemma min_units x y :
  nonneg64 x -> nonneg64 y -> nonneg64 (b64_min x y) /\ units (b64_min x y) = Z.min (units x) (units y).
Proof.
  intros Hx Hy. assert (Hgen : b64_min x y = (if SFltb x y then x else y) \/
    (exists s, b64_min x y = S754_zero s) /\ units x = 0 /\ units y = 0).
  { destruct x as [[]|[]| |[] ? ?], y as [[]|[]| |[] ? ?]; cbn [b64_min units nonneg64] in *; try done; try (by left);
      right; eauto. }
  destruct Hgen as [->|[[s ->] [-> ->]]]; [|done]. rewrite SFltb_units by done.
  destruct (Z.ltb_spec (units x) (units y)); split; try done; lia.
Qed.

(** ** Every bucket is well formed *)

(** A bucket of capacity [cap] that was last refilled at one of [times]. *)
Record bucket_ok (cap : spec_float) (times : list Time) (b : bucket spec_float) : Prop := {
  bo_float : is_number (tokens b);
  bo_low : f_le (f_const 0) (tokens b) = true;
  bo_high : f_le (tokens b) cap = true;
  bo_last : last b ∈ times;
}.

(** The same, in terms of values. *)
Definition tokens_ok (cap : spec_float) (b : bucket spec_float) : Prop :=
  nonneg64 (tokens b) /\ units (tokens b) <= units cap.

Lemma bucket_ok_iff cap times b :
  nonneg64 cap -> bucket_ok cap times b <-> tokens_ok cap b /\ last b ∈ times.
Proof.
  intros Hcap. split.
  - intros [[Hv Hn] Hl Hh Ht]. assert (Hnn : nonneg64 (tokens b)) by (by apply nonneg64_iff).
    cbn [f_le binary64] in Hh. rewrite SFleb_units in Hh by done. apply Z.leb_le in Hh. done.
  - intros [[Hnn Hle] Ht]. apply nonneg64_iff in Hnn as Hv. split; [|apply Hv| |done].
    + split; [apply Hv|]. by intros He; rewrite He in Hnn.
    + cbn [f_le binary64]. rewrite SFleb_units by done. by apply Z.leb_le.
Qed.

Lemma Sub_range t u : Sub t u <= 2 ^ 63.
Proof. unfold Sub, max_int64, min_int64. lia. Qed.

Lemma elapsed64_iff (t u : Time) : f_lt (f_const 0) (f_Seconds (Sub t u)) = true <-> u < t.
Proof.
  cbn [f_lt f_const f_Seconds binary64]. change (b64_of_Z 0) with (S754_zero false).
  rewrite elapsed_positive by apply Sub_range. rewrite Z.ltb_lt. apply Sub_pos_iff.
Qed.

Lemma refill_ok cap r now b :
  nonneg64 r -> nonneg64 cap -> tokens_ok cap b ->
  tokens_ok cap (refill b now r cap) /\ last (refill b now r cap) = Z.max now (last b).
Proof.
  intros Hr Hcap [Hn Hle]. unfold refill. destruct (f_lt _ _) eqn:Hel.
  - apply elapsed64_iff in Hel. cbn [tokens last f_min f_add f_mul binary64]. split; [|lia].
    destruct (Seconds64_positive (Sub now (last b))) as [Hp _];
      [pose proof (Sub_range now (last b)); pose proof (proj2 (Sub_pos_iff now (last b)) Hel); lia|].
    assert (Hs : nonneg64 (SFadd 53 1024 (tokens b) (SFmul 53 1024 (f_Seconds (Sub now (last b))) r)))
      by (by apply add_nonneg, mul_nonneg).
    destruct (min_units cap _ Hcap Hs) as [Hmn Hmu]. split; [done|]. cbn [tokens]. rewrite Hmu. lia.
  - split; [done|]. destruct (Z.max_spec now (last b)) as [[? ->]|[Hge ->]]; [done|].
    destruct (Z.eq_dec (last b) now) as [|Hne]; [done|].
    rewrite (proj2 (elapsed64_iff now (last b))) in Hel by lia. done.
Qed.

Lemma has_token b : nonneg64 (tokens b) -> f_lt (tokens b) (f_const 1) = false <-> units one64 <= units (tokens b).
Proof.
  intros Hn. cbn [f_lt f_const binary64]. fold one64. rewrite SFltb_units by done. apply Z.ltb_ge.
Qed.

Lemma take_ok cap r now b :
  nonneg64 r -> nonneg64 cap -> tokens_ok cap b ->
  tokens_ok cap (fst (take b now r cap)) /\ last (fst (take b now r cap)) = Z.max now (last b).
Proof.
  intros Hr Hcap Hb. destruct (refill_ok cap r now b Hr Hcap Hb) as [[Hn Hle] Hl]. unfold take.
  destruct (f_lt (tokens _) _) eqn:Hlt; [done|]. apply has_token in Hlt; [|done]. split; [|done].
  destruct (sub_one _ Hn Hlt) as [Hs Hu]. split; [exact Hs|]. etrans; [exact Hu|exact Hle].
Qed.

Lemma ensureBucket_ok (k : keyedLimiter spec_float) now order key key' b :
  buckets (ensureBucket k now order key) !! key' = Some b ->
    buckets k !! key' = Some b \/ b = {| tokens := burst k; last := now |}.
Proof.
  intros Hb. unfold ensureBucket in Hb.
  destruct (buckets k !! key) as [b0|] eqn:H0; [by left|].
  cbn [buckets withBuckets] in Hb. apply lookup_insert_Some in Hb as [[_ <-]|[_ Hb]].
  - right. f_equal. by destruct (_ <=? _).
  - left. destruct (_ <=? _); [|done]. eapply lookup_weaken; [exact Hb|apply evictLocked_subset].
Qed.

(** What a run keeps: the limiter's parameters, and well-formed buckets. *)
Definition limiter_ok (r cap : spec_float) (times : list Time) (k : keyedLimiter spec_float) : Prop :=
  rate k = r /\ burst k = cap /\ disabled k = (f_lt r (f_const 0) || f_lt cap (f_const 0)) /\
  forall key b, buckets k !! key = Some b ->
    nonneg64 r /\ nonneg64 cap /\ tokens_ok cap b /\ last b ∈ times.

Lemma limiter_ok_new r cap n times : limiter_ok r cap times (newKeyedLimiter r cap n).
Proof. split_and!; [done..|]. intros key b Hb. simpl in Hb. by rewrite lookup_empty in Hb. Qed.

Lemma limiter_ok_allow r cap times k now order key :
  is_number r -> is_number cap -> limiter_ok r cap times k ->
  limiter_ok r cap (now :: times) (fst (allow k now order key)).
Proof.
  intros Hr Hcap (Hkr & Hkc & Hkd & Hk).
  pose proof (allow_params k now order key) as (Hp1 & Hp2 & Hp3 & _).
  split_and!; [congruence..|]. intros key' b Hb. destruct (disabled k) eqn:Hd.
  { unfold allow in Hb. rewrite Hd in Hb. destruct (Hk key' b Hb) as (? & ? & ? & ?). split_and!; [done..|by right]. }
  symmetry in Hkd. apply orb_false_iff in Hkd as [Hr0 Hc0].
  apply number_enabled in Hr0; [|done]. apply number_enabled in Hc0; [|done].
  enough (tokens_ok cap b /\ last b ∈ now :: times) by tauto.
  destruct (allow_unfold k now order key Hd) as (bk & Hbk & Heq). rewrite Heq in Hb.
  cbn [fst buckets withBuckets] in Hb. rewrite Hkr, Hkc in Hb.
  assert (Hall : forall key' b, buckets (ensureBucket k now order key) !! key' = Some b ->
            tokens_ok cap b /\ last b ∈ now :: times).
  { intros key'' b'' Hin. destruct (ensureBucket_ok k now order key key'' b'' Hin) as [Hin'| ->].
    - destruct (Hk key'' b'' Hin') as (_ & _ & ? & ?). split; [done|by right].
    - rewrite Hkc. split; [split; [done|reflexivity]|by left]. }
  apply lookup_insert_Some in Hb as [[_ <-]|[_ Hb]]; [|by apply (Hall key')].
  destruct (Hall key bk Hbk) as [Hbo Hbl]. destruct (take_ok cap r now bk Hr0 Hc0 Hbo) as [Ht Hl].
  split; [done|]. rewrite Hl. destruct (Z.max_spec now (last bk)) as [[_ ->]|[_ ->]]; [done|by left].
Qed.

Lemma limiter_ok_times r cap times times' k : times ⊆ times' -> limiter_ok r cap times k -> limiter_ok r cap times' k.
Proof.
  intros Hs (? & ? & ? & Hk). split_and!; [done..|]. intros key b Hb. destruct (Hk key b Hb) as (? & ? & ? & ?).
  split_and!; [done..|]. by apply Hs.
Qed.

(** C27. Every bucket is well formed at all times, in the arithmetic of the code:
    whatever requests come, at whatever times the clock shows, forwards or
    backwards, and whatever the table evicts, each bucket holds a float64 that is
    a number, is not below zero and not above the capacity, and was last
    refilled at the time of one of the requests; a limiter with a negative rate or
    burst keeps no bucket at all.  The rate and the burst may be any float64
    values, infinities included, that are numbers. *)
Theorem buckets_well_formed (r cap : spec_float) n ops k
    (Hr : is_number r) (Hcap : is_number cap)
    (Hrun : allow_run (newKeyedLimiter r cap n) ops k) :
  forall key b, buckets k !! key = Some b ->
    f_lt r (f_const 0) = false /\ f_lt cap (f_const 0) = false /\
    bucket_ok cap (map (fun op => fst (fst op)) ops) b.
Proof.
  assert (Hgen : limiter_ok r cap (map (fun op => fst (fst op)) ops) k).
  { induction Hrun as [|ops k1 now order key k2 ok Hrun IH Horder Ha]; [apply limiter_ok_new|].
    pose proof (limiter_ok_allow r cap _ k1 now order key Hr Hcap IH) as Hk. rewrite Ha in Hk.
    eapply limiter_ok_times; [|exact Hk]. rewrite map_app. set_solver. }
  intros key b Hb. destruct Hgen as (_ & _ & _ & Hk). destruct (Hk key b Hb) as (? & ? & ? & ?).
  rewrite !number_enabled by done. split_and!; [done..|]. by apply bucket_ok_iff.
Qed.

(** ** Grants are paid for

    The value of a finite float64 as a rational. *)
Definition val (x : spec_float) : Q := units x # Z.to_pos one_unit.

(** The seconds between two times. *)
Definition seconds_between (t0 t1 : Time) : Q := (t1 - t0)%Z # 1000000000.

(** One part in 2^49, which is what converting, multiplying and adding the
    elapsed time may exceed the exact amount by; and what one request may add
    beside, to a bucket of capacity [cap]. *)
Definition rate_error : Q := 1 # 2 ^ 49.
Definition request_error (cap : spec_float) : Q := ((val cap + 1) * (1 # 2 ^ 51))%Q.

(** What a refill adds, in units. *)
Lemma refill_units cap r now b :
  positive64 r -> finite64 cap -> tokens_ok cap b -> last b < now ->
  exists gain,
    units (tokens (refill b now r cap)) * 2 ^ 52 <= (units (tokens b) + gain) * 2 ^ 52 + units cap /\
    gain * 1000000000 * 2 ^ 102 <= (now - last b) * units r * ((2 ^ 50 + 1) * (2 ^ 52 + 1)) + 1000000000 * 2 ^ 102.
Proof.
  intros Hr Hcap [Hn Hle] Hlt. unfold refill. rewrite (proj2 (elapsed64_iff now (last b)) Hlt).
  cbn [tokens f_min f_add f_mul f_Seconds binary64]. set (d := Sub now (last b)).
  assert (Hd : 0 < d <= now - last b).
  { split; [by apply Sub_pos_iff|]. apply Sub_le. lia. }
  pose proof (Sub_range now (last b)) as Hd63. fold d in Hd63.
  destruct (Seconds64_positive d ltac:(lia)) as [Hp Hsec]. set (el := Seconds64 d) in *.
  assert (Hrf : finite64 r) by (by destruct r).
  assert (Hef : finite64 el) by (by destruct el).
  pose proof (mul_upper el r Hef Hrf) as Hmul. set (g := SFmul 53 1024 el r) in *.
  assert (Hone : 0 < one_unit) by (apply pow2_pos; lia).
  pose proof (units_nonneg r) as Hr0. pose proof (units_nonneg cap) as Hc0. pose proof (units_nonneg (tokens b)) as Ht0.
  pose proof (units_nonneg g) as Hg0.
  exists (units g). split.
  - assert (Hgn : nonneg64 g) by (apply mul_nonneg; [done|by apply finite64_nonneg]).
    assert (Hs : nonneg64 (SFadd 53 1024 (tokens b) g)) by (by apply add_nonneg).
    destruct (min_units cap _ (finite64_nonneg cap Hcap) Hs) as [_ ->].
    destruct (Z.le_gt_cases (units cap) (units (tokens b) + units g)) as [Hbig|Hsmall]; [lia|].
    apply finite64_iff in Hcap as [_ Hcapf].
    assert (Htf : finite64 (tokens b)) by (apply finite64_iff; split; [done|lia]).
    assert (Hgf : finite64 g) by (apply finite64_iff; split; [done|lia]).
    pose proof (add_upper (tokens b) g Htf Hgf). lia.
  - apply (Z.mul_le_mono_pos_r _ _ one_unit); [done|].
    assert (H1 : units g * one_unit * 2 ^ 52 * (1000000000 * 2 ^ 50) <=
      (units el * units r * (2 ^ 52 + 1) + one_unit * 2 ^ 52) * (1000000000 * 2 ^ 50)) by (apply Zmult_le_compat_r; lia).
    assert (H2 : units el * 1000000000 * 2 ^ 50 * (units r * (2 ^ 52 + 1)) <=
      d * one_unit * (2 ^ 50 + 1) * (units r * (2 ^ 52 + 1))) by (apply Zmult_le_compat_r; lia).
    assert (H3 : d * (units r * one_unit) <= (now - last b) * (units r * one_unit)) by (apply Zmult_le_compat_r; lia).
    lia.
Qed.

(** What a grant takes, in units. *)
Lemma take_units cap r now b :
  positive64 r -> finite64 cap -> tokens_ok cap b ->
  units (tokens (fst (take b now r cap))) * 2 ^ 52 + (if snd (take b now r cap) then units one64 * 2 ^ 52 else 0) <=
    units (tokens (refill b now r cap)) * 2 ^ 52 + units cap.
Proof.
  intros Hr Hcap Hb.
  assert (Hrn : nonneg64 r) by (apply finite64_nonneg; by destruct r).
  destruct (refill_ok cap r now b Hrn (finite64_nonneg cap Hcap) Hb) as [[Hn Hle] _]. unfold take.
  pose proof (units_nonneg cap). pose proof (units_nonneg one64).
  destruct (f_lt (tokens _) _) eqn:Hlt; cbn [fst snd]; [lia|]. apply has_token in Hlt; [|done].
  apply finite64_iff in Hcap as [_ Hcapf].
  assert (Hf : finite64 (tokens (refill b now r cap))) by (apply finite64_iff; split; [done|lia]).
  pose proof (sub_one_upper _ Hf Hlt). cbn [tokens f_sub f_const binary64]. fold one64. lia.
Qed.

Section Grants.
#[local] Open Scope Q_scope.

(** The powers of two as literals, for lra. *)
Ltac literals :=
  unfold rate_error, request_error in *;
  change (2 ^ 49)%positive with 562949953421312%positive in *;
  change (2 ^ 51)%positive with 2251799813685248%positive in *;
  change (2 ^ 52)%positive with 4503599627370496%positive in *.

Lemma Qmake_inject (a : Z) p : a # p == inject_Z a * (1 # p).
Proof. unfold Qeq. cbn. lia. Qed.

Lemma val_of_units x : val x == inject_Z (units x) * (1 # Z.to_pos one_unit).
Proof. apply Qmake_inject. Qed.

(** One unit is tiny. *)
Lemma unit_tiny : (1 # Z.to_pos one_unit) <= 1 # 2 ^ 52.
Proof. by vm_compute. Qed.

Lemma unit_pos : 0 < 1 # Z.to_pos one_unit.
Proof. done. Qed.

Lemma val_one : val one64 == 1.
Proof. by vm_compute. Qed.

Lemma val_nonneg x : 0 <= val x.
Proof.
  rewrite val_of_units. apply Qmult_le_0_compat; [|by apply Qlt_le_weak, unit_pos].
  change 0 with (inject_Z 0). rewrite <- Zle_Qle. apply units_nonneg.
Qed.

Lemma val_le x y : (units x <= units y)%Z -> val x <= val y.
Proof.
  intros Hle. rewrite !val_of_units. apply Qmult_le_compat_r; [by rewrite <- Zle_Qle|].
  by apply Qlt_le_weak, unit_pos.
Qed.

(** An inequality between units, in values. *)
Lemma units_to_val (a b : Z) :
  (a <= b)%Z -> inject_Z a * (1 # Z.to_pos one_unit) <= inject_Z b * (1 # Z.to_pos one_unit).
Proof. intros Hab. apply Qmult_le_compat_r; [by rewrite <- Zle_Qle|]. by apply Qlt_le_weak, unit_pos. Qed.

Lemma seconds_between_same t : seconds_between t t == 0.
Proof. unfold seconds_between. by rewrite Z.sub_diag. Qed.

Lemma refill_value cap r now b :
  positive64 r -> finite64 cap -> tokens_ok cap b ->
  val (tokens (refill b now r cap)) <=
    val (tokens b) + val r * seconds_between (last b) (Z.max now (last b)) * (1 + rate_error)
    + (val cap + 1) * (1 # 2 ^ 52).
Proof.
  intros Hr Hcap Hb. pose proof (val_nonneg cap) as Hc0.
  destruct (Z.le_gt_cases now (last b)) as [Hle|Hlt].
  - rewrite Z.max_r by done. unfold refill. destruct (f_lt _ _) eqn:Hel; [apply elapsed64_iff in Hel; lia|].
    rewrite seconds_between_same. literals. lra.
  - rewrite Z.max_l by lia. destruct (refill_units cap r now b Hr Hcap Hb Hlt) as (g & H1 & H2).
    apply units_to_val in H1, H2.
    repeat (rewrite inject_Z_plus in H1 || rewrite inject_Z_mult in H1).
    repeat (rewrite inject_Z_plus in H2 || rewrite inject_Z_mult in H2).
    pose proof unit_tiny as Htiny. pose proof unit_pos as Hu0. rewrite !val_of_units. unfold seconds_between, rate_error.
    rewrite (Qmake_inject (now - last b)%Z). set (u := 1 # Z.to_pos one_unit) in *. clearbody u.
    set (t' := inject_Z (units (tokens (refill b now r cap)))) in *. set (t := inject_Z (units (tokens b))) in *.
    set (c := inject_Z (units cap)) in *. set (d := inject_Z (now - last b)) in *. set (rr := inject_Z (units r)) in *.
    set (gg := inject_Z g) in *.
    assert (Hdr : 0 <= d * rr * u).
    { unfold d, rr. rewrite <- inject_Z_mult. apply Qmult_le_0_compat; [|by apply Qlt_le_weak].
      change 0 with (inject_Z 0). rewrite <- Zle_Qle. pose proof (units_nonneg r). nia. }
    clearbody t' t c d rr gg. literals.
    change (inject_Z (2 ^ 52)) with (4503599627370496 # 1) in *.
    change (inject_Z (2 ^ 50)) with (1125899906842624 # 1) in *.
    change (inject_Z (2 ^ 102)) with (5070602400912917605986812821504 # 1) in *.
    change (inject_Z 1000000000) with (1000000000 # 1) in *. change (inject_Z 1) with 1 in *.
    lra.
Qed.

Lemma take_value cap r now b :
  positive64 r -> finite64 cap -> tokens_ok cap b ->
  val (tokens (fst (take b now r cap))) + (if snd (take b now r cap) then 1 else 0) <=
    val (tokens (refill b now r cap)) + val cap * (1 # 2 ^ 52).
Proof.
  intros Hr Hcap Hb. pose proof (take_units cap r now b Hr Hcap Hb) as H1. apply units_to_val in H1.
  pose proof val_one as Hone. rewrite val_of_units in Hone. rewrite !val_of_units.
  destruct (snd _);
    repeat (rewrite inject_Z_plus in H1 || rewrite inject_Z_mult in H1);
    change (inject_Z (2 ^ 52)) with (4503599627370496 # 1) in *; change (inject_Z 0) with 0 in *;
    set (u := 1 # Z.to_pos one_unit) in *; clearbody u; literals; lra.
Qed.

(** One request: the bucket's tokens and the grant against what it held and what
    the time that passed brings; and against the capacity alone. *)
Lemma take_paid cap r now b :
  positive64 r -> finite64 cap -> tokens_ok cap b ->
  val (tokens (fst (take b now r cap))) + (if snd (take b now r cap) then 1 else 0) <=
    val (tokens b) + val r * seconds_between (last b) (Z.max now (last b)) * (1 + rate_error) + request_error cap /\
  val (tokens (fst (take b now r cap))) + (if snd (take b now r cap) then 1 else 0) <= val cap + request_error cap.
Proof.
  intros Hr Hcap Hb. pose proof (take_value cap r now b Hr Hcap Hb) as Ht.
  pose proof (refill_value cap r now b Hr Hcap Hb) as Hrf. pose proof (val_nonneg cap).
  assert (Hrn : nonneg64 r) by (apply finite64_nonneg; by destruct r).
  destruct (refill_ok cap r now b Hrn (finite64_nonneg cap Hcap) Hb) as [[_ Hle] _]. apply val_le in Hle.
  literals. split; lra.
Qed.
(** *** A window of time *)

Definition grants (ops : list (Time * string * bool)) : Z := Z.of_nat (count snd ops).

Lemma grants_snoc ops now key ok : (grants (ops ++ [(now, key, ok)]) = grants ops + (if ok then 1 else 0))%Z.
Proof. unfold grants. rewrite count_app. simpl. destruct ok; lia. Qed.

(** The most a bucket of this rate and capacity grants between two times to [n]
    requests: the capacity, what the rate brings in the time, and the rounding. *)
Definition window_bound (r cap : spec_float) (t0 t1 : Time) (n : nat) : Q :=
  val cap + val r * seconds_between t0 t1 * (1 + rate_error) + inject_Z (Z.of_nat n) * request_error cap.

(** What has been granted since [t0], together with what the bucket holds, is
    within the bound for the time up to the last refill. *)
Definition paid (r cap : spec_float) (t0 t1 : Time) (n : nat) (g : Z) (b : bucket spec_float) : Prop :=
  tokens_ok cap b /\ (g = 0 \/ t0 <= last b)%Z /\
  val (tokens b) + inject_Z g <= window_bound r cap t0 (Z.min t1 (Z.max t0 (last b))) n.

Lemma seconds_between_nonneg t0 t1 : (t0 <= t1)%Z -> 0 <= seconds_between t0 t1.
Proof. unfold seconds_between, Qle. cbn. lia. Qed.

Lemma seconds_between_add t0 t1 t2 : seconds_between t0 t2 == seconds_between t0 t1 + seconds_between t1 t2.
Proof.
  unfold seconds_between. rewrite !(Qmake_inject (_ - _)). rewrite <- Qmult_plus_distr_l, <- inject_Z_plus.
  by replace (t1 - t0 + (t2 - t1))%Z with (t2 - t0)%Z by lia.
Qed.

Lemma window_bound_mono r cap t0 t1 t2 n : (t1 <= t2)%Z -> window_bound r cap t0 t1 n <= window_bound r cap t0 t2 n.
Proof.
  intros Hle. unfold window_bound. rewrite (seconds_between_add t0 t1 t2).
  pose proof (Qmult_le_0_compat _ _ (val_nonneg r) (seconds_between_nonneg t1 t2 Hle)). literals. lra.
Qed.

Lemma paid_start r cap t0 t1 b : (t0 <= t1)%Z -> tokens_ok cap b -> paid r cap t0 t1 0 0 b.
Proof.
  intros Ht Hb. split_and!; [done|by left|]. destruct Hb as [_ Hle]. apply val_le in Hle. unfold window_bound.
  pose proof (Qmult_le_0_compat _ _ (val_nonneg r) (seconds_between_nonneg t0 (Z.min t1 (Z.max t0 (last b))) ltac:(lia))).
  change (inject_Z 0) with 0. change (inject_Z (Z.of_nat 0)) with 0. literals. lra.
Qed.

Lemma paid_take r cap t0 t1 n g b now :
  positive64 r -> finite64 cap -> (t0 <= now <= t1)%Z -> paid r cap t0 t1 n g b ->
  paid r cap t0 t1 (S n) (g + if snd (take b now r cap) then 1 else 0) (fst (take b now r cap)).
Proof.
  intros Hr Hcap Hnow (Hb & Hg & Hle). destruct (take_paid cap r now b Hr Hcap Hb) as [H1 H2].
  assert (Hrn : nonneg64 r) by (apply finite64_nonneg; by destruct r).
  destruct (take_ok cap r now b Hrn (finite64_nonneg cap Hcap) Hb) as [Hok Hl].
  split; [done|]. rewrite Hl. split; [right; lia|].
  assert (Hsn : inject_Z (Z.of_nat (S n)) == inject_Z (Z.of_nat n) + 1).
  { rewrite Nat2Z.inj_succ, <- Z.add_1_r, inject_Z_plus. done. }
  assert (Hadd : inject_Z (g + if snd (take b now r cap) then 1 else 0) ==
                 inject_Z g + (if snd (take b now r cap) then 1 else 0)) by (rewrite inject_Z_plus; by destruct (snd _)).
  unfold window_bound in *. rewrite Hsn, Hadd. pose proof (val_nonneg r) as Hr0. pose proof (val_nonneg cap) as Hc0.
  assert (Hn0 : 0 <= inject_Z (Z.of_nat n)) by (change 0 with (inject_Z 0); rewrite <- Zle_Qle; lia).
  assert (He : 0 <= request_error cap) by (literals; lra).
  pose proof (Qmult_le_0_compat _ _ Hn0 He) as Hne.
  destruct (Z.le_gt_cases t0 (last b)) as [Hin|Hout].
  - assert (Hsec : seconds_between t0 (Z.min t1 (Z.max t0 (Z.max now (last b)))) ==
      seconds_between t0 (Z.min t1 (Z.max t0 (last b))) + seconds_between (last b) (Z.max now (last b))).
    { destruct (Z.le_gt_cases now (last b)).
      - rewrite (Z.max_r now (last b)), seconds_between_same by lia. lra.
      - replace (Z.min t1 (Z.max t0 (last b))) with (last b) by lia.
        replace (Z.min t1 (Z.max t0 (Z.max now (last b)))) with (Z.max now (last b)) by lia.
        apply seconds_between_add. }
    rewrite Hsec. literals. lra.
  - destruct Hg as [->|]; [|lia].
    pose proof (Qmult_le_0_compat _ _ Hr0
      (seconds_between_nonneg t0 (Z.min t1 (Z.max t0 (Z.max now (last b)))) ltac:(lia))) as Hpos.
    change (inject_Z 0) with 0. literals. lra.
Qed.

(** A limiter asked about one key only. *)
Definition single_key (k : keyedLimiter spec_float) (key : string) : Prop :=
  buckets k = ∅ \/ exists b, buckets k = {[key := b]}.

Lemma single_key_allow k now order key :
  disabled k = false -> (0 < maxKeys k)%Z -> single_key k key -> single_key (fst (allow k now order key)) key.
Proof.
  intros Hd Hm Hs. destruct (allow_unfold k now order key Hd) as (b & Hb & ->). cbn [fst].
  destruct (ensureBucket_single k now order key Hs Hm) as (b' & He & _). right. eexists.
  cbn [buckets withBuckets]. rewrite He. apply insert_singleton_eq.
Qed.

Lemma positive64_number x : positive64 x -> is_number x.
Proof. destruct x as [|[]| |[] m e]; try done; intros [Hs Hb]; by split. Qed.

Lemma window_grants r cap key t0 t1 k ops k' :
  positive64 r -> finite64 cap -> (t0 <= t1)%Z ->
  rate k = r -> burst k = cap -> disabled k = false -> (0 < maxKeys k)%Z ->
  single_key k key -> (forall b, buckets k !! key = Some b -> tokens_ok cap b) ->
  allow_run k ops k' ->
  (forall now key' ok, (now, key', ok) ∈ ops -> key' = key /\ (t0 <= now <= t1)%Z) ->
  inject_Z (grants ops) <= window_bound r cap t0 t1 (length ops).
Proof.
  intros Hr Hcap Ht Hkr Hkc Hkd Hkm Hsingle Hk Hrun Hops.
  enough (Hinv : (rate k' = r /\ burst k' = cap /\ disabled k' = false /\ (0 < maxKeys k')%Z) /\
    ((buckets k' = ∅ /\ ops = []) \/
     exists b, buckets k' = {[key := b]} /\ paid r cap t0 t1 (length ops) (grants ops) b)).
  { destruct Hinv as [_ [[_ ->]|(b & _ & _ & _ & Hb)]].
    - pose proof (paid_start r cap t0 t1 {| tokens := S754_zero false; last := t0 |} Ht) as (_ & _ & Hb).
      { split; [done|apply units_nonneg]. }
      cbn [tokens last] in Hb. rewrite Z.max_id, Z.min_r in Hb by done.
      eapply Qle_trans; [|apply (window_bound_mono r cap t0 t0 t1 0 Ht)]. eapply Qle_trans; [|exact Hb].
      pose proof (val_nonneg (S754_zero false)). change (grants []) with 0%Z. lra.
    - pose proof (val_nonneg (tokens b)).
      eapply Qle_trans; [|apply (window_bound_mono r cap t0 (Z.min t1 (Z.max t0 (last b))) t1); lia]. lra. }
  induction Hrun as [|ops k1 now order key' k2 ok Hrun IH Horder Ha].
  { split; [done|]. destruct Hsingle as [He|[b He]]; [by left|right]. exists b. split; [done|].
    apply paid_start; [done|]. apply Hk. by rewrite He, lookup_singleton_eq. }
  destruct IH as [(Hr1 & Hc1 & Hd1 & Hm1) IH].
  { intros now' key'' ok' Hin. eapply Hops, elem_of_app. by left. }
  destruct (Hops now key' ok ltac:(apply elem_of_app; right; by left)) as [-> Hnow].
  pose proof (allow_params k1 now order key) as (Hp1 & Hp2 & Hp3 & Hp4). rewrite Ha in Hp1, Hp2, Hp3, Hp4. cbn [fst] in *.
  split; [rewrite Hp1, Hp2, Hp3, Hp4; by split_and!|]. right.
  destruct (allow_unfold k1 now order key Hd1) as (bk & Hbk & Heq). rewrite Ha in Heq.
  injection Heq as -> ->. cbn [buckets withBuckets]. rewrite Hr1, Hc1.
  assert (Hs1 : buckets k1 = ∅ \/ exists b, buckets k1 = {[key := b]})
    by (destruct IH as [[? _]|(b & ? & _)]; [by left|right; by exists b]).
  destruct (ensureBucket_single k1 now order key Hs1 Hm1) as (b & Hb & Hor). rewrite Hb in *.
  rewrite lookup_singleton_eq in Hbk. injection Hbk as <-.
  eexists. split; [rewrite insert_singleton_eq; reflexivity|]. rewrite length_app, grants_snoc, Nat.add_1_r.
  apply paid_take; [done..|]. destruct Hor as [Hsame|[He ->]].
  - destruct IH as [[He _]|(b' & Hb' & Hpaid)]; [by rewrite Hsame in He; apply map_non_empty_singleton in He|].
    rewrite Hsame in Hb'. apply (inj (singletonM key)) in Hb'. by subst.
  - destruct IH as [[_ ->]|(b' & Hb' & _)]; [|by rewrite He in Hb'; symmetry in Hb'; apply map_non_empty_singleton in Hb'].
    apply paid_start; [done|]. rewrite Hc1. split; [by apply finite64_nonneg|reflexivity].
Qed.
End Grants.

(** ** Witnesses *)

(** One client and a clock that goes back. *)
Definition table64 : keyedLimiter spec_float := newKeyedLimiter (b64_of_Z 1) (b64_of_Z 5) 2.
Definition clock_goes_back : list (Time * string) :=
  [(at_second 3, "10.0.0.1"); (at_second 1, "10.0.0.1"); (at_second 5, "10.0.0.2")].

Lemma small_number z : 0 <= z < 2 ^ 53 -> is_number (b64_of_Z z).
Proof.
  intros Hz. destruct (b64_of_Z_exact z Hz) as [Hf _]. apply finite64_nonneg, nonneg64_iff in Hf as Hn.
  split; [apply Hn|]. by intros He; rewrite He in Hf.
Qed.

Lemma buckets_well_formed_witness :
  exists b, buckets (fst (run_allow table64 clock_goes_back)) !! "10.0.0.1" = Some b /\
    bucket_ok (b64_of_Z 5) (map (fun op => fst (fst op)) (snd (run_allow table64 clock_goes_back))) b.
Proof.
  assert (Hrun := run_allow_run table64 table64 [] clock_goes_back (run_nil _)).
  destruct (buckets (fst (run_allow table64 clock_goes_back)) !! "10.0.0.1") as [b|] eqn:Hb.
  - exists b. split; [reflexivity|].
    exact (proj2 (proj2 (buckets_well_formed (b64_of_Z 1) (b64_of_Z 5) 2 _ _ (small_number 1 ltac:(lia))
             (small_number 5 ltac:(lia)) Hrun "10.0.0.1" b Hb))).
  - assert (Hsome : match buckets (fst (run_allow table64 clock_goes_back)) !! "10.0.0.1" with
                    | Some _ => true | None => false end = true) by (vm_compute; reflexivity).
    rewrite Hb in Hsome. discriminate Hsome.
Defined.

(** A number is needed: a rate that is NaN makes the first refill NaN. *)
Example nan_rate_breaks_bucket :
  let k := fst (run_allow (newKeyedLimiter S754_nan (b64_of_Z 1) 10)
                  [(at_second 0, "10.0.0.1"); (at_second 1, "10.0.0.1")]) in
  option_map tokens (buckets k !! "10.0.0.1") = Some S754_nan.
Proof. by vm_compute. Qed.
