(* ===== verification/Http.v ===== *)
(** * net/http and net/url: what the handlers read and write

    Requests and responses as the handlers see them: method, path, parsed
    query, headers, a body stream, the remote address and the TLS state; status,
    headers and body.  A body is the bytes the client sent, and possibly the
    error the read after them reports; [ReadAllLimited] is
    [io.ReadAll(io.LimitReader(body, n))]. *)
From S2P Require Import Prelude GoLib GoCrypto GoNet X509.

(** ** Requests *)

Record Body := { body_data : bytes; body_err : option error }.

Record HttpRequest := {
  Method : string;
  URL_Path : string;
  RawQuery : string;
  (** canonical header names with their values, in order *)
  Header : list (string * string);
  R_Body : Body;
  RemoteAddr : string;
  R_TLS : option ConnectionState;
}.

Definition MethodGet : string := "GET".
Definition MethodPost : string := "POST".

(** The first value of a key, or the empty string. *)
Fixpoint first_value (key : string) (kvs : list (string * string)) : string :=
  match kvs with
  | [] => ""
  | (k, v) :: kvs' => if (k =? key)%string then v else first_value key kvs'
  end.

(** [r.Header.Get(key)], for a key already in canonical form *)
Definition Header_Get (r : HttpRequest) (key : string) : string := first_value key (Header r).

(** *** url.ParseQuery *)

Definition unhex (c : ascii) : option N :=
  if byte_between 48 57 c then Some (byte_val c - 48)%N
  else if byte_between 97 102 c then Some (byte_val c - 87)%N
  else if byte_between 65 70 c then Some (byte_val c - 55)%N
  else None.

(** [url.QueryUnescape]: [None] is an error. *)
Fixpoint QueryUnescape (s : string) : option string :=
  match s with
  | EmptyString => Some EmptyString
  | String c s' =>
      if Ascii.eqb c "%" then
        match s' with
        | String h (String l s'') =>
            match unhex h, unhex l with
            | Some h, Some l => option_map (String (byte_chr (16 * h + l))) (QueryUnescape s'')
            | _, _ => None
            end
        | _ => None
        end
      else if Ascii.eqb c "+" then option_map (String " ") (QueryUnescape s')
      else option_map (String c) (QueryUnescape s')
  end.

Fixpoint split_on (sep : ascii) (s : string) : list string :=
  match s with
  | EmptyString => [EmptyString]
  | String c s' =>
      if Ascii.eqb c sep then EmptyString :: split_on sep s'
      else match split_on sep s' with
           | [] => [String c EmptyString]
           | p :: ps => String c p :: ps
           end
  end.

(** One [key=value] of a query; a malformed one is dropped. *)
Definition query_pair (kv : string) : list (string * string) :=
  if contains_byte kv ";" then []
  else if (kv =? "")%string then []
  else
    let '(k, v) := match Cut kv "=" with Some kv => kv | None => (kv, "") end in
    match QueryUnescape k, QueryUnescape v with
    | Some k, Some v => [(k, v)]
    | _, _ => []
    end.

Definition ParseQuery (raw : string) : list (string * string) :=
  flat_map query_pair (split_on "&" raw).

(** [r.URL.Query().Get(key)] *)
Definition Query_Get (r : HttpRequest) (key : string) : string := first_value key (ParseQuery (RawQuery r)).

(** *** Bounded reads *)

(** [io.ReadAll(io.LimitReader(body, n))]: the limit is reached before an
    error that comes after it. *)
Definition ReadAllLimited (b : Body) (n : Z) : result bytes :=
  if n <=? Z.of_nat (length (body_data b)) then Ok (firstn (Z.to_nat n) (body_data b))
  else match body_err b with
       | Some e => Err e
       | None => Ok (body_data b)
       end.

Lemma ReadAllLimited_length b n d :
  ReadAllLimited b n = Ok d -> Z.of_nat (length d) <= Z.max 0 n.
Proof.
  unfold ReadAllLimited. destruct (Z.leb_spec n (Z.of_nat (length (body_data b)))).
  - intros [= <-]. rewrite length_firstn. lia.
  - destruct (body_err b); [done|]. intros [= <-]. lia.
Qed.

(** A body read whole under the limit is the body sent. *)
Lemma ReadAllLimited_whole b n d :
  ReadAllLimited b n = Ok d -> Z.of_nat (length d) < n -> d = body_data b /\ body_err b = None.
Proof.
  unfold ReadAllLimited. destruct (Z.leb_spec n (Z.of_nat (length (body_data b)))).
  - intros [= <-]. rewrite length_firstn. lia.
  - destruct (body_err b); [done|]. by intros [= <-].
Qed.

Lemma ReadAllLimited_short b n :
  body_err b = None -> Z.of_nat (length (body_data b)) < n -> ReadAllLimited b n = Ok (body_data b).
Proof.
  unfold ReadAllLimited. intros -> ?. by destruct (Z.leb_spec n (Z.of_nat (length (body_data b)))); [lia|].
Qed.

(** ** Responses *)

Record Response := {
  Status : Z;
  RespHeader : gmap string string;
  RespBody : bytes;
}.

Definition StatusOK : Z := 200.
Definition StatusNoContent : Z := 204.
Definition StatusBadRequest : Z := 400.
Definition StatusForbidden : Z := 403.
Definition StatusNotFound : Z := 404.
Definition StatusMethodNotAllowed : Z := 405.
Definition StatusRequestEntityTooLarge : Z := 413.
Definition StatusTooManyRequests : Z := 429.
Definition StatusInternalServerError : Z := 500.
Definition StatusBadGateway : Z := 502.
Definition StatusServiceUnavailable : Z := 503.

Definition newline : ascii := byte_chr 10.

(** [http.Error(w, msg, code)] on a writer that holds the headers [hs] *)
Definition http_Error (hs : gmap string string) (msg : string) (code : Z) : Response :=
  {| Status := code;
     RespHeader := <["Content-Type" := "text/plain; charset=utf-8"]>
                     (<["X-Content-Type-Options" := "nosniff"]>
                        (delete "Content-Length" hs));
     RespBody := bytes_of_string (String.append msg (String newline "")) |}.

(** [http.NotFound(w, r)] *)
Definition http_NotFound : Response := http_Error ∅ "404 page not found" StatusNotFound.

(** A request as a test client would send it. *)
Definition exampleHttp (method path query : string) (body : bytes) (tls : option ConnectionState)
    : HttpRequest :=
  {| Method := method; URL_Path := path; RawQuery := query; Header := [];
     R_Body := {| body_data := body; body_err := None |};
     RemoteAddr := "192.0.2.1:4711"; R_TLS := tls |}.

Example query_unescapes :
  ParseQuery "operation=PKIOperation&message=MIIB%2Bw%3D%3D&a;b=1&bad=%zz" =
  [("operation", "PKIOperation"); ("message", "MIIB+w==")].
Proof. vm_compute. reflexivity. Qed.
