(* ===== verification/Middleware.v ===== *)
(** * internal/limits/limits.go: the middleware and the concurrency bound

    [Middleware] as a function of the outcome of [acquire], and the
    interleaving of any number of requests over one semaphore as a step
    relation: a request arrives and asks its client's bucket, then the global
    one, each under its own mutex and with its own reading of the clock; then it
    takes a slot at once when one is free, otherwise waits until a slot frees up,
    its timer fires or its client goes away, and gives its slot back when the
    handler returns. *)
From S2P Require Import Prelude GoLib GoCrypto GoNet X509 Http Float64 Limits Buckets.
From Stdlib Require Import QArith SpecFloat Lqa.
#[local] Open Scope Z_scope.

(** [ClientIP] *)
Definition ClientIP (r : HttpRequest) : string :=
  match SplitHostPort (RemoteAddr r) with
  | Some (host, _) => host
  | None => RemoteAddr r
  end.

Definition retryAfter : gmap string string := {["Retry-After" := retryAfterSeconds]}.

Definition reject : Response := http_Error retryAfter "rate limit exceeded" StatusTooManyRequests.
Definition shed : Response := http_Error retryAfter "server busy" StatusServiceUnavailable.

(** [Middleware(next)] on one request; [acquired] is what [acquire] answers,
    if it comes to that, and [w] the world of the wrapped handler. *)
Definition Middleware {F} `{Float F} {W} (l : Limiter F) (now gnow : Time) (order gorder : list string)
    (acquired : bool) (next : HttpRequest -> W -> W * Response) (r : HttpRequest) (w : W)
    : Limiter F * (W * Response) :=
  let '(l, rejected) := rateLimit l now gnow order gorder (ClientIP r) in
  match rejected with
  | Some _ => (l, (w, reject))
  | None => if acquired then (l, next r w) else (l, (w, shed))
  end.

(** The wrapped handler runs, or its world stays as it was. *)
Lemma Middleware_world {F} `{Float F} {W} (l : Limiter F) now gnow order gorder acquired next r (w : W) :
  let w' := fst (snd (Middleware l now gnow order gorder acquired next r w)) in
  w' = w \/ w' = fst (next r w).
Proof.
  unfold Middleware. destruct (rateLimit _ _ _ _ _ _) as [l' [why|]]; [by left|].
  destruct acquired; [by right|by left].
Qed.

(** ** Requests side by side *)

(** Where a request stands: past its client's bucket and about to ask the global
    one, past both and about to acquire, in the second [select] of [acquire], in
    the handler, or answered. *)
Inductive phase := Asking | Acquiring | Waiting | Serving | Finished | Rejected (reason : string) | Shed.

#[export] Instance phase_eq_dec : EqDecision phase.
Proof. solve_decision. Defined.

Record system (F : Type) := {
  limiter : Limiter F;
  inuse : nat;              (** values in the semaphore channel *)
  requests : gmap nat phase;
}.
Arguments limiter {F}.
Arguments inuse {F}.
Arguments requests {F}.
Arguments Build_system {F}.

Inductive event :=
| Arrive (i : nat) (client : string) (now : Time) (** [l.perClient.allow(client)] *)
| AskGlobal (i : nat) (now : Time)                (** the global bucket *)
| NoSlot (i : nat)      (** the fast path finds the channel full *)
| Acquire (i : nat)     (** the send on the channel goes through *)
| GiveUp (i : nat)      (** timer fired or request context done *)
| Release (i : nat).    (** the handler returned; the deferred receive *)

Section Semaphore.
Context {F : Type} `{Float F}.

Definition set_phase (s : system F) (i : nat) (p : phase) (n : nat) : system F :=
  {| limiter := limiter s; inuse := n; requests := <[i := p]> (requests s) |}.

(** Room for one more value in the channel; a nil channel means no limit. *)
Definition has_room (s : system F) : bool :=
  match sem (limiter s) with None => true | Some cap => (inuse s <? cap)%nat end.
Definition took_slot (s : system F) : nat :=
  match sem (limiter s) with None => inuse s | Some _ => S (inuse s) end.
Definition gave_slot (s : system F) : nat :=
  match sem (limiter s) with None => inuse s | Some _ => pred (inuse s) end.

Inductive request_step : system F -> event -> system F -> Prop :=
| step_arrive s i client now order l ok :
    requests s !! i = None -> iteration_order (perClient (limiter s)) order ->
    askClient (limiter s) now order client = (l, ok) ->
    request_step s (Arrive i client now)
      {| limiter := l; inuse := inuse s;
         requests := <[i := if ok then Asking else Rejected perClientReason]> (requests s) |}
| step_ask s i now gorder l ok :
    requests s !! i = Some Asking -> iteration_order (global (limiter s)) gorder ->
    askGlobal (limiter s) now gorder = (l, ok) ->
    request_step s (AskGlobal i now)
      {| limiter := l; inuse := inuse s;
         requests := <[i := if ok then Acquiring else Rejected globalReason]> (requests s) |}
| step_noslot s i :
    requests s !! i = Some Acquiring -> has_room s = false ->
    request_step s (NoSlot i) (set_phase s i Waiting (inuse s))
| step_acquire s i p :
    requests s !! i = Some p -> p = Acquiring \/ p = Waiting -> has_room s = true ->
    request_step s (Acquire i) (set_phase s i Serving (took_slot s))
| step_giveup s i :
    requests s !! i = Some Waiting ->
    request_step s (GiveUp i) (set_phase s i Shed (inuse s))
| step_release s i :
    requests s !! i = Some Serving ->
    request_step s (Release i) (set_phase s i Finished (gave_slot s)).

Definition start_system (cfg : Config F) : system F :=
  {| limiter := New cfg; inuse := 0; requests := ∅ |}.

(** How many requests are in a phase that satisfies [P]. *)
Definition tally (P : phase -> Prop) `{!forall p, base.Decision (P p)} (m : gmap nat phase) : nat :=
  size (filter (fun ip => P (snd ip)) m).

Lemma tally_out (P : phase -> Prop) `{!forall p, base.Decision (P p)} m i p :
  ~ P p -> (forall q, m !! i = Some q -> ~ P q) -> tally P (<[i := p]> m) = tally P m.
Proof.
  intros Hp Hi. unfold tally. rewrite map_filter_insert_False by done.
  rewrite map_filter_delete, map_size_delete_None; [done|].
  apply map_lookup_filter_None. right. exact Hi.
Qed.

Lemma tally_enter (P : phase -> Prop) `{!forall p, base.Decision (P p)} m i p :
  P p -> (forall q, m !! i = Some q -> ~ P q) -> tally P (<[i := p]> m) = S (tally P m).
Proof.
  intros Hp Hi. unfold tally. rewrite map_filter_insert_True by done. apply map_size_insert_None.
  apply map_lookup_filter_None. right. exact Hi.
Qed.

Lemma tally_leave (P : phase -> Prop) `{!forall p, base.Decision (P p)} m i p q :
  ~ P p -> m !! i = Some q -> P q -> S (tally P (<[i := p]> m)) = tally P m.
Proof.
  intros Hp Hi Hq. unfold tally. rewrite map_filter_insert_False by done. rewrite map_filter_delete.
  assert (Hf : filter (fun ip => P (snd ip)) m !! i = Some q) by (by apply map_lookup_filter_Some).
  rewrite map_size_delete_Some by eauto.
  pose proof (map_size_ne_0_lookup_2 _ i ltac:(eauto)). lia.
Qed.

Lemma tally_stay (P : phase -> Prop) `{!forall p, base.Decision (P p)} m i p q :
  P p -> m !! i = Some q -> P q -> tally P (<[i := p]> m) = tally P m.
Proof.
  intros Hp Hi Hq. unfold tally. rewrite map_filter_insert_True by done.
  apply map_size_insert_Some. exists q. by apply map_lookup_filter_Some.
Qed.

(** How many requests are inside the handler, and how many are past their
    rate limits on the way to it. *)
Definition serving (s : system F) : nat := tally (fun p => p = Serving) (requests s).
Definition pending (s : system F) : nat := tally (fun p => p = Acquiring \/ p = Waiting) (requests s).

(** The invariant of the semaphore: its channel holds one value per request
    in the handler, and no more than fit. *)
Definition slots_ok (cap : option nat) (s : system F) : Prop :=
  sem (limiter s) = cap /\
  match cap with
  | Some cap => inuse s = serving s /\ (inuse s <= cap)%nat
  | None => True
  end.

Lemma askClient_sem l now order client : sem (fst (askClient l now order client)) = sem l.
Proof. unfold askClient. by destruct (allow (perClient l) _ _ _). Qed.

Lemma askGlobal_sem l now gorder : sem (fst (askGlobal l now gorder)) = sem l.
Proof. unfold askGlobal. by destruct (allow (global l) _ _ _). Qed.

Lemma step_sem s e s' : request_step s e s' -> sem (limiter s') = sem (limiter s).
Proof.
  intros [s0 i client now order l ok _ _ Ha|s0 i now gorder l ok _ _ Ha|s0|s0|s0|s0]; try done; simpl.
  - rewrite <- (askClient_sem (limiter s0) now order client). by rewrite Ha.
  - rewrite <- (askGlobal_sem (limiter s0) now gorder). by rewrite Ha.
Qed.

Lemma slots_ok_step cap s e s' : slots_ok cap s -> request_step s e s' -> slots_ok cap s'.
Proof.
  intros [Hcap Hs] Hstep. split; [by rewrite (step_sem s e s' Hstep)|].
  destruct cap as [cap|]; [|done]. destruct Hs as [Heq Hle]. unfold serving in *.
  destruct Hstep as [s i client now order l ok Hi|s i now gorder l ok Hi|s i Hi Hroom|s i p Hi Hp Hroom
                    |s i Hi|s i Hi]; simpl.
  - rewrite tally_out; [done|by destruct ok|congruence].
  - rewrite tally_out; [done|by destruct ok|congruence].
  - rewrite tally_out; [done..|congruence].
  - unfold has_room, took_slot in *. rewrite Hcap in *. apply Nat.ltb_lt in Hroom.
    rewrite tally_enter; [lia|done|intuition congruence].
  - rewrite tally_out; [done..|congruence].
  - unfold gave_slot. rewrite Hcap.
    pose proof (tally_leave (fun p => p = Serving) (requests s) i Finished _ ltac:(done) Hi eq_refl). lia.
Qed.

Lemma slots_ok_reachable cfg events s :
  steps request_step (start_system cfg) events s -> slots_ok (sem (New cfg)) s.
Proof.
  intros Hrun. eapply (steps_invariant request_step (slots_ok (sem (New cfg)))); [|exact Hrun|].
  - intros s0 e s1. apply slots_ok_step.
  - split; [done|]. destruct (sem (New cfg)); [|done]. unfold serving, tally. simpl.
    rewrite map_filter_empty, map_size_empty. lia.
Qed.

(** The slots [New] makes: the configured number, 32 for zero, none at all
    for a negative number. *)
Lemma New_sem (cfg : Config F) :
  sem (New cfg) =
  if MaxConcurrent cfg =? 0 then Some 32%nat
  else if 0 <? MaxConcurrent cfg then Some (Z.to_nat (MaxConcurrent cfg)) else None.
Proof. unfold New, withDefaults. simpl. by destruct (MaxConcurrent cfg =? 0). Qed.

(** C23. The concurrency bound holds in every interleaving: whatever requests
    arrive, wait, give up and finish in whatever order, no more than
    [MaxConcurrent] of them are inside the handler at once, and a slot is never
    lost: one is held exactly by each request inside. *)
Theorem concurrency_bounded (cfg : Config F) events s
    (Hpos : 0 < MaxConcurrent cfg)
    (Hrun : steps request_step (start_system cfg) events s) :
  Z.of_nat (serving s) <= MaxConcurrent cfg /\ inuse s = serving s /\
  (serving s = 0%nat -> has_room s = true).
Proof.
  pose proof (slots_ok_reachable cfg events s Hrun) as [Hsem Hok]. unfold has_room. revert Hsem Hok.
  rewrite New_sem. destruct (Z.eqb_spec (MaxConcurrent cfg) 0) as [?|_]; [lia|].
  destruct (Z.ltb_spec 0 (MaxConcurrent cfg)) as [_|?]; [|lia]. intros -> [Heq Hle].
  split_and!; [lia|done|]. intros Hnone. apply Nat.ltb_lt. lia.
Qed.

(** The per-client table through a step: only an arrival touches it. *)
Lemma askClient_table n (l : Limiter F) now order client :
  0 < n -> client <> "" -> iteration_order (perClient l) order ->
  table_ok n (perClient l) -> table_ok n (perClient (fst (askClient l now order client))).
Proof.
  intros Hn Hc Ho Ht. pose proof (allow_table_ok n (perClient l) now order client Hn Hc Ho Ht) as Hok.
  unfold askClient. by destruct (allow (perClient l) _ _ _) as [pc ok].
Qed.

Lemma askGlobal_client (l : Limiter F) now gorder : perClient (fst (askGlobal l now gorder)) = perClient l.
Proof. unfold askGlobal. by destruct (allow (global l) _ _ _). Qed.

(** C24. Tracking clients cannot exhaust memory, whatever the requests do: in
    any interleaving of requests from any number of distinct clients, and
    whatever order the runtime sweeps the map in, [TrackedClients] never exceeds
    [MaxClients] (the default, where the configuration has none). *)
Theorem tracked_clients_bounded (cfg : Config F) events s
    (Hrun : steps request_step (start_system cfg) events s)
    (Hclients : forall i client now, Arrive i client now ∈ events -> client <> "") :
  TrackedClients (limiter s) <= (if MaxClients cfg <=? 0 then DefaultMaxClients else MaxClients cfg).
Proof.
  set (n := if MaxClients cfg <=? 0 then DefaultMaxClients else MaxClients cfg).
  assert (Hn : 0 < n) by (unfold n; destruct (Z.leb_spec (MaxClients cfg) 0); [done|assumption]).
  enough (Hok : table_ok n (perClient (limiter s))) by apply Hok.
  assert (Hstart : table_ok n (perClient (limiter (start_system cfg)))) by (exact (table_ok_new _ _ n (Z.lt_le_incl _ _ Hn))).
  revert Hstart. induction Hrun as [|s0 e s1 events s2 Hstep _ IH]; intros Hs; [done|].
  apply IH; [intros i client now Hi; eapply Hclients; by right|].
  destruct Hstep as [s i client now order l ok _ Ho Hl|s i now gorder l ok _ _ Hl| | | |]; try done; simpl.
  - pose proof (askClient_table n _ now order client Hn ltac:(eapply Hclients; by left) Ho Hs) as Ht.
    by rewrite Hl in Ht.
  - rewrite <- (askGlobal_client (limiter s) now gorder), Hl in Hs. exact Hs.
Qed.
End Semaphore.

(** ** The request rate the handler sees, in the code's float64 *)

Section Rate.

(** How many requests a run let into the handler, and how many asked the global
    bucket in it. *)
Definition is_entry (e : event) : bool := match e with Acquire _ => true | _ => false end.
Definition entered (events : list event) : nat := count is_entry events.
Definition is_ask (e : event) : bool := match e with AskGlobal _ _ => true | _ => false end.
Definition asked (events : list event) : nat := count is_ask events.

(** The readings of the clock for the global bucket lie between two times. *)
Definition asks_within (t0 t1 : Time) (events : list event) : Prop :=
  forall i now, AskGlobal i now ∈ events -> t0 <= now <= t1.

(** The global limiter of a system: at most the one bucket, and that in order. *)
Definition global_ok (r cap : spec_float) (k : keyedLimiter spec_float) : Prop :=
  single_key k "" /\ 0 < maxKeys k /\ disabled k = false /\ exists times, limiter_ok r cap times k.

Lemma global_ok_allow r cap k now gorder :
  is_number r -> is_number cap -> global_ok r cap k -> global_ok r cap (fst (allow k now gorder "")).
Proof.
  intros Hr Hcap (Hs & Hm & Hd & times & Hok).
  destruct (allow_params k now gorder "") as (_ & _ & Hd' & Hm').
  split_and!; [by apply single_key_allow|by rewrite Hm'|by rewrite Hd'|].
  exists (now :: times). by apply limiter_ok_allow.
Qed.

Lemma askGlobal_allow (l : Limiter spec_float) now gorder :
  (global (fst (askGlobal l now gorder)), snd (askGlobal l now gorder)) = allow (global l) now gorder "".
Proof. unfold askGlobal. by destruct (allow (global l) _ _ _). Qed.

Lemma askClient_global {F} `{Float F} (l : Limiter F) now order client :
  global (fst (askClient l now order client)) = global l.
Proof. unfold askClient. by destruct (allow (perClient l) _ _ _). Qed.

(** What a step does to the global bucket. *)
Lemma step_global s e s' :
  request_step s e s' ->
  match e with
  | AskGlobal _ now =>
      exists gorder ok, iteration_order (global (limiter s)) gorder /\
        allow (global (limiter s)) now gorder "" = (global (limiter s'), ok) /\
        pending s' = (pending s + if ok then 1 else 0)%nat
  | _ => global (limiter s') = global (limiter s) /\
         (pending s' + (if is_entry e then 1 else 0) <= pending s)%nat
  end.
Proof.
  unfold pending.
  intros [s0 i client now order l ok Hi _ Ha|s0 i now gorder l ok Hi Ho Ha|s0 i Hi Hroom|s0 i p Hi Hp Hroom
         |s0 i Hi|s0 i Hi]; cbn [is_entry]; simpl.
  - rewrite <- (askClient_global (limiter s0) now order client), Ha. split; [done|].
    rewrite tally_out; [lia|destruct ok; naive_solver|naive_solver].
  - exists gorder, ok. pose proof (askGlobal_allow (limiter s0) now gorder) as Hg. rewrite Ha in Hg.
    split_and!; [done|done|]. destruct ok.
    + rewrite tally_enter; [lia|by left|naive_solver].
    + rewrite tally_out; [lia|naive_solver|naive_solver].
  - split; [done|]. rewrite (tally_stay _ _ _ _ Acquiring); [lia|by right|done|by left].
  - split; [done|]. pose proof (tally_leave (fun p => p = Acquiring \/ p = Waiting) (requests s0) i Serving p
                  ltac:(by intros []) Hi Hp). lia.
  - split; [done|]. pose proof (tally_leave (fun p => p = Acquiring \/ p = Waiting) (requests s0) i Shed Waiting
                  ltac:(by intros []) Hi ltac:(by right)). lia.
  - split; [done|]. rewrite tally_out; [lia|naive_solver|naive_solver].
Qed.

(** A run from a system: the global bucket is asked once for each [AskGlobal],
    and what enters the handler was pending or was granted. *)
Lemma run_ledger s events s' :
  steps request_step s events s' ->
  forall ops k0, allow_run k0 ops (global (limiter s)) ->
  exists ops',
    allow_run k0 (ops ++ ops') (global (limiter s')) /\ length ops' = asked events /\
    (forall now key ok, (now, key, ok) ∈ ops' -> key = "" /\ exists i, AskGlobal i now ∈ events) /\
    Z.of_nat (entered events + pending s') <= Z.of_nat (pending s) + grants ops'.
Proof.
  induction 1 as [s|s e s1 events s' Hstep Hrun IH]; intros ops k0 Hops.
  - exists []. rewrite app_nil_r. split_and!; [done|done| |].
    + intros now key ok Hin. by apply elem_of_nil in Hin.
    + unfold grants. simpl. lia.
  - pose proof (step_global s e s1 Hstep) as Hg.
    assert (Hcase : (exists i now, e = AskGlobal i now) \/
      (global (limiter s1) = global (limiter s) /\ (pending s1 + (if is_entry e then 1 else 0) <= pending s)%nat /\
       is_ask e = false)) by (destruct e; eauto; destruct Hg; by right).
    destruct Hcase as [(i & now & ->)|(Hsame & Hpend & Hask)].
    + destruct Hg as (gorder & ok & Ho & Ha & Hp).
      destruct (IH (ops ++ [(now, "", ok)]) k0 (run_snoc _ _ _ _ _ _ _ _ Hops Ho Ha)) as (ops' & Hr & Hl & Hin & Hle).
      exists ((now, "", ok) :: ops'). rewrite <- app_assoc in Hr. split_and!; [done| | |].
      * unfold asked in *. simpl. by rewrite Hl.
      * intros now' key' ok' [He|Hin']%elem_of_cons; [simplify_eq; split; [done|exists i; by left]|].
        destruct (Hin _ _ _ Hin') as [? [j Hj]]. split; [done|]. exists j. by right.
      * unfold entered, grants in *. simpl in *. destruct ok; simpl in *; lia.
    + rewrite <- Hsame in Hops. destruct (IH ops k0 Hops) as (ops' & Hr & Hl & Hin & Hle).
      exists ops'. split_and!; [done| | |].
      * unfold asked in *. simpl. by rewrite Hask.
      * intros now' key' ok' Hin'. destruct (Hin _ _ _ Hin') as [? [j Hj]]. split; [done|]. exists j. by right.
      * unfold entered in *. simpl in *. destruct (is_entry e); lia.
Qed.

Lemma global_ok_reachable (cfg : Config spec_float) events s :
  let c := withDefaults cfg in
  positive64 (GlobalRate c) -> positive64 (GlobalBurst c) ->
  steps request_step (start_system cfg) events s ->
  global_ok (GlobalRate c) (GlobalBurst c) (global (limiter s)).
Proof.
  intros c Hr Hc Hrun. apply positive64_number in Hr as Hrn, Hc as Hcn.
  apply (steps_invariant request_step (fun s => global_ok (GlobalRate c) (GlobalBurst c) (global (limiter s)))
           ) with (2 := Hrun).
  - intros s0 e s1 Hok Hstep. pose proof (step_global s0 e s1 Hstep) as Hg.
    destruct e; try (by destruct Hg as [-> _]). destruct Hg as (gorder & ok & _ & Ha & _).
    pose proof (global_ok_allow _ _ _ now gorder Hrn Hcn Hok) as Hk. by rewrite Ha in Hk.
  - split_and!; [by left|done| |exists []; apply limiter_ok_new].
    cbn [start_system limiter New global newKeyedLimiter disabled]. fold c. apply orb_false_iff.
    split; (apply number_enabled; [done|]); apply finite64_nonneg; [by destruct (GlobalRate c)|by destruct (GlobalBurst c)].
Qed.

(** C25. The rate limit holds end to end, in the float64 arithmetic of the code
    and over any window of a run: take a broker that has already served anything,
    in any interleaving and with any clock readings, and let requests come for
    a while in which the global bucket is asked at times between [t0] and [t1];
    however many clients ask, the requests that then reach the handler or are on
    their way to it are, beside those that were past the limits when the window
    opened, at most the global burst, plus the global rate times the seconds of
    the window (and one part in 2^49 for rounding), plus [(burst + 1) / 2^51] of a
    request for rounding at each request that asked.  The rate and the burst, with
    the defaults filled in, are finite float64 values above zero. *)
Theorem entries_within_rate (cfg : Config spec_float) before s0 during s1 t0 t1
    (Hrate : positive64 (GlobalRate (withDefaults cfg))) (Hburst : positive64 (GlobalBurst (withDefaults cfg)))
    (Htime : t0 <= t1)
    (Hbefore : steps request_step (start_system cfg) before s0)
    (Hduring : steps request_step s0 during s1)
    (Hasks : asks_within t0 t1 during) :
  let rate := val (GlobalRate (withDefaults cfg)) in
  let burst := val (GlobalBurst (withDefaults cfg)) in
  (inject_Z (Z.of_nat (entered during + pending s1)) <=
   inject_Z (Z.of_nat (pending s0)) + burst + rate * ((t1 - t0)%Z # 1000000000) * (1 + (1 # 2 ^ 49))
   + inject_Z (Z.of_nat (asked during)) * ((burst + 1) * (1 # 2 ^ 51)))%Q.
Proof.
  intros r b. destruct (global_ok_reachable cfg before s0 Hrate Hburst Hbefore) as (Hs & Hm & Hd & times & Hok).
  destruct (run_ledger s0 during s1 Hduring [] _ (run_nil _)) as (ops & Hops & Hlen & Hin & Hle).
  cbn [app] in Hops. destruct Hok as (Hkr & Hkc & _ & Hkb).
  assert (Hbf : finite64 (GlobalBurst (withDefaults cfg))) by (by destruct (GlobalBurst (withDefaults cfg))).
  pose proof (window_grants _ _ "" t0 t1 _ _ _ Hrate Hbf Htime Hkr Hkc Hd Hm Hs
                (fun bk Hbk => proj1 (proj2 (proj2 (Hkb "" bk Hbk)))) Hops) as Hw.
  rewrite Hlen in Hw. unfold window_bound, seconds_between, rate_error, request_error in Hw. fold r b in Hw.
  eapply Qle_trans; [rewrite <- Zle_Qle; exact Hle|]. rewrite inject_Z_plus. rewrite <- !Qplus_assoc.
  apply Qplus_le_r. rewrite Qplus_assoc. apply Hw. intros now key ok Hop.
  destruct (Hin now key ok Hop) as [-> [i Hi]]. split; [done|]. by eapply Hasks.
Qed.
End Rate.

(** ** Witnesses *)

(** Two slots, a burst of three: four requests arrive, three are let past, two
    served, the third waits until one of them finishes. *)
Definition small_config : Config spec_float :=
  {| PerClientRate := b64_of_Z 1; PerClientBurst := b64_of_Z 5; GlobalRate := b64_of_Z 1; GlobalBurst := b64_of_Z 3;
     MaxConcurrent := 2; AcquireTimeout := Second; MaxClients := 10 |}.

Section Examples.

Definition four_arrive : list event :=
  [Arrive 0 "10.0.0.1" (at_second 0); Arrive 1 "10.0.0.1" (at_second 0);
   Arrive 2 "10.0.0.2" (at_second 0); Arrive 3 "10.0.0.3" (at_second 0);
   AskGlobal 1 (at_second 0); AskGlobal 0 (at_second 0); AskGlobal 2 (at_second 0); AskGlobal 3 (at_second 0);
   Acquire 0; Acquire 1; NoSlot 2; Release 0; Acquire 2].

(** A run computed step by step. *)
Definition next_system (s : system spec_float) (e : event) : system spec_float :=
  match e with
  | Arrive i client now =>
      let '(l, ok) := askClient (limiter s) now (keys_of (perClient (limiter s))) client in
      {| limiter := l; inuse := inuse s;
         requests := <[i := if ok then Asking else Rejected perClientReason]> (requests s) |}
  | AskGlobal i now =>
      let '(l, ok) := askGlobal (limiter s) now (keys_of (global (limiter s))) in
      {| limiter := l; inuse := inuse s;
         requests := <[i := if ok then Acquiring else Rejected globalReason]> (requests s) |}
  | NoSlot i => set_phase s i Waiting (inuse s)
  | Acquire i => set_phase s i Serving (took_slot s)
  | GiveUp i => set_phase s i Shed (inuse s)
  | Release i => set_phase s i Finished (gave_slot s)
  end.

Definition enabled (s : system spec_float) (e : event) : bool :=
  match e with
  | Arrive i _ _ => bool_decide (requests s !! i = None)
  | AskGlobal i _ => bool_decide (requests s !! i = Some Asking)
  | NoSlot i => bool_decide (requests s !! i = Some Acquiring) && negb (has_room s)
  | Acquire i => bool_decide (requests s !! i = Some Acquiring \/ requests s !! i = Some Waiting) && has_room s
  | GiveUp i => bool_decide (requests s !! i = Some Waiting)
  | Release i => bool_decide (requests s !! i = Some Serving)
  end.

Lemma enabled_step s e : enabled s e = true -> request_step s e (next_system s e).
Proof.
  destruct e; simpl; intros He; reflect_bools;
    repeat match goal with Hd : bool_decide _ = true |- _ => apply bool_decide_eq_true in Hd end.
  - destruct (askClient _ _ _ _) as [l ok] eqn:Hl. eapply step_arrive; [done|apply Permutation_refl|exact Hl].
  - destruct (askGlobal _ _ _) as [l ok] eqn:Hl. eapply step_ask; [done|apply Permutation_refl|exact Hl].
  - by apply step_noslot.
  - match goal with Hi : _ \/ _ |- _ =>
      destruct Hi as [Hi|Hi]; (eapply step_acquire; [exact Hi|auto|done]) end.
  - by apply step_giveup.
  - by apply step_release.
Qed.

Fixpoint run_events (s : system spec_float) (es : list event) : option (system spec_float) :=
  match es with
  | [] => Some s
  | e :: es' => if enabled s e then run_events (next_system s e) es' else None
  end.

Lemma run_events_steps s es s' : run_events s es = Some s' -> steps request_step s es s'.
Proof.
  revert s. induction es as [|e es IH]; intros s; simpl.
  - intros [= ->]. constructor.
  - destruct (enabled s e) eqn:He; [|done]. intros Hrun.
    eapply steps_cons; [by apply enabled_step|by apply IH].
Qed.

Lemma concurrency_bounded_witness :
  exists s, run_events (start_system small_config) four_arrive = Some s /\ serving s = 2%nat /\
    (Z.of_nat (serving s) <= 2 /\ inuse s = serving s /\ (serving s = 0%nat -> has_room s = true)).
Proof.
  destruct (run_events (start_system small_config) four_arrive) as [s|] eqn:Hs;
    [|vm_compute in Hs; discriminate Hs].
  exists s. split; [reflexivity|]. split.
  - assert (Hn : option_map serving (run_events (start_system small_config) four_arrive) = Some 2%nat)
      by (vm_compute; reflexivity).
    rewrite Hs in Hn. by injection Hn.
  - exact (concurrency_bounded small_config four_arrive s eq_refl (run_events_steps _ _ _ Hs)).
Defined.

Lemma tracked_clients_bounded_witness :
  exists s, run_events (start_system small_config) four_arrive = Some s /\
    1 <= TrackedClients (limiter s) /\ TrackedClients (limiter s) <= MaxClients small_config.
Proof.
  destruct (run_events (start_system small_config) four_arrive) as [s|] eqn:Hs;
    [|vm_compute in Hs; discriminate Hs].
  exists s. split; [reflexivity|]. split.
  - assert (Hn : option_map (fun s => 1 <=? TrackedClients (limiter s)) (run_events (start_system small_config) four_arrive) =
                 Some true) by (vm_compute; reflexivity).
    rewrite Hs in Hn. injection Hn as Hn. by apply Z.leb_le in Hn.
  - apply (tracked_clients_bounded small_config four_arrive s (run_events_steps _ _ _ Hs)).
    intros i client now Hin ->.
    assert (Hall : forallb (fun e => match e with Arrive _ c _ => negb (c =? "")%string | _ => true end)
                     four_arrive = true) by (vm_compute; reflexivity).
    discriminate (proj1 (forallb_elem _ _) Hall _ Hin).
Defined.

(** Ten seconds later two more come, and one of the three slots' worth of tokens
    has long been back. *)
Definition two_more : list event :=
  [Release 1; Release 2; Arrive 4 "10.0.0.4" (at_second 10); AskGlobal 4 (at_second 10); Acquire 4;
   Arrive 5 "10.0.0.4" (at_second 11); AskGlobal 5 (at_second 11)].

Lemma entries_within_rate_witness :
  exists s0 s1, run_events (start_system small_config) four_arrive = Some s0 /\
    run_events s0 two_more = Some s1 /\ entered two_more = 1%nat /\ pending s1 = 1%nat /\
    (inject_Z (Z.of_nat (entered two_more + pending s1)) <=
     inject_Z (Z.of_nat (pending s0)) + val (b64_of_Z 3) + val (b64_of_Z 1) * (1000000000 # 1000000000) * (1 + (1 # 2 ^ 49))
     + inject_Z (Z.of_nat 2) * ((val (b64_of_Z 3) + 1) * (1 # 2 ^ 51)))%Q.
Proof.
  destruct (run_events (start_system small_config) four_arrive) as [s0|] eqn:Hs0;
    [|vm_compute in Hs0; discriminate Hs0].
  assert (Hsome : match run_events (start_system small_config) four_arrive with
                  | Some s => option_map pending (run_events s two_more) | None => None end = Some 1%nat)
    by (vm_compute; reflexivity).
  rewrite Hs0 in Hsome. destruct (run_events s0 two_more) as [s1|] eqn:Hs1; [|discriminate Hsome].
  exists s0, s1. split; [reflexivity|]. split; [exact Hs1|]. split; [reflexivity|].
  split; [by injection Hsome|].
  apply (entries_within_rate small_config four_arrive s0 two_more s1 (at_second 10) (at_second 11)).
  - vm_compute. split; reflexivity.
  - vm_compute. split; reflexivity.
  - apply Z.leb_le. reflexivity.
  - exact (run_events_steps _ _ _ Hs0).
  - exact (run_events_steps _ _ _ Hs1).
  - intros i now Hin.
    assert (Hall : forallb (fun e => match e with AskGlobal _ t => (at_second 10 <=? t) && (t <=? at_second 11) | _ => true end)
                     two_more = true) by (vm_compute; reflexivity).
    specialize (proj1 (forallb_elem _ _) Hall _ Hin) as Ht. apply andb_true_iff in Ht as [H1 H2].
    split; by apply Z.leb_le.
Defined.
End Examples.
