(* ===== verification/MiddlewareLive.v ===== *)
(** * internal/limits/limits.go: every request is answered

    [Middleware.v] bounds what may happen; here is what must.  A request that
    has arrived has at most four steps left, one of them can always be taken,
    and so every request ends: served, rejected or shed, with every slot given
    back.  A handler returns ([Release] is a step a serving request can take):
    that is the handlers being functions, with the bound of [BaoConc.v] on what
    they wait for. *)
From S2P Require Import Prelude GoLib GoCrypto GoNet X509 Http Limits Middleware.
From Stdlib Require Import QArith.
#[local] Open Scope Z_scope.

(** The response is decided. *)
Definition answered (p : phase) : Prop :=
  match p with Finished | Rejected _ | Shed => True | Asking | Acquiring | Waiting | Serving => False end.

(** The steps a request has left. *)
Definition steps_left (p : phase) : nat :=
  match p with Asking => 4 | Acquiring => 3 | Waiting => 2 | Serving => 1 | Finished | Rejected _ | Shed => 0 end.

Definition add_left (_ : nat) (p : phase) (n : nat) : nat := (steps_left p + n)%nat.
Definition total_left (m : gmap nat phase) : nat := map_fold add_left O m.

Lemma total_left_insert m i p :
  m !! i = None -> total_left (<[i := p]> m) = (steps_left p + total_left m)%nat.
Proof.
  intros Hi. apply (map_fold_insert_L add_left); [|done]. intros. unfold add_left. lia.
Qed.

Lemma total_left_update m i p q :
  m !! i = Some q -> (total_left (<[i := p]> m) + steps_left q = steps_left p + total_left m)%nat.
Proof.
  intros Hi. rewrite <- (insert_delete_id m i q Hi) at 2. rewrite <- insert_delete_eq.
  rewrite !total_left_insert by apply lookup_delete_eq. lia.
Qed.

Section Live.
Context {F : Type} `{Float F}.

(** A step of a request that is there already. *)
Definition own_step (s : system F) (e : event) (s' : system F) : Prop :=
  request_step s e s' /\ match e with Arrive _ _ _ => False | _ => True end.

Definition left_over (s : system F) : nat := total_left (requests s).

Lemma own_step_decreases s e s' : own_step s e s' -> (left_over s' < left_over s)%nat.
Proof.
  intros [Hstep He]. unfold left_over.
  destruct Hstep as [s i client now order l ok|s i now gorder l ok Hi|s i Hi Hroom|s i p Hi Hp Hroom|s i Hi|s i Hi]; [done|..];
    cbn [set_phase requests];
    match goal with |- (total_left (<[i := ?p]> _) < _)%nat =>
      pose proof (total_left_update (requests s) i p _ Hi) as Hw end; simpl in Hw.
  - destruct ok; simpl in Hw; lia.
  - lia.
  - destruct Hp as [-> | ->]; simpl in Hw; lia.
  - lia.
  - lia.
Qed.

(** Whoever has no answer yet has a step. *)
Lemma unanswered_moves (s : system F) i p :
  requests s !! i = Some p -> ~ answered p -> exists e s', own_step s e s'.
Proof.
  intros Hi Hp. destruct p; try (exfalso; by apply Hp).
  - destruct (askGlobal (limiter s) 0 (keys_of (global (limiter s)))) as [l ok] eqn:Ha.
    eexists (AskGlobal i 0), _. split; [by eapply step_ask; [exact Hi|apply Permutation_refl|exact Ha]|done].
  - destruct (has_room s) eqn:Hroom.
    + eexists (Acquire i), _. split; [eapply step_acquire; [exact Hi|by left|done]|done].
    + eexists (NoSlot i), _. split; [by apply step_noslot|done].
  - eexists (GiveUp i), _. split; [by apply step_giveup|done].
  - eexists (Release i), _. split; [by apply step_release|done].
Qed.

Definition all_answered (s : system F) : Prop := forall i p, requests s !! i = Some p -> answered p.

#[local] Instance answered_dec p : base.Decision (answered p).
Proof. destruct p; simpl; apply _. Defined.

Lemma answered_or_moves s : all_answered s \/ exists e s', own_step s e s'.
Proof.
  destruct (decide (map_Forall (fun _ p => answered p) (requests s))) as [Hall|Hsome]; [by left|right].
  apply map_not_Forall in Hsome as (i & p & Hi & Hp); [|apply _]. by eapply unanswered_moves.
Qed.

Lemma own_steps_run s es s' : steps own_step s es s' -> steps request_step s es s'.
Proof. induction 1 as [|s e s1 es s' [Hstep _] _ IH]; [constructor|by eapply steps_cons]. Qed.

Lemma all_answered_idle s : all_answered s -> serving s = 0%nat.
Proof.
  intros Hall. unfold serving, tally. apply map_size_empty_iff, map_empty_filter.
  intros i p Hi Hp. simpl in Hp. subst. exact (Hall i _ Hi).
Qed.


(** A request waiting for a slot is not shed for want of one that is free: as
    soon as there is room it can take it. *)
Lemma waiting_can_enter (s : system F) i :
  requests s !! i = Some Waiting -> has_room s = true ->
  request_step s (Acquire i) (set_phase s i Serving (took_slot s)).
Proof. intros Hi Hroom. eapply step_acquire; [exact Hi|by right|done]. Qed.
End Live.

Section Witnesses.

End Witnesses.
