(* ===== verification/Base64.v ===== *)
(** * encoding/base64: StdEncoding

    [base64.StdEncoding] as the handlers use it, executable, with the byte
    offset its decoder reports in an error, and the round trip: any text that is
    an encoding up to line breaks decodes to the bytes encoded. *)
From S2P Require Import Prelude GoLib GoCrypto.

(** ** Encoding *)

Definition sextet_chr (n : N) : ascii :=
  byte_chr (if n <? 26 then 65 + n
            else if n <? 52 then 71 + n
            else if n <? 62 then n - 4
            else if n =? 62 then 43 else 47)%N.

Definition chr_sextet (c : ascii) : option N :=
  if byte_between 65 90 c then Some (byte_val c - 65)%N
  else if byte_between 97 122 c then Some (byte_val c - 71)%N
  else if byte_between 48 57 c then Some (byte_val c + 4)%N
  else if (byte_val c =? 43)%N then Some 62%N
  else if (byte_val c =? 47)%N then Some 63%N
  else None.

Definition pad_chr : ascii := "=".
Definition is_newline (c : ascii) : bool := (byte_val c =? 10)%N || (byte_val c =? 13)%N.

Definition sextet1 (a : N) : N := a / 4.
Definition sextet2 (a b : N) : N := (a mod 4) * 16 + b / 16.
Definition sextet3 (b c : N) : N := (b mod 16) * 4 + c / 64.
Definition sextet4 (c : N) : N := c mod 64.

Fixpoint EncodeToString (d : bytes) : string :=
  match d with
  | a :: b :: c :: d' =>
      let '(a, b, c) := (Byte.to_N a, Byte.to_N b, Byte.to_N c) in
      String (sextet_chr (sextet1 a)) (String (sextet_chr (sextet2 a b))
        (String (sextet_chr (sextet3 b c)) (String (sextet_chr (sextet4 c)) (EncodeToString d'))))
  | [a; b] =>
      let '(a, b) := (Byte.to_N a, Byte.to_N b) in
      String (sextet_chr (sextet1 a)) (String (sextet_chr (sextet2 a b))
        (String (sextet_chr (sextet3 b 0)) (String pad_chr EmptyString)))
  | [a] =>
      let a := Byte.to_N a in
      String (sextet_chr (sextet1 a)) (String (sextet_chr (sextet2 a 0))
        (String pad_chr (String pad_chr EmptyString)))
  | [] => EmptyString
  end.

(** ** Decoding *)

(** The [n] first of the three bytes of a quantum of sextets. *)
Definition quantum (n : nat) (a b c d : N) : bytes :=
  firstn n [byte_of ((a * 4 + b / 16) mod 256)%N; byte_of ((b * 16 + c / 4) mod 256)%N;
            byte_of ((c * 64 + d) mod 256)%N].

Definition CorruptInputError (offset : Z) : error :=
  String.append "illegal base64 data at input byte " (Itoa offset).

Fixpoint skip_newlines (s : string) (si : Z) : string * Z :=
  match s with
  | String c s' => if is_newline c then skip_newlines s' (si + 1) else (s, si)
  | EmptyString => (s, si)
  end.

(** What follows the padding must be nothing but line breaks. *)
Definition decode_end (s : string) (si : Z) (d : bytes) : result bytes :=
  match skip_newlines s si with
  | (EmptyString, _) => Ok d
  | (_, si) => Err (CorruptInputError si)
  end.

(** [si] bytes have been read, the last of them the sextets [q] of a quantum
    that is not yet complete. *)
Fixpoint decode (s : string) (si : Z) (q : list N) : result bytes :=
  match s with
  | EmptyString =>
      match q with
      | [] => Ok []
      | _ => Err (CorruptInputError (si - Z.of_nat (length q)))
      end
  | String ch s' =>
      match chr_sextet ch with
      | Some v =>
          match q with
          | [a; b; c] => let? d := decode s' (si + 1) [] in Ok (quantum 3 a b c v ++ d)
          | _ => decode s' (si + 1) (q ++ [v])
          end
      | None =>
          if is_newline ch then decode s' (si + 1) q
          else if negb (Ascii.eqb ch pad_chr) then Err (CorruptInputError si)
          else match q with
               | [a; b] =>
                   match skip_newlines s' (si + 1) with
                   | (EmptyString, si) => Err (CorruptInputError si)
                   | (String ch' s'', si) =>
                       if Ascii.eqb ch' pad_chr then decode_end s'' (si + 1) (quantum 1 a b 0 0)
                       else Err (CorruptInputError (si - 1))
                   end
               | [a; b; c] => decode_end s' (si + 1) (quantum 2 a b c 0)
               | _ => Err (CorruptInputError si)
               end
      end
  end.

Definition DecodeString (s : string) : result bytes := decode s 0 [].

(** ** Round trip *)

Fixpoint strip_newlines (s : string) : string :=
  match s with
  | String c s' => if is_newline c then strip_newlines s' else String c (strip_newlines s')
  | EmptyString => EmptyString
  end.

Lemma chr_sextet_newline c : is_newline c = true -> chr_sextet c = None.
Proof.
  intros Hc.
  assert (H : forallb (fun c => negb (is_newline c) || match chr_sextet c with None => true | _ => false end)
                all_bytes = true) by (vm_compute; reflexivity).
  pose proof (for_all_bytes _ H c) as Hb. simpl in Hb. rewrite Hc in Hb.
  by destruct (chr_sextet c).
Qed.

Lemma pad_not_newline : is_newline pad_chr = false.
Proof. done. Qed.

Lemma skip_newlines_strip s si si' :
  match fst (skip_newlines s si) with
  | EmptyString => strip_newlines s = EmptyString
  | String c s' => is_newline c = false /\ strip_newlines s = String c (strip_newlines s')
  end /\ fst (skip_newlines (strip_newlines s) si') = strip_newlines s.
Proof.
  revert si. induction s as [|c s IH]; intros si; simpl; [done|].
  destruct (is_newline c) eqn:Hc; [apply IH|]. simpl. by rewrite Hc.
Qed.

Lemma decode_end_strip s si si' d b :
  decode_end s si d = Ok b <-> decode_end (strip_newlines s) si' d = Ok b.
Proof.
  unfold decode_end. pose proof (skip_newlines_strip s si si') as [H1 H2].
  destruct (skip_newlines s si) as [t ti]. destruct (skip_newlines (strip_newlines s) si') as [t' ti'].
  simpl in *. subst t'. destruct t as [|c t]; [by rewrite H1|]. destruct H1 as [_ ->]. done.
Qed.

(** Line breaks do not matter to a successful decode. *)
Lemma decode_strip s : forall si si' q b,
  decode s si q = Ok b <-> decode (strip_newlines s) si' q = Ok b.
Proof.
  induction s as [|c s IH]; intros si si' q b; simpl; [destruct q; done|].
  destruct (is_newline c) eqn:Hc.
  - rewrite (chr_sextet_newline c Hc). apply IH.
  - simpl. rewrite Hc. destruct (chr_sextet c) as [v|].
    + destruct q as [|q1 [|q2 [|q3 [|q4 q]]]]; try apply IH.
      split; intros Hd; apply result_bind_ok in Hd as (d & Hd & Heq).
      * apply (IH _ (si' + 1)) in Hd. by rewrite Hd.
      * apply (IH (si + 1)) in Hd. by rewrite Hd.
    + destruct (negb (Ascii.eqb c pad_chr)); [done|].
      destruct q as [|q1 [|q2 [|q3 [|q4 q]]]]; try done; [|apply decode_end_strip].
      pose proof (skip_newlines_strip s (si + 1) (si' + 1)) as [H1 H2].
      destruct (skip_newlines s (si + 1)) as [t ti].
      destruct (skip_newlines (strip_newlines s) (si' + 1)) as [t' ti']. simpl in *. subst t'.
      destruct t as [|c' t]; [by rewrite H1|]. destruct H1 as [_ ->].
      destruct (Ascii.eqb c' pad_chr); [apply decode_end_strip|done].
Qed.

Lemma chr_sextet_chr n : (n < 64)%N -> chr_sextet (sextet_chr n) = Some n.
Proof.
  intros Hn.
  assert (H : forallb (fun n => match chr_sextet (sextet_chr n) with Some m => (m =? n)%N | None => false end)
                (map N.of_nat (seq 0 64)) = true) by (vm_compute; reflexivity).
  rewrite forallb_forall in H. specialize (H n).
  destruct (chr_sextet (sextet_chr n)) as [m|].
  - f_equal. apply N.eqb_eq, H. apply in_map_iff. exists (N.to_nat n). split; [lia|].
    apply in_seq. lia.
  - discriminate H. apply in_map_iff. exists (N.to_nat n). split; [lia|]. apply in_seq. lia.
Qed.

Ltac sextets :=
  unfold sextet1, sextet2, sextet3, sextet4;
  repeat match goal with b : Byte.byte |- _ =>
    lazymatch goal with
    | _ : (Byte.to_N b < 256)%N |- _ => fail
    | _ => pose proof (byte_to_N_bound b)
    end end;
  zify; Z.to_euclidean_division_equations; lia.

Lemma quantum_sextets n a b c :
  quantum n (sextet1 (Byte.to_N a)) (sextet2 (Byte.to_N a) (Byte.to_N b))
    (sextet3 (Byte.to_N b) (Byte.to_N c)) (sextet4 (Byte.to_N c)) = firstn n [a; b; c].
Proof.
  unfold quantum. do 2 f_equal; [|f_equal; [|f_equal]]; try done.
  - rewrite <- (byte_of_to_N a) at 3. f_equal. sextets.
  - rewrite <- (byte_of_to_N b) at 3. f_equal. sextets.
  - rewrite <- (byte_of_to_N c) at 3. f_equal. sextets.
Qed.

Lemma sextet1_bound b : (sextet1 (Byte.to_N b) < 64)%N.
Proof. sextets. Qed.
Lemma sextet2_bound a b : (sextet2 (Byte.to_N a) (Byte.to_N b) < 64)%N.
Proof. sextets. Qed.
Lemma sextet3_bound b c : (sextet3 (Byte.to_N b) (Byte.to_N c) < 64)%N.
Proof. sextets. Qed.
Lemma sextet4_bound c : (sextet4 (Byte.to_N c) < 64)%N.
Proof. sextets. Qed.

#[export] Hint Resolve sextet1_bound sextet2_bound sextet3_bound sextet4_bound : go.

(** The zero byte stands for the missing ones of a short group. *)
Lemma zero_byte : 0%N = Byte.to_N Byte.x00.
Proof. done. Qed.

#[local] Arguments quantum : simpl never.

Lemma decode_encode d : forall si, decode (EncodeToString d) si [] = Ok d.
Proof.
  induction d as [d IH] using (induction_ltof1 _ (@length _)). unfold ltof in IH. intros si.
  destruct d as [|a [|b [|c d]]]; cbn [EncodeToString].
  - done.
  - rewrite zero_byte. cbn [decode]. rewrite !chr_sextet_chr by auto with go. simpl.
    exact (f_equal Ok (quantum_sextets 1 a Byte.x00 Byte.x00)).
  - rewrite zero_byte. cbn [decode]. rewrite !chr_sextet_chr by auto with go. simpl.
    exact (f_equal Ok (quantum_sextets 2 a b Byte.x00)).
  - cbn [decode]. rewrite !chr_sextet_chr by auto with go. simpl.
    rewrite IH by (simpl; lia).
    exact (f_equal (fun q => Ok (q ++ d)) (quantum_sextets 3 a b c)).
Qed.

(** Any text that is the encoding up to line breaks decodes to the bytes. *)
Lemma decode_lines d s : strip_newlines s = EncodeToString d -> DecodeString s = Ok d.
Proof. intros Hs. apply (decode_strip s 0 0 [] d). rewrite Hs. apply decode_encode. Qed.

(** *** The bytes of an encoding *)

Definition base64_byte (c : ascii) : bool :=
  match chr_sextet c with Some _ => true | None => Ascii.eqb c pad_chr end.

Lemma sextet_chr_base64 n : (n < 64)%N -> base64_byte (sextet_chr n) = true.
Proof. intros Hn. unfold base64_byte. by rewrite chr_sextet_chr. Qed.

Lemma EncodeToString_bytes d : string_forallb base64_byte (EncodeToString d) = true.
Proof.
  induction d as [d IH] using (induction_ltof1 _ (@length _)). unfold ltof in IH.
  destruct d as [|a [|b [|c d]]]; cbn [EncodeToString]; rewrite ?zero_byte; cbn [string_forallb];
    rewrite ?sextet_chr_base64 by auto with go; try done.
  rewrite IH by (simpl; lia). done.
Qed.

Lemma base64_no_newline c : base64_byte c = true -> is_newline c = false.
Proof.
  intros Hc. destruct (is_newline c) eqn:Hn; [|done]. unfold base64_byte in Hc.
  rewrite (chr_sextet_newline c Hn) in Hc. apply Ascii.eqb_eq in Hc as ->. done.
Qed.

Lemma strip_newlines_app a b :
  strip_newlines (String.append a b) = String.append (strip_newlines a) (strip_newlines b).
Proof. induction a as [|c a IH]; simpl; [done|]. destruct (is_newline c); simpl; by rewrite IH. Qed.

Lemma strip_newlines_id s : string_forallb base64_byte s = true -> strip_newlines s = s.
Proof.
  induction s as [|c s IH]; simpl; [done|]. intros [Hc Hs]%andb_true_iff.
  rewrite (base64_no_newline c Hc). by rewrite IH.
Qed.

Example base64_vectors :
  EncodeToString (bytes_of_string "foobar") = "Zm9vYmFy" /\ EncodeToString (bytes_of_string "fooba") = "Zm9vYmE=" /\
  DecodeString "Zm9v" = Ok (bytes_of_string "foo") /\
  DecodeString "Zm9vY===" = Err "illegal base64 data at input byte 5" /\
  DecodeString "Zg==x" = Err "illegal base64 data at input byte 4" /\
  DecodeString "Zm9vY" = Err "illegal base64 data at input byte 4".
Proof. vm_compute. repeat split. Qed.
