(* ===== verification/Pem.v ===== *)
(** * encoding/pem: blocks as the broker reads and writes them

    [pem.Decode] and [pem.EncodeToMemory] (of a block without headers),
    executable, and the fact the upstream calls rest on: what is encoded decodes
    to the same block, with nothing left over. *)
From S2P Require Import Prelude GoLib GoCrypto X509 Http Base64.

(** A block; of its headers only whether there are any is kept. *)
Record Block := { Type_ : string; Headers_ : bool; Bytes_ : bytes }.

Definition nl : string := String newline "".

(** ** Lines of 64 columns

    [for len(enc) > 64 { write(enc[:64], '\n'); enc = enc[64:] }], then what is
    left and a final line break; a fuel of the length of the text is enough. *)
Fixpoint break_lines_ (fuel : nat) (enc : string) : string :=
  match fuel with
  | O => String.append enc nl
  | S fuel' =>
      if (64 <? String.length enc)%nat
      then String.append (string_take 64 enc) (String.append nl (break_lines_ fuel' (string_drop 64 enc)))
      else String.append enc nl
  end.
Definition break_lines (enc : string) : string := break_lines_ (String.length enc) enc.

(** ** EncodeToMemory *)

Definition dashes : string := "-----".

Definition EncodeToMemory (b : Block) : string :=
  let enc := EncodeToString (Bytes_ b) in
  String.append "-----BEGIN " (String.append (Type_ b) (String.append dashes (String.append nl
    (String.append (if (enc =? "")%string then "" else break_lines enc)
       (String.append "-----END " (String.append (Type_ b) (String.append dashes nl))))))).

(** ** Decode *)

Definition pemStart : string := String newline "-----BEGIN ".
Definition pemEnd : string := String newline "-----END ".

(** [bytes.TrimRight(line, " \t")] *)
Definition is_blank (c : ascii) : bool := Ascii.eqb c " " || (byte_val c =? 9)%N.
Fixpoint trim_blanks (s : string) : string :=
  match s with
  | EmptyString => EmptyString
  | String c s' =>
      let t := trim_blanks s' in
      if is_blank c && (t =? "")%string then EmptyString else String c t
  end.

(** [line[:i-1]] when the line ends in a carriage return *)
Fixpoint drop_cr (s : string) : string :=
  match s with
  | EmptyString => EmptyString
  | String c EmptyString => if (byte_val c =? 13)%N then EmptyString else s
  | String c s' => String c (drop_cr s')
  end.

(** [getLine]: the first line, without its trailing blanks, and the rest. *)
Definition getLine (s : string) : string * string :=
  match Cut s newline with
  | Some (line, rest) => (trim_blanks (drop_cr line), rest)
  | None => (trim_blanks s, "")
  end.

(** [bytes.Cut] with a longer separator *)
Fixpoint CutString (s sep : string) : option (string * string) :=
  if HasPrefix s sep then Some ("", string_drop (String.length sep) s)
  else match s with
       | EmptyString => None
       | String c s' => match CutString s' sep with
                        | Some (before, after) => Some (String c before, after)
                        | None => None
                        end
       end.

Fixpoint string_filter (f : ascii -> bool) (s : string) : string :=
  match s with
  | EmptyString => EmptyString
  | String c s' => if f c then String c (string_filter f s') else string_filter f s'
  end.
Definition removeSpacesAndTabs : string -> string := string_filter (fun c => negb (is_blank c)).

(** The header loop: [None] when the data ends inside it, else whether there
    was a header and the rest from the first line without a colon. *)
Fixpoint skip_headers (fuel : nat) (rest : string) (any : bool) : option (bool * string) :=
  match fuel with
  | O => None
  | S fuel' =>
      if (rest =? "")%string then None
      else let '(line, next) := getLine rest in
           match Cut line ":" with
           | None => Some (any, rest)
           | Some _ => skip_headers fuel' next true
           end
  end.

(** The body up to the END line: the base64 data, what follows the END marker,
    and [rest[endIndex+len(pemEnd)-1:]]. *)
Definition find_end (any : bool) (rest : string) : option (string * string * string) :=
  if negb any && HasPrefix rest "-----END " then
    Some ("", string_drop 9 rest, string_drop 9 rest)
  else match CutString rest pemEnd with
       | Some (body, after) => Some (body, after, String " " after)
       | None => None
       end.

(** The END line carries the type of the BEGIN line and nothing else. *)
Definition end_matches (typ after : string) : bool :=
  let n := (String.length typ + 5)%nat in
  (n <=? String.length after)%nat &&
  (HasPrefix (string_take n after) typ && HasSuffix (string_take n after) dashes) &&
  (fst (getLine (string_drop n after)) =? "")%string.

(** From after a BEGIN marker: the block, or the data to search on in, or
    [None] when the data ends in the headers. *)
Definition decode_block (rest : string) : option (Block * string + string) :=
  let '(typeLine, rest) := getLine rest in
  if negb (HasSuffix typeLine dashes) then Some (inr rest)
  else
    let typ := string_take (String.length typeLine - 5) typeLine in
    match skip_headers (S (String.length rest)) rest false with
    | None => None
    | Some (any, rest) =>
        match find_end any rest with
        | None => Some (inr rest)
        | Some (body, after, tail) =>
            if negb (end_matches typ after) then Some (inr rest)
            else match DecodeString (removeSpacesAndTabs body) with
                 | Err _ => Some (inr rest)
                 | Ok d => Some (inl ({| Type_ := typ; Headers_ := any; Bytes_ := d |}, snd (getLine tail)))
                 end
        end
    end.

Fixpoint decode_from (fuel : nat) (rest : string) : option (Block * string) :=
  match fuel with
  | O => None
  | S fuel' =>
      let go rest := match decode_block rest with
                     | Some (inl r) => Some r
                     | Some (inr rest) => decode_from fuel' rest
                     | None => None
                     end in
      if HasPrefix rest "-----BEGIN " then go (string_drop 11 rest)
      else match CutString rest pemStart with
           | Some (_, after) => go after
           | None => None
           end
  end.

(** [pem.Decode]; every turn of its loop consumes at least a marker. *)
Definition Decode (data : string) : option (Block * string) := decode_from (S (String.length data)) data.

(** ** What is encoded decodes *)

Lemma strip_break_lines_ fuel enc :
  string_forallb base64_byte enc = true -> strip_newlines (break_lines_ fuel enc) = enc.
Proof.
  revert enc. induction fuel as [|fuel IH]; intros enc Henc; cbn [break_lines_].
  { rewrite strip_newlines_app, (strip_newlines_id enc Henc). apply string_app_nil_r. }
  destruct (64 <? String.length enc)%nat.
  - rewrite <- (string_take_drop 64 enc) in Henc. rewrite string_forallb_app in Henc.
    apply andb_true_iff in Henc as [H1 H2].
    rewrite !strip_newlines_app, IH by done. rewrite (strip_newlines_id _ H1).
    apply string_take_drop.
  - rewrite strip_newlines_app, (strip_newlines_id enc Henc). apply string_app_nil_r.
Qed.

Lemma strip_break_lines enc :
  string_forallb base64_byte enc = true -> strip_newlines (break_lines enc) = enc.
Proof. apply strip_break_lines_. Qed.

Definition no_byte (c : ascii) (s : string) : bool := string_forallb (fun d => negb (Ascii.eqb d c)) s.

Lemma string_forallb_weaken (f g : ascii -> bool) s :
  (forall c, f c = true -> g c = true) -> string_forallb f s = true -> string_forallb g s = true.
Proof.
  intros Hfg. induction s as [|c s IH]; simpl; [done|]. intros [Hc Hs]%andb_true_iff.
  by rewrite (Hfg c Hc), IH.
Qed.

Lemma Cut_first a b sep : no_byte sep a = true -> Cut (String.append a (String sep b)) sep = Some (a, b).
Proof. intros Ha. by apply Cut_spec. Qed.

Lemma Cut_absent s sep : no_byte sep s = true -> Cut s sep = None.
Proof.
  intros Hs. destruct (Cut s sep) as [[a b]|] eqn:Hc; [|done].
  apply Cut_spec in Hc as [-> _]. unfold no_byte in Hs. rewrite string_forallb_app in Hs.
  apply andb_true_iff in Hs as [_ Hs]. simpl in Hs. by rewrite Ascii.eqb_refl in Hs.
Qed.

Lemma trim_blanks_dashes x : trim_blanks (String.append x dashes) = String.append x dashes.
Proof.
  induction x as [|c x IH]; [done|]. cbn [String.append trim_blanks]. rewrite IH.
  destruct (String.append x dashes =? "")%string eqn:He; [|by rewrite andb_false_r].
  apply String.eqb_eq in He. by destruct x.
Qed.

Lemma drop_cr_dashes x : drop_cr (String.append x dashes) = String.append x dashes.
Proof.
  induction x as [|c x IH]; [done|]. cbn [String.append drop_cr]. rewrite IH.
  by destruct x.
Qed.

(** A line that ends in dashes is read whole. *)
Lemma getLine_dashes x rest :
  no_byte newline x = true ->
  getLine (String.append x (String.append dashes (String.append nl rest))) = (String.append x dashes, rest).
Proof.
  intros Hx. unfold getLine, nl. simpl String.append.
  assert (Hd : no_byte newline (String.append x dashes) = true).
  { unfold no_byte in *. by rewrite string_forallb_app, Hx. }
  pose proof (Cut_first _ rest _ Hd) as Hc. rewrite string_app_assoc in Hc.
  change (String.append dashes (String newline rest))
    with (String "-" (String "-" (String "-" (String "-" (String "-" (String newline rest)))))) in Hc.
  rewrite Hc. by rewrite drop_cr_dashes, trim_blanks_dashes.
Qed.

Lemma trim_blanks_forallb f s : string_forallb f s = true -> string_forallb f (trim_blanks s) = true.
Proof.
  induction s as [|c s IH]; simpl; [done|]. intros [Hc Hs]%andb_true_iff.
  destruct (is_blank c && _); [done|]. simpl. by rewrite Hc, IH.
Qed.

Lemma drop_cr_forallb f s : string_forallb f s = true -> string_forallb f (drop_cr s) = true.
Proof.
  induction s as [|c s IH]; simpl; [done|]. intros [Hc Hs]%andb_true_iff.
  destruct s as [|d s]; [destruct (_ =? _)%N; simpl; by rewrite ?Hc|]. simpl. rewrite Hc. by apply IH.
Qed.

Lemma getLine_forallb f s : string_forallb f s = true -> string_forallb f (fst (getLine s)) = true.
Proof.
  intros Hs. unfold getLine. destruct (Cut s newline) as [[a b]|] eqn:Hc; simpl.
  - apply trim_blanks_forallb, drop_cr_forallb. apply Cut_spec in Hc as [-> _].
    rewrite string_forallb_app in Hs. by apply andb_true_iff in Hs as [? _].
  - by apply trim_blanks_forallb.
Qed.

(** Data without a colon has no headers. *)
Lemma skip_headers_none fuel rest :
  rest <> "" -> no_byte ":" rest = true -> skip_headers (S fuel) rest false = Some (false, rest).
Proof.
  intros Hne Hc. cbn [skip_headers]. destruct (String.eqb_spec rest "") as [->|_]; [done|].
  pose proof (getLine_forallb _ rest Hc) as Hl. destruct (getLine rest) as [line next]. simpl in Hl.
  by rewrite (Cut_absent _ _ Hl).
Qed.

Lemma CutString_pemEnd x t :
  no_byte "-" x = true -> CutString (String.append x (String.append pemEnd t)) pemEnd = Some (x, t).
Proof.
  induction x as [|c x IH]; intros Hx.
  - assert (Hp : HasPrefix (String.append pemEnd t) pemEnd = true) by (apply HasPrefix_spec; eauto).
    simpl String.append at 1. destruct t; simpl CutString; by simpl in *.
  - unfold no_byte in Hx. simpl in Hx. apply andb_true_iff in Hx as [Hc Hx]. specialize (IH Hx).
    cbn [String.append CutString]. rewrite IH.
    destruct (HasPrefix _ pemEnd) eqn:Hp; [|done]. apply HasPrefix_spec in Hp as [u Hu].
    destruct x as [|d x]; simpl in Hu; [congruence|]. simpl in Hx. injection Hu as _ -> _. done.
Qed.

(** The bytes of the body of an encoded block. *)
Definition body_byte (c : ascii) : bool := base64_byte c || Ascii.eqb c newline.

Lemma body_byte_excludes c d :
  body_byte d = false -> body_byte c = true -> negb (Ascii.eqb c d) = true.
Proof. intros Hd Hc. destruct (Ascii.eqb_spec c d) as [->|]; [congruence|done]. Qed.

Lemma break_lines_body_ fuel enc :
  string_forallb base64_byte enc = true ->
  exists x, break_lines_ fuel enc = String.append x nl /\ string_forallb body_byte x = true.
Proof.
  assert (Hw : forall s, string_forallb base64_byte s = true -> string_forallb body_byte s = true).
  { intros s. apply string_forallb_weaken. intros c Hc. unfold body_byte. by rewrite Hc. }
  revert enc. induction fuel as [|fuel IH]; intros enc Henc; cbn [break_lines_]; [eauto|].
  destruct (64 <? String.length enc)%nat; [|eauto].
  rewrite <- (string_take_drop 64 enc) in Henc. rewrite string_forallb_app in Henc.
  apply andb_true_iff in Henc as [H1 H2]. destruct (IH _ H2) as (x & -> & Hx).
  exists (String.append (string_take 64 enc) (String.append nl x)).
  rewrite !string_app_assoc. split; [done|]. rewrite string_forallb_app, (Hw _ H1). simpl.
  by rewrite Hx.
Qed.

Lemma string_filter_id f s : string_forallb f s = true -> string_filter f s = s.
Proof. induction s as [|c s IH]; simpl; [done|]. intros [-> Hs]%andb_true_iff. by rewrite IH. Qed.

Lemma string_take_app a b : string_take (String.length a) (String.append a b) = a.
Proof. induction a as [|c a IH]; simpl; [by destruct b|]. by rewrite IH. Qed.

Definition plain_type (typ : string) : bool :=
  no_byte newline typ && no_byte ":" typ.

Lemma end_matches_own typ : end_matches typ (String.append typ (String.append dashes nl)) = true.
Proof.
  unfold end_matches. rewrite <- string_app_assoc.
  replace (String.length typ + 5)%nat with (String.length (String.append typ dashes))
    by (rewrite string_length_app; done).
  rewrite string_take_app, string_drop_app, !string_length_app.
  apply andb_true_iff; split; [apply andb_true_iff; split|done].
  - apply Nat.leb_le. lia.
  - apply andb_true_iff; split; [apply HasPrefix_spec|apply HasSuffix_spec]; eauto.
Qed.

Lemma getLine_tail x typ :
  no_byte newline x = true -> no_byte newline typ = true ->
  snd (getLine (String.append x (String.append typ (String.append dashes nl)))) = "".
Proof.
  intros Hx Ht. rewrite <- string_app_assoc.
  assert (Hxt : no_byte newline (String.append x typ) = true)
    by (unfold no_byte in *; by rewrite string_forallb_app, Hx, Ht).
  pose proof (getLine_dashes (String.append x typ) "" Hxt) as H. 
  change (String.append nl "") with nl in H. by rewrite H.
Qed.

(** The body of an encoded block, as [find_end] and the decoder see it. *)
Lemma find_end_encoded typ d :
  no_byte newline typ = true ->
  let enc := EncodeToString d in
  let tail := String.append typ (String.append dashes nl) in
  exists body rest,
    find_end false (String.append (if (enc =? "")%string then "" else break_lines enc)
                      (String.append "-----END " tail)) = Some (body, tail, rest) /\
    DecodeString (removeSpacesAndTabs body) = Ok d /\ snd (getLine rest) = "".
Proof.
  intros Htyp enc tail. pose proof (EncodeToString_bytes d) as Henc. fold enc in Henc.
  destruct (String.eqb_spec enc "") as [He|Hne].
  - exists "", tail. split.
    { unfold find_end. clearbody tail. simpl. destruct tail; reflexivity. }
    split.
    + apply decode_lines. symmetry. exact He.
    + by apply (getLine_tail "").
  - destruct (break_lines_body_ (String.length enc) enc Henc) as (x & Hx & Hbody).
    exists x, (String " " tail). unfold break_lines. rewrite Hx. split_and!.
    + unfold find_end. simpl negb. rewrite andb_true_l.
      destruct (HasPrefix _ _) eqn:Hp.
      { apply HasPrefix_spec in Hp as [u Hu]. destruct x as [|c x].
        - rewrite <- (strip_break_lines enc Henc) in Hne. unfold break_lines in Hne.
          rewrite Hx in Hne. done.
        - simpl in Hu. injection Hu as -> _. done. }
      rewrite string_app_assoc. change (String.append nl (String.append "-----END " tail))
        with (String.append pemEnd tail). rewrite CutString_pemEnd; [done|].
      revert Hbody. apply string_forallb_weaken. intros c. by apply body_byte_excludes.
    + unfold removeSpacesAndTabs. rewrite string_filter_id.
      * apply decode_lines. transitivity (strip_newlines (break_lines enc));
          [|exact (strip_break_lines enc Henc)].
        unfold break_lines. rewrite Hx, strip_newlines_app. simpl. by rewrite string_app_nil_r.
      * revert Hbody. apply string_forallb_weaken. intros c Hc. unfold is_blank.
        pose proof (body_byte_excludes c " " eq_refl Hc) as Hs. apply negb_true_iff in Hs. rewrite Hs.
        pose proof (body_byte_excludes c (byte_chr 9) eq_refl Hc) as H9.
        destruct (N.eqb_spec (byte_val c) 9) as [Hv|]; [|done].
        assert (c = byte_chr 9) as -> by (by apply byte_val_inj). done.
    + by apply (getLine_tail " ").
Qed.

Lemma no_byte_app c a b : no_byte c (String.append a b) = no_byte c a && no_byte c b.
Proof. apply string_forallb_app. Qed.

(** What [EncodeToMemory] writes, [Decode] reads back, with nothing left. *)
Lemma Decode_EncodeToMemory typ d :
  plain_type typ = true ->
  Decode (EncodeToMemory {| Type_ := typ; Headers_ := false; Bytes_ := d |}) = Some ({| Type_ := typ; Headers_ := false; Bytes_ := d |}, "").
Proof.
  intros Hplain. apply andb_true_iff in Hplain as [Htyp Hcolon].
  destruct (find_end_encoded typ d Htyp) as (body & rest & Hfind & Hdec & Hrest).
  unfold Decode, EncodeToMemory. cbn [Type_ Bytes_]. set (enc := EncodeToString d) in *.
  set (lines := if (enc =? "")%string then "" else break_lines enc) in *.
  set (tail := String.append typ (String.append dashes nl)) in *.
  cbn [decode_from].
  match goal with |- context [HasPrefix ?s ?p] => assert (Hp : HasPrefix s p = true) by (apply HasPrefix_spec; eauto) end.
  rewrite Hp. clear Hp.
  match goal with |- context [string_drop 11 ?s] =>
    change (string_drop 11 s) with (String.append typ (String.append dashes (String.append nl
      (String.append lines (String.append "-----END " tail))))) end.
  unfold decode_block. rewrite getLine_dashes by done.
  rewrite (proj2 (HasSuffix_spec (String.append typ dashes) dashes)) by eauto. simpl negb. cbv iota.
  rewrite (string_length_app typ dashes). replace (String.length typ + String.length dashes - 5)%nat
    with (String.length typ) by (simpl; lia).
  rewrite string_take_app, skip_headers_none.
  - rewrite Hfind, end_matches_own. simpl negb. cbv iota. by rewrite Hdec, Hrest.
  - by destruct lines.
  - unfold tail. rewrite !no_byte_app, Hcolon. unfold lines. destruct (enc =? "")%string; [done|].
    destruct (break_lines_body_ (String.length enc) enc (EncodeToString_bytes d)) as (x & Hx & Hbody).
    unfold break_lines. rewrite Hx, no_byte_app. simpl. rewrite andb_true_r.
    apply andb_true_iff; split; [|done].
    revert Hbody. apply string_forallb_weaken. intros c. by apply body_byte_excludes.
Qed.

(** Every block leaves less data than it was found in. *)
Lemma string_drop_length n s : (String.length (string_drop n s) <= String.length s)%nat.
Proof. rewrite string_length_drop. lia. Qed.

Lemma getLine_length s : (String.length (snd (getLine s)) <= String.length s)%nat.
Proof.
  unfold getLine. destruct (Cut s newline) as [[a b]|] eqn:Hc; simpl; [|lia].
  apply Cut_spec in Hc as [-> _]. rewrite string_length_app. simpl. lia.
Qed.

Lemma CutString_length s sep a b :
  CutString s sep = Some (a, b) ->
  (String.length a + String.length sep + String.length b = String.length s)%nat.
Proof.
  revert a b. induction s as [|c s IH]; intros a b; cbn [CutString].
  - destruct (HasPrefix "" sep) eqn:Hp; [|done]. apply HasPrefix_spec in Hp as [t Ht].
    intros [= <- <-]. destruct sep; [done|done].
  - destruct (HasPrefix (String c s) sep) eqn:Hp.
    + apply HasPrefix_spec in Hp as [t Ht]. intros [= <- <-]. rewrite Ht.
      rewrite string_drop_app, string_length_app. simpl. lia.
    + destruct (CutString s sep) as [[a' b']|]; [|done]. intros [= <- <-]. simpl.
      specialize (IH a' b' eq_refl). lia.
Qed.

Lemma skip_headers_length fuel rest any any' rest' :
  skip_headers fuel rest any = Some (any', rest') -> (String.length rest' <= String.length rest)%nat.
Proof.
  revert rest any. induction fuel as [|fuel IH]; intros rest any; cbn [skip_headers]; [done|].
  destruct (rest =? "")%string; [done|]. pose proof (getLine_length rest) as Hl.
  destruct (getLine rest) as [line next]. simpl in Hl. destruct (Cut line ":").
  - intros Hs. specialize (IH _ _ Hs). lia.
  - intros [= _ <-]. lia.
Qed.

Lemma decode_block_length rest r :
  decode_block rest = Some r ->
  (String.length (match r with inl (_, t) => t | inr t => t end) <= String.length rest)%nat.
Proof.
  unfold decode_block. pose proof (getLine_length rest) as Hl.
  destruct (getLine rest) as [line rest1]. simpl in Hl.
  destruct (negb (HasSuffix line dashes)); [by intros [= <-]|].
  destruct (skip_headers _ rest1 false) as [[any rest2]|] eqn:Hs; [|done].
  apply skip_headers_length in Hs.
  destruct (find_end any rest2) as [[[body after] tail]|] eqn:Hf; [|intros [= <-]; lia].
  destruct (negb _); [intros [= <-]; lia|].
  destruct (DecodeString _); [|intros [= <-]; lia]. intros [= <-].
  pose proof (getLine_length tail). assert (String.length tail <= String.length rest2)%nat; [|simpl; lia].
  revert Hf. unfold find_end. destruct (negb any && _).
  - pose proof (string_drop_length 9 rest2) as Hd. revert Hd. generalize (string_drop 9 rest2).
    intros s Hd Heq. by injection Heq as _ _ <-.
  - destruct (CutString rest2 pemEnd) as [[b' a']|] eqn:Hc; [|done]. intros Heq.
    injection Heq as _ _ <-. apply CutString_length in Hc.
    change (String.length pemEnd) with 10%nat in Hc. cbn [String.length]. lia.
Qed.

Lemma Decode_shorter data b rest :
  Decode data = Some (b, rest) -> (String.length rest < String.length data)%nat.
Proof.
  unfold Decode. generalize (S (String.length data)) as fuel. intros fuel.
  revert data. induction fuel as [|fuel IH]; intros data; cbn [decode_from]; [done|].
  assert (Hgo : forall s, (String.length s < String.length data)%nat ->
     match decode_block s with
     | Some (inl r) => Some r
     | Some (inr rest) => decode_from fuel rest
     | None => None
     end = Some (b, rest) -> (String.length rest < String.length data)%nat).
  { intros s Hs. destruct (decode_block s) as [[[b' r]|r]|] eqn:Hb; [| |done];
      apply decode_block_length in Hb; simpl in Hb.
    - intros [= -> ->]. lia.
    - intros Hd. apply IH in Hd. lia. }
  destruct (HasPrefix data "-----BEGIN ") eqn:Hp.
  - apply Hgo. apply HasPrefix_spec in Hp as [t ->]. rewrite string_length_drop, string_length_app.
    simpl. lia.
  - destruct (CutString data pemStart) as [[a t]|] eqn:Hc; [|done]. apply Hgo.
    apply CutString_length in Hc. change (String.length pemStart) with 12%nat in Hc. lia.
Qed.

(** The loop [for { blk, rest = pem.Decode(rest); if blk == nil { break } ... }]:
    all blocks, in order. *)
Fixpoint blocks_ (fuel : nat) (data : string) : list Block :=
  match fuel with
  | O => []
  | S fuel' => match Decode data with
               | Some (b, rest) => b :: blocks_ fuel' rest
               | None => []
               end
  end.
Definition blocks (data : string) : list Block := blocks_ (S (String.length data)) data.

(** The fuel is enough: more of it finds nothing more. *)
Lemma blocks_fuel fuel data :
  (String.length data < fuel)%nat -> blocks_ fuel data = blocks data.
Proof.
  assert (Hgen : forall f1 f2 s, (String.length s < f1)%nat -> (String.length s < f2)%nat ->
            blocks_ f1 s = blocks_ f2 s).
  { induction f1 as [|f1 IH]; intros f2 s H1 H2; [lia|]. destruct f2 as [|f2]; [lia|]. cbn [blocks_].
    destruct (Decode s) as [[b r]|] eqn:Hd; [|done]. apply Decode_shorter in Hd. f_equal.
    apply IH; lia. }
  intros Hf. apply Hgen; [done|lia].
Qed.

(** What several blocks in a row decode to. *)
Lemma blocks_cons data b rest : Decode data = Some (b, rest) -> blocks data = b :: blocks rest.
Proof.
  intros Hd. unfold blocks at 1. cbn [blocks_]. rewrite Hd. f_equal.
  apply blocks_fuel. apply Decode_shorter in Hd. lia.
Qed.

(** [pool.AppendCertsFromPEM(pemCerts)] *)
Definition AppendCertsFromPEM `{X509} (pool : CertPool) (pemCerts : string) : CertPool * bool :=
  fold_left
    (fun acc b =>
       if negb (Type_ b =? "CERTIFICATE")%string || Headers_ b then acc
       else match ParseCertificate (Bytes_ b) with
            | Ok c => (AddCert (fst acc) c, true)
            | Err _ => acc
            end)
    (blocks pemCerts) (pool, false).
