(* ===== verification/Der.v ===== *)
(** * encoding/asn1: the DER the broker reads and writes

    Tag-length-value encoding with definite, minimal lengths, and the decoder of
    Go's [encoding/asn1] with the checks it makes: short and long form lengths
    of minimal size, lengths that fit, object identifiers in minimal base 128.
    Encoding is written for the tags the broker emits, which are below 31. *)
From S2P Require Import Prelude GoLib GoCrypto.

Definition SyntaxError (msg : string) : error := String.append "asn1: syntax error: " msg.
Definition StructuralError (msg : string) : error := String.append "asn1: structure error: " msg.

Definition ClassUniversal : N := 0.
Definition ClassContextSpecific : N := 2.
Definition TagInteger : N := 2.
Definition TagOID : N := 6.
Definition TagSequence : N := 16.
Definition TagSet : N := 17.

(** [asn1.ObjectIdentifier] *)
Abbreviation OID := (list N) (only parsing).

Definition OID_eqb (a b : OID) : bool := bool_decide (a = b).

(** [asn1.RawValue], without [FullBytes] *)
Record RawValue := {
  rv_class : N;
  rv_tag : N;
  rv_compound : bool;
  rv_bytes : bytes;
}.

(** ** Encoding *)

(** The [k] low base-256 digits of [n], most significant first. *)
Fixpoint be_bytes (k : nat) (n : N) : bytes :=
  match k with
  | O => []
  | S k' => byte_of (n / 256 ^ N.of_nat k' mod 256)%N :: be_bytes k' n
  end.

(** [lengthLength] *)
Fixpoint length_length (fuel : nat) (n : N) : nat :=
  match fuel with
  | O => 1
  | S fuel' => if (n <? 256)%N then 1 else S (length_length fuel' (n / 256)%N)
  end.

Definition encode_length (n : N) : bytes :=
  if (n <? 128)%N then [byte_of n]
  else let k := length_length 8 n in byte_of (128 + N.of_nat k)%N :: be_bytes k n.

(** [appendTagAndLength], for a tag below 31 *)
Definition identifier (v : RawValue) : Byte.byte :=
  byte_of (rv_class v * 64 + (if rv_compound v then 32 else 0) + rv_tag v)%N.

(** [asn1.Marshal] of a raw value *)
Definition marshal (v : RawValue) : bytes :=
  identifier v :: encode_length (N.of_nat (length (rv_bytes v))) ++ rv_bytes v.

Definition universal (tag : N) (compound : bool) (content : bytes) : RawValue :=
  {| rv_class := ClassUniversal; rv_tag := tag; rv_compound := compound; rv_bytes := content |}.
Definition context (tag : N) (content : bytes) : RawValue :=
  {| rv_class := ClassContextSpecific; rv_tag := tag; rv_compound := true; rv_bytes := content |}.
(** a struct: the encodings of its fields in a SEQUENCE *)
Definition sequence (fields : list bytes) : bytes := marshal (universal TagSequence true (concat fields)).

(** [appendBase128Int]: a fuel of five digits holds every 32-bit value. *)
Fixpoint base128_ (fuel : nat) (n : N) (more : bool) : bytes :=
  match fuel with
  | O => []
  | S fuel' =>
      (if (n <? 128)%N then [] else base128_ fuel' (n / 128)%N true)
      ++ [byte_of (n mod 128 + (if more then 128 else 0))%N]
  end.
Definition base128 (n : N) : bytes := base128_ 5 n false.

Definition marshal_oid (oid : OID) : bytes :=
  match oid with
  | a :: b :: rest => marshal (universal TagOID false (base128 (a * 40 + b)%N ++ flat_map base128 rest))
  | _ => []
  end.

(** a small non-negative [int] *)
Definition marshal_small (n : N) : bytes := marshal (universal TagInteger false [byte_of n]).

(** ** Decoding *)

(** The length octets: [seen] is the value of those read so far. *)
Fixpoint long_length (k : nat) (b : bytes) (seen : N) : result (N * bytes) :=
  match k with
  | O => if (seen <? 128)%N then Err (StructuralError "non-minimal length") else Ok (seen, b)
  | S k' =>
      match b with
      | [] => Err (SyntaxError "truncated tag or length")
      | x :: b' =>
          if (8388608 <=? seen)%N then Err (StructuralError "length too large")
          else let n := (seen * 256 + Byte.to_N x)%N in
               if (n =? 0)%N then Err (StructuralError "superfluous leading zeros in length")
               else long_length k' b' n
      end
  end.

Definition parse_length (b : bytes) : result (N * bytes) :=
  match b with
  | [] => Err (SyntaxError "truncated tag or length")
  | x :: b' =>
      let n := Byte.to_N x in
      if (n <? 128)%N then Ok (n, b')
      else if (n =? 128)%N then Err (SyntaxError "indefinite length found (not DER)")
      else long_length (N.to_nat (n - 128)) b' 0
  end.

(** [parseBase128Int]; [shifted] counts the octets read. *)
Fixpoint parse_base128 (fuel : nat) (b : bytes) (shifted : nat) (ret : N) : result (N * bytes) :=
  match fuel with
  | O => Err (SyntaxError "truncated base 128 integer")
  | S fuel' =>
      match b with
      | [] => Err (SyntaxError "truncated base 128 integer")
      | x :: b' =>
          if (shifted =? 5)%nat then Err (StructuralError "base 128 integer too large")
          else
            let n := Byte.to_N x in
            if (shifted =? 0)%nat && (n =? 128)%N
            then Err (SyntaxError "integer is not minimally encoded")
            else
              let ret := (ret * 128 + n mod 128)%N in
              if (n <? 128)%N then
                if (2147483647 <? ret)%N then Err (StructuralError "base 128 integer too large")
                else Ok (ret, b')
              else parse_base128 fuel' b' (S shifted) ret
      end
  end.

(** [parseTagAndLength]: the value without its content, the length, the rest *)
Definition parse_header (b : bytes) : result (RawValue * N * bytes) :=
  match b with
  | [] => Err "asn1: internal error in parseTagAndLength"
  | x :: b' =>
      let n := Byte.to_N x in
      let? (tag, b') :=
        if (n mod 32 =? 31)%N then
          let? (tag, b') := parse_base128 (S (length b')) b' 0 0 in
          when (tag <? 31)%N fail SyntaxError "non-minimal tag";
          Ok (tag, b')
        else Ok (n mod 32, b')%N in
      let? (len, b') := parse_length b' in
      Ok ({| rv_class := n / 64; rv_tag := tag; rv_compound := N.odd (n / 32); rv_bytes := [] |}, len, b')%N
  end.

(** the content of the value whose header was read *)
Definition take_content (v : RawValue) (len : N) (b : bytes) : result (RawValue * bytes) :=
  when (N.of_nat (length b) <? len)%N fail SyntaxError "data truncated";
  Ok ({| rv_class := rv_class v; rv_tag := rv_tag v; rv_compound := rv_compound v;
         rv_bytes := firstn (N.to_nat len) b |}, skipn (N.to_nat len) b).

(** [asn1.Unmarshal] into a raw value: the value and the bytes after it *)
Definition parse_value (b : bytes) : result (RawValue * bytes) :=
  when match b with [] => true | _ => false end fail SyntaxError "sequence truncated";
  let? (v, len, b') := parse_header b in
  take_content v len b'.

Definition tags_match (v : RawValue) (class tag : N) (compound : bool) : bool :=
  (rv_class v =? class)%N && (rv_tag v =? tag)%N && Bool.eqb (rv_compound v) compound.

(** a field that must carry the given tag: its content and what follows *)
Definition parse_expect (class tag : N) (compound : bool) (b : bytes) : result (bytes * bytes) :=
  when match b with [] => true | _ => false end fail SyntaxError "sequence truncated";
  let? (v, len, b') := parse_header b in
  when negb (tags_match v class tag compound) fail StructuralError "tags don't match";
  let? (v, rest) := take_content v len b' in
  Ok (rv_bytes v, rest).

(** an optional field: nothing there, or another tag, leaves its default *)
Definition parse_optional (class tag : N) (compound : bool) (b : bytes) : result (option bytes) :=
  match b with
  | [] => Ok None
  | _ =>
      let? (v, len, b') := parse_header b in
      if negb (tags_match v class tag compound) then Ok None
      else let? (v, _) := take_content v len b' in Ok (Some (rv_bytes v))
  end.

(** [parseObjectIdentifier] *)
Fixpoint parse_arcs (fuel : nat) (b : bytes) : result (list N) :=
  match b, fuel with
  | [], _ => Ok []
  | _, O => Err (SyntaxError "truncated base 128 integer")
  | _, S fuel' =>
      let? (n, b') := parse_base128 (S (length b)) b 0 0 in
      let? ns := parse_arcs fuel' b' in
      Ok (n :: ns)
  end.

Definition parse_oid (b : bytes) : result OID :=
  when match b with [] => true | _ => false end fail SyntaxError "zero length OBJECT IDENTIFIER";
  let? ns := parse_arcs (length b) b in
  match ns with
  | [] => Err (SyntaxError "zero length OBJECT IDENTIFIER")
  | n :: ns => Ok (if (n <? 80)%N then (n / 40 :: n mod 40 :: ns)%N else (2 :: n - 80 :: ns)%N)
  end.

(** [parseInt64]: minimal two's complement of at most eight octets *)
Definition check_integer (b : bytes) : result unit :=
  match b with
  | [] => Err (StructuralError "empty integer")
  | x :: y :: _ =>
      when ((Byte.to_N x =? 0)%N && (Byte.to_N y <? 128)%N)
           || ((Byte.to_N x =? 255)%N && (128 <=? Byte.to_N y)%N)
      fail StructuralError "integer not minimally-encoded";
      when (8 <? length b)%nat fail StructuralError "integer too large";
      Ok tt
  | _ => Ok tt
  end.

(** ** Round trip *)

(** The values the encoder is written for, short enough for the decoder. *)
Definition encodable (v : RawValue) : Prop :=
  (rv_class v < 4 /\ rv_tag v < 31 /\ N.of_nat (length (rv_bytes v)) < 2147483648)%N.

Lemma encodable_intro class tag compound content :
  (class < 4)%N -> (tag < 31)%N -> (N.of_nat (length content) < 2147483648)%N ->
  encodable {| rv_class := class; rv_tag := tag; rv_compound := compound; rv_bytes := content |}.
Proof. done. Qed.

Lemma length_length_spec fuel n :
  (n < 256 ^ N.of_nat (S fuel))%N ->
  (n < 256 ^ N.of_nat (length_length fuel n))%N /\
  (1 <= length_length fuel n <= S fuel)%nat /\
  (length_length fuel n = 1%nat \/ 256 ^ N.of_nat (pred (length_length fuel n)) <= n)%N.
Proof.
  revert n. induction fuel as [|fuel IH]; intros n Hn; cbn [length_length]; [by auto|].
  destruct (N.ltb_spec n 256) as [Hlt|Hge]; [split; [exact Hlt|lia]|].
  assert (Hq : (n / 256 < 256 ^ N.of_nat (S fuel))%N).
  { apply N.Div0.div_lt_upper_bound. by rewrite <- N.pow_succ_r', <- Nat2N.inj_succ. }
  destruct (IH _ Hq) as (H1 & H2 & H3). set (k := length_length fuel (n / 256)%N) in *.
  assert (Hdm : (n = 256 * (n / 256) + n mod 256)%N) by (apply N.div_mod'; lia).
  assert (Hm : (n mod 256 < 256)%N) by (apply N.mod_lt; lia).
  split_and!; [|lia|lia|].
  - rewrite Nat2N.inj_succ, N.pow_succ_r'. lia.
  - right. cbn [pred]. destruct H3 as [->|H3]; [simpl; lia|].
    destruct k as [|k]; [lia|]. cbn [pred] in H3. rewrite Nat2N.inj_succ, N.pow_succ_r'.
    apply N.le_trans with (256 * (n / 256))%N; [by apply N.mul_le_mono_l|apply N.Div0.mul_div_le].
Qed.

Lemma long_length_be k n rest :
  (128 <= n < 2147483648)%N -> (k = 0%nat \/ 256 ^ N.of_nat (pred k) <= n)%N ->
  long_length k (be_bytes k n ++ rest) (n / 256 ^ N.of_nat k) = Ok (n, rest).
Proof.
  intros Hn. induction k as [|k IH]; intros Hk; cbn [long_length be_bytes app].
  - rewrite N.pow_0_r, N.div_1_r. by destruct (N.ltb_spec n 128); [lia|].
  - destruct Hk as [?|Hk]; [lia|]. cbn [pred] in Hk.
    assert (Hp : (256 ^ N.of_nat k <> 0)%N) by (apply N.pow_nonzero; lia).
    rewrite Nat2N.inj_succ, N.pow_succ_r', N.mul_comm, <- N.Div0.div_div.
    rewrite to_N_byte_of by (apply N.mod_lt; lia).
    set (m := (n / 256 ^ N.of_nat k)%N) in *.
    assert (Hm1 : (m <= n)%N) by (apply N.Div0.div_le_upper_bound; nia).
    assert (Hm2 : (1 <= m)%N) by (apply N.div_le_lower_bound; lia).
    assert (Hdm : (m = 256 * (m / 256) + m mod 256)%N) by (apply N.div_mod'; lia).
    assert (Hq : (m / 256 < 8388608)%N) by (apply N.Div0.div_lt_upper_bound; lia).
    destruct (N.leb_spec 8388608 (m / 256)) as [?|_]; [lia|].
    replace (m / 256 * 256 + m mod 256)%N with m by (rewrite (N.mul_comm (m / 256)); exact Hdm).
    destruct (N.eqb_spec m 0) as [?|_]; [lia|]. apply IH.
    destruct k as [|k]; [by left|]. right. cbn [pred].
    etrans; [|exact Hk]. apply N.pow_le_mono_r; lia.
Qed.

Lemma parse_encode_length n rest :
  (n < 2147483648)%N -> parse_length (encode_length n ++ rest) = Ok (n, rest).
Proof.
  intros Hn. unfold encode_length. destruct (N.ltb_spec n 128) as [Hlt|Hge]; cbn [app parse_length].
  - rewrite to_N_byte_of by lia. by destruct (N.ltb_spec n 128); [|lia].
  - destruct (length_length_spec 8 n ltac:(simpl; lia)) as (H1 & H2 & H3).
    set (k := length_length 8 n) in *. rewrite to_N_byte_of by lia.
    destruct (N.ltb_spec (128 + N.of_nat k) 128) as [?|_]; [lia|].
    destruct (N.eqb_spec (128 + N.of_nat k) 128) as [?|_]; [lia|].
    replace (N.to_nat (128 + N.of_nat k - 128)) with k by lia.
    pose proof (long_length_be k n rest) as Hl. rewrite N.div_small in Hl by done. apply Hl; [lia|].
    destruct H3 as [->|H3]; [|by right]. right. simpl. lia.
Qed.

Lemma identifier_fields v :
  encodable v ->
  let n := Byte.to_N (identifier v) in
  (n / 64 = rv_class v /\ n mod 32 = rv_tag v)%N /\ N.odd (n / 32) = rv_compound v.
Proof.
  intros (Hc & Ht & _). unfold identifier. cbv zeta. rewrite to_N_byte_of by (destruct (rv_compound v); lia).
  set (t := rv_tag v) in *. set (c := rv_class v) in *.
  assert (Hodd : forall q, N.odd (2 * q) = false /\ N.odd (2 * q + 1) = true).
  { intros q. rewrite N.odd_mul, N.odd_add, N.odd_mul. done. }
  split; [split; destruct (rv_compound v); zify; Z.to_euclidean_division_equations; lia|].
  destruct (rv_compound v).
  - replace ((c * 64 + 32 + t) / 32)%N with (2 * c + 1)%N
      by (zify; Z.to_euclidean_division_equations; lia). apply Hodd.
  - replace ((c * 64 + 0 + t) / 32)%N with (2 * c)%N
      by (zify; Z.to_euclidean_division_equations; lia). apply Hodd.
Qed.

Lemma parse_header_marshal v rest :
  encodable v ->
  parse_header (marshal v ++ rest) =
  Ok ({| rv_class := rv_class v; rv_tag := rv_tag v; rv_compound := rv_compound v; rv_bytes := [] |},
      N.of_nat (length (rv_bytes v)), rv_bytes v ++ rest).
Proof.
  intros Hv. destruct (identifier_fields v Hv) as [[Hcl Htag] Hcomp]. destruct Hv as (_ & Ht & Hlen).
  unfold marshal, parse_header. cbn [app]. rewrite Htag, Hcl, Hcomp.
  destruct (N.eqb_spec (rv_tag v) 31) as [?|_]; [lia|]. cbn [result_bind].
  rewrite <- app_assoc, parse_encode_length by done. done.
Qed.

Lemma take_content_whole v w rest :
  rv_class w = rv_class v -> rv_tag w = rv_tag v -> rv_compound w = rv_compound v ->
  take_content w (N.of_nat (length (rv_bytes v))) (rv_bytes v ++ rest) = Ok (v, rest).
Proof.
  unfold take_content. intros -> -> ->. rewrite length_app.
  destruct (N.ltb_spec (N.of_nat (length (rv_bytes v) + length rest)) (N.of_nat (length (rv_bytes v))))
    as [?|_]; [lia|].
  rewrite Nat2N.id, take_app_length, drop_app_length. by destruct v.
Qed.

(** What is encoded parses back to the same value, followed by the rest. *)
Lemma parse_value_marshal v rest :
  encodable v -> parse_value (marshal v ++ rest) = Ok (v, rest).
Proof.
  intros Hv. unfold parse_value. cbn [marshal app]. change (identifier v :: _ ++ rest) with (marshal v ++ rest).
  rewrite parse_header_marshal by done. by apply take_content_whole.
Qed.

Lemma parse_expect_marshal class tag compound content rest :
  let v := {| rv_class := class; rv_tag := tag; rv_compound := compound; rv_bytes := content |} in
  encodable v -> parse_expect class tag compound (marshal v ++ rest) = Ok (content, rest).
Proof.
  intros v Hv. unfold parse_expect. cbn [marshal app].
  change (identifier v :: _ ++ rest) with (marshal v ++ rest). rewrite parse_header_marshal by done.
  cbn [result_bind]. unfold tags_match. cbn [rv_class rv_tag rv_compound v].
  rewrite !N.eqb_refl, eqb_reflx. cbn [andb negb].
  by rewrite (take_content_whole v).
Qed.
