(* ===== verification/Pkcs7.v ===== *)
(** * internal/pkcs7/pkcs7.go: the certs-only SignedData

    The encoder of the reply EST sends, and the proof that a reader following
    RFC 5652 finds exactly the certificates that were put in, in their order. *)
From S2P Require Import Prelude GoLib GoCrypto Der.

Definition oidSignedData : list N := [1; 2; 840; 113549; 1; 7; 2]%N.
Definition oidData : list N := [1; 2; 840; 113549; 1; 7; 1]%N.

Definition emptySet : RawValue := universal TagSet true [].

(** [struct signedData]: five fields in a SEQUENCE *)
Definition signedData (innerCI : bytes) (certs : RawValue) : bytes :=
  sequence [marshal_small 1; marshal emptySet; innerCI; marshal certs; marshal emptySet].

(** [struct contentInfo] *)
Definition contentInfo (contentType : list N) (content : RawValue) : bytes :=
  sequence [marshal_oid contentType; marshal content].

(** The check of the loop over the certificates, from index [i]. *)
Fixpoint firstEmpty (i : Z) (certDER : list bytes) : option Z :=
  match certDER with
  | [] => None
  | [] :: _ => Some i
  | _ :: ds => firstEmpty (i + 1) ds
  end.

Definition DegenerateCertsOnly (certDER : list bytes) : result bytes :=
  when match certDER with [] => true | _ => false end
  fail "pkcs7: at least one certificate is required";
  match firstEmpty 0 certDER with
  | Some i => Err (String.append "pkcs7: empty certificate at index " (Itoa i))
  | None =>
      let certs := context 0 (concat certDER) in
      let innerCI := sequence [marshal_oid oidData] in
      let sdDER := signedData innerCI certs in
      Ok (contentInfo oidSignedData (context 0 sdDER))
  end.

(** ** A reader of SignedData (RFC 5652, 5.1) *)

(** The certificates field of a certs-only SignedData. *)
Definition read_certificates (p7 : bytes) : result bytes :=
  let? (ci, _) := parse_expect ClassUniversal TagSequence true p7 in
  let? (oid, content) := parse_expect ClassUniversal TagOID false ci in
  let? oid := parse_oid oid in
  when negb (OID_eqb oid oidSignedData) fail "not SignedData";
  let? (sd, _) := parse_expect ClassContextSpecific 0 true content in
  let? (sd, _) := parse_expect ClassUniversal TagSequence true sd in
  let? (version, sd) := parse_expect ClassUniversal TagInteger false sd in
  let? _ := check_integer version in
  let? (digests, sd) := parse_expect ClassUniversal TagSet true sd in
  let? (inner, sd) := parse_expect ClassUniversal TagSequence true sd in
  let? (certs, sd) := parse_expect ClassContextSpecific 0 true sd in
  let? (signers, _) := parse_expect ClassUniversal TagSet true sd in
  when negb (bool_decide (digests = [] /\ signers = [])) fail "not certs-only";
  Ok certs.

(** ** What is put in is found *)

Lemma encode_length_short n : (n < 2147483648)%N -> (length (encode_length n) <= 9)%nat.
Proof.
  intros Hn. unfold encode_length. destruct (n <? 128)%N; [simpl; lia|].
  destruct (length_length_spec 8 n ltac:(simpl; lia)) as (_ & Hk & H).
  assert (Hbe : forall k m, length (be_bytes k m) = k) by (induction k; intros; simpl; congruence).
  cbn [length]. rewrite Hbe. destruct H as [->|H]; [lia|].
  assert (length_length 8 n <= 8)%nat; [|lia].
  destruct (Nat.eq_dec (length_length 8 n) 9%nat) as [He|]; [|lia]. rewrite He in H. simpl in H. lia.
Qed.

Lemma marshal_length v :
  (N.of_nat (length (rv_bytes v)) < 2147483648)%N ->
  (length (marshal v) <= 10 + length (rv_bytes v))%nat.
Proof.
  intros Hv. unfold marshal. cbn [length]. rewrite length_app.
  pose proof (encode_length_short _ Hv). lia.
Qed.

Lemma firstEmpty_none i ds : firstEmpty i ds = None <-> Forall (fun d => d <> []) ds.
Proof.
  revert i. induction ds as [|[|x d] ds IH]; intros i; simpl.
  - split; auto.
  - split; [done|]. intros H. by apply Forall_inv in H.
  - rewrite IH. split; [by constructor|]. apply Forall_inv_tail.
Qed.

(** The five fields of the SignedData, and the OID before it. *)
Definition signed_fields (certs : bytes) : bytes :=
  marshal_small 1 ++ marshal emptySet ++ sequence [marshal_oid oidData] ++
  marshal (context 0 certs) ++ marshal emptySet ++ [].

Lemma signed_fields_length certs :
  (N.of_nat (length certs) < 2147483648)%N -> (length (signed_fields certs) <= 60 + length certs)%nat.
Proof.
  intros Hc. unfold signed_fields. rewrite !length_app.
  pose proof (marshal_length (context 0 certs) Hc). cbn [rv_bytes context] in *.
  change (length (marshal_small 1)) with 3%nat. change (length (marshal emptySet)) with 2%nat.
  change (length (sequence [marshal_oid oidData])) with 13%nat. cbn [length]. lia.
Qed.

Lemma read_oid_field rest :
  exists o, parse_expect ClassUniversal TagOID false (marshal_oid oidSignedData ++ rest) = Ok (o, rest) /\
            parse_oid o = Ok oidSignedData.
Proof.
  exists (base128 42 ++ flat_map base128 [840; 113549; 1; 7; 2]%N). split; [|vm_compute; reflexivity].
  exact (parse_expect_marshal ClassUniversal TagOID false (base128 42 ++ flat_map base128 [840; 113549; 1; 7; 2]%N) rest
           ltac:(by apply encodable_intro)).
Qed.

Lemma read_signed_fields certs :
  (N.of_nat (length certs) < 2147483648)%N ->
  (let? (version, sd) := parse_expect ClassUniversal TagInteger false (signed_fields certs) in
   let? _ := check_integer version in
   let? (digests, sd) := parse_expect ClassUniversal TagSet true sd in
   let? (inner, sd) := parse_expect ClassUniversal TagSequence true sd in
   let? (certs, sd) := parse_expect ClassContextSpecific 0 true sd in
   let? (signers, _) := parse_expect ClassUniversal TagSet true sd in
   when negb (bool_decide (digests = [] /\ signers = [])) fail "not certs-only";
   Ok certs) = Ok certs.
Proof.
  intros Hc. unfold signed_fields.
  rewrite (parse_expect_marshal ClassUniversal TagInteger false [byte_of 1] _) by (by apply encodable_intro).
  cbn [result_bind]. replace (check_integer _) with (Ok tt) by (vm_compute; reflexivity).
  cbn [result_bind].
  rewrite (parse_expect_marshal ClassUniversal TagSet true [] _) by (by apply encodable_intro).
  cbn [result_bind].
  rewrite (parse_expect_marshal ClassUniversal TagSequence true (concat [marshal_oid oidData]) _) by (by apply encodable_intro).
  cbn [result_bind].
  rewrite (parse_expect_marshal ClassContextSpecific 0 true certs _) by (by apply encodable_intro).
  cbn [result_bind].
  rewrite (parse_expect_marshal ClassUniversal TagSet true [] _) by (by apply encodable_intro).
  done.
Qed.

(** A certs-only SignedData is read back. *)
Lemma read_certificates_encoded certs :
  (N.of_nat (length certs) < 1073741824)%N ->
  read_certificates (contentInfo oidSignedData
    (context 0 (signedData (sequence [marshal_oid oidData]) (context 0 certs)))) = Ok certs.
Proof.
  intros Hc.
  change (signedData (sequence [marshal_oid oidData]) (context 0 certs))
    with (marshal (universal TagSequence true (signed_fields certs))).
  pose proof (signed_fields_length certs ltac:(lia)) as Hf.
  set (sd := universal TagSequence true (signed_fields certs)).
  pose proof (marshal_length sd ltac:(cbn [rv_bytes sd universal]; lia)) as Hs.
  cbn [rv_bytes sd universal] in Hs. fold sd in Hs.
  pose proof (marshal_length (context 0 (marshal sd)) ltac:(cbn [rv_bytes context]; lia)) as Hx.
  cbn [rv_bytes context] in Hx.
  unfold read_certificates, contentInfo, sequence. cbn [concat]. rewrite app_nil_r.
  rewrite <- (app_nil_r (marshal (universal _ _ _))).
  rewrite (parse_expect_marshal ClassUniversal TagSequence true _ []).
  2:{ split_and!; [done..|]. cbn [rv_bytes]. rewrite length_app.
      change (length (marshal_oid oidSignedData)) with 11%nat. lia. }
  cbn [result_bind]. destruct (read_oid_field (marshal (context 0 (marshal sd)))) as (o & -> & Ho).
  cbn [result_bind]. rewrite Ho. cbn [result_bind].
  unfold OID_eqb. rewrite bool_decide_eq_true_2 by done. cbn [negb].
  rewrite <- (app_nil_r (marshal (context 0 (marshal sd)))).
  rewrite (parse_expect_marshal ClassContextSpecific 0 true (marshal sd) _).
  2:{ split_and!; [done..|]. cbn [rv_bytes]. lia. }
  cbn [result_bind]. rewrite <- (app_nil_r (marshal sd)).
  rewrite (parse_expect_marshal ClassUniversal TagSequence true (signed_fields certs) _).
  2:{ split_and!; [done..|]. cbn [rv_bytes]. lia. }
  cbn [result_bind]. apply read_signed_fields. lia.
Qed.

(** C34. The PKCS#7 reply carries exactly the certificates issued: encoding
    fails only for an empty list or an empty certificate, and otherwise a
    reader of the result finds a certs-only SignedData whose certificates field
    is the concatenation of the certificates given, in their order. *)
Theorem certs_only_roundtrip (ds : list bytes)
    (Hsize : (N.of_nat (length (concat ds)) < 2 ^ 30)%N) :
  match DegenerateCertsOnly ds with
  | Ok p7 => ds <> [] /\ Forall (fun d => d <> []) ds /\ read_certificates p7 = Ok (concat ds)
  | Err _ => ds = [] \/ exists d, d ∈ ds /\ d = []
  end.
Proof.
  unfold DegenerateCertsOnly. destruct ds as [|d0 ds0]; [by left|]. set (ds := d0 :: ds0) in *.
  destruct (firstEmpty 0 ds) as [i|] eqn:Hfe.
  - right. destruct (decide (Forall (fun d => d <> []) ds)) as [Hall|Hex].
    + apply (firstEmpty_none 0) in Hall. congruence.
    + apply not_Forall_Exists in Hex; [|intros d; apply _]. apply Exists_exists in Hex as (d & Hin & Hd).
      exists d. split; [done|]. by apply dec_stable in Hd.
  - split; [done|]. split; [by apply (firstEmpty_none 0)|]. by apply read_certificates_encoded.
Qed.

Lemma certs_only_roundtrip_witness :
  exists p7, DegenerateCertsOnly [bytes_of_string "leaf"; bytes_of_string "issuer"] = Ok p7 /\
    read_certificates p7 = Ok (bytes_of_string "leafissuer").
Proof.
  assert (Hsize : (N.of_nat (length (concat [bytes_of_string "leaf"; bytes_of_string "issuer"])) < 2 ^ 30)%N)
    by (vm_compute; reflexivity).
  pose proof (certs_only_roundtrip [bytes_of_string "leaf"; bytes_of_string "issuer"] Hsize) as H.
  destruct (DegenerateCertsOnly _) as [p7|e] eqn:Hp.
  - exists p7. split; [reflexivity|]. exact (proj2 (proj2 H)).
  - vm_compute in Hp. discriminate Hp.
Defined.
