(* ===== verification/Csr.v ===== *)
(** * internal/est/csr.go and server.go: what a client presents

    The certificate request: parsing with the RSA bounds ahead of the signature
    check, key types, and the PKCS#9 challengePassword dug out of the raw
    CertificationRequestInfo.  The TLS listener's configuration, and the
    client certificate: [VerifyPeer]. *)
From S2P Require Import Prelude GoLib GoCrypto GoNet X509 Der.

Definition oidChallengePassword : list N := [1; 2; 840; 113549; 1; 9; 7]%N.

Definition DefaultMinRSABits : Z := 2048.
Definition DefaultMaxRSABits : Z := 8192.

(** ** TLSConfig (server.go) *)

(** [tls.ClientAuthType]; under [RequestClientCert] a client may present
    certificates, which the handshake does not verify. *)
Inductive ClientAuthType :=
  NoClientCert | RequestClientCert | RequireAnyClientCert | VerifyClientCertIfGiven | RequireAndVerifyClientCert.

Definition VersionTLS12 : Z := 771.

Record tls_Config (C : Type) := { MinVersion : Z; Certificates : list C; ClientAuth : ClientAuthType }.
Arguments Build_tls_Config {C}.

Definition TLSConfig {C} (serverCert : C) : tls_Config C :=
  {| MinVersion := VersionTLS12; Certificates := [serverCert]; ClientAuth := RequestClientCert |}.

Section Csr.
Context `{UnicodeTables} `{X509}.

(** ** ParseCSR *)

Definition bound_or (n d : Z) : Z := if n <=? 0 then d else n.

Definition checkRSABounds (pub : PublicKey) (minBits maxBits : Z) : result unit :=
  match pub with
  | RSAKey bits =>
      let minBits := bound_or minBits DefaultMinRSABits in
      let maxBits := bound_or maxBits DefaultMaxRSABits in
      if bits <? minBits then
        Err (Errorf "RSA key too small: %d bits, minimum %d" [FInt bits; FInt minBits])
      else if maxBits <? bits then
        Err (Errorf "RSA key too large: %d bits, maximum %d" [FInt bits; FInt maxBits])
      else Ok tt
  | _ => Ok tt
  end.

Definition ParseCSRLimited (der : bytes) (minRSABits maxRSABits : Z) : result CertificateRequest :=
  let? csr := map_err (String.append "parse CSR: ") (ParseCertificateRequest der) in
  let? _ := checkRSABounds (CSR_PublicKey csr) minRSABits maxRSABits in
  let? _ := map_err (String.append "CSR proof-of-possession failed: ") (CheckSignature csr) in
  Ok csr.

Definition ParseCSR (der : bytes) : result CertificateRequest :=
  ParseCSRLimited der DefaultMinRSABits DefaultMaxRSABits.

(** ** Key types *)

Definition KeyType (csr : CertificateRequest) : result string :=
  match CSR_PublicKey csr with
  | RSAKey bits => Ok (Sprintf "rsa-%d" [FInt bits])
  | ECDSAKey P256 => Ok "ec-p256"
  | ECDSAKey P384 => Ok "ec-p384"
  | ECDSAKey P521 => Ok "ec-p521"
  | ECDSAKey c => Err (Errorf "unsupported EC curve %q" [FStr (Curve_Name c)])
  | Ed25519Key => Ok "ed25519"
  | OtherKey t => Err (Errorf "unsupported public key type %T" [FStr t])
  end.

Definition ValidateKeyType (csr : CertificateRequest) (allowed : list string) : result unit :=
  let? kt := KeyType csr in
  match allowed with
  | [] => Ok tt
  | _ => if existsb (fun a => (a =? kt)%string) allowed then Ok tt
         else Err (Errorf "key type %q is not permitted" [FStr kt])
  end.

(** ** ChallengePassword *)

(** [csrAttribute]: a type and the content of its SET OF values *)
Definition parse_attribute (b : bytes) : result (list N * bytes * bytes) :=
  let? (body, rest) := parse_expect ClassUniversal TagSequence true b in
  let? (oid, vals) := parse_expect ClassUniversal TagOID false body in
  let? oid := parse_oid oid in
  let? (v, _) := parse_value vals in
  Ok (oid, rv_bytes v, rest).

Fixpoint parse_attributes (fuel : nat) (b : bytes) : result (list (list N * bytes)) :=
  match b, fuel with
  | [], _ => Ok []
  | _, O => Err (SyntaxError "data truncated")
  | _, S fuel' =>
      let? (oid, vals, rest) := parse_attribute b in
      let? attrs := parse_attributes fuel' rest in
      Ok ((oid, vals) :: attrs)
  end.

(** [asn1.Unmarshal(raw, &tbs)]: the attributes of a [tbsCSR] *)
Definition tbsCSR (raw : bytes) : result (list (list N * bytes)) :=
  let? (body, _) := parse_expect ClassUniversal TagSequence true raw in
  let? (version, body) := parse_expect ClassUniversal TagInteger false body in
  let? _ := check_integer version in
  let? (_, body) := parse_value body in
  let? (_, body) := parse_value body in
  let? attrs := parse_optional ClassContextSpecific 0 true body in
  match attrs with
  | None => Ok []
  | Some attrs => parse_attributes (length attrs) attrs
  end.

(** The first value of a challengePassword attribute. *)
Definition passwordOf (vals : bytes) : result string :=
  let? (v, _) := map_err (String.append "parse challengePassword value: ") (parse_value vals) in
  when match rv_bytes v with [] => true | _ => false end fail "empty challengePassword";
  Ok (string_of_bytes (rv_bytes v)).

(** The loop over the attributes: the first challengePassword decides. *)
Definition passwordAmong (attrs : list (list N * bytes)) : result string :=
  match find (fun a => OID_eqb (fst a) oidChallengePassword) attrs with
  | None => Ok ""
  | Some (_, vals) => passwordOf vals
  end.

Definition ChallengePassword (csr : CertificateRequest) : result string :=
  match CSR_RawTBS csr with
  | [] => Ok ""
  | raw =>
      let? attrs := map_err (String.append "parse CSR attributes: ") (tbsCSR raw) in
      passwordAmong attrs
  end.

(** ** VerifyPeer (server.go) *)

Definition VerifyPeer (state : option ConnectionState) (roots : option CertPool)
    : result Certificate :=
  match state with
  | None => Err "no client certificate presented"
  | Some st =>
      match PeerCertificates st with
      | [] => Err "no client certificate presented"
      | leaf :: rest =>
          match roots with
          | None => Err "no trust anchor configured for this operation"
          | Some roots =>
              let intermediates := fold_left AddCert rest NewCertPool in
              let opts := {| Roots := roots; Intermediates := intermediates;
                             KeyUsages := [ExtKeyUsageClientAuth] |} in
              let? _ := map_err (String.append "client certificate verification failed: ") (Verify leaf opts) in
              Ok leaf
          end
      end
  end.
End Csr.

(** ** Properties *)

Section CsrProperties.
Context `{UnicodeTables} `{X509}.

Lemma bound_or_pos n d : 0 < d -> 0 < bound_or n d.
Proof. unfold bound_or. destruct (Z.leb_spec n 0); lia. Qed.

Lemma checkRSABounds_ok pub lo hi :
  checkRSABounds pub lo hi = Ok tt <->
  forall bits, pub = RSAKey bits -> bound_or lo DefaultMinRSABits <= bits <= bound_or hi DefaultMaxRSABits.
Proof.
  unfold checkRSABounds. destruct pub as [bits|c| |t];
    [|split; [intros _ bits' Hb; discriminate Hb|done] ..].
  destruct (Z.ltb_spec bits (bound_or lo DefaultMinRSABits)) as [Hlo|Hlo].
  { split; [done|]. intros Hb. specialize (Hb bits eq_refl). lia. }
  destruct (Z.ltb_spec (bound_or hi DefaultMaxRSABits) bits) as [Hhi|Hhi].
  - split; [done|]. intros Hb. specialize (Hb bits eq_refl). lia.
  - split; [|done]. intros _ bits' Hb. injection Hb as <-. lia.
Qed.

(** A request is accepted exactly when it parses, its RSA modulus (if its
    key is RSA) lies within the bounds, non-positive bounds meaning the
    defaults, and its self-signature proves possession of the key; and the
    signature is never checked before the bounds are: a request refused by
    them gets the same answer whatever the signature check would say. *)
Theorem parse_csr_correct der lo hi :
  (forall csr, ParseCSRLimited der lo hi = Ok csr <->
     ParseCertificateRequest der = Ok csr /\
     (forall bits, CSR_PublicKey csr = RSAKey bits ->
        bound_or lo DefaultMinRSABits <= bits <= bound_or hi DefaultMaxRSABits) /\
     CheckSignature csr = Ok tt) /\
  (forall csr e, ParseCertificateRequest der = Ok csr ->
     checkRSABounds (CSR_PublicKey csr) lo hi = Err e -> ParseCSRLimited der lo hi = Err e).
Proof.
  split.
  - intros csr. rewrite <- checkRSABounds_ok. unfold ParseCSRLimited.
    destruct (ParseCertificateRequest der) as [csr'|e]; simpl; [|split; [done|by intros [? _]]].
    destruct (checkRSABounds (CSR_PublicKey csr') lo hi) as [[]|e] eqn:Hb; simpl.
    + destruct (CheckSignature csr') as [[]|e] eqn:Hs; simpl.
      * split; [intros ?; simplify_eq; by rewrite Hb|]. intros ([= ->] & _). done.
      * split; [done|]. intros ([= ->] & _ & Hs'). congruence.
    + split; [done|]. intros ([= ->] & Hb' & _). congruence.
  - intros csr e Hp Hb. unfold ParseCSRLimited. rewrite Hp. simpl. by rewrite Hb.
Qed.

(** A client certificate is accepted only if it is the leaf the client
    presented, an anchor is configured for the operation, and it verifies
    against that anchor for client authentication, with nothing but the rest
    of the presented certificates as intermediates; and every such leaf is. *)
Theorem verify_peer_correct state roots leaf :
  VerifyPeer state roots = Ok leaf <->
  exists st rest pool, state = Some st /\ PeerCertificates st = leaf :: rest /\ roots = Some pool /\
    Verify leaf {| Roots := pool; Intermediates := {| pool_certs := rest |};
                   KeyUsages := [ExtKeyUsageClientAuth] |} = Ok tt.
Proof.
  assert (Hpool : forall cs p, fold_left AddCert cs p = {| pool_certs := pool_certs p ++ cs |}).
  { induction cs as [|c cs IH]; intros p; simpl; [rewrite app_nil_r; by destruct p|].
    rewrite IH. unfold AddCert. simpl. by rewrite <- app_assoc. }
  unfold VerifyPeer. destruct state as [st|]; [|split; [done|by intros (? & ? & ? & ? & _)]].
  destruct (PeerCertificates st) as [|l rest] eqn:Hst.
  { split; [done|]. intros (? & ? & ? & ? & ? & _). simplify_eq. congruence. }
  destruct roots as [pool|]; [|split; [done|by intros (? & ? & ? & _ & _ & ? & _)]].
  rewrite (Hpool rest NewCertPool). simpl.
  destruct (Verify l _) as [[]|e] eqn:Hv; simpl.
  - split.
    + intros [= ->]. by exists st, rest, pool.
    + intros (st' & rest' & pool' & [= <-] & Hst' & _). congruence.
  - split; [done|]. intros (st' & rest' & pool' & [= <-] & Hst' & [= <-] & Hv').
    rewrite Hst in Hst'. simplify_eq. congruence.
Qed.

(** The key-type policy admits a request exactly when its key is of a
    recognised type whose token is on the list, an empty list admitting every
    recognised type; an unrecognised type or curve is always refused. *)
Theorem key_type_correct csr allowed :
  ValidateKeyType csr allowed = Ok tt <->
  exists kt, (allowed = [] \/ kt ∈ allowed) /\
    match CSR_PublicKey csr with
    | RSAKey bits => kt = String.append "rsa-" (Itoa bits)
    | ECDSAKey P256 => kt = "ec-p256"
    | ECDSAKey P384 => kt = "ec-p384"
    | ECDSAKey P521 => kt = "ec-p521"
    | Ed25519Key => kt = "ed25519"
    | _ => False
    end.
Proof.
  assert (Hlist : forall kt, (match allowed with
            | [] => Ok tt
            | _ => if existsb (fun a => (a =? kt)%string) allowed then Ok tt
                   else Err (Errorf "key type %q is not permitted" [FStr kt])
            end = Ok tt) <-> (allowed = [] \/ kt ∈ allowed)).
  { intros kt. destruct allowed as [|a allowed']; [intuition|]. set (l := a :: allowed').
    destruct (existsb _ l) eqn:He.
    - apply existsb_elem in He as (x & Hin & ->%String.eqb_eq). intuition.
    - split; [done|]. intros [?|Hin]; [done|]. rewrite <- not_true_iff_false in He.
      exfalso. apply He. apply existsb_elem. exists kt. by rewrite String.eqb_refl. }
  assert (Hone : forall t, (let? kt := Ok t in match allowed with
            | [] => Ok tt
            | _ => if existsb (fun a => (a =? kt)%string) allowed then Ok tt
                   else Err (Errorf "key type %q is not permitted" [FStr kt])
            end) = Ok tt <-> exists kt, (allowed = [] \/ kt ∈ allowed) /\ kt = t).
  { intros t. simpl. rewrite Hlist. split; [eauto|]. by intros (kt & Hk & ->). }
  assert (Hnone : forall e, (let? kt := Err e in match allowed with
            | [] => Ok tt
            | _ => if existsb (fun a => (a =? kt)%string) allowed then Ok tt
                   else Err (Errorf "key type %q is not permitted" [FStr kt])
            end) = Ok tt <-> exists kt : string, (allowed = [] \/ kt ∈ allowed) /\ False).
  { intros e. simpl. split; [done|]. by intros (kt & _ & []). }
  unfold ValidateKeyType, KeyType. destruct (CSR_PublicKey csr) as [bits|[]| |t]; try apply Hone;
    try apply Hnone.
  replace (Sprintf "rsa-%d" [FInt bits]) with (String.append "rsa-" (Itoa bits)); [apply Hone|].
  simpl. by rewrite string_app_nil_r.
Qed.

(** *** The challengePassword of an encoded CertificationRequestInfo *)

(** An attribute by the content octets of its type and of its SET OF values. *)
Record attribute := { at_type : bytes; at_values : bytes }.

Definition attribute_der (a : attribute) : bytes :=
  sequence [marshal (universal TagOID false (at_type a)); marshal (universal TagSet true (at_values a))].

Definition request_info (subject spki : RawValue) (attrs : list attribute) : bytes :=
  sequence [marshal_small 0; marshal subject; marshal spki;
            marshal (context 0 (concat (map attribute_der attrs)))].

Definition short (b : bytes) : Prop := (N.of_nat (length b) < 2147483648)%N.

Lemma short_app_l a b : short (a ++ b) -> short a.
Proof. unfold short. rewrite length_app. lia. Qed.
Lemma short_app_r a b : short (a ++ b) -> short b.
Proof. unfold short. rewrite length_app. lia. Qed.
Lemma short_marshal v : short (marshal v) -> short (rv_bytes v).
Proof. unfold short, marshal. cbn [length]. rewrite length_app. lia. Qed.

Lemma parse_attribute_der a oid rest :
  parse_oid (at_type a) = Ok oid -> short (attribute_der a) ->
  parse_attribute (attribute_der a ++ rest) = Ok (oid, at_values a, rest).
Proof.
  intros Hoid Hs. unfold parse_attribute, attribute_der, sequence in *.
  apply short_marshal in Hs as Hbody. cbn [rv_bytes universal concat] in Hbody. rewrite app_nil_r in Hbody.
  pose proof (short_marshal _ (short_app_l _ _ Hbody)) as Ht.
  pose proof (short_marshal _ (short_app_r _ _ Hbody)) as Hv. cbn [rv_bytes universal] in Ht, Hv.
  cbn [concat]. rewrite app_nil_r.
  rewrite (parse_expect_marshal ClassUniversal TagSequence true _ rest) by (by apply encodable_intro).
  cbn [result_bind].
  rewrite (parse_expect_marshal ClassUniversal TagOID false (at_type a) _) by (by apply encodable_intro).
  cbn [result_bind]. rewrite Hoid. cbn [result_bind].
  rewrite <- (app_nil_r (marshal (universal TagSet true (at_values a)))).
  rewrite parse_value_marshal by (by apply encodable_intro). done.
Qed.

Lemma attribute_der_cons a : exists x l, attribute_der a = x :: l.
Proof. unfold attribute_der, sequence, marshal. eauto. Qed.

Lemma parse_attributes_der attrs fuel :
  Forall (fun a => exists oid, parse_oid (at_type a) = Ok oid) attrs ->
  short (concat (map attribute_der attrs)) -> (length attrs <= fuel)%nat ->
  exists oids, length oids = length attrs /\ Forall2 (fun a oid => parse_oid (at_type a) = Ok oid) attrs oids /\
    parse_attributes fuel (concat (map attribute_der attrs)) = Ok (zip oids (map at_values attrs)).
Proof.
  revert fuel. induction attrs as [|a attrs IH]; intros fuel Hall Hs Hf.
  - exists []. split_and!; [done|constructor|]. by destruct fuel.
  - apply Forall_cons in Hall as [[oid Hoid] Hall]. cbn [map concat length] in Hs, Hf. destruct fuel as [|fuel]; [lia|].
    destruct (IH fuel Hall (short_app_r _ _ Hs) ltac:(lia)) as (oids & Hlen & Hoids & Hparse).
    exists (oid :: oids). split_and!; [simpl; congruence|by constructor|].
    pose proof (parse_attribute_der a oid (concat (map attribute_der attrs)) Hoid (short_app_l _ _ Hs)) as Ha.
    destruct (attribute_der_cons a) as (x & l & Hx). cbn [map concat]. rewrite Hx in *. cbn [app parse_attributes].
    cbn [app] in Ha. rewrite Ha. cbn [result_bind]. by rewrite Hparse.
Qed.

Lemma tbsCSR_request_info subject spki attrs :
  encodable subject -> encodable spki -> short (request_info subject spki attrs) ->
  Forall (fun a => exists oid, parse_oid (at_type a) = Ok oid) attrs ->
  exists oids, Forall2 (fun a oid => parse_oid (at_type a) = Ok oid) attrs oids /\
    tbsCSR (request_info subject spki attrs) = Ok (zip oids (map at_values attrs)).
Proof.
  intros Hsub Hspki Hs Hall. unfold request_info, sequence in *.
  pose proof (short_marshal _ Hs) as Hbody. cbn [rv_bytes universal concat] in Hbody.
  rewrite app_nil_r in Hbody. set (cattrs := concat (map attribute_der attrs)) in *.
  assert (Hc : short cattrs).
  { apply short_app_r, short_app_r, short_app_r in Hbody. exact (short_marshal _ Hbody). }
  assert (Hn : (length attrs <= length cattrs)%nat).
  { unfold cattrs. clear. induction attrs as [|a attrs IH]; [simpl; lia|]. cbn [map concat length].
    destruct (attribute_der_cons a) as (x & l & Hx). rewrite length_app, Hx. cbn [length]. lia. }
  destruct (parse_attributes_der attrs (length cattrs) Hall Hc Hn) as (oids & Hlen & Hoids & Hparse).
  exists oids. split; [done|]. unfold tbsCSR. cbn [concat]. rewrite app_nil_r.
  rewrite <- (app_nil_r (marshal (universal TagSequence _ _))).
  rewrite (parse_expect_marshal ClassUniversal TagSequence true _ _) by (by apply encodable_intro).
  cbn [result_bind].
  rewrite (parse_expect_marshal ClassUniversal TagInteger false [byte_of 0] _) by (by apply encodable_intro).
  cbn [result_bind check_integer].
  rewrite (parse_value_marshal subject) by done. cbn [result_bind].
  rewrite (parse_value_marshal spki) by done. cbn [result_bind].
  unfold parse_optional. rewrite <- (app_nil_r (marshal (context 0 cattrs))).
  assert (Henc : encodable (context 0 cattrs)) by (by apply encodable_intro).
  cbn [marshal app]. change (identifier (context 0 cattrs) :: _ ++ []) with (marshal (context 0 cattrs) ++ []).
  rewrite parse_header_marshal by done. cbn [result_bind].
  unfold tags_match. cbn [rv_class rv_tag rv_compound context]. simpl negb. cbv iota.
  rewrite (take_content_whole (context 0 cattrs)) by done. cbn [result_bind rv_bytes context].
  exact Hparse.
Qed.

Definition is_challenge (a : attribute) : bool :=
  match parse_oid (at_type a) with Ok oid => OID_eqb oid oidChallengePassword | Err _ => false end.

Lemma passwordAmong_zip attrs oids :
  Forall2 (fun a oid => parse_oid (at_type a) = Ok oid) attrs oids ->
  passwordAmong (zip oids (map at_values attrs)) =
  match find is_challenge attrs with None => Ok "" | Some a => passwordOf (at_values a) end.
Proof.
  unfold passwordAmong. intros Hall. induction Hall as [|a oid attrs oids Ha Hall IH]; [done|].
  simpl. unfold is_challenge at 1. rewrite Ha. by destruct (OID_eqb oid oidChallengePassword).
Qed.

Lemma request_info_cons subject spki attrs : exists x l, request_info subject spki attrs = x :: l.
Proof. unfold request_info, sequence, marshal. eauto. Qed.

(** C33. The challenge secret is the one in the request: for a
    CertificationRequestInfo with any attributes, the password is the content
    of the first value of the first challengePassword attribute, whatever other
    attributes surround it; without such an attribute it is empty, and an
    attribute with an empty value is an error rather than an empty secret. *)
Theorem challenge_password_correct csr subject spki attrs
    (Hraw : CSR_RawTBS csr = request_info subject spki attrs)
    (Hsub : encodable subject) (Hspki : encodable spki)
    (Hshort : short (request_info subject spki attrs))
    (Htypes : Forall (fun a => exists oid, parse_oid (at_type a) = Ok oid) attrs) :
  ChallengePassword csr =
    match find is_challenge attrs with None => Ok "" | Some a => passwordOf (at_values a) end /\
  forall v more, encodable v ->
    passwordOf (marshal v ++ more) =
    match rv_bytes v with [] => Err "empty challengePassword" | s => Ok (string_of_bytes s) end.
Proof.
  split.
  - destruct (tbsCSR_request_info subject spki attrs Hsub Hspki Hshort Htypes) as (oids & Hoids & Htbs).
    unfold ChallengePassword. rewrite Hraw.
    destruct (request_info_cons subject spki attrs) as (x & l & Hx). rewrite Hx in *. rewrite Htbs.
    by apply passwordAmong_zip.
  - intros v more Hv. unfold passwordOf. rewrite parse_value_marshal by done. simpl.
    by destruct (rv_bytes v).
Qed.
End CsrProperties.

(** ** A request with a challengePassword *)

Definition string_value (s : string) : RawValue := universal 12 false (bytes_of_string s).

(** The content octets of 1.2.840.113549.1.9.7 and of 1.2.840.113549.1.9.14. *)
Definition challengeOID : bytes := base128 42 ++ flat_map base128 [840; 113549; 1; 9; 7]%N.
Definition extensionOID : bytes := base128 42 ++ flat_map base128 [840; 113549; 1; 9; 14]%N.

Definition exampleAttributes (password : string) : list attribute :=
  [{| at_type := extensionOID; at_values := marshal (universal TagSequence true []) |};
   {| at_type := challengeOID; at_values := marshal (string_value password) |}].

Definition exampleInfo (password : string) : bytes :=
  request_info (universal TagSequence true []) (universal TagSequence true []) (exampleAttributes password).

(** A request for [cn] that carries a challengePassword. *)
Definition exampleChallengeCSR (cn password : string) : CertificateRequest :=
  {| CSR_Raw := bytes_of_string cn; CSR_RawTBS := exampleInfo password; CSR_Subject := exampleName cn;
     CSR_PublicKey := ECDSAKey P256; CSR_DNSNames := []; CSR_IPAddresses := []; CSR_URIs := [] |}.

Lemma challenge_password_correct_witness :
  ChallengePassword (exampleChallengeCSR "dev-1" "s3cret") = Ok "s3cret".
Proof.
  assert (Hseq : encodable (universal TagSequence true [])) by (by apply encodable_intro).
  assert (Htypes : Forall (fun a => exists oid, parse_oid (at_type a) = Ok oid) (exampleAttributes "s3cret")).
  { repeat constructor; eexists; vm_compute; reflexivity. }
  destruct (challenge_password_correct (exampleChallengeCSR "dev-1" "s3cret")
              (universal TagSequence true []) (universal TagSequence true []) (exampleAttributes "s3cret")
              eq_refl Hseq Hseq ltac:(vm_compute; reflexivity) Htypes) as [-> Hval].
  vm_compute. reflexivity.
Defined.
