(* ===== verification/Bao.v ===== *)
(** * internal/bao: the OpenBao client

    [client.go] and [pki.go].  The [Enroller] class is the interface the EST and
    SCEP handlers issue through, and [Client] its implementation.  What lies
    outside the process is the class [Upstream]: the HTTP exchange itself, the
    clock, the random source of the jitter and the wait between attempts.  JSON
    text is read and written by the operations of the class [Json]. *)
From S2P Require Import Prelude GoLib GoCrypto GoNet X509 Http Pem.

(** ** pki.go: data *)

Record CertBundle := {
  B_Certificate : string;
  IssuingCA : string;
  B_CAChain : list string;
  PrivateKey : string;
  B_SerialNumber : string;
}.

(** The [data] block of a PKI response; [bundle] copies it field by field. *)
Abbreviation pkiData := CertBundle (only parsing).
Definition bundle (p : pkiData) : CertBundle :=
  {| B_Certificate := B_Certificate p; IssuingCA := IssuingCA p; B_CAChain := B_CAChain p;
     PrivateKey := PrivateKey p; B_SerialNumber := B_SerialNumber p |}.
Definition zeroPki : pkiData :=
  {| B_Certificate := ""; IssuingCA := ""; B_CAChain := []; PrivateKey := ""; B_SerialNumber := "" |}.

(** JSON values the client sends. *)
Inductive JSON := JStr (s : string) | JBool (b : bool) | JInt (z : Z).
Abbreviation object := (gmap string JSON) (only parsing).

Record SignOptions := {
  O_CommonName : string;
  AltNames : list string;
  IPSANs : list string;
  URISANs : list string;
  O_TTL : string;
  O_ExcludeCNFromSANs : bool;
  KeyType : string;
  KeyBits : Z;
  Extra : object;
}.

(** ** The interface the handlers use *)

Class Enroller (E : Type) := {
  Sign : E -> string -> string -> SignOptions -> E * result CertBundle;
  Issue : E -> string -> string -> SignOptions -> E * result CertBundle;
  CAChain : E -> E * result bytes;
}.

(** ** Request bodies *)

(** The loop of [joinComma], from an element that is not the first. *)
Fixpoint join_rest (s : list string) : string :=
  match s with
  | [] => ""
  | v :: s' => String "," (String.append v (join_rest s'))
  end.
Definition joinComma (s : list string) : string :=
  match s with [] => "" | v :: s' => String.append v (join_rest s') end.

Definition set_if (b : bool) (k : string) (v : JSON) (body : object) : object :=
  if b then <[k := v]> body else body.

Definition nonempty {A} (l : list A) : bool := match l with [] => false | _ => true end.

Definition apply (o : SignOptions) (body : object) : object :=
  let body := set_if (negb (O_CommonName o =? "")%string) "common_name" (JStr (O_CommonName o)) body in
  let body := set_if (nonempty (AltNames o)) "alt_names" (JStr (joinComma (AltNames o))) body in
  let body := set_if (nonempty (IPSANs o)) "ip_sans" (JStr (joinComma (IPSANs o))) body in
  let body := set_if (nonempty (URISANs o)) "uri_sans" (JStr (joinComma (URISANs o))) body in
  let body := set_if (negb (O_TTL o =? "")%string) "ttl" (JStr (O_TTL o)) body in
  let body := set_if (O_ExcludeCNFromSANs o) "exclude_cn_from_sans" (JBool true) body in
  Extra o ∪ body.

Definition signBody (csrPEM : string) (opts : SignOptions) : object :=
  apply opts (<["csr" := JStr csrPEM]> (<["format" := JStr "pem"]> ∅)).

Definition issueBody (commonName : string) (opts : SignOptions) : object :=
  let body := <["format" := JStr "pem"]> ∅ in
  let body := set_if (negb (commonName =? "")%string) "common_name" (JStr commonName) body in
  let body := apply opts body in
  let body := set_if (negb (KeyType opts =? "")%string) "key_type" (JStr (KeyType opts)) body in
  set_if (0 <? KeyBits opts) "key_bits" (JInt (KeyBits opts)) body.

(** ** client.go: the world *)

Record HttpCall := {
  hc_method : string;
  hc_url : string;
  hc_payload : option bytes;  (** with a Content-Type of application/json *)
  hc_token : string;          (** X-Vault-Token, not sent when empty *)
}.

Class Upstream (N : Type) := {
  (** [http.NewRequestWithContext] *)
  NewRequest : string -> string -> result unit;
  (** [c.hc.Do(req)]: a transport error, or the status and the body *)
  net_Do : N -> HttpCall -> N * result (Z * Body);
  (** [time.Now()] *)
  time_Now : N -> N * Time;
  (** [rand.Int63n(n)], for a positive [n] *)
  rand_Int63n : N -> Z -> N * Z;
  (** waiting out a delay: the context's error if it is done first *)
  ctx_wait : N -> Duration -> N * option error;
}.

Record Auth := { ClientToken : string; LeaseDuration : Z; Renewable : bool }.

Class Json := {
  json_Marshal : object -> bytes;
  (** [json.Unmarshal] into [authResponse], [pkiData] and the error envelope *)
  json_auth : bytes -> result (option Auth);
  json_pki : bytes -> result pkiData;
  json_errors : bytes -> result (list string);
}.

Record Config := {
  Address : string;
  PKIMount : string;
  CACertPEM : bytes;
  AppRoleMount : string;
  RoleID : string;
  SecretID : string;
  RenewThreshold : Duration;
  MaxRetries : Z;
}.

Record Client := {
  cfg : Config;
  token : string;
  tokenExpiry : Time;
  renewable : bool;
}.

(** The zero [time.Time]. *)
Definition zeroTime : Time := -62135596800 * Second.

Definition New `{X509} (cfg : Config) : result Client :=
  when (Address cfg =? "")%string fail "bao: address is required";
  when (PKIMount cfg =? "")%string fail "bao: PKI mount is required";
  when (RoleID cfg =? "")%string || (SecretID cfg =? "")%string
  fail "bao: AppRole role_id and secret_id are required";
  let cfg := {| Address := Address cfg; PKIMount := PKIMount cfg; CACertPEM := CACertPEM cfg;
                AppRoleMount := if (AppRoleMount cfg =? "")%string then "approle" else AppRoleMount cfg;
                RoleID := RoleID cfg; SecretID := SecretID cfg;
                RenewThreshold := if RenewThreshold cfg <=? 0 then 5 * Minute else RenewThreshold cfg;
                MaxRetries := if MaxRetries cfg <? 0 then 0 else MaxRetries cfg |} in
  when nonempty (CACertPEM cfg)
       && negb (snd (AppendCertsFromPEM NewCertPool (string_of_bytes (CACertPEM cfg))))
  fail "bao: no valid certificates in CACertPEM";
  Ok {| cfg := cfg; token := ""; tokenExpiry := zeroTime; renewable := false |}.

Definition withToken (c : Client) (tok : string) (expiry : Time) (renew : bool) : Client :=
  {| cfg := cfg c; token := tok; tokenExpiry := expiry; renewable := renew |}.

Section Client.
Context `{UnicodeTables} `{Json} {N : Type} `{Upstream N}.

(** ** doRequest *)

Definition maxResponseBytes : Z := 8388608.

(** [100 * time.Millisecond * time.Duration(1<<uint(attempt-1))] *)
Definition backoffBase (attempt : Z) : Duration :=
  let base := wrap64 (100 * Millisecond * wrap64 (Z.shiftl 1 (attempt - 1))) in
  if 5 * Second <? base then 5 * Second else base.

(** [None] is the panic of [rand.Int63n] on an argument that is not positive. *)
Definition backoff (n : N) (attempt : Z) : N * option Duration :=
  let base := backoffBase attempt in
  let bound := Z.quot base 2 + 1 in
  if bound <=? 0 then (n, None)
  else let '(n, jitter) := rand_Int63n n bound in (n, Some (wrap64 (base + jitter))).

Definition APIError_Error (method path : string) (status : Z) (errors : list string) : error :=
  let msg := Join errors "; " in
  let msg := if (msg =? "")%string then "(no error detail)" else msg in
  Sprintf "bao: %s %s -> %d: %s" [FStr method; FStr path; FInt status; FStr msg].

Definition apiError (method path : string) (status : Z) (body : bytes) : error :=
  APIError_Error method path status
    (match json_errors body with
     | Ok (e :: es) => e :: es
     | _ => if nonempty body then [TrimSpace (string_of_bytes body)] else []
     end).

(** What one exchange decides: an answer to return, or an error to retry on. *)
Inductive verdict := Done (r : result bytes) | Retry (e : error).

Definition judge (method path : string) (out : result (Z * Body)) : verdict :=
  match out with
  | Err e => Retry (Errorf "bao: %s %s: %w" [FStr method; FStr path; FStr e])
  | Ok (status, body) =>
      match ReadAllLimited body (maxResponseBytes + 1) with
      | Err e => Retry (String.append "bao: read response: " e)
      | Ok respBody =>
          if maxResponseBytes <? Z.of_nat (length respBody) then
            Done (Err (Errorf "bao: %s %s: response exceeds %d bytes"
                         [FStr method; FStr path; FInt maxResponseBytes]))
          else if 500 <=? status then Retry (apiError method path status respBody)
          else if 400 <=? status then Done (Err (apiError method path status respBody))
          else Done (Ok respBody)
      end
  end.

(** A panic unwinds the goroutine of the request; it is rendered as this error. *)
Definition panic_Int63n : error := "panic: invalid argument to Int63n".

Definition callURL (address path : string) : string :=
  String.append (TrimRight address "/") (String "/" (TrimLeft path "/")).

(** The retry loop from attempt number [attempt], [left] attempts from its end. *)
Fixpoint attempts (call : HttpCall) (path : string) (left : nat) (attempt : Z) (lastErr : option error)
    (n : N) : N * result bytes :=
  match left with
  | O => (n, match lastErr with Some e => Err e | None => Ok [] end)
  | S left' =>
      let '(n, stop) :=
        if 0 <? attempt then
          let '(n, delay) := backoff n attempt in
          match delay with
          | None => (n, Some panic_Int63n)
          | Some d => ctx_wait n d
          end
        else (n, None) in
      match stop with
      | Some e => (n, Err e)
      | None =>
          match NewRequest (hc_method call) (hc_url call) with
          | Err e => (n, Err (String.append "bao: build request: " e))
          | Ok _ =>
              let '(n, out) := net_Do n call in
              match judge (hc_method call) path out with
              | Done r => (n, r)
              | Retry e => attempts call path left' (attempt + 1) (Some e) n
              end
          end
      end
  end.

Definition callOf (c : Config) (method path : string) (payload : option bytes) (tok : string) : HttpCall :=
  {| hc_method := method; hc_url := callURL (Address c) path; hc_payload := payload; hc_token := tok |}.

Definition doRequest (c : Client) (n : N) (method path : string) (payload : option bytes) (tok : string)
    : N * result bytes :=
  attempts (callOf (cfg c) method path payload tok) path (Z.to_nat (MaxRetries (cfg c) + 1)) 0 None n.

(** [doRaw] up to the decoding of the body, which [decode] does when there is
    one to decode; [zero] is what [out] holds before. *)
Definition doRaw {A} (c : Client) (n : N) (method path : string) (body : option object) (tok : string)
    (decode : bytes -> result A) (zero : A) : N * result A :=
  let payload := option_map json_Marshal body in
  let '(n, r) := doRequest c n method path payload tok in
  (n, let? respBody := r in
      if nonempty respBody then map_err (String.append "bao: decode response: ") (decode respBody)
      else Ok zero).

(** ** Token lifecycle *)

Definition leaseExpiry (n : N) (seconds : Z) : N * Time :=
  let '(n, now) := time_Now n in
  (n, if seconds <=? 0 then Add now (100 * 365 * 24 * Hour) else Add now (wrap64 (seconds * Second))).

Definition loginPath (c : Config) : string := Sprintf "v1/auth/%s/login" [FStr (AppRoleMount c)].
Definition loginBody (c : Config) : object :=
  <["role_id" := JStr (RoleID c)]> (<["secret_id" := JStr (SecretID c)]> ∅).
Definition renewPath : string := "v1/auth/token/renew-self".

Definition Login (c : Client) (n : N) : (Client * N) * result unit :=
  let '(n, r) := doRaw c n MethodPost (loginPath (cfg c)) (Some (loginBody (cfg c))) "" json_auth None in
  match r with
  | Err e => (c, n, Err (String.append "bao: approle login: " e))
  | Ok None => (c, n, Err "bao: approle login returned no token")
  | Ok (Some auth) =>
      if (ClientToken auth =? "")%string then (c, n, Err "bao: approle login returned no token")
      else let '(n, expiry) := leaseExpiry n (LeaseDuration auth) in
           (withToken c (ClientToken auth) expiry (Renewable auth), n, Ok tt)
  end.

Definition renewSelf (c : Client) (n : N) : (Client * N) * result unit :=
  let '(n, r) := doRaw c n MethodPost renewPath None (token c) json_auth None in
  match r with
  | Err e => (c, n, Err e)
  | Ok None => (c, n, Err "bao: renew-self returned no auth")
  | Ok (Some auth) =>
      let '(n, expiry) := leaseExpiry n (LeaseDuration auth) in
      (withToken c (token c) expiry (Renewable auth), n, Ok tt)
  end.

(** [time.Until(expiry)] *)
Definition time_Until (n : N) (expiry : Time) : N * Duration :=
  let '(n, now) := time_Now n in (n, Sub expiry now).

(** The last resort of [ensureToken]. *)
Definition loginToken (c : Client) (n : N) : (Client * N) * result string :=
  let '(c, n, r) := Login c n in
  match r with
  | Err e => (c, n, Err e)
  | Ok _ => (c, n, Ok (token c))
  end.

(** The renewal of [ensureToken], when the token is near its expiry. *)
Definition renewToken (c : Client) (n : N) : (Client * N) * result string :=
  if renewable c then
    let '(n, remaining) := time_Until n (tokenExpiry c) in
    if 0 <? remaining then
      let '(c, n, r) := renewSelf c n in
      match r with
      | Ok _ => (c, n, Ok (token c))
      | Err _ => loginToken c n
      end
    else loginToken c n
  else loginToken c n.

Definition ensureToken (c : Client) (n : N) : (Client * N) * result string :=
  if (token c =? "")%string then loginToken c n
  else
    let '(n, remaining) := time_Until n (tokenExpiry c) in
    if RenewThreshold (cfg c) <? remaining then (c, n, Ok (token c)) else renewToken c n.

(** [do]: an authenticated request, here always to a PKI endpoint *)
Definition do_pki (c : Client) (n : N) (path : string) (body : object) : (Client * N) * result pkiData :=
  let '(c, n, r) := ensureToken c n in
  match r with
  | Err e => (c, n, Err e)
  | Ok tok =>
      let '(n, r) := doRaw c n MethodPost path (Some body) tok json_pki zeroPki in (c, n, r)
  end.

Definition doRawBytes (c : Client) (n : N) (method path : string) : (Client * N) * result bytes :=
  let '(c, n, r) := ensureToken c n in
  match r with
  | Err e => (c, n, Err e)
  | Ok tok => let '(n, r) := doRequest c n method path None tok in (c, n, r)
  end.

(** ** pki.go: operations *)

Definition signPath (c : Config) (role : string) : string :=
  Sprintf "v1/%s/sign/%s" [FStr (PKIMount c); FStr (PathEscape role)].
Definition issuePath (c : Config) (role : string) : string :=
  Sprintf "v1/%s/issue/%s" [FStr (PKIMount c); FStr (PathEscape role)].
Definition chainPath (c : Config) : string := Sprintf "v1/%s/ca_chain" [FStr (PKIMount c)].

Definition Client_Sign (cn : Client * N) (role csrPEM : string) (opts : SignOptions)
    : (Client * N) * result CertBundle :=
  let '(c, n) := cn in
  if (role =? "")%string then (c, n, Err "bao: sign requires a role")
  else if (csrPEM =? "")%string then (c, n, Err "bao: sign requires a CSR")
  else
    let '(c, n, r) := do_pki c n (signPath (cfg c) role) (signBody csrPEM opts) in
    (c, n, let? out := r in
           when (B_Certificate out =? "")%string fail "bao: sign returned no certificate";
           Ok (bundle out)).

Definition Client_Issue (cn : Client * N) (role commonName : string) (opts : SignOptions)
    : (Client * N) * result CertBundle :=
  let '(c, n) := cn in
  if (role =? "")%string then (c, n, Err "bao: issue requires a role")
  else
    let '(c, n, r) := do_pki c n (issuePath (cfg c) role) (issueBody commonName opts) in
    (c, n, let? out := r in
           when (B_Certificate out =? "")%string fail "bao: issue returned no certificate";
           when (PrivateKey out =? "")%string fail "bao: issue returned no private key";
           Ok (bundle out)).

Definition Client_CAChain (cn : Client * N) : (Client * N) * result bytes :=
  let '(c, n) := cn in
  let '(c, n, r) := doRawBytes c n MethodGet (chainPath (cfg c)) in
  (c, n, let? pem := r in
         when negb (nonempty pem) fail "bao: empty CA chain";
         Ok pem).

#[export] Instance Client_Enroller : Enroller (Client * N) := {|
  Sign := Client_Sign;
  Issue := Client_Issue;
  CAChain := Client_CAChain;
|}.
End Client.
