(* ===== verification/BaoTheory.v ===== *)
(** * internal/bao: what the client does upstream

    Theorems on [Bao.v]: retries, backoff, token use, and what a sign or issue
    call puts on the wire.  They hold for every [Upstream]; the exchanges a call
    makes are observed by running it over an upstream that records them. *)
From S2P Require Import Prelude GoLib GoCrypto GoNet X509 Http Pem Bao.

(** ** An upstream that records its exchanges *)

Record exchange := { x_call : HttpCall; x_out : result (Z * Body) }.

#[export] Instance logged {N} `{Upstream N} : Upstream (N * list exchange) := {|
  NewRequest := NewRequest (N := N);
  net_Do n call := let '(n', out) := net_Do (fst n) call in
                   ((n', snd n ++ [{| x_call := call; x_out := out |}]), out);
  time_Now n := let '(n', t) := time_Now (fst n) in ((n', snd n), t);
  rand_Int63n n b := let '(n', r) := rand_Int63n (fst n) b in ((n', snd n), r);
  ctx_wait n d := let '(n', e) := ctx_wait (fst n) d in ((n', snd n), e);
|}.

Section Client.
Context `{UnicodeTables} `{Json} {N : Type} `{Upstream N}.

(** ** Retries *)

(** The exchanges of one request: the same call every time. *)
Definition exchanges (call : HttpCall) (outs : list (result (Z * Body))) : list exchange :=
  map (fun out => {| x_call := call; x_out := out |}) outs.

(** The status and the body of a reply that was read: at most one byte more than
    the limit is taken from the stream. *)
Definition read_reply (out : result (Z * Body)) (status : Z) (data : bytes) : Prop :=
  exists body, out = Ok (status, body) /\ ReadAllLimited body (maxResponseBytes + 1) = Ok data.

Definition oversize (data : bytes) : Prop := maxResponseBytes < Z.of_nat (length data).

(** The outcomes worth another attempt, each with the error it leaves: no reply
    at all, a reply that breaks off, a server error. *)
Definition retryable (method path : string) (out : result (Z * Body)) (e : error) : Prop :=
  (exists e0, out = Err e0 /\ e = Errorf "bao: %s %s: %w" [FStr method; FStr path; FStr e0]) \/
  (exists status body e0, out = Ok (status, body) /\
     ReadAllLimited body (maxResponseBytes + 1) = Err e0 /\ e = String.append "bao: read response: " e0) \/
  (exists status data, read_reply out status data /\ ~ oversize data /\ 500 <= status /\
     e = apiError method path status data).

(** The outcomes that settle the request, each with its answer: too large a
    reply, a client error, anything else. *)
Definition settles (method path : string) (out : result (Z * Body)) (r : result bytes) : Prop :=
  exists status data, read_reply out status data /\
    ((oversize data /\ r = Err (Errorf "bao: %s %s: response exceeds %d bytes"
                                  [FStr method; FStr path; FInt maxResponseBytes])) \/
     (~ oversize data /\ 400 <= status < 500 /\ r = Err (apiError method path status data)) \/
     (~ oversize data /\ status < 400 /\ r = Ok data)).

Lemma judge_spec method path out :
  match judge method path out with
  | Done r => settles method path out r
  | Retry e => retryable method path out e
  end.
Proof.
  destruct out as [[status body]|e0]; simpl; [|left; by exists e0].
  destruct (ReadAllLimited body (maxResponseBytes + 1)) as [data|e0] eqn:Hread;
    [|right; left; by exists status, body, e0].
  assert (Hreply : read_reply (Ok (status, body)) status data) by by exists body.
  destruct (Z.ltb_spec maxResponseBytes (Z.of_nat (length data))) as [Hbig|Hsmall];
    [exists status, data; split; [done|by left]|].
  assert (Hfit : ~ oversize data) by (unfold oversize; lia).
  destruct (Z.leb_spec 500 status) as [?|?]; [right; right; by exists status, data|].
  destruct (Z.leb_spec 400 status) as [?|?]; exists status, data; (split; [done|right]); [left|right]; done.
Qed.

(** [tries call n outs nw]: from [n], the call made once for each of [outs], in
    turn, with a wait of the length [backoff] gives before all but the first,
    leads to [nw]. *)
Inductive tries {W} `{Upstream W} (call : HttpCall) (n : W) : list (result (Z * Body)) -> W -> Prop :=
| tries_first n' out : net_Do n call = (n', out) -> tries call n [out] n'
| tries_again outs nw nb d nr n' out :
    tries call n outs nw ->
    backoff nw (Z.of_nat (length outs)) = (nb, Some d) -> ctx_wait nb d = (nr, None) ->
    net_Do nr call = (n', out) ->
    tries call n (outs ++ [out]) n'.

(** The wait that would precede attempt [k] does not end: the request's context
    is done first, or there is no such wait (see [backoff_bounded]). *)
Definition interrupted {W} `{Upstream W} (nw : W) (k : Z) (n' : W) (r : result bytes) : Prop :=
  (exists nb d e, backoff nw k = (nb, Some d) /\ ctx_wait nb d = (n', Some e) /\ r = Err e) \/
  (backoff nw k = (n', None) /\ r = Err panic_Int63n).

Lemma backoff_log (n : N * list exchange) a : snd (fst (backoff n a)) = snd n.
Proof.
  unfold backoff. destruct (_ <=? 0); [done|]. simpl. by destruct (rand_Int63n (fst n) _).
Qed.

Lemma wait_log (n : N * list exchange) d : snd (fst (ctx_wait n d)) = snd n.
Proof. simpl. by destruct (ctx_wait (fst n) d). Qed.

Lemma tries_log call (n nw : N * list exchange) outs :
  tries call n outs nw -> snd nw = snd n ++ exchanges call outs.
Proof.
  induction 1 as [n' out Hdo|outs nw nb d nr n' out _ IH Hb Hw Hdo].
  - simpl in Hdo. destruct (net_Do (fst n) call). by simplify_eq.
  - simpl in Hdo. destruct (net_Do (fst nr) call) as [n2 out2]. simplify_eq. simpl.
    pose proof (backoff_log nw (Z.of_nat (length outs))) as Hbl. rewrite Hb in Hbl.
    pose proof (wait_log nb d) as Hwl. rewrite Hw in Hwl. simpl in Hbl, Hwl.
    unfold exchanges in *. by rewrite Hwl, Hbl, IH, map_app, app_assoc.
Qed.

Lemma interrupted_log (nw n' : N * list exchange) k r : interrupted nw k n' r -> snd n' = snd nw.
Proof.
  pose proof (backoff_log nw k) as Hb. intros [(nb & d & e & Hk & Hw & _)|[Hk _]]; rewrite Hk in Hb; [|done].
  pose proof (wait_log nb d) as Hl. rewrite Hw in Hl. simpl in Hb, Hl. congruence.
Qed.

(** How a request of at most [max] attempts ends after those of [outs]. *)
Definition ends {W} `{Upstream W} (method path : string) (max : Z) (outs : list (result (Z * Body)))
    (nw n' : W) (r : result bytes) : Prop :=
  exists out, last outs = Some out /\
    ((settles method path out r /\ n' = nw) \/
     (exists e, retryable method path out e /\
        ((Z.of_nat (length outs) = max /\ r = Err e /\ n' = nw) \/
         (Z.of_nat (length outs) < max /\ interrupted nw (Z.of_nat (length outs)) n' r)))).

Definition tried {W} `{Upstream W} (call : HttpCall) (path : string) (max : Z) (n n' : W) (r : result bytes) : Prop :=
  exists outs nw, tries call n outs nw /\ Z.of_nat (length outs) <= max /\
    (forall i out, outs !! i = Some out -> (S i < length outs)%nat ->
       exists e, retryable (hc_method call) path out e) /\
    ends (hc_method call) path max outs nw n' r.

(** One more exchange, and what its outcome decides. *)
Lemma tried_exchange {W} `{Upstream W} call path left prev (n0 nr n2 n' : W) out r :
  net_Do nr call = (n2, out) -> tries call n0 (prev ++ [out]) n2 ->
  Forall (fun o => exists e, retryable (hc_method call) path o e) prev ->
  (forall e, retryable (hc_method call) path out e ->
     attempts call path left (Z.of_nat (length (prev ++ [out]))) (Some e) n2 = (n', r) ->
     tried call path (Z.of_nat (length (prev ++ [out]) + left)) n0 n' r) ->
  match judge (hc_method call) path out with
  | Done r => (n2, r)
  | Retry e => attempts call path left (Z.of_nat (length (prev ++ [out]))) (Some e) n2
  end = (n', r) ->
  tried call path (Z.of_nat (length (prev ++ [out]) + left)) n0 n' r.
Proof.
  intros Hdo Htries Hprev Hrec. pose proof (judge_spec (hc_method call) path out) as Hj.
  destruct (judge (hc_method call) path out) as [r1|e]; [|by apply Hrec].
  intros [= <- <-]. exists (prev ++ [out]), n2. split_and!; [done|lia| |].
  - intros i o Hi Hlt. rewrite length_app in Hlt. simpl in Hlt. rewrite lookup_app_l in Hi by lia.
    eapply (Forall_lookup_1 _ _ _ _ Hprev), Hi.
  - exists out. split; [apply last_snoc|by left].
Qed.

Lemma attempts_spec {W} `{Upstream W} call path left prev o e (n0 n n' : W) r :
  NewRequest (N := W) (hc_method call) (hc_url call) = Ok tt ->
  tries call n0 (prev ++ [o]) n ->
  Forall (fun o => exists e, retryable (hc_method call) path o e) prev -> retryable (hc_method call) path o e ->
  attempts call path left (Z.of_nat (length (prev ++ [o]))) (Some e) n = (n', r) ->
  tried call path (Z.of_nat (length (prev ++ [o]) + left)) n0 n' r.
Proof.
  intros Hnew. revert prev o e n. induction left as [|left IH]; intros prev o e n Htries Hprev Ho; cbn [attempts].
  all: assert (Hinit : forall i out, (prev ++ [o]) !! i = Some out -> (S i < length (prev ++ [o]))%nat ->
         exists e, retryable (hc_method call) path out e)
    by (intros i out Hi Hlt; rewrite length_app in Hlt; simpl in Hlt; rewrite lookup_app_l in Hi by lia;
        eapply (Forall_lookup_1 _ _ _ _ Hprev), Hi).
  { intros [= <- <-]. exists (prev ++ [o]), n. split_and!; [done|lia|done|]. exists o.
    split; [apply last_snoc|]. right. exists e. split; [done|]. left. split_and!; [lia|done..]. }
  set (k := Z.of_nat (length (prev ++ [o]))).
  assert (Hpos : (0 <? k) = true) by (apply Z.ltb_lt; subst k; rewrite length_app; simpl; lia).
  rewrite Hpos.
  assert (Hstop : forall n' r, interrupted n k n' r -> tried call path (Z.of_nat (length (prev ++ [o]) + S left)) n0 n' r).
  { intros n1 r1 Hint. exists (prev ++ [o]), n. split_and!; [done|lia|done|]. exists o.
    split; [apply last_snoc|]. right. exists e. split; [done|]. right. split; [lia|done]. }
  destruct (backoff n k) as [nb [d|]] eqn:Hb; [|intros [= <- <-]; apply Hstop; by right].
  destruct (ctx_wait nb d) as [nr [e'|]] eqn:Hw;
    [intros [= <- <-]; apply Hstop; left; by exists nb, d, e'|].
  rewrite Hnew. destruct (net_Do nr call) as [n2 out] eqn:Hdo. intros Hrun.
  assert (Hlen : Z.of_nat (length (prev ++ [o])) + 1 = Z.of_nat (length ((prev ++ [o]) ++ [out])))
    by (rewrite (length_app (prev ++ [o])); simpl; lia).
  assert (Hmax : (length (prev ++ [o]) + S left = length ((prev ++ [o]) ++ [out]) + left)%nat) by lia.
  rewrite Hmax. subst k. rewrite Hlen in Hrun.
  assert (Hall : Forall (fun o => exists e, retryable (hc_method call) path o e) (prev ++ [o]))
    by (apply Forall_app; split; [done|]; apply Forall_singleton; eauto).
  assert (Hnext : tries call n0 ((prev ++ [o]) ++ [out]) n2) by by eapply tries_again.
  eapply tried_exchange; [exact Hdo|exact Hnext|exact Hall| |exact Hrun].
  intros e2 He2 Hrec. by eapply IH.
Qed.

(** C28. Retries are bounded and principled.  One upstream request is the same
    HTTP call, made at least once and at most [MaxRetries + 1] times, each after
    the first preceded by the wait [backoff] gives.  It goes on after a transport
    error, a reply that breaks off or a 5xx, and after nothing else: a readable
    reply below 500, or one over the size limit, is the answer at once.  When
    the last outcome is one to retry on, either the attempts are used up and its
    error is the answer, or the wait for the next attempt was interrupted, and
    the answer is the interruption's error. *)
Theorem retry_correct c (n n' : N * list exchange) method path payload tok r
    (Hretries : 0 <= MaxRetries (cfg c))
    (Hnew : NewRequest (N := N) method (callURL (Address (cfg c)) path) = Ok tt)
    (Hrun : doRequest c n method path payload tok = (n', r)) :
  exists outs nw, let call := callOf (cfg c) method path payload tok in
    tries call n outs nw /\ snd n' = snd n ++ exchanges call outs /\
    1 <= Z.of_nat (length outs) <= MaxRetries (cfg c) + 1 /\
    (forall i out, outs !! i = Some out -> (S i < length outs)%nat -> exists e, retryable method path out e) /\
    ends method path (MaxRetries (cfg c) + 1) outs nw n' r.
Proof.
  unfold doRequest in Hrun. set (call := callOf (cfg c) method path payload tok) in *.
  destruct (Z.to_nat (MaxRetries (cfg c) + 1)) as [|left] eqn:Hleft; [lia|].
  cbn [attempts] in Hrun. change (0 <? 0) with false in Hrun. cbn beta iota zeta in Hrun.
  change (NewRequest (hc_method call) (hc_url call)) with (NewRequest (N := N) method (callURL (Address (cfg c)) path)) in Hrun.
  rewrite Hnew in Hrun. destruct (net_Do n call) as [n2 out] eqn:Hdo.
  assert (Hfirst : tries call n [out] n2) by by apply tries_first.
  assert (Htried : tried call path (MaxRetries (cfg c) + 1) n n' r).
  { replace (MaxRetries (cfg c) + 1) with (Z.of_nat (length ([] ++ [out]) + left)) by (simpl; lia).
    eapply (tried_exchange call path left []); [exact Hdo|exact Hfirst|done| |exact Hrun].
    intros e He. by eapply (attempts_spec (W := N * list exchange)). }
  destruct Htried as (outs & nw & Htries & Hlen & Hinit & Hends). exists outs, nw. cbn zeta.
  split_and!; [done| | |done|done|done].
  - rewrite <- (tries_log _ _ _ _ Htries). destruct Hends as (o & _ & [[_ ->]|(e & _ & [(_ & _ & ->)|[_ Hint]])]);
      [done..|]. by eapply interrupted_log.
  - destruct Hends as (o & Hlast & _). destruct outs; [done|]. simpl. lia.
Qed.

(** The wait before attempt [a] is 100ms doubled with each attempt, at most
    five seconds, plus a jitter of at most half of that; from attempt 38 on the
    doubling can overflow, and that attempt panics. *)
Theorem backoff_bounded (n : N) a
    (Hrand : forall n b, 0 < b -> 0 <= snd (rand_Int63n (N := N) n b) < b) :
  (1 <= a <= 37 -> exists n' d, backoff n a = (n', Some d) /\
     backoffBase a = Z.min (100 * Millisecond * 2 ^ (a - 1)) (5 * Second) /\
     backoffBase a <= d <= backoffBase a + backoffBase a / 2) /\
  snd (backoff n 38) = None.
Proof.
  split; [|done]. intros Ha.
  assert (Hbase : backoffBase a = Z.min (100 * Millisecond * 2 ^ (a - 1)) (5 * Second) /\
                  100000000 <= backoffBase a <= 5000000000).
  { assert (Hall : forallb (fun a => (backoffBase a =? Z.min (100 * Millisecond * 2 ^ (a - 1)) (5 * Second))
               && (100000000 <=? backoffBase a) && (backoffBase a <=? 5000000000))
               (map Z.of_nat (seq 1 37)) = true) by (vm_compute; reflexivity).
    rewrite forallb_forall in Hall. specialize (Hall a).
    assert (Hin : In a (map Z.of_nat (seq 1 37))).
    { apply in_map_iff. exists (Z.to_nat a). split; [lia|]. apply in_seq. lia. }
    apply Hall in Hin. reflect_bools. lia. }
  destruct Hbase as [Hbase Hrange]. unfold backoff.
  rewrite Z.quot_div_nonneg by lia. set (b := backoffBase a) in *.
  destruct (Z.leb_spec (b / 2 + 1) 0) as [?|Hpos]; [Z.div_mod_to_equations; lia|].
  pose proof (Hrand n _ Hpos) as Hj. destruct (rand_Int63n n (b / 2 + 1)) as [n' jitter]. simpl in Hj.
  exists n', (wrap64 (b + jitter)). split; [done|]. split; [done|].
  rewrite wrap64_id; [lia|]. unfold is_int64, min_int64, max_int64. Z.div_mod_to_equations. lia.
Qed.

(** ** What goes upstream *)

(** [n'] is [n] after exchanges of calls that satisfy [P]. *)
Definition extends (P : HttpCall -> Prop) (n n' : N * list exchange) : Prop :=
  exists l, snd n' = snd n ++ l /\ Forall (fun x => P (x_call x)) l.

#[export] Instance extends_preorder P : PreOrder (extends P).
Proof.
  split.
  - intros n. exists []. by rewrite app_nil_r.
  - intros n1 n2 n3 (l1 & Hl1 & HF1) (l2 & Hl2 & HF2). exists (l1 ++ l2).
    rewrite Hl2, Hl1, app_assoc. split; [done|]. by apply Forall_app.
Qed.

Lemma extends_same P n n' : snd n' = snd n -> extends P n n'.
Proof. intros Hn. exists []. by rewrite app_nil_r. Qed.

Lemma extends_weaken (P Q : HttpCall -> Prop) n n' :
  (forall c, P c -> Q c) -> extends P n n' -> extends Q n n'.
Proof. intros HPQ (l & Hl & HP). exists l. split; [done|]. eapply Forall_impl; [exact HP|]. auto. Qed.

Lemma attempts_extends call path left attempt lastErr n :
  extends (eq call) n (fst (attempts call path left attempt lastErr n)).
Proof.
  revert attempt lastErr n. induction left as [|left IH]; intros attempt lastErr n; cbn [attempts]; [done|].
  destruct (if 0 <? attempt then _ else _) as [n1 stop] eqn:Hstop.
  assert (Hn1 : extends (eq call) n n1).
  { apply extends_same. destruct (0 <? attempt); [|by simplify_eq].
    pose proof (backoff_log n attempt) as Hb. destruct (backoff n attempt) as [n2 [d|]]; cbn [fst] in Hb;
      [|by simplify_eq]. pose proof (wait_log n2 d) as Hw. rewrite Hstop in Hw. by rewrite <- Hb. }
  etrans; [exact Hn1|]. destruct stop; [done|]. destruct (NewRequest _ _); [|done].
  cbn [net_Do logged]. destruct (net_Do (fst n1) call) as [n2 out].
  assert (Hn2 : extends (eq call) n1 (n2, snd n1 ++ [{| x_call := call; x_out := out |}])).
  { eexists. split; [done|]. by apply Forall_singleton. }
  destruct (judge _ _ out); [done|]. etrans; [exact Hn2|apply IH].
Qed.

Lemma doRequest_extends c n method path payload tok :
  extends (eq (callOf (cfg c) method path payload tok)) n (fst (doRequest c n method path payload tok)).
Proof. apply attempts_extends. Qed.

Lemma doRaw_extends {A} c n method path body tok (decode : bytes -> result A) zero :
  extends (eq (callOf (cfg c) method path (option_map json_Marshal body) tok)) n
    (fst (doRaw c n method path body tok decode zero)).
Proof.
  unfold doRaw. pose proof (doRequest_extends c n method path (option_map json_Marshal body) tok) as Hx.
  by destruct (doRequest _ _ _ _ _ _).
Qed.

Lemma time_extends P n expiry : extends P n (fst (time_Until n expiry)).
Proof.
  apply extends_same. unfold time_Until. simpl. by destruct (time_Now (fst n)).
Qed.

Lemma lease_extends P n secs : extends P n (fst (leaseExpiry n secs)).
Proof. apply extends_same. unfold leaseExpiry. simpl. by destruct (time_Now (fst n)). Qed.

(** The two calls that obtain a token: a login, which carries none, and the
    renewal of the token held. *)
Definition login_call (c : Client) (call : HttpCall) : Prop :=
  call = callOf (cfg c) MethodPost (loginPath (cfg c)) (Some (json_Marshal (loginBody (cfg c)))) "".
Definition renew_call (c : Client) (call : HttpCall) : Prop :=
  token c <> "" /\ call = callOf (cfg c) MethodPost renewPath None (token c).
Definition auth_call (c : Client) (call : HttpCall) : Prop := login_call c call \/ renew_call c call.

(** The same client, but for its token. *)
Definition same_cfg (c c' : Client) : Prop := cfg c' = cfg c.

Lemma Login_spec c n :
  let '(c', n', r) := Login c n in
  extends (login_call c) n n' /\ same_cfg c c' /\
  match r with Ok _ => token c' <> "" | Err _ => c' = c end.
Proof.
  unfold Login.
  pose proof (doRaw_extends c n MethodPost (loginPath (cfg c)) (Some (loginBody (cfg c))) "" json_auth None) as Hx.
  destruct (doRaw _ _ _ _ _ _ _ _) as [n1 r]. cbn [fst] in Hx.
  assert (Hx' : extends (login_call c) n n1) by (eapply extends_weaken; [|exact Hx]; by intros ? <-).
  destruct r as [[auth|]|e]; [|done..].
  destruct (String.eqb_spec (ClientToken auth) "") as [_|Hne]; [done|].
  pose proof (lease_extends (login_call c) n1 (LeaseDuration auth)) as Hl.
  destruct (leaseExpiry n1 _) as [n2 expiry]. split; [by etrans|]. split; [done|]. exact Hne.
Qed.

Lemma renewSelf_spec c n :
  token c <> "" ->
  let '(c', n', r) := renewSelf c n in
  extends (renew_call c) n n' /\ same_cfg c c' /\ token c' = token c.
Proof.
  intros Htok. unfold renewSelf.
  pose proof (doRaw_extends c n MethodPost renewPath None (token c) json_auth None) as Hx.
  destruct (doRaw _ _ _ _ _ _ _ _) as [n1 r]. cbn [fst] in Hx.
  assert (Hx' : extends (renew_call c) n n1) by (eapply extends_weaken; [|exact Hx]; by intros ? <-).
  destruct r as [[auth|]|e]; [|done..].
  pose proof (lease_extends (renew_call c) n1 (LeaseDuration auth)) as Hl.
  destruct (leaseExpiry n1 _) as [n2 expiry]. split; [by etrans|done].
Qed.

(** The result of every way to a token. *)
Definition token_ok (c : Client) (n : N * list exchange) (res : (Client * (N * list exchange)) * result string)
    : Prop :=
  let '(c', n', r) := res in
  extends (auth_call c) n n' /\ same_cfg c c' /\
  match r with Ok tok => tok = token c' /\ tok <> "" | Err _ => True end.

Lemma loginToken_ok c n : token_ok c n (loginToken c n).
Proof.
  unfold token_ok, loginToken. pose proof (Login_spec c n) as Hl.
  destruct (Login c n) as [[c' n'] [[]|e]]; destruct Hl as (Hx & Hc & Hr);
    (split; [eapply extends_weaken; [|exact Hx]; by left|done]).
Qed.

Lemma token_ok_after c n c1 n1 res :
  extends (auth_call c) n n1 -> same_cfg c c1 -> token c1 = token c -> token_ok c1 n1 res -> token_ok c n res.
Proof.
  intros Hx Hc Ht. unfold token_ok. destruct res as [[c' n'] r]. intros (Hx' & Hc' & Hr).
  split_and!; [|by unfold same_cfg in *; congruence|done]. etrans; [exact Hx|].
  eapply extends_weaken; [|exact Hx']. unfold auth_call, login_call, renew_call, same_cfg in *.
  intros call. by rewrite Hc, Ht.
Qed.

Lemma renewToken_ok c n : token c <> "" -> token_ok c n (renewToken c n).
Proof.
  intros Htok. unfold renewToken. destruct (renewable c); [|apply loginToken_ok].
  pose proof (time_extends (auth_call c) n (tokenExpiry c)) as Ht.
  destruct (time_Until n (tokenExpiry c)) as [n1 remaining]. cbn [fst] in Ht.
  destruct (0 <? remaining); [|by eapply token_ok_after; [exact Ht| | |apply loginToken_ok]].
  pose proof (renewSelf_spec c n1 Htok) as Hr. destruct (renewSelf c n1) as [[c2 n2] r].
  destruct Hr as (Hx & Hc & Htk).
  assert (Hx' : extends (auth_call c) n n2).
  { etrans; [exact Ht|]. eapply extends_weaken; [|exact Hx]. by right. }
  destruct r as [[]|e].
  - unfold token_ok. split_and!; [done..|]. by rewrite Htk.
  - eapply token_ok_after; [exact Hx'|done|done|apply loginToken_ok].
Qed.

Lemma ensureToken_ok c n : token_ok c n (ensureToken c n).
Proof.
  unfold ensureToken. destruct (String.eqb_spec (token c) "") as [_|Htok]; [apply loginToken_ok|].
  pose proof (time_extends (auth_call c) n (tokenExpiry c)) as Ht.
  destruct (time_Until n (tokenExpiry c)) as [n1 remaining]. cbn [fst] in Ht.
  destruct (_ <? remaining); [by unfold token_ok|].
  eapply token_ok_after; [exact Ht|done|done|by apply renewToken_ok].
Qed.

(** Nothing goes upstream but what was decided: a [Sign] call exchanges
    only AppRole logins, renewals of the token held, and POSTs of exactly the
    CSR and options given to the sign endpoint of exactly the role given, under
    a token that is not empty; without a role or without a CSR it exchanges
    nothing.  A bundle it returns carries a certificate. *)
Theorem sign_sends_only (c : Client) (n : N * list exchange) role csrPEM opts :
  let '(c', n', r) := Sign (c, n) role csrPEM opts in
  extends (fun call => role <> "" /\ csrPEM <> "" /\
             (auth_call c call \/
              exists tok, tok <> "" /\
                call = callOf (cfg c) MethodPost (signPath (cfg c) role)
                         (Some (json_Marshal (signBody csrPEM opts))) tok)) n n' /\
  cfg c' = cfg c /\
  match r with Ok b => B_Certificate b <> "" | Err _ => True end.
Proof.
  cbn [Sign Client_Enroller]. unfold Client_Sign.
  destruct (String.eqb_spec role "") as [->|Hrole]; [done|].
  destruct (String.eqb_spec csrPEM "") as [->|Hcsr]; [done|].
  unfold do_pki. pose proof (ensureToken_ok c n) as Ht. unfold token_ok in Ht.
  destruct (ensureToken c n) as [[c1 n1] [tok|e]]; destruct Ht as (Hx & Hc & Hr); cycle 1.
  { split; [|done]. eapply extends_weaken; [|exact Hx]. by intros call Hcall; split_and!; [| |left]. }
  destruct Hr as [_ Htok].
  pose proof (doRaw_extends c1 n1 MethodPost (signPath (cfg c) role) (Some (signBody csrPEM opts))
                tok json_pki zeroPki) as Hd.
  destruct (doRaw _ _ _ _ _ _ _ _) as [n2 r]. cbn [fst] in Hd. split_and!; [|done|].
  - etrans; (eapply extends_weaken; [|first [exact Hx|exact Hd]]).
    + by intros call Hcall; split_and!; [| |left].
    + intros call <-. split_and!; [done..|]. right. exists tok. unfold same_cfg in Hc. by rewrite Hc.
  - destruct r as [out|e]; simpl; [|done].
    by destruct (String.eqb_spec (B_Certificate out) "").
Qed.
End Client.

(** ** Names and roles on the wire *)

Definition comma_free (l : list string) : Prop := Forall (fun s => no_byte "," s = true) l.

Lemma split_on_free sep a : no_byte sep a = true -> split_on sep a = [a].
Proof.
  induction a as [|c a IH]; simpl; [done|]. intros [Hc Ha]%andb_true_iff.
  apply negb_true_iff in Hc. by rewrite Hc, IH.
Qed.

Lemma split_on_app sep a b :
  no_byte sep a = true -> split_on sep (String.append a (String sep b)) = a :: split_on sep b.
Proof.
  induction a as [|c a IH]; simpl; [by rewrite Ascii.eqb_refl|]. intros [Hc Ha]%andb_true_iff.
  apply negb_true_iff in Hc. by rewrite Hc, IH.
Qed.

Lemma split_join_rest v l :
  comma_free (v :: l) -> split_on "," (String.append v (join_rest l)) = v :: l.
Proof.
  revert v. induction l as [|w l IH]; intros v Hl; apply Forall_cons in Hl as [Hv Hl]; cbn [join_rest].
  - rewrite string_app_nil_r. by apply split_on_free.
  - rewrite split_on_app by done. by rewrite IH.
Qed.

Lemma split_on_pieces sep s : Forall (fun p => no_byte sep p = true) (split_on sep s).
Proof.
  unfold no_byte. induction s as [|c s IH]; simpl; [by repeat constructor|].
  destruct (Ascii.eqb c sep) eqn:Hc; [by constructor|].
  destruct (split_on sep s) as [|p ps]; [by repeat constructor; simpl; rewrite Hc|].
  apply Forall_cons in IH as [Hp Hps]. constructor; [|done]. simpl. by rewrite Hc.
Qed.

(** The names OpenBao is asked for are the names decided: the upstream,
    which splits the comma-separated fields, gets back exactly the list that was
    joined if and only if no name of it contains a comma. *)
Theorem joined_names_exact (names : list string) (Hne : names <> []) :
  split_on "," (joinComma names) = names <-> comma_free names.
Proof.
  destruct names as [|v l]; [done|]. cbn [joinComma]. split.
  - intros Hs. unfold comma_free. rewrite <- Hs. apply split_on_pieces.
  - apply split_join_rest.
Qed.

Lemma joined_names_exact_witness :
  split_on "," (joinComma ["a.example.com"; "b.example.com"]) = ["a.example.com"; "b.example.com"].
Proof.
  apply (proj2 (joined_names_exact ["a.example.com"; "b.example.com"] ltac:(discriminate))).
  repeat constructor.
Defined.

(** One name with a comma in it reaches the upstream as two. *)
Example comma_splits_upstream :
  split_on "," (joinComma ["evil.test,x.example.com"]) = ["evil.test"; "x.example.com"].
Proof. vm_compute. reflexivity. Qed.

(** [url.PathUnescape] *)
Fixpoint PathUnescape (s : string) : option string :=
  match s with
  | EmptyString => Some EmptyString
  | String c s' =>
      if Ascii.eqb c "%" then
        match s' with
        | String h (String l s'') =>
            match unhex h, unhex l with
            | Some h, Some l => option_map (String (byte_chr (16 * h + l))) (PathUnescape s'')
            | _, _ => None
            end
        | _ => None
        end
      else option_map (String c) (PathUnescape s')
  end.

Lemma segment_byte_plain c :
  path_segment_byte c = true -> Ascii.eqb c "%" = false /\ Ascii.eqb c "/" = false /\ Ascii.eqb c "?" = false.
Proof.
  intros Hc.
  assert (Hall : forallb (fun c => negb (path_segment_byte c) ||
     (negb (Ascii.eqb c "%") && negb (Ascii.eqb c "/") && negb (Ascii.eqb c "?"))) all_bytes = true)
    by (vm_compute; reflexivity).
  pose proof (for_all_bytes _ Hall c) as Hb. simpl in Hb. rewrite Hc in Hb. simpl in Hb. by reflect_bools.
Qed.

Lemma hex_digit_unhex d :
  (d < 16)%N -> unhex (upper_hex_digit d) = Some d /\ Ascii.eqb (upper_hex_digit d) "/" = false /\
  Ascii.eqb (upper_hex_digit d) "?" = false.
Proof.
  intros Hd.
  assert (Hall : forallb (fun d => bool_decide (unhex (upper_hex_digit d) = Some d) &&
     negb (Ascii.eqb (upper_hex_digit d) "/") && negb (Ascii.eqb (upper_hex_digit d) "?"))
     (map N.of_nat (seq 0 16)) = true) by (vm_compute; reflexivity).
  rewrite forallb_forall in Hall. specialize (Hall d).
  assert (Hin : In d (map N.of_nat (seq 0 16))).
  { apply in_map_iff. exists (N.to_nat d). split; [lia|]. apply in_seq. lia. }
  apply Hall in Hin. reflect_bools. split_and!; [by apply bool_decide_eq_true in H|done|done].
Qed.

Lemma byte_halves c : (byte_val c / 16 < 16)%N /\ (byte_val c mod 16 < 16)%N /\
  byte_chr (16 * (byte_val c / 16) + byte_val c mod 16) = c.
Proof.
  pose proof (byte_val_bound c). split_and!.
  - apply N.Div0.div_lt_upper_bound. lia.
  - apply N.mod_lt. lia.
  - rewrite <- N.div_mod' by lia. apply byte_val_inj. by rewrite byte_val_chr.
Qed.

Lemma PathEscape_spec s :
  PathUnescape (PathEscape s) = Some s /\ no_byte "/" (PathEscape s) = true /\
  no_byte "?" (PathEscape s) = true.
Proof.
  induction s as [|c s (IH1 & IH2 & IH3)]; [done|]. cbn [PathEscape].
  destruct (path_segment_byte c) eqn:Hc.
  - apply segment_byte_plain in Hc as (H1 & H2 & H3). unfold no_byte in *. simpl.
    by rewrite H1, H2, H3, IH1, IH2, IH3.
  - destruct (byte_halves c) as (Hhi & Hlo & Hback).
    destruct (hex_digit_unhex _ Hhi) as (Hu1 & Hs1 & Hq1).
    destruct (hex_digit_unhex _ Hlo) as (Hu2 & Hs2 & Hq2). unfold no_byte in *.
    cbn [PathUnescape string_forallb]. rewrite Ascii.eqb_refl, Hu1, Hu2, IH1, Hback, Hs1, Hs2, Hq1, Hq2, IH2, IH3.
    done.
Qed.

(** A role names one endpoint: whatever the role string, the request path
    ends in one segment from which the role is read back exactly, so no role
    can reach another endpoint, mount or query, and two roles never share a
    path. *)
Theorem role_one_segment `{UnicodeTables} c role :
  signPath c role = String.append "v1/" (String.append (PKIMount c) (String.append "/sign/" (PathEscape role))) /\
  issuePath c role = String.append "v1/" (String.append (PKIMount c) (String.append "/issue/" (PathEscape role))) /\
  no_byte "/" (PathEscape role) = true /\ no_byte "?" (PathEscape role) = true /\
  PathUnescape (PathEscape role) = Some role.
Proof.
  destruct (PathEscape_spec role) as (Hu & Hs & Hq). unfold signPath, issuePath. simpl.
  rewrite !string_app_nil_r. done.
Qed.

(** *** Request bodies *)

Lemma lookup_set_if b k v (body : gmap string JSON) k' :
  set_if b k v body !! k' = if decide (k = k') then (if b then Some v else body !! k') else body !! k'.
Proof.
  unfold set_if. destruct b; [|by destruct (decide (k = k'))].
  destruct (decide (k = k')) as [->|]; [apply lookup_insert_eq|by apply lookup_insert_ne].
Qed.

(** The value of a field sent only when the code's condition holds. *)
Definition field (b : bool) (v : JSON) : option JSON := if b then Some v else None.

Lemma signBody_ttl csrPEM opts :
  Extra opts = ∅ ->
  signBody csrPEM opts !! "ttl" = field (negb (O_TTL opts =? "")%string) (JStr (O_TTL opts)).
Proof.
  intros Hextra. unfold signBody, apply. rewrite Hextra, map_empty_union.
  repeat first [rewrite lookup_set_if | rewrite lookup_insert]. cbn. unfold field.
  by destruct (negb (O_TTL opts =? "")%string).
Qed.

(** C29. The body of a sign request is exactly the decision: the CSR, the fixed
    format, and each option that is set, under its own key; nothing else is
    sent, and no option can displace the CSR. *)
Theorem sign_body_exact csrPEM opts (Hextra : Extra opts = ∅) k :
  signBody csrPEM opts !! k =
    if decide (k = "csr") then Some (JStr csrPEM)
    else if decide (k = "format") then Some (JStr "pem")
    else if decide (k = "common_name") then field (negb (O_CommonName opts =? "")%string) (JStr (O_CommonName opts))
    else if decide (k = "alt_names") then field (nonempty (AltNames opts)) (JStr (joinComma (AltNames opts)))
    else if decide (k = "ip_sans") then field (nonempty (IPSANs opts)) (JStr (joinComma (IPSANs opts)))
    else if decide (k = "uri_sans") then field (nonempty (URISANs opts)) (JStr (joinComma (URISANs opts)))
    else if decide (k = "ttl") then field (negb (O_TTL opts =? "")%string) (JStr (O_TTL opts))
    else if decide (k = "exclude_cn_from_sans") then field (O_ExcludeCNFromSANs opts) (JBool true)
    else None.
Proof.
  unfold signBody, apply. rewrite Hextra, map_empty_union.
  repeat first [rewrite lookup_set_if | rewrite lookup_insert].
  unfold field.
  repeat match goal with |- context [decide (?a = ?b)] => destruct (decide (a = b)); subst; try congruence end;
    try done; by repeat match goal with |- context [if ?b then _ else _] => destruct b end.
Qed.

(** ** A scripted upstream, for the witnesses *)

Record script := { answers : list (result (Z * Body)); clock : Time }.

#[export] Instance scripted : Upstream script := {|
  NewRequest _ _ := Ok tt;
  net_Do n _ := match answers n with
                | [] => (n, Err "connection refused")
                | out :: outs => ({| answers := outs; clock := clock n |}, out)
                end;
  time_Now n := (n, clock n);
  rand_Int63n n b := (n, 0);
  ctx_wait n d := ({| answers := answers n; clock := clock n + d |}, None);
|}.

(** The fields the client reads, with semicolons between: enough for a script. *)
Definition toy_fields (b : bytes) : list string := split_on ";" (string_of_bytes b).
Definition toy_value (v : JSON) : string :=
  match v with JStr s => s | JBool true => "true" | JBool false => "false" | JInt z => Itoa z end.

#[export] Instance toy_json : Json := {|
  json_Marshal o := bytes_of_string (Join (map (fun kv => String.append (fst kv) (String "=" (toy_value (snd kv))))
                                             (map_to_list o)) ";");
  json_auth b := match toy_fields b with
                 | [tok] => Ok (Some {| ClientToken := tok; LeaseDuration := 3600; Renewable := true |})
                 | _ => Ok None
                 end;
  json_pki b := match toy_fields b with
                | [cert; serial] => Ok {| B_Certificate := cert; IssuingCA := ""; B_CAChain := [];
                                          PrivateKey := ""; B_SerialNumber := serial |}
                | [cert; serial; key] => Ok {| B_Certificate := cert; IssuingCA := ""; B_CAChain := [];
                                               PrivateKey := key; B_SerialNumber := serial |}
                | _ => Err "unexpected end of JSON input"
                end;
  json_errors b := Err "invalid character";
|}.

Definition answer (status : Z) (body : string) : result (Z * Body) :=
  Ok (status, {| body_data := bytes_of_string body; body_err := None |}).

Definition exampleConfig : Config :=
  {| Address := "https://openbao:8200/"; PKIMount := "pki_int"; CACertPEM := []; AppRoleMount := "approle";
     RoleID := "r"; SecretID := "s"; RenewThreshold := 5 * Minute; MaxRetries := 3 |}.

Definition exampleClient : Client :=
  {| cfg := exampleConfig; token := ""; tokenExpiry := zeroTime; renewable := false |}.

Section Witnesses.
#[local] Existing Instance ascii_tables.

(** Two 503s and then the answer. *)
Definition flaky : script * list exchange :=
  ({| answers := [answer 503 "sealed"; answer 503 "sealed"; answer 200 "ok"]; clock := 0 |}, []).

Lemma retry_correct_witness :
  exists outs out, length outs = 3%nat /\
    (exists e, retryable "GET" "v1/x" (answer 503 "sealed") e /\ outs !! 0%nat = Some (answer 503 "sealed")) /\
    last outs = Some out /\ settles "GET" "v1/x" out (Ok (bytes_of_string "ok")).
Proof.
  destruct (doRequest exampleClient flaky "GET" "v1/x" None "t") as [n' r] eqn:Hrun.
  assert (Hvals : snd (doRequest exampleClient flaky "GET" "v1/x" None "t") = Ok (bytes_of_string "ok") /\
                  map x_out (snd (fst (doRequest exampleClient flaky "GET" "v1/x" None "t"))) =
                    [answer 503 "sealed"; answer 503 "sealed"; answer 200 "ok"])
    by (split; vm_compute; reflexivity).
  destruct (retry_correct exampleClient flaky n' "GET" "v1/x" None "t" r
              ltac:(vm_compute; discriminate) eq_refl Hrun)
    as (outs & nw & _ & Hlog & _ & Hinit & out & Hlast & Hends).
  rewrite Hrun in Hvals. destruct Hvals as [Hr Hlen]. cbn [fst snd] in Hr, Hlen. subst r.
  assert (Houts : outs = [answer 503 "sealed"; answer 503 "sealed"; answer 200 "ok"]).
  { rewrite Hlog in Hlen. unfold exchanges in Hlen. cbn [snd flaky app] in Hlen.
    rewrite map_map, map_id in Hlen. exact Hlen. }
  exists outs, out. split; [by rewrite Houts|]. split; [|split; [exact Hlast|]].
  - destruct (Hinit 0%nat (answer 503 "sealed")) as [e He]; [by rewrite Houts..|simpl; rewrite Houts; simpl; lia|].
    exists e. split; [exact He|]. by rewrite Houts.
  - destruct Hends as [[Hs _]|(e & _ & [(_ & Hj & _)|[_ [(nb & d & e' & _ & _ & Hj)|[_ Hj]]]])];
      [exact Hs|discriminate Hj..].
Defined.

Lemma backoff_bounded_witness :
  exists n' d, backoff (fst flaky) 3 = (n', Some d) /\ backoffBase 3 = 400 * Millisecond.
Proof.
  assert (Hrand : forall (n : script) b, 0 < b -> 0 <= snd (rand_Int63n n b) < b).
  { intros n b Hb. split; [reflexivity || discriminate|exact Hb]. }
  destruct (proj1 (backoff_bounded (fst flaky) 3 Hrand) ltac:(split; discriminate))
    as (n' & d & Hb & Hbase & _).
  exists n', d. split; [exact Hb|]. rewrite Hbase. vm_compute. reflexivity.
Defined.

Definition exampleOptions : SignOptions :=
  {| O_CommonName := "dev-1"; AltNames := ["a.example.com"; "b.example.com"]; IPSANs := []; URISANs := [];
     O_TTL := "720h0m0s"; O_ExcludeCNFromSANs := false; KeyType := ""; KeyBits := 0; Extra := ∅ |}.

Lemma sign_body_exact_witness :
  signBody "CSR" exampleOptions !! "alt_names" = Some (JStr "a.example.com,b.example.com").
Proof. exact (sign_body_exact "CSR" exampleOptions eq_refl "alt_names"). Defined.
End Witnesses.
