(* ===== verification/Threads.v ===== *)
(** * Goroutines: programs of atomic steps, side by side

    A [prog] is code that shares a state with other code: it returns, or makes
    one atomic step on the state (a section under a mutex, one exchange with the
    network, one reading of the clock) and goes on with what the step gave it.
    [run] executes it alone; [pool_step] is one step of any one of a list of
    them, so a run of the pool is an interleaving.

    [safe] is a logic for them in the style of rely and guarantee: an invariant
    [I] of the shared state, and a preorder [le] in which every step moves it
    up, so that what a thread knows of the past stays true. *)
From S2P Require Import Prelude.

Inductive prog (S A : Type) : Type :=
| Return (a : A)
| Atomic {B : Type} (f : S -> S * B) (k : B -> prog S A).
Arguments Return {S A} a.
Arguments Atomic {S A B} f k.

Section Threads.
Context {S : Type}.

Fixpoint p_bind {A B} (p : prog S A) (g : A -> prog S B) : prog S B :=
  match p with
  | Return a => g a
  | Atomic f k => Atomic f (fun b => p_bind (k b) g)
  end.

(** One atomic step. *)
Definition atomic {B} (f : S -> S * B) : prog S B := Atomic f Return.

(** ** Alone *)

Fixpoint run {A} (p : prog S A) (s : S) : S * A :=
  match p with
  | Return a => (s, a)
  | Atomic f k => let '(s', b) := f s in run (k b) s'
  end.

Lemma run_bind {A B} (p : prog S A) (g : A -> prog S B) s :
  run (p_bind p g) s = let '(s', a) := run p s in run (g a) s'.
Proof.
  revert s. induction p as [a|C f k IH]; intros s; simpl; [done|]. destruct (f s) as [s' b]. apply IH.
Qed.

(** ** Side by side *)

Inductive pool_step {A} : S * list (prog S A) -> nat -> S * list (prog S A) -> Prop :=
| pool_step_at s ps i B (f : S -> S * B) k :
    ps !! i = Some (Atomic f k) ->
    pool_step (s, ps) i (fst (f s), <[i := k (snd (f s))]> ps).

Definition returned {A} (p : prog S A) : Prop := match p with Return _ => True | Atomic _ _ => False end.

(** No thread waits for another: as long as one has not returned, there is a
    step. *)
Lemma pool_progress {A} s (ps : list (prog S A)) :
  Forall returned ps \/ exists i st', pool_step (s, ps) i st'.
Proof.
  induction ps as [|p ps IH]; [by left|].
  destruct p as [a|B f k].
  - destruct IH as [IH|(i & st' & Hstep)]; [left; by constructor|right].
    inversion Hstep as [s0 ps0 i0 B f k Hi]; subst. exists (Datatypes.S i). eexists.
    by apply (pool_step_at s (Return a :: ps) (Datatypes.S i) B f k).
  - right. exists O. eexists. by apply (pool_step_at s (Atomic f k :: ps) O B f k).
Qed.

(** *** Termination *)

(** Every path through [p] makes at most [n] steps. *)
Fixpoint within {A} (n : nat) (p : prog S A) {struct p} : Prop :=
  match p with
  | Return _ => True
  | Atomic f k => match n with O => False | Datatypes.S n' => forall b, within n' (k b) end
  end.

Lemma within_mono {A} m n (p : prog S A) : within m p -> (m <= n)%nat -> within n p.
Proof.
  revert m n. induction p as [a|B f k IH]; intros m n Hp Hle; [done|].
  destruct m as [|m]; [done|]. destruct n as [|n]; [lia|]. intros b. eapply IH; [apply Hp|lia].
Qed.

Lemma within_bind {A B} m n (p : prog S A) (g : A -> prog S B) :
  within m p -> (forall a, within n (g a)) -> within (m + n) (p_bind p g).
Proof.
  revert m. induction p as [a|C f k IH]; intros m Hp Hg; simpl.
  - eapply within_mono; [apply Hg|lia].
  - destruct m as [|m]; [done|]. simpl in *. intros b. by apply IH.
Qed.

Lemma within_atomic {B} (f : S -> S * B) : within 1 (atomic f).
Proof. by intros b. Qed.

Lemma sum_insert (ns : list nat) i n :
  ns !! i = Some (Datatypes.S n) -> sum_list ns = Datatypes.S (sum_list (<[i := n]> ns)).
Proof.
  revert i. induction ns as [|m ns IH]; intros [|i]; simpl; try done; [intros [= ->]; lia|].
  intros Hi. rewrite (IH i Hi). lia.
Qed.

(** Every interleaving of threads with bounds ends within the sum of the
    bounds. *)
Lemma pool_bounded {A} (ps : list (prog S A)) ns s labels st' :
  Forall2 within ns ps -> steps pool_step (s, ps) labels st' ->
  exists ns', Forall2 within ns' (snd st') /\ (length labels + sum_list ns' = sum_list ns)%nat.
Proof.
  intros Hns Hrun. remember (s, ps) as st eqn:Hst. revert s ps ns Hst Hns.
  induction Hrun as [st|st i st1 labels st' Hstep Hrun IH]; intros s ps ns -> Hns.
  - by exists ns.
  - inversion Hstep as [s0 ps0 i0 B f k Hi]; subst.
    destruct (Forall2_lookup_r _ _ _ _ _ Hns Hi) as (n & Hn & Hw).
    destruct n as [|n]; [done|].
    destruct (IH _ _ (<[i := n]> ns) eq_refl) as (ns' & Hns' & Hsum).
    + apply Forall2_insert; [done|apply Hw].
    + exists ns'. split; [done|]. rewrite (sum_insert ns i n Hn). simpl. lia.
Qed.

(** Whatever has happened so far, going on ends with every thread returned. *)
Lemma pool_completes {A} (ps : list (prog S A)) ns s :
  Forall2 within ns ps ->
  exists more st', steps pool_step (s, ps) more st' /\ Forall returned (snd st').
Proof.
  remember (sum_list ns) as m eqn:Hm. revert s ps ns Hm.
  induction m as [m IH] using lt_wf_ind. intros s ps ns -> Hns.
  destruct (pool_progress s ps) as [Hdone|(i & st' & Hstep)].
  - exists [], (s, ps). split; [constructor|done].
  - destruct (pool_bounded ps ns s [i] st' Hns ltac:(eapply steps_cons; [exact Hstep|constructor]))
      as (ns' & Hns' & Hsum). simpl in Hsum. destruct st' as [s' ps'].
    destruct (IH (sum_list ns') ltac:(lia) s' ps' ns' eq_refl Hns') as (more & st2 & Hrun & Hret).
    exists (i :: more), st2. split; [by eapply steps_cons|done].
Qed.

(** Threads with one bound: however a run goes, it ends within the bound, and
    it can be completed within it. *)
Lemma pool_ends {A} n (ps : list (prog S A)) s labels st :
  Forall (within n) ps -> steps pool_step (s, ps) labels st ->
  (length labels <= length ps * n)%nat /\
  exists more st', steps pool_step st more st' /\ Forall returned (snd st') /\
    (length (labels ++ more) <= length ps * n)%nat.
Proof.
  intros Hps Hrun.
  assert (Hns : Forall2 within (replicate (length ps) n) ps) by (clear -Hps; induction Hps; simpl; by constructor).
  assert (Hsum : sum_list (replicate (length ps) n) = (length ps * n)%nat)
    by (clear; induction ps; simpl; lia).
  destruct (pool_bounded _ _ _ _ _ Hns Hrun) as (ns' & Hns' & Hlen). split; [lia|].
  destruct st as [s' ps']. destruct (pool_completes ps' ns' s' Hns') as (more & st' & Hmore & Hret).
  exists more, st'. split_and!; [done..|].
  destruct (pool_bounded _ _ _ _ _ Hns (steps_app _ _ _ _ _ _ Hrun Hmore)) as (ns2 & _ & Hlen2). lia.
Qed.

(** A schedule, executed. *)
Fixpoint schedule {A} (labels : list nat) (st : S * list (prog S A)) : option (S * list (prog S A)) :=
  match labels with
  | [] => Some st
  | i :: labels' =>
      match snd st !! i with
      | Some (Atomic f k) =>
          let '(s', b) := f (fst st) in schedule labels' (s', <[i := k b]> (snd st))
      | _ => None
      end
  end.

Lemma schedule_steps {A} labels (st st' : S * list (prog S A)) :
  schedule labels st = Some st' -> steps pool_step st labels st'.
Proof.
  revert st. induction labels as [|i labels IH]; intros [s ps]; cbn [schedule fst snd].
  - intros [= <-]. constructor.
  - destruct (ps !! i) as [[a|B f k]|] eqn:Hi; [done| |done].
    pose proof (pool_step_at s ps i B f k Hi) as Hstep. destruct (f s) as [s1 b]. intros Hs.
    eapply steps_cons; [exact Hstep|by apply IH].
Qed.

(** *** Running one thread to its end is an interleaving *)

Lemma pool_run_alone {A} (p : prog S A) i (ps : list (prog S A)) s :
  ps !! i = Some p ->
  exists labels, Forall (eq i) labels /\
    steps pool_step (s, ps) labels (fst (run p s), <[i := Return (snd (run p s))]> ps).
Proof.
  revert s ps. induction p as [a|B f k IH]; intros s ps Hi; simpl.
  - exists []. split; [done|]. rewrite list_insert_id by done. constructor.
  - pose proof (pool_step_at s ps i B f k Hi) as Hstep. destruct (f s) as [s1 b] eqn:Hf. simpl in *.
    destruct (IH b s1 (<[i := k b]> ps)) as (labels & Hl & Hrun).
    { apply list_lookup_insert_eq. by eapply lookup_lt_Some. }
    exists (i :: labels). split; [by constructor|]. eapply steps_cons; [exact Hstep|].
    by rewrite list_insert_insert_eq in Hrun.
Qed.

(** The threads one after the other. *)
Fixpoint run_all {A} (ps : list (prog S A)) (s : S) : S * list A :=
  match ps with
  | [] => (s, [])
  | p :: ps' => let '(s1, a) := run p s in let '(s2, l) := run_all ps' s1 in (s2, a :: l)
  end.

Lemma pool_run_all_from {A} (ps : list (prog S A)) done_ s :
  exists labels, steps pool_step (s, map Return done_ ++ ps) labels
                   (fst (run_all ps s), map Return (done_ ++ snd (run_all ps s))).
Proof.
  revert done_ s. induction ps as [|p ps IH]; intros done_ s; cbn [run_all].
  - exists []. rewrite !app_nil_r. constructor.
  - assert (Hi : (map Return done_ ++ p :: ps) !! length done_ = Some p)
      by (rewrite lookup_app_r, length_map, Nat.sub_diag by (by rewrite length_map); done).
    destruct (pool_run_alone p (length done_) _ s Hi) as (labels & _ & Hrun).
    destruct (run p s) as [s1 a]. cbn [fst snd] in Hrun.
    rewrite <- (length_map (Return (S := S)) done_) in Hrun.
    rewrite insert_app_r_alt, Nat.sub_diag in Hrun by done. cbn in Hrun.
    destruct (IH (done_ ++ [a]) s1) as (labels2 & Hrun2).
    destruct (run_all ps s1) as [s2 l]. cbn [fst snd] in *. exists (labels ++ labels2).
    eapply steps_app; [exact Hrun|]. rewrite map_app, <- app_assoc in Hrun2. rewrite <- app_assoc in Hrun2. exact Hrun2.
Qed.

(** It is one of the interleavings. *)
Lemma pool_run_all {A} (ps : list (prog S A)) s :
  exists labels, steps pool_step (s, ps) labels (fst (run_all ps s), map Return (snd (run_all ps s))).
Proof. exact (pool_run_all_from ps [] s). Qed.

(** ** Rely and guarantee *)

Section Safe.
Context (I : S -> Prop) (le : S -> S -> Prop) `{!PreOrder le}.

(** From a state at least [s], whatever the others do, [p] keeps the invariant,
    only moves up, and ends with [Q]. *)
Fixpoint safe {A} (Q : A -> S -> Prop) (p : prog S A) (s : S) : Prop :=
  match p with
  | Return a => Q a s
  | Atomic f k => forall s1, le s s1 -> I s1 ->
      I (fst (f s1)) /\ le s1 (fst (f s1)) /\ safe Q (k (snd (f s1))) (fst (f s1))
  end.

Definition monotone {A} (Q : A -> S -> Prop) : Prop := forall a s s', le s s' -> Q a s -> Q a s'.

Lemma safe_mono {A} (Q : A -> S -> Prop) p s s' : monotone Q -> le s s' -> safe Q p s -> safe Q p s'.
Proof.
  intros HQ Hle. destruct p as [a|B f k]; simpl; [by apply HQ|].
  intros Hp s1 Hs1. apply Hp. by trans s'.
Qed.

Lemma safe_weaken {A} (Q1 Q2 : A -> S -> Prop) p s :
  (forall a s', Q1 a s' -> Q2 a s') -> safe Q1 p s -> safe Q2 p s.
Proof.
  intros HQ. revert s. induction p as [a|B f k IH]; intros s; simpl; [apply HQ|].
  intros Hp s1 Hle HI. destruct (Hp s1 Hle HI) as (HI' & Hle' & Hk). split_and!; [done..|by apply IH].
Qed.

Lemma safe_bind {A B} (Q1 : A -> S -> Prop) (Q2 : B -> S -> Prop) p g s :
  safe Q1 p s -> (forall a s', le s s' -> Q1 a s' -> safe Q2 (g a) s') -> safe Q2 (p_bind p g) s.
Proof.
  revert s. induction p as [a|C f k IH]; intros s Hp Hg; simpl in *; [by apply Hg|].
  intros s1 Hle HI. destruct (Hp s1 Hle HI) as (HI' & Hle' & Hk). split_and!; [done..|].
  apply IH; [done|]. intros a s' Hs'. apply Hg. trans s1; [done|]. by trans (fst (f s1)).
Qed.

Lemma safe_atomic {B} (Q : B -> S -> Prop) (f : S -> S * B) s :
  (forall s1, le s s1 -> I s1 -> I (fst (f s1)) /\ le s1 (fst (f s1)) /\ Q (snd (f s1)) (fst (f s1))) ->
  safe Q (atomic f) s.
Proof. done. Qed.

(** Threads that are safe one by one are safe together, each with its own
    postcondition. *)
Lemma pool_safe {A} (Qs : list (A -> S -> Prop)) (ps : list (prog S A)) s labels st' :
  Forall monotone Qs -> I s -> Forall2 (fun Q p => safe Q p s) Qs ps -> steps pool_step (s, ps) labels st' ->
  I (fst st') /\ le s (fst st') /\ Forall2 (fun Q p => safe Q p (fst st')) Qs (snd st').
Proof.
  intros HQ HI Hps Hrun. remember (s, ps) as st eqn:Hst. revert s ps Hst HI Hps.
  induction Hrun as [st|st i st1 labels st' Hstep Hrun IH]; intros s ps -> HI Hps; [done|].
  inversion Hstep as [s0 ps0 i0 B f k Hi]; subst.
  destruct (Forall2_lookup_r _ _ _ _ _ Hps Hi) as (Q & HQi & Hp). simpl in Hp.
  destruct (Hp s ltac:(done) HI) as (HI' & Hle & Hk).
  destruct (IH (fst (f s)) _ eq_refl HI') as (HI2 & Hle2 & Hps2).
  - rewrite <- (list_insert_id Qs i Q HQi). apply Forall2_insert; [|done].
    apply Forall2_same_length_lookup_2; [by eapply Forall2_length|].
    intros j Q' p' HQ' Hp'. eapply safe_mono; [|exact Hle|].
    + by eapply (Forall_lookup_1 _ _ _ _ HQ).
    + by eapply (Forall2_lookup_lr _ _ _ _ _ _ Hps).
  - split_and!; [done|by trans (fst (f s))|done].
Qed.
End Safe.

(** ** Ghost state

    A thread that can be followed with ghost state of type [G], in which [le]
    says what stays true: each of its steps, from any state and ghost state that
    go together ([I]), has a next ghost state to go with. *)

Section Ghost.
Context {G : Type} (I : S -> G -> Prop) (le : G -> G -> Prop) `{!PreOrder le}.

Fixpoint upholds {A} (Q : A -> G -> Prop) (p : prog S A) (w : G) : Prop :=
  match p with
  | Return a => Q a w
  | Atomic f k => forall s1 w1, le w w1 -> I s1 w1 ->
      exists w2, le w1 w2 /\ I (fst (f s1)) w2 /\ upholds Q (k (snd (f s1))) w2
  end.

Definition lasting {A} (Q : A -> G -> Prop) : Prop := forall a w w', le w w' -> Q a w -> Q a w'.

Lemma upholds_mono {A} (Q : A -> G -> Prop) p w w' : lasting Q -> le w w' -> upholds Q p w -> upholds Q p w'.
Proof.
  intros HQ Hle. destruct p as [a|B f k]; simpl; [by apply HQ|].
  intros Hp s1 w1 Hw1. apply Hp. by trans w'.
Qed.

Lemma upholds_bind {A B} (Q1 : A -> G -> Prop) (Q2 : B -> G -> Prop) p g w :
  upholds Q1 p w -> (forall a w', le w w' -> Q1 a w' -> upholds Q2 (g a) w') -> upholds Q2 (p_bind p g) w.
Proof.
  revert w. induction p as [a|C f k IH]; intros w Hp Hg; simpl in *; [by apply Hg|].
  intros s1 w1 Hle HI. destruct (Hp s1 w1 Hle HI) as (w2 & Hle2 & HI2 & Hk). exists w2. split_and!; [done..|].
  apply IH; [done|]. intros a w' Hw'. apply Hg. trans w1; [done|]. by trans w2.
Qed.

(** Every step of [p] is in [R]. *)
Fixpoint steps_in {A} (R : S -> S -> Prop) (p : prog S A) : Prop :=
  match p with
  | Return _ => True
  | Atomic f k => forall s, R s (fst (f s)) /\ steps_in R (k (snd (f s)))
  end.

Lemma steps_in_bind {A B} R (p : prog S A) (g : A -> prog S B) :
  steps_in R p -> (forall a, steps_in R (g a)) -> steps_in R (p_bind p g).
Proof.
  induction p as [a|C f k IH]; intros Hp Hg; simpl in *; [apply Hg|].
  intros s. destruct (Hp s) as [Hr Hk]. split; [done|by apply IH].
Qed.

(** Code that does not touch what the ghost state is about. *)
Lemma upholds_quiet {A} R (Q : A -> G -> Prop) (p : prog S A) w :
  (forall s s' w', R s s' -> I s w' -> I s' w') -> steps_in R p -> (forall a w', le w w' -> Q a w') -> upholds Q p w.
Proof.
  intros HR. revert w. induction p as [a|B f k IH]; intros w Hp HQ; simpl in *; [by apply HQ|].
  intros s1 w1 Hle HI. destruct (Hp s1) as [Hr Hk]. exists w1. split_and!; [done|by eapply HR|].
  apply IH; [done|]. intros a w' Hw'. apply HQ. by trans w1.
Qed.

Lemma pool_upholds {A} (Qs : list (A -> G -> Prop)) (ps : list (prog S A)) s w labels st' :
  Forall lasting Qs -> I s w -> Forall2 (fun Q p => upholds Q p w) Qs ps -> steps pool_step (s, ps) labels st' ->
  exists w', le w w' /\ I (fst st') w' /\ Forall2 (fun Q p => upholds Q p w') Qs (snd st').
Proof.
  intros HQ HI Hps Hrun. remember (s, ps) as st eqn:Hst. revert s w ps Hst HI Hps.
  induction Hrun as [st|st i st1 labels st' Hstep Hrun IH]; intros s w ps -> HI Hps; [by exists w|].
  inversion Hstep as [s0 ps0 i0 B f k Hi]; subst.
  destruct (Forall2_lookup_r _ _ _ _ _ Hps Hi) as (Q & HQi & Hp). simpl in Hp.
  destruct (Hp s w ltac:(done) HI) as (w2 & Hle & HI2 & Hk).
  destruct (IH (fst (f s)) w2 _ eq_refl HI2) as (w' & Hle' & HI' & Hps').
  - rewrite <- (list_insert_id Qs i Q HQi). apply Forall2_insert; [|done].
    apply Forall2_same_length_lookup_2; [by eapply Forall2_length|].
    intros j Q' p' HQ' Hp'. eapply upholds_mono; [|exact Hle|].
    + by eapply (Forall_lookup_1 _ _ _ _ HQ).
    + by eapply (Forall2_lookup_lr _ _ _ _ _ _ Hps).
  - exists w'. split_and!; [by trans w2|done|done].
Qed.
End Ghost.
End Threads.

Notation "'let&' x := m 'in' k" := (p_bind m (fun x => k))
  (at level 10, x pattern, m at level 100, k at level 200,
   format "'let&'  x  :=  m  'in' '//' k") : go_scope.
