(* ===== verification/Flow.v ===== *)
(** * Handlers as threads

    A thread that works on a part of the state ([lift]), and programs with
    early exit ([flow]), which are to [prog] what [Act] is to functions: a
    handler written as a [flow] makes its calls one atomic step after the other.
    [agrees] relates such a program, run alone, to its [Act]. *)
From S2P Require Import Prelude Threads.

(** ** On a part of the state *)

Section Lift.
Context {S T : Type} (get : S -> T) (put : T -> S -> S).

Fixpoint lift {A} (p : prog T A) : prog S A :=
  match p with
  | Return a => Return a
  | Atomic f k => Atomic (fun s => let '(t, b) := f (get s) in (put t s, b)) (fun b => lift (k b))
  end.

Lemma within_lift {A} n (p : prog T A) : within n p -> within n (lift p).
Proof.
  revert n. induction p as [a|B f k IH]; intros n; simpl; [done|]. destruct n as [|n]; [done|].
  intros Hp b. by apply IH.
Qed.

Lemma run_lift {A} (p : prog T A) s :
  (forall t s, get (put t s) = t) -> (forall t t' s, put t' (put t s) = put t' s) -> (forall s, put (get s) s = s) ->
  run (lift p) s = let '(t, a) := run p (get s) in (put t s, a).
Proof.
  intros Hgp Hpp Hpg. revert s. induction p as [a|B f k IH]; intros s; simpl; [by rewrite Hpg|].
  destruct (f (get s)) as [t b]. rewrite IH, Hgp. destruct (run (k b) t) as [t' a]. by rewrite Hpp.
Qed.

(** A thread that is safe on the part is safe on the whole, if the whole's
    invariant and order are those of the part where only the part changes. *)
Lemma safe_lift {A} (IT : T -> Prop) (leT : T -> T -> Prop) (IS : S -> Prop) (leS : S -> S -> Prop)
    (Q : A -> T -> Prop) (p : prog T A) s :
  (forall s, IS s -> IT (get s)) -> (forall s s', leS s s' -> leT (get s) (get s')) ->
  (forall s t, IS s -> IT t -> leT (get s) t -> IS (put t s) /\ leS s (put t s) /\ get (put t s) = t) ->
  safe IT leT Q p (get s) -> safe IS leS (fun a s' => Q a (get s')) (lift p) s.
Proof.
  intros HI Hle Hput. revert s. induction p as [a|B f k IH]; intros s; simpl; [done|].
  intros Hp s1 Hs1 HI1. destruct (Hp (get s1) (Hle _ _ Hs1) (HI _ HI1)) as (HI' & Hle' & Hk).
  destruct (f (get s1)) as [t b]. cbn [fst snd] in *.
  destruct (Hput s1 t HI1 HI' Hle') as (HI2 & Hle2 & Hget). split_and!; [done..|].
  apply IH. by rewrite Hget.
Qed.
End Lift.

(** ** Early exit *)

Definition flow (S R A : Type) : Type := prog S (R + A).

Section Flow.
Context {S R : Type}.

Definition f_ret {A} (a : A) : flow S R A := Return (inr a).
Definition f_exit {A} (r : R) : flow S R A := Return (inl r).
Definition f_bind {A B} (m : flow S R A) (f : A -> flow S R B) : flow S R B :=
  p_bind m (fun x => match x with inl r => Return (inl r) | inr a => f a end).
(** A call, whose steps are the call's. *)
Definition f_call {A} (p : prog S A) : flow S R A := p_bind p (fun a => Return (inr a)).
Definition f_try {A} (r : result A) (h : error -> flow S R A) : flow S R A :=
  match r with Ok a => f_ret a | Err e => h e end.
Definition f_run (m : flow S R R) : prog S R :=
  p_bind m (fun x => match x with inl r | inr r => Return r end).
End Flow.

Notation "'let@' x := m 'in' k" := (f_bind m (fun x => k))
  (at level 10, x pattern, m at level 100, k at level 200,
   format "'let@'  x  :=  m  'in' '//' k") : go_scope.
Notation "'do@' m ; k" := (f_bind m (fun _ => k))
  (at level 10, m at level 100, k at level 200,
   format "'do@'  m ; '//' k") : go_scope.

(** *** Steps *)

Section Within.
Context {S R : Type}.

Lemma within_f_bind {A B} m n (p : flow S R A) (f : A -> flow S R B) :
  within m p -> (forall a, within n (f a)) -> within (m + n) (f_bind p f).
Proof. intros Hp Hf. apply within_bind; [done|]. intros [r|a]; [done|apply Hf]. Qed.

Lemma within_f_call {A} n (p : prog S A) : within n p -> within n (f_call (R := R) p).
Proof. intros Hp. rewrite <- (Nat.add_0_r n). by apply within_bind. Qed.

Lemma within_f_run n (m : flow S R R) : within n m -> within n (f_run m).
Proof. intros Hm. rewrite <- (Nat.add_0_r n). apply within_bind; [done|]. by intros [r|r]. Qed.

Lemma within_f_try {A} n (r : result A) (h : error -> flow S R A) :
  (forall e, within n (h e)) -> within n (f_try r h).
Proof. intros Hh. destruct r; [exact Logic.I|apply Hh]. Qed.

(** A step that makes none. *)
Lemma within_f_bind_try {A B} n (r : result A) h (f : A -> flow S R B) :
  (forall e, within 0 (h e)) -> (forall a, within n (f a)) -> within n (f_bind (f_try r h) f).
Proof. intros Hh Hf. apply (within_f_bind 0 n); [by apply within_f_try|done]. Qed.

(** An atomic call. *)
Lemma within_f_bind_step {A B} n (g : S -> S * A) (f : A -> flow S R B) :
  (forall a, within n (f a)) -> within (Datatypes.S n) (f_bind (f_call (atomic g)) f).
Proof. intros Hf. apply (within_f_bind 1 n); [by apply within_f_call, within_atomic|done]. Qed.
End Within.

(** *** Steps of a kind *)

Section StepsIn.
Context {S R : Type} (K : S -> S -> Prop).

Lemma steps_in_lift {T A} (get : S -> T) (put : T -> S -> S) (p : prog T A) :
  (forall t s, K s (put t s)) -> steps_in K (lift get put p).
Proof.
  intros HK. induction p as [a|B f k IH]; simpl; [done|]. intros s. destruct (f (get s)) as [t b]. split; [apply HK|apply IH].
Qed.

Lemma steps_in_ret {A} (a : A) : steps_in K (f_ret (R := R) a : prog S (R + A)).
Proof. done. Qed.
Lemma steps_in_exit {A} (r : R) : steps_in K (f_exit r : flow S R A).
Proof. done. Qed.

Lemma steps_in_f_bind {A B} (p : flow S R A) (f : A -> flow S R B) :
  steps_in K p -> (forall a, steps_in K (f a)) -> steps_in K (f_bind p f).
Proof. intros Hp Hf. apply steps_in_bind; [done|]. intros [r|a]; [done|apply Hf]. Qed.

Lemma steps_in_f_call {A} (p : prog S A) : steps_in K p -> steps_in K (f_call (R := R) p).
Proof. intros Hp. by apply steps_in_bind. Qed.

Lemma steps_in_f_try {A} (r : result A) (h : error -> flow S R A) :
  (forall e, steps_in K (h e)) -> steps_in K (f_try r h).
Proof. intros Hh. destruct r; [exact Logic.I|apply Hh]. Qed.

Lemma steps_in_f_run (m : flow S R R) : steps_in K m -> steps_in K (f_run m).
Proof. intros Hm. apply steps_in_bind; [done|]. by intros [r|r]. Qed.
End StepsIn.

Create HintDb steps_in.
#[export] Hint Resolve steps_in_ret steps_in_exit steps_in_f_call steps_in_f_try steps_in_f_run : steps_in.

(** Take a program apart, down to its calls. *)
Ltac steps_in :=
  repeat first
    [ solve [auto with steps_in nocore]
    | match goal with
      | |- steps_in _ (f_bind _ _) => apply steps_in_f_bind; [|intros ?]
      | |- steps_in _ (f_try _ _) => apply steps_in_f_try; intros ?
      | |- steps_in _ (if ?b then _ else _) => destruct b
      | |- steps_in _ (match ?x with _ => _ end) => destruct x
      end ].

(** *** Safety *)

Section Safe.
Context {S R : Type} (I : S -> Prop) (le : S -> S -> Prop) `{!PreOrder le}.

(** One postcondition for the exits, one for the rest. *)
Definition ends {A} (QR : R -> S -> Prop) (QA : A -> S -> Prop) (x : R + A) (s : S) : Prop :=
  match x with inl r => QR r s | inr a => QA a s end.

Lemma safe_f_bind {A B} (QR : R -> S -> Prop) (Q1 : A -> S -> Prop) (Q2 : B -> S -> Prop)
    (m : flow S R A) (f : A -> flow S R B) s :
  safe I le (ends QR Q1) m s ->
  (forall a s', le s s' -> Q1 a s' -> safe I le (ends QR Q2) (f a) s') ->
  safe I le (ends QR Q2) (f_bind m f) s.
Proof. intros Hm Hf. eapply safe_bind; [done|exact Hm|]. intros [r|a] s' Hs' Hq; [exact Hq|by apply Hf]. Qed.

Lemma safe_f_call {A} (QR : R -> S -> Prop) (Q : A -> S -> Prop) (p : prog S A) s :
  safe I le Q p s -> safe I le (ends QR Q) (f_call p) s.
Proof. intros Hp. eapply safe_bind; [done|exact Hp|]. by intros a s' _ Hq. Qed.

(** A fallible step, with its equation. *)
Lemma safe_f_try {A B} (QR : R -> S -> Prop) (Q : B -> S -> Prop) (r : result A) h (f : A -> flow S R B) s :
  (forall e, r = Err e -> safe I le (ends QR (fun _ _ => False)) (h e) s) ->
  (forall a, r = Ok a -> safe I le (ends QR Q) (f a) s) ->
  safe I le (ends QR Q) (f_bind (f_try r h) f) s.
Proof.
  intros Hh Hf. destruct r as [a|e]; simpl; [by apply Hf|].
  eapply safe_f_bind; [by apply Hh|]. by intros a s' _ ?.
Qed.

Lemma safe_f_run (Q : R -> S -> Prop) (m : flow S R R) s :
  safe I le (ends Q Q) m s -> safe I le Q (f_run m) s.
Proof. intros Hm. eapply safe_bind; [done|exact Hm|]. by intros [r|r] s' _ Hq. Qed.
End Safe.

(** *** Alone, a flow is its [Act] *)

Section Agrees.
Context {S W R : Type} (get : S -> W) (put : W -> S -> S) (fit : S -> Prop) (ok : W -> Prop).

(** [W] is the part of a [fit] state that a handler sees, as long as it is
    [ok]. *)
Record view : Prop := {
  view_get_put : forall s w, ok w -> get (put w s) = w;
  view_put_put : forall s w w', ok w -> ok w' -> put w' (put w s) = put w' s;
  view_put_get : forall s, fit s -> put (get s) s = s;
  view_fit : forall s w, ok w -> fit s -> fit (put w s);
}.
Context (Hview : view).

(** On the states where the world is [ok], [p] does what [f] does. *)
Definition does {A} (p : prog S A) (f : W -> W * A) : Prop :=
  forall s, fit s -> ok (get s) ->
    ok (fst (f (get s))) /\ run p s = (put (fst (f (get s))) s, snd (f (get s))).

Definition agrees {A} (p : flow S R A) (m : Act W R A) : Prop := does p m.

Lemma agrees_ret {A} (a : A) : agrees (f_ret a) (act_ret a).
Proof. intros s Hf Hs. split; [done|]. simpl. by rewrite (view_put_get Hview). Qed.

Lemma agrees_exit {A} (r : R) : agrees (A := A) (f_exit r) (act_exit r).
Proof. intros s Hf Hs. split; [done|]. simpl. by rewrite (view_put_get Hview). Qed.

Lemma agrees_bind {A B} (p : flow S R A) m (f : A -> flow S R B) g :
  agrees p m -> (forall a, agrees (f a) (g a)) -> agrees (f_bind p f) (act_bind m g).
Proof.
  intros Hp Hf s Hfit Hs. destruct (Hp s Hfit Hs) as [Hok Hrun]. unfold f_bind, act_bind. rewrite run_bind, Hrun.
  destruct (m (get s)) as [w1 [r|a]]; cbn [fst snd] in *; [done|].
  destruct (Hf a (put w1 s)) as [Hok2 Hrun2]; [by apply (view_fit Hview)| |];
    rewrite (view_get_put Hview) in * by done; [done|].
  split; [done|]. by rewrite Hrun2, (view_put_put Hview).
Qed.

Lemma agrees_try {A} (r : result A) h h' : (forall e, agrees (h e) (h' e)) -> agrees (f_try r h) (act_try r h').
Proof. intros Hh. destruct r; [apply agrees_ret|apply Hh]. Qed.

Lemma agrees_call {A} (p : prog S A) f : does p f -> agrees (f_call p) (act_call f).
Proof.
  intros Hp s Hfit Hs. destruct (Hp s Hfit Hs) as [Hok Hrun]. unfold f_call, act_call. rewrite run_bind, Hrun.
  by destruct (f (get s)) as [w a].
Qed.

Lemma agrees_run (p : flow S R R) m : agrees p m -> does (f_run p) (act_run m).
Proof.
  intros Hp s Hfit Hs. destruct (Hp s Hfit Hs) as [Hok Hrun]. unfold f_run, act_run. rewrite run_bind, Hrun.
  by destruct (m (get s)) as [w [r|r]].
Qed.
End Agrees.

(** Take the two texts apart side by side, down to the calls. *)
Ltac agrees Hview :=
  repeat first
    [ progress cbv beta
    | match goal with
      | |- agrees _ _ _ _ (f_ret _) (act_ret _) => apply (agrees_ret _ _ _ _ Hview)
      | |- agrees _ _ _ _ (f_exit _) (act_exit _) => apply (agrees_exit _ _ _ _ Hview)
      | |- agrees _ _ _ _ (f_bind _ _) (act_bind _ _) => apply (agrees_bind _ _ _ _ Hview); [|intros ?]
      | |- agrees _ _ _ _ (f_try _ _) (act_try _ _) => apply (agrees_try _ _ _ _ Hview); intros ?
      | |- agrees _ _ _ _ (if ?b then _ else _) _ => destruct b
      | |- agrees _ _ _ _ (match ?x with _ => _ end) _ => destruct x
      end
    | solve [auto with agrees nocore] ].
Create HintDb agrees.
