(* ===== verification/BaoConc.v ===== *)
(** * internal/bao: one client, many requests at once

    The [Client] is shared by every request of the process.  Its mutex guards
    each access to the token fields, not a whole operation: between reading the
    token and using it, or between asking for a login and storing its answer,
    other requests run.  Here every operation of [Bao.v] is a program of atomic
    steps: a section under the mutex, an exchange, a reading of the clock, a
    random draw or a wait.  Run alone, the programs are the operations of
    [Bao.v]; side by side, they share one client and one network. *)
From S2P Require Import Prelude GoLib GoCrypto GoNet X509 Http Pem Bao BaoTheory Threads.

Section Programs.
Context `{UnicodeTables} `{Json} {N : Type} `{Upstream N}.

Abbreviation Shared := (Client * N)%type.
Abbreviation Prog A := (prog (Client * N) A).

(** A use of the network, the clock or the random source. *)
Definition on_net {A} (f : N -> N * A) : Prog A :=
  atomic (fun cn => let '(n, a) := f (snd cn) in (fst cn, n, a)).

(** [c.mu.Lock(); ...; c.mu.Unlock()] *)
Definition locked {A} (f : Client -> A) : Prog A := atomic (fun cn => (cn, f (fst cn))).

(** The retry loop, as [Bao.attempts]. *)
Fixpoint attempts (call : HttpCall) (path : string) (left : nat) (attempt : Z) (lastErr : option error)
    : Prog (result bytes) :=
  match left with
  | O => Return (match lastErr with Some e => Err e | None => Ok [] end)
  | S left' =>
      let& stop := if 0 <? attempt then
                     let& delay := on_net (fun n => backoff n attempt) in
                     match delay with
                     | None => Return (Some panic_Int63n)
                     | Some d => on_net (fun n => ctx_wait n d)
                     end
                   else Return None in
      match stop with
      | Some e => Return (Err e)
      | None =>
          match NewRequest (N := N) (hc_method call) (hc_url call) with
          | Err e => Return (Err (String.append "bao: build request: " e))
          | Ok _ =>
              let& out := on_net (fun n => net_Do n call) in
              match judge (hc_method call) path out with
              | Done r => Return r
              | Retry e => attempts call path left' (attempt + 1) (Some e)
              end
          end
      end
  end.

(** The configuration [g] of a client never changes, and is read without the
    mutex. *)
Definition doRequest (g : Config) (method path : string) (payload : option bytes) (tok : string)
    : Prog (result bytes) :=
  attempts (callOf g method path payload tok) path (Z.to_nat (MaxRetries g + 1)) 0 None.

Definition doRaw {A} (g : Config) (method path : string) (body : option object) (tok : string)
    (decode : bytes -> result A) (zero : A) : Prog (result A) :=
  let& r := doRequest g method path (option_map json_Marshal body) tok in
  Return (let? respBody := r in
          if nonempty respBody then map_err (String.append "bao: decode response: ") (decode respBody)
          else Ok zero).

(** [Login]'s critical section, which reads the clock. *)
Definition storeLogin (auth : Auth) : Prog unit :=
  atomic (fun cn => let '(n, expiry) := leaseExpiry (snd cn) (LeaseDuration auth) in
                    (withToken (fst cn) (ClientToken auth) expiry (Renewable auth), n, tt)).

Definition Login (g : Config) : Prog (result unit) :=
  let& r := doRaw g MethodPost (loginPath g) (Some (loginBody g)) "" json_auth None in
  match r with
  | Err e => Return (Err (String.append "bao: approle login: " e))
  | Ok None => Return (Err "bao: approle login returned no token")
  | Ok (Some auth) =>
      if (ClientToken auth =? "")%string then Return (Err "bao: approle login returned no token")
      else let& _ := storeLogin auth in Return (Ok tt)
  end.

Definition currentToken : Prog string := locked token.

(** [renewSelf]'s critical section: whatever token is stored by now keeps it. *)
Definition storeRenewal (auth : Auth) : Prog unit :=
  atomic (fun cn => let '(n, expiry) := leaseExpiry (snd cn) (LeaseDuration auth) in
                    (withToken (fst cn) (token (fst cn)) expiry (Renewable auth), n, tt)).

Definition renewSelf (g : Config) : Prog (result unit) :=
  let& tok := currentToken in
  let& r := doRaw g MethodPost renewPath None tok json_auth None in
  match r with
  | Err e => Return (Err e)
  | Ok None => Return (Err "bao: renew-self returned no auth")
  | Ok (Some auth) => let& _ := storeRenewal auth in Return (Ok tt)
  end.

Definition time_Until (expiry : Time) : Prog Duration :=
  let& now := on_net time_Now in Return (Sub expiry now).

Definition loginToken (g : Config) : Prog (result string) :=
  let& r := Login g in
  match r with
  | Err e => Return (Err e)
  | Ok _ => let& tok := currentToken in Return (Ok tok)
  end.

(** The second half of [ensureToken], on the fields it read. *)
Definition renewToken (g : Config) (expiry : Time) (renewable : bool) : Prog (result string) :=
  if renewable then
    let& remaining := time_Until expiry in
    if 0 <? remaining then
      let& r := renewSelf g in
      match r with
      | Ok _ => let& tok := currentToken in Return (Ok tok)
      | Err _ => loginToken g
      end
    else loginToken g
  else loginToken g.

Definition ensureToken (g : Config) : Prog (result string) :=
  let& (tok, expiry, renewable) := locked (fun c => (token c, tokenExpiry c, renewable c)) in
  if (tok =? "")%string then loginToken g
  else
    let& remaining := time_Until expiry in
    if RenewThreshold g <? remaining then Return (Ok tok) else renewToken g expiry renewable.

Definition do_pki (g : Config) (path : string) (body : object) : Prog (result pkiData) :=
  let& r := ensureToken g in
  match r with
  | Err e => Return (Err e)
  | Ok tok => doRaw g MethodPost path (Some body) tok json_pki zeroPki
  end.

Definition doRawBytes (g : Config) (method path : string) : Prog (result bytes) :=
  let& r := ensureToken g in
  match r with
  | Err e => Return (Err e)
  | Ok tok => doRequest g method path None tok
  end.

Definition Client_Sign (g : Config) (role csrPEM : string) (opts : SignOptions) : Prog (result CertBundle) :=
  if (role =? "")%string then Return (Err "bao: sign requires a role")
  else if (csrPEM =? "")%string then Return (Err "bao: sign requires a CSR")
  else
    let& r := do_pki g (signPath g role) (signBody csrPEM opts) in
    Return (let? out := r in
            when (B_Certificate out =? "")%string fail "bao: sign returned no certificate";
            Ok (bundle out)).

Definition Client_Issue (g : Config) (role commonName : string) (opts : SignOptions) : Prog (result CertBundle) :=
  if (role =? "")%string then Return (Err "bao: issue requires a role")
  else
    let& r := do_pki g (issuePath g role) (issueBody commonName opts) in
    Return (let? out := r in
            when (B_Certificate out =? "")%string fail "bao: issue returned no certificate";
            when (PrivateKey out =? "")%string fail "bao: issue returned no private key";
            Ok (bundle out)).

Definition Client_CAChain (g : Config) : Prog (result bytes) :=
  let& r := doRawBytes g MethodGet (chainPath g) in
  Return (let? pem := r in
          when negb (nonempty pem) fail "bao: empty CA chain";
          Ok pem).

(** ** The calls the requests of the process make *)

Inductive operation :=
| OpSign (role csrPEM : string) (opts : SignOptions)
| OpIssue (role commonName : string) (opts : SignOptions)
| OpCAChain.

Inductive answer :=
| Bundle (r : result CertBundle)
| Chain (r : result bytes).

Definition perform (g : Config) (op : operation) : Prog answer :=
  match op with
  | OpSign role csrPEM opts => let& r := Client_Sign g role csrPEM opts in Return (Bundle r)
  | OpIssue role commonName opts => let& r := Client_Issue g role commonName opts in Return (Bundle r)
  | OpCAChain => let& r := Client_CAChain g in Return (Chain r)
  end.

(** The same operation, as [Bao.v] has it. *)
Definition alone (op : operation) (cn : Shared) : Shared * answer :=
  match op with
  | OpSign role csrPEM opts => let '(cn, r) := Sign cn role csrPEM opts in (cn, Bundle r)
  | OpIssue role commonName opts => let '(cn, r) := Issue cn role commonName opts in (cn, Bundle r)
  | OpCAChain => let '(cn, r) := CAChain cn in (cn, Chain r)
  end.

(** ** Refinement: run alone, a program is its operation *)

Lemma run_on_net {A B} (f : N -> N * A) (g : A -> Prog B) c n :
  run (p_bind (on_net f) g) (c, n) = let '(n', a) := f n in run (g a) (c, n').
Proof. unfold on_net. simpl. by destruct (f n). Qed.

Lemma run_attempts call path left attempt lastErr c n :
  run (attempts call path left attempt lastErr) (c, n) =
  let '(n', r) := Bao.attempts call path left attempt lastErr n in (c, n', r).
Proof.
  revert attempt lastErr n. induction left as [|left IH]; intros attempt lastErr n; [done|].
  cbn [attempts Bao.attempts].
  assert (Hnet : forall n, run (match NewRequest (N := N) (hc_method call) (hc_url call) with
                                | Err e => Return (Err (String.append "bao: build request: " e))
                                | Ok _ => let& out := on_net (fun n => net_Do n call) in
                                          match judge (hc_method call) path out with
                                          | Done r => Return r
                                          | Retry e => attempts call path left (attempt + 1) (Some e)
                                          end
                                end) (c, n) =
            let '(n', r) := match NewRequest (N := N) (hc_method call) (hc_url call) with
                            | Err e => (n, Err (String.append "bao: build request: " e))
                            | Ok _ => let '(n, out) := net_Do n call in
                                      match judge (hc_method call) path out with
                                      | Done r => (n, r)
                                      | Retry e => Bao.attempts call path left (attempt + 1) (Some e) n
                                      end
                            end in (c, n', r)).
  { intros n0. destruct (NewRequest _ _); [|done]. rewrite run_on_net. destruct (net_Do n0 call) as [n1 out].
    destruct (judge _ _ out); [done|apply IH]. }
  rewrite run_bind. destruct (0 <? attempt); [|apply Hnet].
  rewrite run_on_net. destruct (backoff n attempt) as [n1 [d|]]; [|done].
  unfold on_net at 1. cbn [run atomic fst snd]. destruct (ctx_wait n1 d) as [n2 [e|]]; [done|apply Hnet].
Qed.

Lemma run_doRequest c n method path payload tok :
  run (doRequest (cfg c) method path payload tok) (c, n) =
  let '(n', r) := Bao.doRequest c n method path payload tok in (c, n', r).
Proof. apply run_attempts. Qed.

Lemma run_doRaw {A} c n method path body tok (decode : bytes -> result A) zero :
  run (doRaw (cfg c) method path body tok decode zero) (c, n) =
  let '(n', r) := Bao.doRaw c n method path body tok decode zero in (c, n', r).
Proof.
  unfold doRaw, Bao.doRaw. rewrite run_bind, run_doRequest. by destruct (Bao.doRequest _ _ _ _ _ _).
Qed.

Lemma run_Login c n : run (Login (cfg c)) (c, n) = Bao.Login c n.
Proof.
  unfold Login, Bao.Login. rewrite run_bind, run_doRaw.
  destruct (Bao.doRaw _ _ _ _ _ _ _ _) as [n1 [[auth|]|e]]; [|done..].
  destruct (_ =? _)%string; [done|]. unfold storeLogin. simpl. by destruct (leaseExpiry n1 _).
Qed.

Lemma run_renewSelf c n : run (renewSelf (cfg c)) (c, n) = Bao.renewSelf c n.
Proof.
  unfold renewSelf, Bao.renewSelf. rewrite run_bind. cbn [run currentToken locked atomic fst].
  rewrite run_bind, run_doRaw.
  destruct (Bao.doRaw _ _ _ _ _ _ _ _) as [n1 [[auth|]|e]]; [|done..].
  unfold storeRenewal. simpl. by destruct (leaseExpiry n1 _).
Qed.

Lemma run_loginToken c n : run (loginToken (cfg c)) (c, n) = Bao.loginToken c n.
Proof.
  unfold loginToken, Bao.loginToken. rewrite run_bind, run_Login. by destruct (Bao.Login c n) as [[c1 n1] [[]|e]].
Qed.

Lemma run_time_Until c n expiry :
  run (time_Until expiry) (c, n) = let '(n', d) := Bao.time_Until n expiry in (c, n', d).
Proof. unfold time_Until, Bao.time_Until. rewrite run_on_net. by destruct (time_Now n). Qed.

Lemma renewSelf_cfg c n : cfg (fst (fst (Bao.renewSelf c n))) = cfg c.
Proof.
  unfold Bao.renewSelf. destruct (Bao.doRaw _ _ _ _ _ _ _ _) as [n1 [[auth|]|e]]; [|done..].
  by destruct (leaseExpiry n1 _).
Qed.

Lemma run_renewToken c n :
  run (renewToken (cfg c) (tokenExpiry c) (renewable c)) (c, n) = Bao.renewToken c n.
Proof.
  unfold renewToken, Bao.renewToken. destruct (renewable c); [|apply run_loginToken].
  rewrite run_bind, run_time_Until. destruct (Bao.time_Until n _) as [n1 d].
  destruct (0 <? d); [|apply run_loginToken]. rewrite run_bind, run_renewSelf.
  pose proof (renewSelf_cfg c n1) as Hc. destruct (Bao.renewSelf c n1) as [[c2 n2] [[]|e]]; [done|].
  simpl in Hc. rewrite <- Hc. apply run_loginToken.
Qed.

Lemma run_ensureToken c n : run (ensureToken (cfg c)) (c, n) = Bao.ensureToken c n.
Proof.
  unfold ensureToken, Bao.ensureToken. rewrite run_bind. cbn [run locked atomic fst].
  destruct (_ =? _)%string; [apply run_loginToken|].
  rewrite run_bind, run_time_Until. destruct (Bao.time_Until n _) as [n1 d].
  destruct (_ <? d); [done|apply run_renewToken].
Qed.

Lemma Login_cfg c n : cfg (fst (fst (Bao.Login c n))) = cfg c.
Proof.
  unfold Bao.Login. destruct (Bao.doRaw _ _ _ _ _ _ _ _) as [n1 [[auth|]|e]]; [|done..].
  destruct (_ =? _)%string; [done|]. by destruct (leaseExpiry n1 _).
Qed.

Lemma loginToken_cfg c n : cfg (fst (fst (Bao.loginToken c n))) = cfg c.
Proof.
  unfold Bao.loginToken. pose proof (Login_cfg c n) as Hc. by destruct (Bao.Login c n) as [[c1 n1] [[]|e]].
Qed.

Lemma ensureToken_cfg c n : cfg (fst (fst (Bao.ensureToken c n))) = cfg c.
Proof.
  unfold Bao.ensureToken, Bao.renewToken. destruct (_ =? _)%string; [apply loginToken_cfg|].
  destruct (Bao.time_Until n _) as [n1 d]. destruct (_ <? d); [done|].
  destruct (renewable c); [|apply loginToken_cfg]. destruct (Bao.time_Until n1 _) as [n2 d2].
  destruct (0 <? d2); [|apply loginToken_cfg]. pose proof (renewSelf_cfg c n2) as Hc.
  destruct (Bao.renewSelf c n2) as [[c3 n3] [[]|e]]; [done|]. simpl in Hc. rewrite <- Hc. apply loginToken_cfg.
Qed.

Lemma run_do_pki c n path body : run (do_pki (cfg c) path body) (c, n) = Bao.do_pki c n path body.
Proof.
  unfold do_pki, Bao.do_pki. rewrite run_bind, run_ensureToken.
  pose proof (ensureToken_cfg c n) as Hc. destruct (Bao.ensureToken c n) as [[c1 n1] [tok|e]]; [|done].
  simpl in Hc. rewrite <- Hc, run_doRaw. by destruct (Bao.doRaw _ _ _ _ _ _ _ _).
Qed.

Lemma run_Sign c n role csrPEM opts :
  run (Client_Sign (cfg c) role csrPEM opts) (c, n) = Sign (c, n) role csrPEM opts.
Proof.
  cbn [Sign Client_Enroller]. unfold Client_Sign, Bao.Client_Sign.
  destruct (_ =? _)%string; [done|]. destruct (_ =? _)%string; [done|].
  rewrite run_bind, run_do_pki. by destruct (Bao.do_pki c n _ _) as [[c1 n1] r].
Qed.

Lemma run_Issue c n role cn opts : run (Client_Issue (cfg c) role cn opts) (c, n) = Issue (c, n) role cn opts.
Proof.
  cbn [Issue Client_Enroller]. unfold Client_Issue, Bao.Client_Issue. destruct (_ =? _)%string; [done|].
  rewrite run_bind, run_do_pki. by destruct (Bao.do_pki c n _ _) as [[c1 n1] r].
Qed.

Lemma run_CAChain c n : run (Client_CAChain (cfg c)) (c, n) = CAChain (c, n).
Proof.
  cbn [CAChain Client_Enroller]. unfold Client_CAChain, Bao.Client_CAChain.
  rewrite run_bind. unfold doRawBytes, Bao.doRawBytes. rewrite run_bind, run_ensureToken.
  pose proof (ensureToken_cfg c n) as Hc. destruct (Bao.ensureToken c n) as [[c1 n1] [tok|e]]; [|done].
  simpl in Hc. rewrite <- Hc, run_doRequest. by destruct (Bao.doRequest _ _ _ _ _ _).
Qed.

Lemma run_perform c n op : run (perform (cfg c) op) (c, n) = alone op (c, n).
Proof.
  destruct op as [role csrPEM opts|role cn opts|]; cbn [perform alone]; rewrite run_bind.
  - rewrite run_Sign. by destruct (Sign _ _ _ _).
  - rewrite run_Issue. by destruct (Issue _ _ _ _).
  - rewrite run_CAChain. by destruct (CAChain _).
Qed.

Lemma do_pki_cfg c n path body : cfg (fst (fst (Bao.do_pki c n path body))) = cfg c.
Proof.
  unfold Bao.do_pki. pose proof (ensureToken_cfg c n) as Hc. destruct (Bao.ensureToken c n) as [[c1 n1] [tok|e]]; [|done].
  by destruct (Bao.doRaw _ _ _ _ _ _ _ _).
Qed.

Lemma sign_cfg c n role csrPEM opts : cfg (fst (fst (Sign (c, n) role csrPEM opts))) = cfg c.
Proof.
  cbn [Sign Client_Enroller]. unfold Bao.Client_Sign. destruct (_ =? _)%string; [done|]. destruct (_ =? _)%string; [done|].
  pose proof (do_pki_cfg c n (signPath (cfg c) role) (signBody csrPEM opts)) as Hc.
  by destruct (Bao.do_pki c n _ _) as [[c1 n1] r].
Qed.

Lemma issue_cfg c n role cn opts : cfg (fst (fst (Issue (c, n) role cn opts))) = cfg c.
Proof.
  cbn [Issue Client_Enroller]. unfold Bao.Client_Issue. destruct (_ =? _)%string; [done|].
  pose proof (do_pki_cfg c n (issuePath (cfg c) role) (issueBody cn opts)) as Hc.
  by destruct (Bao.do_pki c n _ _) as [[c1 n1] r].
Qed.

Lemma chain_cfg c n : cfg (fst (fst (CAChain (c, n)))) = cfg c.
Proof.
  cbn [CAChain Client_Enroller]. unfold Bao.Client_CAChain, Bao.doRawBytes. pose proof (ensureToken_cfg c n) as Hc.
  destruct (Bao.ensureToken c n) as [[c1 n1] [tok|e]]; [|done]. by destruct (Bao.doRequest _ _ _ _ _ _).
Qed.

Lemma alone_cfg op c n : cfg (fst (fst (alone op (c, n)))) = cfg c.
Proof.
  destruct op as [role csrPEM opts|role cn opts|]; cbn [alone].
  - pose proof (sign_cfg c n role csrPEM opts) as Hc. by destruct (Sign _ _ _ _).
  - pose proof (issue_cfg c n role cn opts) as Hc. by destruct (Issue _ _ _ _).
  - pose proof (chain_cfg c n) as Hc. by destruct (CAChain _).
Qed.

(** The operations one after the other, as the rest of the library runs them. *)
Fixpoint serial (ops : list operation) (cn : Shared) : Shared * list answer :=
  match ops with
  | [] => (cn, [])
  | op :: ops' => let '(cn1, a) := alone op cn in let '(cn2, l) := serial ops' cn1 in (cn2, a :: l)
  end.

Lemma serial_run_all g ops c n :
  cfg c = g -> run_all (map (perform g) ops) (c, n) = serial ops (c, n).
Proof.
  revert c n. induction ops as [|op ops IH]; intros c n Hg; [done|]. cbn [serial map run_all].
  rewrite <- Hg, run_perform. pose proof (alone_cfg op c n) as Hc.
  destruct (alone op (c, n)) as [[c1 n1] a]. cbn [fst] in Hc.
  rewrite Hg. by rewrite IH by congruence.
Qed.

(** The client as the rest of the program uses it is one of the ways its
    code can run: the operations of [Bao.v], one call at a time, are an
    interleaving of the code's atomic steps that leaves the same client and the
    same network and gives every caller the same answer. *)
Theorem serial_refines ops c n :
  exists labels, steps pool_step ((c, n), map (perform (cfg c)) ops) labels
                   (fst (serial ops (c, n)), map Return (snd (serial ops (c, n)))).
Proof. rewrite <- (serial_run_all (cfg c) ops c n eq_refl). apply pool_run_all. Qed.

(** ** Termination *)

(** The steps of a request: at most three per attempt. *)
Definition requestBound (g : Config) : nat := 3 * Z.to_nat (MaxRetries g + 1).
(** A call: three requests (renewal, login, its own), and seven short steps. *)
Definition callBound (g : Config) : nat := 3 * requestBound g + 7.

Lemma within_guard {A} n (b : bool) (p q : Prog A) : within n p -> within n q -> within n (if b then p else q).
Proof. by destruct b. Qed.

Lemma within_return {A} n (a : A) : within n (Return a : Prog A).
Proof. done. Qed.

Lemma within_attempts call path left attempt lastErr : within (3 * left) (attempts call path left attempt lastErr).
Proof.
  revert attempt lastErr. induction left as [|left IH]; intros attempt lastErr; [done|].
  cbn [attempts]. replace (3 * S left)%nat with (2 + (1 + 3 * left))%nat by lia. apply within_bind.
  - destruct (0 <? attempt); [|done]. change 2%nat with (1 + 1)%nat. apply within_bind; [apply within_atomic|].
    by intros [d|].
  - intros [e|]; [done|]. destruct (NewRequest _ _); [|done]. apply within_bind; [apply within_atomic|].
    intros out. destruct (judge _ _ out); [done|apply IH].
Qed.

Lemma within_doRaw {A} g method path body tok (decode : bytes -> result A) zero :
  within (requestBound g) (doRaw g method path body tok decode zero).
Proof.
  unfold doRaw. replace (requestBound g) with (requestBound g + 0)%nat by lia.
  apply within_bind; [apply within_attempts|done].
Qed.

Lemma within_Login g : within (requestBound g + 1) (Login g).
Proof.
  apply within_bind; [apply within_doRaw|]. intros [[auth|]|e]; [|done..]. apply within_guard; [done|].
  change 1%nat with (1 + 0)%nat. by apply within_bind; [apply within_atomic|].
Qed.

Lemma within_loginToken g : within (requestBound g + 2) (loginToken g).
Proof.
  replace (requestBound g + 2)%nat with ((requestBound g + 1) + 1)%nat by lia.
  apply within_bind; [apply within_Login|]. intros [[]|e]; [|done].
  change 1%nat with (1 + 0)%nat. by apply within_bind; [apply within_atomic|].
Qed.

Lemma within_renewSelf g : within (requestBound g + 2) (renewSelf g).
Proof.
  replace (requestBound g + 2)%nat with (1 + (requestBound g + 1))%nat by lia.
  apply within_bind; [apply within_atomic|]. intros tok. apply within_bind; [apply within_doRaw|].
  intros [[auth|]|e]; [|done..]. change 1%nat with (1 + 0)%nat. by apply within_bind; [apply within_atomic|].
Qed.

Lemma within_time expiry : within 1 (time_Until expiry : Prog Duration).
Proof. done. Qed.

Lemma within_ensureToken g : within (2 * requestBound g + 7) (ensureToken g).
Proof.
  replace (2 * requestBound g + 7)%nat with (1 + (1 + (1 + ((requestBound g + 2) + (requestBound g + 2)))))%nat by lia.
  apply within_bind; [apply within_atomic|]. intros [[tok expiry] renewable].
  assert (Hlogin : forall m, (requestBound g + 2 <= m)%nat -> within m (loginToken g))
    by (intros m Hm; eapply within_mono; [apply within_loginToken|done]).
  apply within_guard; [apply Hlogin; lia|].
  apply within_bind; [apply within_time|]. intros remaining. apply within_guard; [done|].
  unfold renewToken. apply within_guard; [|apply Hlogin; lia].
  apply within_bind; [apply within_time|]. intros remaining'. apply within_guard; [|apply Hlogin; lia].
  apply within_bind; [apply within_renewSelf|]. intros [[]|e]; [|apply Hlogin; lia].
  eapply within_mono; [|by instantiate (1 := (1 + 0)%nat); lia]. by apply within_bind; [apply within_atomic|].
Qed.

Lemma within_do_pki g path body : within (callBound g) (do_pki g path body).
Proof.
  unfold callBound. replace (3 * requestBound g + 7)%nat with ((2 * requestBound g + 7) + requestBound g)%nat by lia.
  apply within_bind; [apply within_ensureToken|]. intros [tok|e]; [apply within_doRaw|done].
Qed.

(** A call with nothing but a return behind it. *)
Lemma within_then {A B} n (p : Prog A) (f : A -> B) : within n p -> within n (let& a := p in Return (f a)).
Proof. intros Hp. rewrite <- (Nat.add_0_r n). by apply within_bind. Qed.

Lemma within_Sign g role csrPEM opts : within (callBound g) (Client_Sign g role csrPEM opts).
Proof. do 2 (apply within_guard; [done|]). apply within_then, within_do_pki. Qed.

Lemma within_Issue g role cn opts : within (callBound g) (Client_Issue g role cn opts).
Proof. apply within_guard; [done|]. apply within_then, within_do_pki. Qed.

Lemma within_CAChain g : within (callBound g) (Client_CAChain g).
Proof.
  apply within_then. unfold callBound.
  replace (3 * requestBound g + 7)%nat with ((2 * requestBound g + 7) + requestBound g)%nat by lia.
  apply within_bind; [apply within_ensureToken|]. intros [tok|e]; [apply within_attempts|done].
Qed.

Lemma within_perform g op : within (callBound g) (perform g op).
Proof. destruct op; apply within_then; [apply within_Sign|apply within_Issue|apply within_CAChain]. Qed.

(** Every call returns: however the calls of any number of requests are
    interleaved, from any state of the client and whatever the network answers,
    a run makes at most [9 * (MaxRetries + 1) + 7] steps for each of them, none
    of them ever waits for another, and from wherever the run stands it goes on,
    within the bound, until every caller has its answer. *)
Theorem calls_terminate g ops (cn : Shared) labels st
    (Hrun : steps pool_step (cn, map (perform g) ops) labels st) :
  (length labels <= length ops * callBound g)%nat /\
  exists more st', steps pool_step st more st' /\ Forall returned (snd st') /\
    (length (labels ++ more) <= length ops * callBound g)%nat.
Proof.
  assert (Hps : Forall (within (callBound g)) (map (perform g) ops)).
  { clear. induction ops; simpl; constructor; [apply within_perform|done]. }
  rewrite <- (length_map (perform g) ops). by apply (pool_ends _ _ cn).
Qed.
End Programs.

(** ** Two requests, step by step *)

Section Witnesses.
#[local] Existing Instances ascii_tables.

Abbreviation toyShared := (Client * (script * list exchange))%type.

Definition startAt (c : Client) (outs : list (result (Z * Body))) : toyShared :=
  (c, ({| answers := outs; clock := 0 |}, [])).

(** Two requests for the chain on a new client: both find no token and log in,
    both then use the token stored last. *)
Definition twoChains : list operation := [OpCAChain; OpCAChain].
Definition twoLogins : list (result (Z * Body)) :=
  [BaoTheory.answer 200 "tok-1"; BaoTheory.answer 200 "tok-2"; BaoTheory.answer 200 "PEM"; BaoTheory.answer 200 "PEM"].
Definition inTurn : list nat := [0; 1; 0; 1; 0; 1; 0; 1; 0; 1]%nat.

Definition twoRun : option (toyShared * list (prog toyShared answer)) :=
  schedule inTurn (startAt exampleClient twoLogins, map (perform exampleConfig) twoChains).

Lemma calls_terminate_witness :
  exists st, twoRun = Some st /\ Forall returned (snd st) /\ (length inTurn <= 2 * callBound exampleConfig)%nat.
Proof.
  destruct twoRun as [st|] eqn:Hst.
  - exists st. split; [reflexivity|].
    destruct (calls_terminate exampleConfig twoChains _ inTurn st (schedule_steps _ _ _ Hst)) as (Hlen & _).
    split; [|exact Hlen].
    assert (Hret : option_map (fun st => forallb (fun p => match p with Return _ => true | Atomic _ _ => false end) (snd st)) twoRun =
                   Some true) by (vm_compute; reflexivity).
    rewrite Hst in Hret. injection Hret as Hret. rewrite forallb_elem in Hret.
    apply Forall_forall. intros p Hp. specialize (Hret p Hp). destruct p; [exact Logic.I|discriminate Hret].
  - assert (Hsome : match twoRun with Some _ => true | None => false end = true) by (vm_compute; reflexivity).
    rewrite Hst in Hsome. discriminate Hsome.
Defined.
End Witnesses.
