(* ===== verification/BaoSafe.v ===== *)
(** * internal/bao: what the interleaved calls send and get back

    Whatever calls are asked of one client at once: every exchange is a login, a
    renewal or one of the calls, under a token that was granted before, and every
    caller gets the answer to its own call.  Also, a race between a renewal and
    a login. *)
From S2P Require Import Prelude GoLib GoCrypto GoNet X509 Http Pem Bao BaoTheory Threads BaoConc.

(** ** What the interleaved calls send, and what they get back *)

Section Log.
Context `{UnicodeTables} `{Json} {N : Type} `{Upstream N} (g : Config) (asked : operation -> Prop).

Abbreviation Shared := (Client * (N * list exchange))%type.
Abbreviation Prog A := (prog Shared A).

Definition log (s : Shared) : list exchange := snd (snd s).

Definition loginCall : HttpCall :=
  callOf g MethodPost (loginPath g) (Some (json_Marshal (loginBody g))) "".
Definition renewCall (tok : string) : HttpCall := callOf g MethodPost renewPath None tok.

(** The exchange of [call] that answered with [body]. *)
Definition answered_with (path : string) (call : HttpCall) (body : bytes) (x : exchange) : Prop :=
  x_call x = call /\ judge (hc_method call) path (x_out x) = Done (Ok body).

(** [tok] is a token that a login in [xs] was answered with. *)
Definition granted (xs : list exchange) (tok : string) : Prop :=
  tok <> "" /\ exists x body auth, x ∈ xs /\ answered_with (loginPath g) loginCall body x /\
    json_auth body = Ok (Some auth) /\ ClientToken auth = tok.

(** The PKI call of an operation under a token. *)
Definition pkiCall (op : operation) (tok : string) (call : HttpCall) : Prop :=
  match op with
  | OpSign role csrPEM opts =>
      role <> "" /\ csrPEM <> "" /\
      call = callOf g MethodPost (signPath g role) (Some (json_Marshal (signBody csrPEM opts))) tok
  | OpIssue role cn opts =>
      role <> "" /\ call = callOf g MethodPost (issuePath g role) (Some (json_Marshal (issueBody cn opts))) tok
  | OpCAChain => call = callOf g MethodGet (chainPath g) None tok
  end.

(** A call may follow the exchanges [xs]: a login, or under a token granted
    there a renewal or an operation that was asked for. *)
Definition may_send (xs : list exchange) (call : HttpCall) : Prop :=
  call = loginCall \/
  exists tok, granted xs tok /\ (call = renewCall tok \/ exists op, asked op /\ pkiCall op tok call).

Definition log_ok (xs : list exchange) : Prop :=
  forall before x after, xs = before ++ x :: after -> may_send before (x_call x).

(** The token held is one that was granted. *)
Definition shared_ok (s : Shared) : Prop :=
  cfg (fst s) = g /\ log_ok (log s) /\ (token (fst s) <> "" -> granted (log s) (token (fst s))).

(** The log only grows, and a token, once there, is only replaced. *)
Definition later (s s' : Shared) : Prop :=
  (exists xs, log s' = log s ++ xs) /\ (token (fst s) <> "" -> token (fst s') <> "").

#[export] Instance later_preorder : PreOrder later.
Proof.
  split.
  - intros s. split; [by exists []; rewrite app_nil_r|done].
  - intros s1 s2 s3 [[l1 Hl1] Ht1] [[l2 Hl2] Ht2]. split; [|auto].
    exists (l1 ++ l2). by rewrite Hl2, Hl1, app_assoc.
Qed.

Lemma granted_mono xs ys tok : granted xs tok -> granted (xs ++ ys) tok.
Proof.
  intros (Ht & x & body & auth & Hx & Hr). split; [done|]. exists x, body, auth.
  split; [by apply elem_of_app; left|done].
Qed.

Lemma may_send_mono xs ys call : may_send xs call -> may_send (xs ++ ys) call.
Proof.
  intros [Hl|(tok & Hg & Hc)]; [by left|]. right. exists tok. split; [by apply granted_mono|done].
Qed.

Lemma log_ok_snoc xs x : log_ok xs -> may_send xs (x_call x) -> log_ok (xs ++ [x]).
Proof.
  intros Hxs Hx before y after Heq.
  destruct after as [|z after' _] using rev_ind.
  - apply app_inj_tail in Heq as [<- <-]. exact Hx.
  - rewrite app_comm_cons, app_assoc in Heq. apply app_inj_tail in Heq as [Heq _]. by eapply Hxs.
Qed.

Abbreviation safe := (Threads.safe shared_ok later).

Lemma bind_safe {A B} (Q1 : A -> Shared -> Prop) (Q2 : B -> Shared -> Prop) (p : Prog A) (k : A -> Prog B) s :
  safe Q1 p s -> (forall a s', later s s' -> Q1 a s' -> safe Q2 (k a) s') -> safe Q2 (p_bind p k) s.
Proof. apply (safe_bind shared_ok later). Qed.

(** A step on the network that exchanges nothing. *)
Lemma safe_quiet {A} (Q : A -> Shared -> Prop) (f : N * list exchange -> (N * list exchange) * A) s :
  (forall n, snd (fst (f n)) = snd n) ->
  (forall a s', later s s' -> Q a s') -> safe Q (on_net f) s.
Proof.
  intros Hf HQ. apply (safe_atomic shared_ok later). intros [c n] Hle (Hc & Hlog & Htok). cbn.
  pose proof (Hf n) as Hn. destruct (f n) as [n' a]. cbn in *.
  assert (Hl : later (c, n) (c, n')) by (split; [exists []; unfold log; simpl; by rewrite Hn, app_nil_r|done]).
  split; [|split; [done|apply HQ; by trans (c, n)]]. unfold shared_ok, log in *. simpl in *. by rewrite Hn.
Qed.

(** One exchange, of a call that may be sent. *)
Lemma safe_exchange (Q : result (Z * Body) -> Shared -> Prop) call s :
  may_send (log s) call ->
  (forall out s', later s s' -> {| x_call := call; x_out := out |} ∈ log s' -> Q out s') ->
  safe Q (on_net (fun n => net_Do n call)) s.
Proof.
  intros Hsend HQ. apply (safe_atomic shared_ok later). intros [c n] Hle (Hc & Hlog & Htok). cbn.
  destruct (net_Do (fst n) call) as [n' out]. cbn. set (x := {| x_call := call; x_out := out |}).
  assert (Hl : later (c, n) (c, (n', snd n ++ [x]))) by (split; [by exists [x]|done]).
  split; [split; [done|split]|split; [done|]].
  - apply log_ok_snoc; [done|]. destruct Hle as [[l Hl'] _]. unfold log in Hl'. simpl in Hl'. rewrite Hl'.
    by apply may_send_mono.
  - intros Ht. apply granted_mono. by apply Htok.
  - apply HQ; [by trans (c, n)|]. unfold log. simpl. apply elem_of_app. right. by left.
Qed.

(** What a request returns is what one of its own exchanges was answered. *)
Definition from_exchange (path : string) (call : HttpCall) (r : result bytes) (s : Shared) : Prop :=
  forall body, r = Ok body -> body <> [] -> exists x, x ∈ log s /\ answered_with path call body x.

Lemma later_elem s s' x : later s s' -> x ∈ log s -> x ∈ log s'.
Proof. intros [[l ->] _] Hx. apply elem_of_app. by left. Qed.

Lemma from_exchange_later path call r s s' : later s s' -> from_exchange path call r s -> from_exchange path call r s'.
Proof.
  intros Hl Hr body Hb Hne. destruct (Hr body Hb Hne) as (x & Hx & Ha). exists x. split; [by eapply later_elem|done].
Qed.

Lemma may_send_later s s' call : later s s' -> may_send (log s) call -> may_send (log s') call.
Proof. intros [[l ->] _]. apply may_send_mono. Qed.

Lemma safe_attempts call path left attempt lastErr s :
  may_send (log s) call -> safe (from_exchange path call) (attempts call path left attempt lastErr) s.
Proof.
  revert attempt lastErr s. induction left as [|left IH]; intros attempt lastErr s Hs; cbn [attempts].
  { intros body Hb Hne. destruct lastErr; simplify_eq. }
  apply bind_safe with (Q1 := fun _ s' => later s s').
  - destruct (0 <? attempt); [|change (later s s); reflexivity].
    apply bind_safe with (Q1 := fun _ s' => later s s').
    + apply safe_quiet; [intros n; apply backoff_log|done].
    + intros [d|] s1 _ Hs1; [|done]. apply safe_quiet; [intros n; apply wait_log|]. intros e s2 Hs2. by trans s1.
  - intros [e|] s1 _ Hs1; [by intros body|]. destruct (NewRequest _ _) as [|e]; [|by intros body].
    eapply bind_safe; [apply safe_exchange|].
    + by eapply may_send_later.
    + intros out s2 Hs2 Hx. exact (conj Hs2 Hx).
    + intros out s2 _ [Hs2 Hx]. simpl in Hx. destruct (judge _ _ out) as [r|e] eqn:Hj.
      * intros body -> _. by eexists.
      * apply IH. eapply may_send_later; [exact Hs2|]. by eapply may_send_later.
Qed.

Lemma safe_doRequest method path payload tok s :
  may_send (log s) (callOf g method path payload tok) ->
  safe (from_exchange path (callOf g method path payload tok)) (doRequest g method path payload tok) s.
Proof. apply safe_attempts. Qed.

(** What is decoded from it. *)
Definition from_decoded {A} (path : string) (call : HttpCall) (decode : bytes -> result A) (zero : A)
    (r : result A) (s : Shared) : Prop :=
  forall v, r = Ok v -> v = zero \/
    exists x body, x ∈ log s /\ answered_with path call body x /\ decode body = Ok v.

Lemma from_decoded_later {A} path call (decode : bytes -> result A) zero r s s' :
  later s s' -> from_decoded path call decode zero r s -> from_decoded path call decode zero r s'.
Proof.
  intros Hl Hr v Hv. destruct (Hr v Hv) as [?|(x & body & Hx & Ha)]; [by left|right].
  exists x, body. split; [by eapply later_elem|done].
Qed.

Lemma safe_doRaw {A} method path body tok (decode : bytes -> result A) zero s :
  let call := callOf g method path (option_map json_Marshal body) tok in
  may_send (log s) call ->
  safe (from_decoded path call decode zero) (doRaw g method path body tok decode zero) s.
Proof.
  intros call Hs. eapply bind_safe; [by apply safe_doRequest|]. intros r s' _ Hr v Hv. simpl in Hv.
  destruct r as [resp|e]; [|done]. simpl in Hv. destruct resp as [|b resp]; simpl in Hv; [left; by injection Hv|right].
  apply map_err_ok in Hv. destruct (Hr (b :: resp) eq_refl ltac:(done)) as (x & Hx & Ha). by exists x, (b :: resp).
Qed.

(** A login's postcondition: a token is there, whoever stored it. *)
Definition has_token {A} (r : result A) (s : Shared) : Prop := is_ok r = true -> token (fst s) <> "".

Lemma later_store (c : Client) (n n' : N * list exchange) tok expiry renew :
  snd n' = snd n -> (token c <> "" -> tok <> "") -> later (c, n) (withToken c tok expiry renew, n').
Proof. intros Hn Ht. split; [exists []; unfold log; simpl; by rewrite Hn, app_nil_r|done]. Qed.

Lemma lease_quiet (n : N * list exchange) secs : snd (fst (leaseExpiry n secs)) = snd n.
Proof. unfold leaseExpiry. simpl. by destruct (time_Now (fst n)). Qed.

Lemma safe_storeLogin auth s :
  granted (log s) (ClientToken auth) -> safe (fun _ s' => token (fst s') <> "") (storeLogin auth) s.
Proof.
  intros Hg. apply (safe_atomic shared_ok later). intros [c n] [[l Hl] _] (Hc & Hlog & Htok). cbn.
  pose proof (lease_quiet n (LeaseDuration auth)) as Hn.
  destruct (leaseExpiry n (LeaseDuration auth)) as [n' expiry]. cbn in *. unfold log in *. simpl in *.
  assert (Hg' : granted (snd n') (ClientToken auth)) by (rewrite Hn, Hl; by apply granted_mono).
  split; [|split; [by apply later_store; [|intros _; apply Hg']|apply Hg']].
  unfold shared_ok, log. simpl. by rewrite Hn in *.
Qed.

Lemma safe_storeRenewal auth s :
  safe (fun _ s' => later s s') (storeRenewal auth) s.
Proof.
  apply (safe_atomic shared_ok later). intros [c n] Hle (Hc & Hlog & Htok). cbn.
  pose proof (lease_quiet n (LeaseDuration auth)) as Hn.
  destruct (leaseExpiry n (LeaseDuration auth)) as [n' expiry]. cbn in *. unfold log in *. simpl in *.
  assert (Hl : later (c, n) (withToken c (token c) expiry (Renewable auth), n')) by (by apply later_store).
  split; [|split; [done|by trans (c, n)]]. unfold shared_ok, log. simpl. by rewrite Hn.
Qed.

Lemma safe_Login s : safe has_token (Login g) s.
Proof.
  eapply bind_safe; [apply safe_doRaw; by left|]. intros [[auth|]|e] s1 _ Hr; [|by intros ?..].
  destruct (String.eqb_spec (ClientToken auth) "") as [_|Hne]; [by intros ?|].
  assert (Hg : granted (log s1) (ClientToken auth)).
  { destruct (Hr (Some auth) eq_refl) as [?|(x & body & Hx & Ha & Hd)]; [done|]. split; [done|]. by exists x, body, auth. }
  eapply bind_safe; [by apply safe_storeLogin|]. intros [] s2 _ Ht _. exact Ht.
Qed.

(** The token held, once there is one, is granted. *)
Definition good_token (r : result string) (s : Shared) : Prop := forall tok, r = Ok tok -> granted (log s) tok.

Lemma good_token_later r s s' : later s s' -> good_token r s -> good_token r s'.
Proof. intros [[l Hl] _] Hr tok Ht. rewrite Hl. apply granted_mono. by apply Hr. Qed.

Lemma safe_locked {A} (Q : A -> Shared -> Prop) (f : Client -> A) s :
  (forall c n, later s (c, n) -> shared_ok (c, n) -> Q (f c) (c, n)) -> safe Q (locked f) s.
Proof.
  intros HQ. apply (safe_atomic shared_ok later). intros [c n] Hle Hok. cbn.
  split; [done|split; [reflexivity|by apply HQ]].
Qed.

Lemma safe_currentToken s : token (fst s) <> "" -> safe (fun tok s' => granted (log s') tok) currentToken s.
Proof.
  intros Ht. apply safe_locked. intros c n [_ Hle] (_ & _ & Hg). by apply Hg, Hle.
Qed.

Lemma safe_loginToken s : safe good_token (loginToken g) s.
Proof.
  eapply bind_safe; [apply safe_Login|]. intros [[]|e] s1 _ Hr; [|by intros ?].
  eapply bind_safe; [apply safe_currentToken; by apply Hr|].
  intros tok s2 _ Hg tok' [= <-]. exact Hg.
Qed.

Lemma safe_renewSelf s : token (fst s) <> "" -> safe (fun _ s' => later s s') (renewSelf g) s.
Proof.
  intros Ht. eapply bind_safe.
  { apply safe_locked with (Q := fun tok s' => later s s' /\ granted (log s') tok).
    intros c n Hl (_ & _ & Hg). split; [done|]. apply Hg. by apply Hl. }
  intros tok s1 _ [Hl Hg]. eapply bind_safe.
  { apply safe_doRaw. right. exists tok. split; [done|by left]. }
  intros [[auth|]|e] s2 Hl2 _; [|exact (transitivity Hl Hl2)..].
  eapply bind_safe; [apply safe_storeRenewal|]. intros [] s3 _ Hl3.
  exact (transitivity (transitivity Hl Hl2) Hl3).
Qed.

Lemma safe_time Q expiry s : (forall a s', later s s' -> Q a s') -> safe Q (time_Until expiry) s.
Proof.
  intros HQ. eapply bind_safe; [apply safe_quiet with (Q := fun _ s' => later s s')|].
  - intros n. simpl. by destruct (time_Now (fst n)).
  - done.
  - intros now s1 _ Hl. by apply HQ.
Qed.

Lemma safe_renewToken expiry renewable s :
  token (fst s) <> "" -> safe good_token (renewToken g expiry renewable) s.
Proof.
  intros Ht. unfold renewToken. destruct renewable; [|apply safe_loginToken].
  eapply bind_safe; [by apply safe_time with (Q := fun _ s' => later s s')|]. intros d s1 _ Hl.
  destruct (0 <? d); [|apply safe_loginToken].
  eapply bind_safe; [apply safe_renewSelf; by apply Hl|]. intros [[]|e] s2 _ Hl2; [|apply safe_loginToken].
  eapply bind_safe; [apply safe_currentToken; by apply Hl2, Hl|]. intros tok s3 _ Hg tok' [= <-]. exact Hg.
Qed.

Lemma safe_ensureToken s : safe good_token (ensureToken g) s.
Proof.
  eapply bind_safe.
  { apply safe_locked with (Q := fun r s' => fst (fst r) <> "" -> granted (log s') (fst (fst r)) /\ token (fst s') <> "").
    intros c n _ (_ & _ & Hg) Ht. simpl in *. split; [by apply Hg|done]. }
  intros [[tok expiry] renewable] s1 _ Hr. simpl in Hr.
  destruct (String.eqb_spec tok "") as [_|Hne]; [apply safe_loginToken|]. destruct (Hr Hne) as [Hg Ht].
  eapply bind_safe; [by apply safe_time with (Q := fun _ s' => later s1 s')|]. intros d s2 _ Hl.
  destruct (_ <? d).
  - intros tok' [= <-]. destruct Hl as [[l ->] _]. by apply granted_mono.
  - apply safe_renewToken. by apply Hl.
Qed.

(** ** Every caller gets the answer to its own call *)

Definition pkiPath (op : operation) : string :=
  match op with
  | OpSign role _ _ => signPath g role
  | OpIssue role _ _ => issuePath g role
  | OpCAChain => chainPath g
  end.

(** In [xs], [op]'s own call was answered with [body]. *)
Definition own_answer (op : operation) (body : bytes) (xs : list exchange) : Prop :=
  exists x tok call, x ∈ xs /\ pkiCall op tok call /\ answered_with (pkiPath op) call body x.

Definition answered (op : operation) (a : answer) (xs : list exchange) : Prop :=
  match a with
  | Chain r =>
      op = OpCAChain /\ match r with Ok pem => pem <> [] /\ own_answer op pem xs | Err _ => True end
  | Bundle r =>
      op <> OpCAChain /\
      match r with
      | Ok b => B_Certificate b <> "" /\ (match op with OpIssue _ _ _ => PrivateKey b <> "" | _ => True end) /\
                exists body out, own_answer op body xs /\ json_pki body = Ok out /\ b = bundle out
      | Err _ => True
      end
  end.

Lemma own_answer_mono op body xs ys : own_answer op body xs -> own_answer op body (xs ++ ys).
Proof.
  intros (x & tok & call & Hx & Hc). exists x, tok, call. split; [apply elem_of_app; by left|done].
Qed.

Lemma answered_monotone op : monotone later (fun a s => answered op a (log s)).
Proof.
  intros a s s' [[l Hl] _]. rewrite Hl. destruct a as [[b|e]|[pem|e]]; simpl; [|done| |done].
  - intros (Hop & Hc & Hk & body & out & Ho & Hr). split_and!; [done..|].
    exists body, out. split; [by apply own_answer_mono|done].
  - intros (Hop & Hp & Hx). split_and!; [done..|by apply own_answer_mono].
Qed.

(** The shared tail of [Sign] and [Issue]. *)
Lemma safe_do_pki op path body s :
  asked op -> path = pkiPath op ->
  (forall tok, pkiCall op tok (callOf g MethodPost path (Some (json_Marshal body)) tok)) ->
  safe (fun r s' => forall out, r = Ok out -> out = zeroPki \/
          exists resp, own_answer op resp (log s') /\ json_pki resp = Ok out) (do_pki g path body) s.
Proof.
  intros Hop -> Hcall. eapply bind_safe; [apply safe_ensureToken|]. intros [tok|e] s1 _ Hg; [|done].
  specialize (Hg tok eq_refl).
  assert (Hraw := safe_doRaw MethodPost (pkiPath op) (Some body) tok json_pki zeroPki s1
                    ltac:(right; exists tok; split; [done|right; exists op; split; [done|apply Hcall]])).
  clear Hg. revert Hraw. apply safe_weaken. intros r s2 Hr out Hout.
  destruct (Hr out Hout) as [?|(x & resp & Hx & Ha & Hd)]; [by left|right]. exists resp. split; [|done].
  exists x, tok. eexists. split_and!; [done|apply Hcall|exact Ha].
Qed.

Lemma safe_Sign role csrPEM opts s :
  asked (OpSign role csrPEM opts) ->
  safe (fun r s' => answered (OpSign role csrPEM opts) (Bundle r) (log s')) (Client_Sign g role csrPEM opts) s.
Proof.
  intros Hop. unfold Client_Sign.
  destruct (String.eqb_spec role "") as [_|Hr]; [done|]. destruct (String.eqb_spec csrPEM "") as [_|Hc]; [done|].
  eapply bind_safe; [apply (safe_do_pki (OpSign role csrPEM opts)); [done|done|by intros tok]|].
  intros [out|e] s1 _ Ho; [|by split]. destruct (Ho out eq_refl) as [->|(resp & Hown & Hd)]; [done|].
  simpl. destruct (String.eqb_spec (B_Certificate out) "") as [_|Hne]; [done|].
  split_and!; [done..|by exists resp, out].
Qed.

Lemma safe_Issue role cn opts s :
  asked (OpIssue role cn opts) ->
  safe (fun r s' => answered (OpIssue role cn opts) (Bundle r) (log s')) (Client_Issue g role cn opts) s.
Proof.
  intros Hop. unfold Client_Issue. destruct (String.eqb_spec role "") as [_|Hr]; [done|].
  eapply bind_safe; [apply (safe_do_pki (OpIssue role cn opts)); [done|done|by intros tok]|].
  intros [out|e] s1 _ Ho; [|by split]. destruct (Ho out eq_refl) as [->|(resp & Hown & Hd)]; [done|].
  simpl. destruct (String.eqb_spec (B_Certificate out) "") as [_|Hne]; [done|].
  destruct (String.eqb_spec (PrivateKey out) "") as [_|Hk]; [done|].
  split_and!; [done..|by exists resp, out].
Qed.

Lemma safe_CAChain s :
  asked OpCAChain -> safe (fun r s' => answered OpCAChain (Chain r) (log s')) (Client_CAChain g) s.
Proof.
  intros Hop. eapply bind_safe with
    (Q1 := fun r s' => forall pem, r = Ok pem -> pem <> [] -> own_answer OpCAChain pem (log s')).
  - eapply bind_safe; [apply safe_ensureToken|]. intros [tok|e] s1 _ Hg; [|done].
    specialize (Hg tok eq_refl).
    assert (Hreq := safe_doRequest MethodGet (chainPath g) None tok s1
                      ltac:(right; exists tok; split; [done|right; by exists OpCAChain])).
    revert Hreq. apply safe_weaken. intros r s2 Hr pem Hpem Hne.
    destruct (Hr pem Hpem Hne) as (x & Hx & Ha). exists x, tok. by eexists.
  - intros [pem|e] s1 _ Hr; [|by split]. destruct pem as [|b pem]; [by split|].
    split; [done|]. simpl. split; [done|]. by apply Hr.
Qed.

Lemma safe_perform op s : asked op -> safe (fun a s' => answered op a (log s')) (perform g op) s.
Proof.
  intros Hop. destruct op; (eapply bind_safe; [|intros r s1 _ Hr; exact Hr]);
    [by apply safe_Sign|by apply safe_Issue|by apply safe_CAChain].
Qed.

Definition goals (l : list operation) : list (answer -> Shared -> Prop) := map (fun op a s => answered op a (log s)) l.

Lemma goals_monotone l : Forall (monotone later) (goals l).
Proof. induction l; constructor; [apply answered_monotone|done]. Qed.

Lemma performs_safe l s :
  (forall op, op ∈ l -> asked op) -> Forall2 (fun Q p => safe Q p s) (goals l) (map (perform g) l).
Proof.
  induction l as [|op l IH]; intros Hl; constructor.
  - apply safe_perform, Hl. by left.
  - apply IH. intros o Ho. apply Hl. by right.
Qed.

(** A new client satisfies the invariant. *)
Lemma shared_ok_fresh c n : cfg c = g -> token c = "" -> shared_ok (c, (n, [])).
Proof.
  intros Hc Ht. split; [done|]. split; [|done]. intros before x after Hl. by destruct before.
Qed.

End Log.

Section Together.
Context `{UnicodeTables} `{Json} {N : Type} `{Upstream N} (g : Config) (ops : list operation).

Abbreviation of_ops := (fun op => op ∈ ops).

(** C9. The client is safe for concurrent use: whatever calls are made of a new
    client at once, however their steps interleave and whatever the network
    answers, everything it sends is an AppRole login without a token, or a
    renewal or exactly what one of the calls asked for, under a token that an
    earlier login of this run was answered with; and each caller that has its
    answer got the answer to its own call, not to another's. *)
Theorem concurrent_calls_correct c n labels st
    (Hcfg : cfg c = g) (Hnew : token c = "")
    (Hrun : steps pool_step ((c, (n, [])), map (perform g) ops) labels st) :
  log_ok g of_ops (log (fst st)) /\
  (token (fst (fst st)) <> "" -> granted g (log (fst st)) (token (fst (fst st)))) /\
  forall i op a, ops !! i = Some op -> snd st !! i = Some (Return a) -> answered g op a (log (fst st)).
Proof.
  destruct (pool_safe (shared_ok g of_ops) later (goals g ops) _ _ _ _ (goals_monotone g ops) (shared_ok_fresh g of_ops c n Hcfg Hnew)
              (performs_safe g of_ops ops _ (fun op Hop => Hop)) Hrun) as ((_ & Hlog & Htok) & _ & Hps).
  split_and!; [done..|]. intros i op a Hi Ha.
  apply (Forall2_lookup_lr _ _ _ i (fun a s => answered g op a (log s)) (Return a) Hps); [|done].
  unfold goals. by rewrite list_lookup_fmap, Hi.
Qed.
End Together.

(** ** Two requests, step by step *)

Section Witnesses.
#[local] Existing Instances ascii_tables.

Lemma concurrent_calls_correct_witness :
  exists st, twoRun = Some st /\
    map (fun x => hc_token (x_call x)) (log (fst st)) = [""; ""; "tok-2"; "tok-2"] /\
    granted exampleConfig (log (fst st)) "tok-2".
Proof.
  destruct twoRun as [st|] eqn:Hst.
  - exists st. split; [reflexivity|].
    assert (Hlog : option_map (fun st => (map (fun x => hc_token (x_call x)) (log (fst st)), token (fst (fst st)))) twoRun =
                   Some ([""; ""; "tok-2"; "tok-2"], "tok-2")) by (vm_compute; reflexivity).
    rewrite Hst in Hlog. cbn [option_map] in Hlog. injection Hlog as Hlog Htok. split; [exact Hlog|].
    destruct (concurrent_calls_correct exampleConfig twoChains exampleClient {| answers := twoLogins; clock := 0 |}
                inTurn st eq_refl eq_refl (schedule_steps _ _ _ Hst)) as (_ & Hg & _).
    rewrite Htok in Hg. apply Hg. discriminate.
  - assert (Hsome : match twoRun with Some _ => true | None => false end = true) by (vm_compute; reflexivity).
    rewrite Hst in Hsome. discriminate Hsome.
Defined.

(** A race between a renewal and a login.  Both requests find token "A" near
    its expiry.  The first one's renewal is answered; before it stores the new
    expiry, the second one's renewal is refused and it logs in to token "B",
    whose lease is a minute.  The first one then stores the expiry of "A", two
    hours away, for token "B". *)
#[local] Instance raceJson : Json := {|
  json_Marshal := json_Marshal (Json := toy_json);
  json_auth b := Ok (Some {| ClientToken := string_of_bytes b;
                             LeaseDuration := if (string_of_bytes b =? "A")%string then 7200 else 60;
                             Renewable := true |});
  json_pki := json_pki (Json := toy_json);
  json_errors := json_errors (Json := toy_json);
|}.

Definition nearExpiry : Client :=
  {| cfg := exampleConfig; token := "A"; tokenExpiry := 2 * Minute; renewable := true |}.

Example renewal_race :
  option_map (fun st => (token (fst (fst st)), tokenExpiry (fst (fst st))))
    (schedule [0; 0; 0; 0; 0; 1; 1; 1; 1; 1; 1; 1; 0]%nat
       (startAt nearExpiry [BaoTheory.answer 200 "A"; BaoTheory.answer 403 "denied"; BaoTheory.answer 200 "B"],
        map (perform exampleConfig) twoChains)) =
  Some ("B", 2 * Hour).
Proof. vm_compute. reflexivity. Qed.
End Witnesses.
