(* ===== verification/Est.v ===== *)
(** * internal/est/handler.go: the EST handler

    Routing, the five operations and their helpers.  A handler runs in a world
    of the authorizer, the enroller and the audit log; each exit of the code is
    one response.  The boundary a multipart reply is drawn with, and the time at
    which the request is served, are arguments. *)
From S2P Require Import Prelude GoLib GoCrypto GoNet X509 Authz Verify Http Base64 Pem Der Pkcs7 Csr Bao.

Definition wellKnownPrefix : string := "/.well-known/est/".
Definition defaultMaxRequestBytes : Z := 256 * 1024.
Definition defaultUpstreamTimeout : Duration := 20 * Second.

Definition ctPKCS7CertsOnly : string := "application/pkcs7-mime; smime-type=certs-only".
Definition ctPKCS10 : string := "application/pkcs10".
Definition ctCSRAttrs : string := "application/csrattrs".
Definition ctPKCS8 : string := "application/pkcs8".

Record Options := {
  BootstrapRoots : option CertPool;
  DeviceRoots : option CertPool;
  AllowedKeyTypes : list string;
  CSRAttrs : bytes;
  MaxRequestBytes : Z;
  MinRSABits : Z;
  MaxRSABits : Z;
  ServerKeyGenKeyType : string;
  ServerKeyGenKeyBits : Z;
  UpstreamTimeout : Duration;
}.

Record handler := { opts : Options; maxReq : Z; upstream : Duration }.

(** One line of the audit log. *)
Record AuditEntry := {
  A_op : string;
  A_outcome : string;
  A_remote : string;
  A_role : string;
  A_reason : string;
  A_requested_cn : option string;
  A_granted_cn : string;
  A_client_cn : option string;
  A_err : option error;
}.

(** The world of a handler; an absent authorizer is [authz.DenyAll{}]. *)
Record world (A E : Type) := { authorizer : option A; enroller : E; auditLog : list AuditEntry }.
Arguments Build_world {A E}.
Arguments authorizer {A E}.
Arguments enroller {A E}.
Arguments auditLog {A E}.

(** ** Helpers *)

(** [base64Lines]: 64 columns, a line break after each line. *)
Definition base64Lines (der : bytes) : bytes := bytes_of_string (break_lines (EncodeToString der)).

Definition is_ascii_space (b : Byte.byte) : bool :=
  existsb (Byte.eqb b) [Byte.x20; Byte.x09; Byte.x0d; Byte.x0a].
Definition stripASCIIWhitespace (b : bytes) : bytes := List.filter (fun c => negb (is_ascii_space c)) b.

Definition pemCertsToDER (pemBytes : bytes) : result (list bytes) :=
  let out := map Bytes_ (List.filter (fun b => (Type_ b =? "CERTIFICATE")%string)
                           (blocks (string_of_bytes pemBytes))) in
  when negb (nonempty out) fail "no CERTIFICATE blocks found";
  Ok out.

Definition singleCertDER (pemStr : string) : result bytes :=
  match Decode pemStr with
  | Some (blk, _) =>
      if (Type_ blk =? "CERTIFICATE")%string then Ok (Bytes_ blk)
      else Err "expected a CERTIFICATE PEM block"
  | None => Err "expected a CERTIFICATE PEM block"
  end.

Definition singleBlockDER (pemStr : string) : result bytes :=
  match Decode pemStr with
  | Some (blk, _) => Ok (Bytes_ blk)
  | None => Err "expected a PEM block"
  end.

Definition toSignOptions (c : CertConstraints) : SignOptions :=
  {| O_CommonName := C_CommonName c; AltNames := C_DNSNames c; IPSANs := C_IPs c; URISANs := C_URIs c;
     O_TTL := if 0 <? C_TTL c then DurationString (C_TTL c) else "";
     O_ExcludeCNFromSANs := C_ExcludeCNFromSANs c; KeyType := ""; KeyBits := 0; Extra := ∅ |}.

(** ** Response writers *)

Definition writePKCS7 (der : bytes) : Response :=
  {| Status := StatusOK;
     RespHeader := <["Content-Transfer-Encoding" := "base64"]> {["Content-Type" := ctPKCS7CertsOnly]};
     RespBody := base64Lines der |}.

Definition crlf : string := String (byte_chr 13) (String newline "").

(** A part of a multipart body: headers in the order of their names. *)
Definition multipartPart (boundary lead contentType : string) (content : bytes) : bytes :=
  bytes_of_string (String.append lead (String.append "--" (String.append boundary (String.append crlf
    (String.append "Content-Transfer-Encoding: base64" (String.append crlf
      (String.append "Content-Type: " (String.append contentType (String.append crlf crlf)))))))))
  ++ base64Lines content.

Definition writeServerKeyGen (boundary : string) (keyDER certP7 : bytes) : Response :=
  {| Status := StatusOK;
     RespHeader := {["Content-Type" := String.append "multipart/mixed; boundary=" boundary]};
     RespBody := multipartPart boundary "" ctPKCS8 keyDER
                 ++ multipartPart boundary crlf ctPKCS7CertsOnly certP7
                 ++ bytes_of_string (String.append crlf (String.append "--" (String.append boundary
                      (String.append "--" crlf)))) |}.

(** ** NewHandler *)

Definition NewHandler {A E} (o : Options) (en : option E) (az : option A) : result (handler * world A E) :=
  match en with
  | None => Err "est: Enroller is required"
  | Some e =>
      Ok ({| opts := o;
             maxReq := if MaxRequestBytes o <=? 0 then defaultMaxRequestBytes else MaxRequestBytes o;
             upstream := if UpstreamTimeout o <=? 0 then defaultUpstreamTimeout else UpstreamTimeout o |},
          {| authorizer := az; enroller := e; auditLog := [] |})
  end.

(** ** readCSR *)

Definition readCSR `{UnicodeTables} (h : handler) (r : HttpRequest) : bytes + Z * error :=
  match ReadAllLimited (R_Body r) (wrap64 (maxReq h + 1)) with
  | Err e => inr (StatusBadRequest, String.append "read body: " e)
  | Ok raw =>
      if maxReq h <? Z.of_nat (length raw) then inr (StatusRequestEntityTooLarge, "request too large")
      else if negb (nonempty raw) then inr (StatusBadRequest, "empty request body")
      else
        let cte := Header_Get r "Content-Transfer-Encoding" in
        let stripped := string_of_bytes (stripASCIIWhitespace raw) in
        if EqualFold cte "base64" then
          match DecodeString stripped with
          | Err e => inr (StatusBadRequest, String.append "base64 decode: " e)
          | Ok dec => inl dec
          end
        else match DecodeString stripped with
             | Ok (x :: dec) => inl (x :: dec)
             | _ => inl raw
             end
  end.

Section Handler.
Context `{UnicodeTables} `{X509} {A : Type} `{Authorizer A} {E : Type} `{Enroller E}.

Abbreviation W := (world A E) (only parsing).

(** ** The audit log *)

Definition op_string (op : Operation) : string :=
  match op with
  | OpSimpleEnroll => "simpleenroll"
  | OpSimpleReenroll => "simplereenroll"
  | OpServerKeyGen => "serverkeygen"
  end.

Definition auditEntry (op : Operation) (req : Request) (d : Decision) (outcome : string) (err : option error)
    : AuditEntry :=
  {| A_op := op_string op; A_outcome := outcome; A_remote := Req_RemoteAddr req; A_role := D_Role d;
     A_reason := Reason d;
     A_requested_cn := option_map (fun csr => CommonName (CSR_Subject csr)) (Req_CSR req);
     A_granted_cn := C_CommonName (D_Constraints d);
     A_client_cn := option_map (fun c => CommonName (Subject c)) (Req_ClientCert req);
     A_err := err |}.

Definition audit (op : Operation) (req : Request) (d : Decision) (outcome : string) (err : option error)
    : Act W Response unit :=
  act_modify (fun w => {| authorizer := authorizer w; enroller := enroller w;
                          auditLog := auditLog w ++ [auditEntry op req d outcome err] |}).

(** [http.Error(w, msg, status); return] *)
Definition reply {B} (msg : string) (status : Z) : Act W Response B := act_exit (http_Error ∅ msg status).

(** ** Calls out of the handler *)

(** The authorizer in use: [authz.DenyAll{}] when none was configured. *)
Definition authorize (az : option A) (now : Time) (req : Request) : option A * result Decision :=
  match az with
  | Some a => let '(a, d) := Authorize a now req in (Some a, d)
  | None => (None, snd (Authorize MkDenyAll now req))
  end.

Definition callAuthorize (now : Time) (req : Request) : Act W Response (result Decision) :=
  act_call (fun w => let '(az, d) := authorize (authorizer w) now req in
                     ({| authorizer := az; enroller := enroller w; auditLog := auditLog w |}, d)).

Definition callEnroller {B} (f : E -> E * B) : Act W Response B :=
  act_call (fun w => let '(e, b) := f (enroller w) in
                     ({| authorizer := authorizer w; enroller := e; auditLog := auditLog w |}, b)).

(** ** The operations *)

Definition parseCSR (h : handler) (der : bytes) : result CertificateRequest :=
  ParseCSRLimited der (MinRSABits (opts h)) (MaxRSABits (opts h)).

Definition checkIssued (certDER : bytes) (d : Decision) : result unit :=
  let? cert := map_err (String.append "parse issued certificate: ") (ParseCertificate certDER) in
  VerifyIssued (Some cert) (D_Constraints d).

Definition presented (r : HttpRequest) : bool :=
  match R_TLS r with Some st => nonempty (PeerCertificates st) | None => false end.

(** The [case authz.OpSimpleEnroll] of [clientIdentity]. *)
Definition bootstrapIdentity (h : handler) (r : HttpRequest) : result (option Certificate) :=
  if negb (presented r) then Ok None
  else match VerifyPeer (R_TLS r) (BootstrapRoots (opts h)) with
       | Ok cert => Ok (Some cert)
       | Err _ => Ok None
       end.

Definition clientIdentity (h : handler) (r : HttpRequest) (op : Operation) : result (option Certificate) :=
  match op with
  | OpSimpleReenroll => let? cert := VerifyPeer (R_TLS r) (DeviceRoots (opts h)) in Ok (Some cert)
  | OpServerKeyGen =>
      match (if presented r then VerifyPeer (R_TLS r) (DeviceRoots (opts h)) else Err "") with
      | Ok cert => Ok (Some cert)
      | Err _ => bootstrapIdentity h r
      end
  | OpSimpleEnroll => bootstrapIdentity h r
  end.

(** [cp, err := ChallengePassword(csr)]; an error leaves it empty. *)
Definition suppliedPassword (csr : CertificateRequest) : string :=
  match ChallengePassword csr with Ok cp => cp | Err _ => "" end.

(** What [enroll] and [serverKeyGen] do up to the authorized decision. *)
Definition admission (h : handler) (now : Time) (op : Operation) (label : string) (r : HttpRequest)
    : Act W Response (bytes * Request * Decision) :=
  let! csrDER := match readCSR h r with
                 | inl der => act_ret der
                 | inr (status, e) => reply e status
                 end in
  let! csr := act_try (parseCSR h csrDER)
                (fun e => reply (String.append "invalid CSR: " e) StatusBadRequest) in
  do! act_try (ValidateKeyType csr (AllowedKeyTypes (opts h))) (fun e => reply e StatusForbidden);
  let cp := suppliedPassword csr in
  let! clientCert := act_try (clientIdentity h r op)
                       (fun _ => reply "client certificate required" StatusForbidden) in
  let req := {| Req_Operation := op; Req_ClientCert := clientCert; Req_CSR := Some csr;
                Req_ChallengePassword := cp; Req_Label := label; Req_RemoteAddr := RemoteAddr r |} in
  let! d := callAuthorize now req in
  match d with
  | Err e =>
      do! audit op req zeroDecision "error" (Some e);
      reply "authorization error" StatusInternalServerError
  | Ok d =>
      if negb (Allow d) then
        do! audit op req d "deny" None;
        reply "not authorized" StatusForbidden
      else act_ret (csrDER, req, d)
  end.

Definition csrPEMOf (csrDER : bytes) : string :=
  EncodeToMemory {| Type_ := "CERTIFICATE REQUEST"; Headers_ := false; Bytes_ := csrDER |}.

Definition enroll (h : handler) (now : Time) (op : Operation) (label : string) (r : HttpRequest)
    : Act W Response Response :=
  let! (csrDER, req, d) := admission h now op label r in
  let! bundle := callEnroller (fun e => Sign e (D_Role d) (csrPEMOf csrDER) (toSignOptions (D_Constraints d))) in
  match bundle with
  | Err e =>
      do! audit op req d "issue-error" (Some e);
      reply "issuance failed" StatusBadGateway
  | Ok bundle =>
      let! leafDER := act_try (singleCertDER (B_Certificate bundle))
                        (fun _ => reply "internal error" StatusInternalServerError) in
      match checkIssued leafDER d with
      | Err e =>
          do! audit op req d "constraint-violation" (Some e);
          reply "issuance failed" StatusBadGateway
      | Ok _ =>
          let! p7 := act_try (DegenerateCertsOnly [leafDER])
                       (fun _ => reply "internal error" StatusInternalServerError) in
          do! audit op req d "issued" None;
          act_ret (writePKCS7 p7)
      end
  end.

Definition issueOptions (h : handler) (c : CertConstraints) : SignOptions :=
  let o := toSignOptions c in
  {| O_CommonName := O_CommonName o; AltNames := AltNames o; IPSANs := IPSANs o; URISANs := URISANs o;
     O_TTL := O_TTL o; O_ExcludeCNFromSANs := O_ExcludeCNFromSANs o;
     KeyType := ServerKeyGenKeyType (opts h); KeyBits := ServerKeyGenKeyBits (opts h); Extra := Extra o |}.

Definition serverKeyGen (h : handler) (boundary : string) (now : Time) (label : string) (r : HttpRequest)
    : Act W Response Response :=
  let op := OpServerKeyGen in
  let! (_, req, d) := admission h now op label r in
  let c := D_Constraints d in
  let! bundle := callEnroller (fun e => Issue e (D_Role d) (C_CommonName c) (issueOptions h c)) in
  match bundle with
  | Err e =>
      do! audit op req d "issue-error" (Some e);
      reply "issuance failed" StatusBadGateway
  | Ok bundle =>
      let! keyDER := act_try (singleBlockDER (PrivateKey bundle))
                       (fun _ => reply "internal error" StatusInternalServerError) in
      let! certDER := act_try (singleCertDER (B_Certificate bundle))
                        (fun _ => reply "internal error" StatusInternalServerError) in
      match checkIssued certDER d with
      | Err e =>
          do! audit op req d "constraint-violation" (Some e);
          reply "issuance failed" StatusBadGateway
      | Ok _ =>
          let! p7 := act_try (DegenerateCertsOnly [certDER])
                       (fun _ => reply "internal error" StatusInternalServerError) in
          do! audit op req d "issued" None;
          act_ret (writeServerKeyGen boundary keyDER p7)
      end
  end.

Definition caCerts : Act W Response Response :=
  let! chain := callEnroller CAChain in
  let! chainPEM := act_try chain (fun _ => reply "upstream error" StatusBadGateway) in
  let! ders := act_try (pemCertsToDER chainPEM) (fun _ => reply "upstream error" StatusBadGateway) in
  let! p7 := act_try (DegenerateCertsOnly ders) (fun _ => reply "internal error" StatusInternalServerError) in
  act_ret (writePKCS7 p7).

Definition csrAttrs (h : handler) : Act W Response Response :=
  act_ret
    (if negb (nonempty (CSRAttrs (opts h))) then
       {| Status := StatusNoContent; RespHeader := ∅; RespBody := [] |}
     else
       {| Status := StatusOK;
          RespHeader := <["Content-Transfer-Encoding" := "base64"]> {["Content-Type" := ctCSRAttrs]};
          RespBody := base64Lines (CSRAttrs (opts h)) |}).

(** ** Routing *)

Definition methodGuard (r : HttpRequest) (method : string) (fn : Act W Response Response)
    : Act W Response Response :=
  if negb (Method r =? method)%string then
    act_exit (http_Error {["Allow" := method]} "method not allowed" StatusMethodNotAllowed)
  else fn.

(** The label and the operation of a path under the prefix. *)
Definition routeOf (rest : string) : string * string :=
  match CutLast rest "/" with
  | Some (label, op) => (label, op)
  | None => ("", rest)
  end.

Definition ServeHTTP (h : handler) (boundary : string) (now : Time) (r : HttpRequest)
    : Act W Response Response :=
  if negb (HasPrefix (URL_Path r) wellKnownPrefix) then act_exit http_NotFound
  else
    let rest := Trim (TrimPrefix (URL_Path r) wellKnownPrefix) "/" in
    if (rest =? "")%string then act_exit http_NotFound
    else
      let '(label, op) := routeOf rest in
      if (op =? "cacerts")%string then methodGuard r MethodGet caCerts
      else if (op =? "simpleenroll")%string then methodGuard r MethodPost (enroll h now OpSimpleEnroll label r)
      else if (op =? "simplereenroll")%string then methodGuard r MethodPost (enroll h now OpSimpleReenroll label r)
      else if (op =? "serverkeygen")%string then methodGuard r MethodPost (serverKeyGen h boundary now label r)
      else if (op =? "csrattrs")%string then methodGuard r MethodGet (csrAttrs h)
      else act_exit http_NotFound.

(** The whole request: the world it leaves and the response. *)
Definition serve (h : handler) (boundary : string) (now : Time) (r : HttpRequest) (w : W) : W * Response :=
  act_run (ServeHTTP h boundary now r) w.
End Handler.
