(* ===== verification/EstTheory.v ===== *)
(** * internal/est: what the EST handler guarantees

    Theorems on [Est.v], for any authorizer and any enroller: nothing is asked
    of the enroller that was not authorized, nothing is released that was not
    verified, renewal needs a device certificate, and the encodings of requests
    and replies are read back exactly. *)
From S2P Require Import Prelude GoLib GoCrypto GoNet X509 Authz Verify Http Base64 Pem Der Pkcs7 Csr Bao BaoTheory Est.

Section Handler.
Context `{UnicodeTables} `{X509} {A : Type} `{Authorizer A} {E : Type} `{Enroller E}.

Abbreviation W := (world A E) (only parsing).

(** ** Admission *)

(** The request got through: its body is this CSR, which passed every check;
    its client identity is the one for the operation; and the authorizer,
    asked about exactly that, allowed it. *)
Record admitted (h : handler) (now : Time) (op : Operation) (label : string) (r : HttpRequest)
    (az : option A) (csrDER : bytes) (req : Request) (d : Decision) : Prop := {
  ad_read : readCSR h r = inl csrDER;
  ad_csr : exists csr cert,
    parseCSR h csrDER = Ok csr /\ ValidateKeyType csr (AllowedKeyTypes (opts h)) = Ok tt /\
    clientIdentity h r op = Ok cert /\
    req = {| Req_Operation := op; Req_ClientCert := cert; Req_CSR := Some csr;
             Req_ChallengePassword := suppliedPassword csr; Req_Label := label;
             Req_RemoteAddr := RemoteAddr r |};
  ad_authorized : snd (authorize az now req) = Ok d;
  ad_allow : Allow d = true;
}.

(** At most one record is added to the audit log. *)
Definition appended (w w' : W) : Prop :=
  exists es, auditLog w' = auditLog w ++ es /\ (length es <= 1)%nat.

Lemma appended_none (w w' : W) : auditLog w' = auditLog w -> appended w w'.
Proof. intros Hl. exists []. rewrite app_nil_r. split; [done|simpl; lia]. Qed.

Lemma appended_one (w w' : W) e : auditLog w' = auditLog w ++ [e] -> appended w w'.
Proof. intros Hl. by exists [e]. Qed.

Lemma readCSR_status h r status e : readCSR h r = inr (status, e) -> 400 <= status.
Proof.
  unfold readCSR. destruct (ReadAllLimited _ _); [|by intros [= <- _]]. destruct (_ <? _); [by intros [= <- _]|].
  destruct (negb _); [by intros [= <- _]|]. destruct (EqualFold _ _).
  - destruct (DecodeString _); by intros; simplify_eq.
  - by destruct (DecodeString _) as [[|]|].
Qed.

(** Admission never touches the enroller; when it exits, the reply is not a
    success, and when it goes on, the audit log is as it was. *)
Lemma admission_spec h now op label r (w : W) :
  match admission h now op label r w with
  | (w', inl resp) => enroller w' = enroller w /\ appended w w' /\ 400 <= Status resp
  | (w', inr (csrDER, req, d)) =>
      enroller w' = enroller w /\ auditLog w' = auditLog w /\
      admitted h now op label r (authorizer w) csrDER req d
  end.
Proof.
  unfold admission, act_bind, act_try, act_ret, reply, act_exit.
  destruct (readCSR h r) as [csrDER|[status e]] eqn:Hread.
  2:{ split; [done|]. split; [by apply appended_none|by eapply readCSR_status]. }
  destruct (parseCSR h csrDER) as [csr|e] eqn:Hcsr; [|split_and!; [done|by apply appended_none|done]].
  destruct (ValidateKeyType csr _) as [[]|e] eqn:Hkt; [|split_and!; [done|by apply appended_none|done]].
  destruct (clientIdentity h r op) as [cert|e] eqn:Hid; [|split_and!; [done|by apply appended_none|done]].
  set (req := {| Req_Operation := op |}). unfold callAuthorize, act_call.
  destruct (authorize (authorizer w) now req) as [az d] eqn:Ha.
  destruct d as [d|e]; [|split_and!; [done|by eapply appended_one|done]].
  destruct (Allow d) eqn:Hallow; simpl; [|split_and!; [done|by eapply appended_one|done]].
  split_and!; [done..|]. split; [done| |by rewrite Ha|done]. by exists csr, cert.
Qed.

(** ** Upstream only as authorized *)

(** What a request may make of the enroller: leave it alone, fetch the chain,
    or issue for one admitted request, exactly as decided. *)
Inductive effect (h : handler) (now : Time) (r : HttpRequest) (w : W) : E -> Prop :=
| no_effect : effect h now r w (enroller w)
| chain_effect : Method r = MethodGet -> effect h now r w (fst (CAChain (enroller w)))
| sign_effect op label csrDER req d :
    op = OpSimpleEnroll \/ op = OpSimpleReenroll ->
    Method r = MethodPost -> admitted h now op label r (authorizer w) csrDER req d ->
    Decode (csrPEMOf csrDER) =
      Some ({| Type_ := "CERTIFICATE REQUEST"; Headers_ := false; Bytes_ := csrDER |}, "") ->
    effect h now r w
      (fst (Sign (enroller w) (D_Role d) (csrPEMOf csrDER) (toSignOptions (D_Constraints d))))
| issue_effect label csrDER req d :
    Method r = MethodPost -> admitted h now OpServerKeyGen label r (authorizer w) csrDER req d ->
    effect h now r w
      (fst (Issue (enroller w) (D_Role d) (C_CommonName (D_Constraints d)) (issueOptions h (D_Constraints d)))).

Lemma csrPEM_decodes der :
  Decode (csrPEMOf der) = Some ({| Type_ := "CERTIFICATE REQUEST"; Headers_ := false; Bytes_ := der |}, "").
Proof. by apply Decode_EncodeToMemory. Qed.

(** What serving a request does: one effect, at most one audit record. *)
Definition served (h : handler) (now : Time) (r : HttpRequest) (w w' : W) : Prop :=
  effect h now r w (enroller w') /\ appended w w'.

Ltac finish He Hlog :=
  split; [exact He|
    first [by apply appended_none | eapply appended_one; cbn [fst auditLog]; rewrite Hlog; reflexivity]].

Lemma enroll_effect h now op label r (w : W) :
  op = OpSimpleEnroll \/ op = OpSimpleReenroll -> Method r = MethodPost ->
  served h now r w (fst (enroll h now op label r w)).
Proof.
  intros Hop Hm. unfold enroll, act_bind at 1.
  pose proof (admission_spec h now op label r w) as Had.
  destruct (admission h now op label r w) as [w1 [resp|[[csrDER req] d]]].
  { destruct Had as (Hen & Hlog & _). split; [|exact Hlog]. simpl. rewrite Hen. constructor. }
  destruct Had as (Hen & Hlog & Had). unfold callEnroller, act_call, act_bind at 1.
  pose proof (sign_effect h now r w op label csrDER req d Hop Hm Had (csrPEM_decodes csrDER)) as He.
  rewrite Hen. destruct (Sign (enroller w) _ _ _) as [e1 [bundle|err]]; [|finish He Hlog].
  unfold act_bind, act_try, act_ret, reply, act_exit, audit, act_modify.
  destruct (singleCertDER _); [|finish He Hlog]. destruct (checkIssued _ _); [|finish He Hlog].
  destruct (DegenerateCertsOnly _); finish He Hlog.
Qed.

Lemma serverKeyGen_effect h boundary now label r (w : W) :
  Method r = MethodPost ->
  served h now r w (fst (serverKeyGen h boundary now label r w)).
Proof.
  intros Hm. unfold serverKeyGen, act_bind at 1.
  pose proof (admission_spec h now OpServerKeyGen label r w) as Had.
  destruct (admission h now OpServerKeyGen label r w) as [w1 [resp|[[csrDER req] d]]].
  { destruct Had as (Hen & Hlog & _). split; [|exact Hlog]. simpl. rewrite Hen. constructor. }
  destruct Had as (Hen & Hlog & Had). unfold callEnroller, act_call, act_bind at 1.
  pose proof (issue_effect h now r w label csrDER req d Hm Had) as He.
  rewrite Hen. destruct (Issue (enroller w) _ _ _) as [e1 [bundle|err]]; [|finish He Hlog].
  unfold act_bind, act_try, act_ret, reply, act_exit, audit, act_modify.
  destruct (singleBlockDER _); [|finish He Hlog]. destruct (singleCertDER _); [|finish He Hlog].
  destruct (checkIssued _ _); [|finish He Hlog]. destruct (DegenerateCertsOnly _); finish He Hlog.
Qed.

Lemma caCerts_effect h now r (w : W) :
  Method r = MethodGet -> served h now r w (fst (caCerts w)).
Proof.
  intros Hm. unfold caCerts, callEnroller, act_call, act_bind at 1.
  pose proof (chain_effect h now r w Hm) as He.
  pose proof (eq_refl (auditLog w)) as Hlog. destruct (CAChain (enroller w)) as [e1 [chain|err]]; [|finish He Hlog].
  unfold act_bind, act_try, act_ret, reply, act_exit.
  destruct (pemCertsToDER _); [|finish He Hlog]. destruct (DegenerateCertsOnly _); finish He Hlog.
Qed.

(** Every way a request can be served. *)
Inductive routed (h : handler) (boundary : string) (now : Time) (r : HttpRequest) : Act W Response Response -> Prop :=
| routed_exit resp : 400 <= Status resp -> routed h boundary now r (act_exit resp)
| routed_caCerts : Method r = MethodGet -> routed h boundary now r caCerts
| routed_attrs : Method r = MethodGet -> routed h boundary now r (csrAttrs h)
| routed_enroll op label :
    op = OpSimpleEnroll \/ op = OpSimpleReenroll -> Method r = MethodPost ->
    routed h boundary now r (enroll h now op label r)
| routed_keygen label :
    Method r = MethodPost -> routed h boundary now r (serverKeyGen h boundary now label r).

Lemma ServeHTTP_routed h boundary now r : routed h boundary now r (ServeHTTP h boundary now r).
Proof.
  assert (Hguard : forall m fn, (Method r = m -> routed h boundary now r fn) ->
            routed h boundary now r (methodGuard r m fn)).
  { intros m fn Hfn. unfold methodGuard. destruct (String.eqb_spec (Method r) m); simpl; [auto|].
    by constructor. }
  unfold ServeHTTP. destruct (negb _); [by constructor|]. destruct (_ =? _)%string; [by constructor|].
  destruct (routeOf _) as [label op].
  repeat (destruct (_ =? _)%string; [apply Hguard; by constructor; auto|]). by constructor.
Qed.

Lemma serve_served h boundary now r (w : W) : served h now r w (fst (serve h boundary now r w)).
Proof.
  unfold serve, act_run.
  assert (Hfst : forall m : W * (Response + Response),
            fst (match m with (w', inl r) => (w', r) | (w', inr r) => (w', r) end) = fst m)
    by (by intros [w' [?|?]]).
  rewrite Hfst.
  assert (Hnone : served h now r w w) by (split; [constructor|by apply appended_none]).
  destruct (ServeHTTP_routed h boundary now r) as [resp|Hm|Hm|op label Hop Hm|label Hm].
  - exact Hnone.
  - by apply caCerts_effect.
  - exact Hnone.
  - by apply enroll_effect.
  - by apply serverKeyGen_effect.
Qed.

(** A sequence of requests, each with its boundary and the time it is served. *)
Definition served_all (h : handler) (reqs : list (string * Time * HttpRequest)) (w : W) : W :=
  fold_left (fun w '(boundary, now, r) => fst (serve h boundary now r w)) reqs w.

Lemma served_all_log h reqs (w : W) :
  exists es, auditLog (served_all h reqs w) = auditLog w ++ es /\ (length es <= length reqs)%nat.
Proof.
  revert w. induction reqs as [|[[boundary now] r] reqs IH]; intros w.
  - exists []. rewrite app_nil_r. split; [done|simpl; lia].
  - destruct (serve_served h boundary now r w) as [_ (es & Hes & Hl)].
    destruct (IH (fst (serve h boundary now r w))) as (es' & Hes' & Hl').
    exists (es ++ es'). cbn [served_all fold_left]. unfold served_all in Hes'. rewrite Hes', Hes, <- app_assoc, length_app.
    split; [done|simpl; lia].
Qed.

(** C6. Nothing is issued that was not authorized, over any sequence of requests:
    serving one more request either leaves the enroller untouched, or fetches
    the CA chain (for a GET), or makes exactly one issuance call, for a POST
    whose CSR parsed, proved possession within the key policy, and was allowed
    by the authorizer, with exactly the role and constraints of that decision
    and a PEM that decodes to exactly the CSR that was checked; and the audit
    log of the whole sequence only ever grew, by at most one record a request. *)
Theorem upstream_only_as_authorized h reqs boundary now r (w : W) :
  let wn := served_all h reqs w in
  effect h now r wn (enroller (fst (serve h boundary now r wn))) /\
  exists es, auditLog (fst (serve h boundary now r wn)) = auditLog w ++ es /\ (length es <= S (length reqs))%nat.
Proof.
  cbv zeta. destruct (serve_served h boundary now r (served_all h reqs w)) as [He (es & Hes & Hl)].
  split; [exact He|]. destruct (served_all_log h reqs w) as (es' & Hes' & Hl').
  exists (es' ++ es). rewrite Hes, Hes', app_assoc, length_app. split; [done|lia].
Qed.

(** ** Releases are verified and audited *)

(** A certificate leaves in a reply: issued for an admitted request, checked
    against its decision, and recorded; the body is that certificate alone, or the
    private key of the same bundle and then the certificate. *)
Definition released (h : handler) (boundary : string) (now : Time) (r : HttpRequest) (w w' : W) (resp : Response)
    : Prop :=
  exists op label csrDER req d bundle leafDER cert p7,
    admitted h now op label r (authorizer w) csrDER req d /\
    (op <> OpServerKeyGen /\
       snd (Sign (enroller w) (D_Role d) (csrPEMOf csrDER) (toSignOptions (D_Constraints d))) = Ok bundle /\
       resp = writePKCS7 p7 /\ RespBody resp = base64Lines p7 \/
     op = OpServerKeyGen /\
       snd (Issue (enroller w) (D_Role d) (C_CommonName (D_Constraints d)) (issueOptions h (D_Constraints d)))
         = Ok bundle /\
       exists keyDER, singleBlockDER (PrivateKey bundle) = Ok keyDER /\ resp = writeServerKeyGen boundary keyDER p7 /\
         exists before between after,
           RespBody resp = before ++ base64Lines keyDER ++ between ++ base64Lines p7 ++ after) /\
    singleCertDER (B_Certificate bundle) = Ok leafDER /\
    ParseCertificate leafDER = Ok cert /\ VerifyIssued (Some cert) (D_Constraints d) = Ok tt /\
    DegenerateCertsOnly [leafDER] = Ok p7 /\
    auditLog w' = auditLog w ++ [auditEntry op req d "issued" None].

Lemma checkIssued_ok der d :
  checkIssued der d = Ok tt ->
  exists cert, ParseCertificate der = Ok cert /\ VerifyIssued (Some cert) (D_Constraints d) = Ok tt.
Proof. unfold checkIssued. intros Hc. peel Hc. eauto. Qed.

(** The two parts of a key generation reply. *)
Lemma writeServerKeyGen_parts boundary key p7 :
  exists before between after,
    RespBody (writeServerKeyGen boundary key p7) = before ++ base64Lines key ++ between ++ base64Lines p7 ++ after.
Proof.
  assert (Hpart : forall lead ctype content, exists header, multipartPart boundary lead ctype content = header ++ base64Lines content).
  { intros lead ctype content. unfold multipartPart. generalize (base64Lines content). intros body.
    match goal with |- exists _, ?hd ++ body = _ => by exists hd end. }
  unfold writeServerKeyGen. cbn [RespBody].
  destruct (Hpart "" ctPKCS8 key) as [h1 ->]. destruct (Hpart crlf ctPKCS7CertsOnly p7) as [h2 ->].
  generalize (base64Lines key) (base64Lines p7). intros body1 body2.
  match goal with |- context [(h2 ++ body2) ++ ?tl] => exists h1, h2, tl end. by rewrite <- !app_assoc.
Qed.

Lemma enroll_released h boundary now op label r (w : W) :
  op = OpSimpleEnroll \/ op = OpSimpleReenroll ->
  match enroll h now op label r w with
  | (_, inl resp) => 400 <= Status resp
  | (w', inr resp) => released h boundary now r w w' resp
  end.
Proof.
  intros Hop. unfold enroll, act_bind at 1.
  pose proof (admission_spec h now op label r w) as Had.
  destruct (admission h now op label r w) as [w1 [resp|[[csrDER req] d]]]; [by destruct Had as (_ & _ & ?)|].
  destruct Had as (Hen & Hlog & Had). unfold callEnroller, act_call, act_bind at 1. rewrite Hen.
  destruct (Sign (enroller w) _ _ _) as [e1 [bundle|err]] eqn:Hs; [|done].
  unfold act_bind, act_try, act_ret, reply, act_exit, audit, act_modify.
  destruct (singleCertDER _) as [leaf|] eqn:Hleaf; [|done].
  destruct (checkIssued leaf d) as [[]|] eqn:Hc; [|done].
  destruct (DegenerateCertsOnly _) as [p7|] eqn:Hp; [|done]. cbn [authorizer enroller auditLog].
  destruct (checkIssued_ok _ _ Hc) as (cert & Hcert & Hver).
  exists op, label, csrDER, req, d, bundle, leaf, cert, p7. rewrite Hlog, Hs.
  split_and!; try done. left. split_and!; [by destruct Hop; subst|done..].
Qed.

Lemma serverKeyGen_released h boundary now label r (w : W) :
  match serverKeyGen h boundary now label r w with
  | (_, inl resp) => 400 <= Status resp
  | (w', inr resp) => released h boundary now r w w' resp
  end.
Proof.
  unfold serverKeyGen, act_bind at 1.
  pose proof (admission_spec h now OpServerKeyGen label r w) as Had.
  destruct (admission h now OpServerKeyGen label r w) as [w1 [resp|[[csrDER req] d]]]; [by destruct Had as (_ & _ & ?)|].
  destruct Had as (Hen & Hlog & Had). unfold callEnroller, act_call, act_bind at 1. rewrite Hen.
  destruct (Issue (enroller w) _ _ _) as [e1 [bundle|err]] eqn:Hs; [|done].
  unfold act_bind, act_try, act_ret, reply, act_exit, audit, act_modify.
  destruct (singleBlockDER _) as [key|] eqn:Hkey; [|done].
  destruct (singleCertDER _) as [leaf|] eqn:Hleaf; [|done].
  destruct (checkIssued leaf d) as [[]|] eqn:Hc; [|done].
  destruct (DegenerateCertsOnly _) as [p7|] eqn:Hp; [|done]. cbn [authorizer enroller auditLog].
  destruct (checkIssued_ok _ _ Hc) as (cert & Hcert & Hver).
  exists OpServerKeyGen, label, csrDER, req, d, bundle, leaf, cert, p7. rewrite Hlog, Hs.
  split_and!; try done. right. split_and!; [done..|]. exists key. split_and!; [done..|]. apply writeServerKeyGen_parts.
Qed.

(** C7. A certificate is released only if it stays within what was authorized:
    a POST answered with anything but an error was admitted and authorized, the
    body carries the certificate issued for it, and it alone, preceded for a key
    generation by the private key that came with it; that certificate passed the
    post-issuance check against that very decision, and the audit log gained
    exactly the record of the issuance. *)
Theorem released_only_verified h boundary now r (w w' : W) resp
    (Hserve : serve h boundary now r w = (w', resp))
    (Hpost : Method r = MethodPost) (Hok : Status resp < 400) :
  released h boundary now r w w' resp.
Proof.
  unfold serve, act_run in Hserve.
  destruct (ServeHTTP_routed h boundary now r) as [resp0 Hr|Hm|Hm|op label Hop Hm|label Hm];
    [|by rewrite Hm in Hpost|by rewrite Hm in Hpost| |].
  - simpl in Hserve. injection Hserve as _ <-. lia.
  - pose proof (enroll_released h boundary now op label r w Hop) as Hrel.
    destruct (enroll h now op label r w) as [w1 [resp1|resp1]]; injection Hserve as <- <-; [lia|done].
  - pose proof (serverKeyGen_released h boundary now label r w) as Hrel.
    destruct (serverKeyGen h boundary now label r w) as [w1 [resp1|resp1]]; injection Hserve as <- <-; [lia|done].
Qed.

(** ** Client identity *)

Lemma VerifyPeer_presented r roots cert :
  VerifyPeer (R_TLS r) roots = Ok cert -> presented r = true.
Proof.
  unfold VerifyPeer, presented. destruct (R_TLS r) as [st|]; [|done].
  by destruct (PeerCertificates st).
Qed.

Lemma bootstrapIdentity_spec h r o :
  bootstrapIdentity h r = Ok o <->
  match o with
  | Some cert => VerifyPeer (R_TLS r) (BootstrapRoots (opts h)) = Ok cert
  | None => is_ok (VerifyPeer (R_TLS r) (BootstrapRoots (opts h))) = false
  end.
Proof.
  unfold bootstrapIdentity. destruct (presented r) eqn:Hp; simpl.
  - destruct (VerifyPeer (R_TLS r) (BootstrapRoots (opts h))) as [c|e]; destruct o; simpl;
      (split; intros Hx; simplify_eq; done).
  - destruct (VerifyPeer (R_TLS r) (BootstrapRoots (opts h))) as [c|e] eqn:Hv.
    + apply VerifyPeer_presented in Hv. congruence.
    + destruct o; (split; intros Hx; simplify_eq; done).
Qed.

(** C21. Trust anchors stay apart: the certificate an operation acts under was
    verified against that operation's own anchor.  A re-enrollment has a
    device-anchor certificate or is refused before the authorizer and the
    enroller hear of it; an initial enrollment takes the identity of a
    bootstrap-anchor certificate, and none from any other; key generation
    prefers the device anchor. *)
Theorem identity_from_own_anchor h now label r (w : W) :
  (forall cert, clientIdentity h r OpSimpleEnroll = Ok (Some cert) <->
     VerifyPeer (R_TLS r) (BootstrapRoots (opts h)) = Ok cert) /\
  (forall cert, clientIdentity h r OpServerKeyGen = Ok (Some cert) <->
     VerifyPeer (R_TLS r) (DeviceRoots (opts h)) = Ok cert \/
     is_ok (VerifyPeer (R_TLS r) (DeviceRoots (opts h))) = false /\
     VerifyPeer (R_TLS r) (BootstrapRoots (opts h)) = Ok cert) /\
  (forall o, clientIdentity h r OpSimpleReenroll = Ok o <->
     exists cert, o = Some cert /\ VerifyPeer (R_TLS r) (DeviceRoots (opts h)) = Ok cert) /\
  (is_ok (VerifyPeer (R_TLS r) (DeviceRoots (opts h))) = false ->
   exists resp, enroll h now OpSimpleReenroll label r w = (w, inl resp) /\ 400 <= Status resp).
Proof.
  split_and!.
  - intros cert. apply (bootstrapIdentity_spec h r (Some cert)).
  - intros cert. unfold clientIdentity. destruct (presented r) eqn:Hp.
    + destruct (VerifyPeer (R_TLS r) (DeviceRoots (opts h))) as [c|e]; simpl.
      * split; [intros ?; simplify_eq; by left|]. by intros [?|[? _]]; simplify_eq.
      * rewrite (bootstrapIdentity_spec h r (Some cert)). split; [by right|]. by intros [?|[_ ?]].
    + destruct (VerifyPeer (R_TLS r) (DeviceRoots (opts h))) as [c|e] eqn:Hv.
      { apply VerifyPeer_presented in Hv. congruence. }
      rewrite (bootstrapIdentity_spec h r (Some cert)). split; [by right|]. by intros [?|[_ ?]].
  - intros o. simpl. destruct (VerifyPeer (R_TLS r) (DeviceRoots (opts h))) as [c|e]; simpl.
    + split; [intros ?; simplify_eq; eauto|]. by intros (c' & -> & ?); simplify_eq.
    + split; [done|]. by intros (c' & _ & ?).
  - intros Hno. unfold enroll, admission, act_bind, act_try, act_ret, reply, act_exit.
    destruct (readCSR h r) as [csrDER|[status e]] eqn:Hread.
    2:{ pose proof (admission_spec h now OpSimpleReenroll label r w) as Had.
        unfold admission, act_bind, reply, act_exit in Had. rewrite Hread in Had. destruct Had as (_ & _ & ?). by eexists. }
    destruct (parseCSR h csrDER) as [csr|e]; [|by eexists].
    destruct (ValidateKeyType csr _) as [[]|e]; [|by eexists]. simpl.
    destruct (VerifyPeer (R_TLS r) (DeviceRoots (opts h))) as [c|e]; [done|]. by eexists.
Qed.
End Handler.

(** ** Request bodies *)

Definition is_space_chr (c : ascii) : bool := is_ascii_space (byte_of_ascii c).

Lemma strip_string s :
  string_of_bytes (stripASCIIWhitespace (bytes_of_string s)) = string_filter (fun c => negb (is_space_chr c)) s.
Proof.
  unfold stripASCIIWhitespace, is_space_chr. induction s as [|c s IH]; [done|].
  change (bytes_of_string (String c s)) with (byte_of_ascii c :: bytes_of_string s).
  cbn [List.filter string_filter]. destruct (negb (is_ascii_space (byte_of_ascii c))).
  - change (string_of_bytes (byte_of_ascii c :: List.filter (fun c => negb (is_ascii_space c)) (bytes_of_string s)))
      with (String (ascii_of_byte (byte_of_ascii c))
              (string_of_bytes (List.filter (fun c => negb (is_ascii_space c)) (bytes_of_string s)))).
    by rewrite IH, ascii_of_byte_of_ascii.
  - exact IH.
Qed.

(** A line break is white space, and no base64 digit is. *)
Lemma filter_strip s :
  string_forallb body_byte s = true ->
  string_filter (fun c => negb (is_space_chr c)) s = strip_newlines s.
Proof.
  assert (Hall : forallb (fun c => negb (body_byte c) || Bool.eqb (is_space_chr c) (is_newline c)) all_bytes = true)
    by (vm_compute; reflexivity).
  induction s as [|c s IH]; simpl; [done|]. intros [Hc Hs]%andb_true_iff.
  pose proof (for_all_bytes _ Hall c) as Hb. simpl in Hb. rewrite Hc in Hb. apply eqb_prop in Hb.
  rewrite Hb, IH by done. by destruct (is_newline c).
Qed.

Lemma base64Lines_decodes der :
  DecodeString (string_of_bytes (stripASCIIWhitespace (base64Lines der))) = Ok der.
Proof.
  unfold base64Lines. rewrite strip_string.
  destruct (break_lines_body_ (String.length (EncodeToString der)) _ (EncodeToString_bytes der)) as (x & Hx & Hbody).
  rewrite filter_strip.
  - rewrite strip_break_lines by apply EncodeToString_bytes. apply decode_lines.
    apply strip_newlines_id, EncodeToString_bytes.
  - unfold break_lines. rewrite Hx, string_forallb_app, Hbody. done.
Qed.

Lemma decode_length s : forall si q d,
  decode s si q = Ok d -> (length d <= String.length s + length q)%nat.
Proof.
  assert (Hend : forall s si d b, decode_end s si d = Ok b -> b = d).
  { intros t si d b. unfold decode_end. destruct (skip_newlines t si) as [[|] ?]; by intros [= ->]. }
  assert (Hq : forall n a b c d, (length (quantum n a b c d) <= n)%nat).
  { intros. unfold quantum. rewrite length_firstn. lia. }
  induction s as [|c s IH]; intros si q d; cbn [decode String.length].
  - destruct q; [intros [= <-]; simpl; lia|done].
  - destruct (chr_sextet c) as [v|].
    + assert (Hpush : decode s (si + 1) (q ++ [v]) = Ok d -> (length d <= S (String.length s) + length q)%nat).
      { intros Hd. apply IH in Hd. rewrite length_app in Hd. simpl in Hd. lia. }
      destruct q as [|q1 [|q2 [|q3 [|q4 q]]]]; try exact Hpush.
      intros Hd. apply result_bind_ok in Hd as (d' & Hd & Heq). apply IH in Hd.
      assert (d = quantum 3 q1 q2 q3 v ++ d') as -> by congruence. rewrite length_app. pose proof (Hq 3%nat q1 q2 q3 v). cbn [length] in *. lia.
    + destruct (is_newline c); [intros Hd; apply IH in Hd; lia|].
      destruct (negb _); [done|].
      destruct q as [|q1 [|q2 [|q3 [|q4 q]]]]; try done.
      * destruct (skip_newlines s (si + 1)) as [[|c' t] ti]; [done|].
        destruct (Ascii.eqb c' pad_chr); [|done]. intros Hd. apply Hend in Hd as ->.
        pose proof (Hq 1%nat q1 q2 0%N 0%N). cbn [length]. lia.
      * intros Hd. apply Hend in Hd as ->. pose proof (Hq 2%nat q1 q2 q3 0%N). cbn [length]. lia.
Qed.

Lemma string_of_bytes_length b : String.length (string_of_bytes b) = length b.
Proof.
  induction b as [|x b IH]; [done|].
  change (string_of_bytes (x :: b)) with (String (ascii_of_byte x) (string_of_bytes b)).
  simpl. by rewrite IH.
Qed.

Lemma strip_length b : (length (stripASCIIWhitespace b) <= length b)%nat.
Proof. apply List.filter_length_le. Qed.

(** A DER value with a long-form length is not base64 text. *)
Lemma der_not_base64 x y raw d :
  (128 <= Byte.to_N y)%N -> is_ascii_space x = false -> is_ascii_space y = false ->
  chr_sextet (ascii_of_byte x) <> None ->
  DecodeString (string_of_bytes (stripASCIIWhitespace (x :: y :: raw))) <> Ok d.
Proof.
  intros Hy Hx Hsy Hsx. unfold stripASCIIWhitespace. cbn [List.filter]. rewrite Hx, Hsy. cbn [negb].
  set (t := List.filter _ raw).
  change (string_of_bytes (x :: y :: t))
    with (String (ascii_of_byte x) (String (ascii_of_byte y) (string_of_bytes t))).
  assert (Hyb : chr_sextet (ascii_of_byte y) = None /\ is_newline (ascii_of_byte y) = false /\
                Ascii.eqb (ascii_of_byte y) pad_chr = false).
  { assert (Hall : forallb (fun n => match Byte.of_N n with
        | Some b => (n <? 128)%N || (match chr_sextet (ascii_of_byte b) with None => true | _ => false end
                     && negb (is_newline (ascii_of_byte b)) && negb (Ascii.eqb (ascii_of_byte b) pad_chr))
        | None => true end) (map N.of_nat (seq 0 256)) = true) by (vm_compute; reflexivity).
    rewrite forallb_forall in Hall. specialize (Hall (Byte.to_N y)).
    assert (Hin : In (Byte.to_N y) (map N.of_nat (seq 0 256))).
    { apply in_map_iff. exists (N.to_nat (Byte.to_N y)). split; [lia|]. apply in_seq.
      pose proof (byte_to_N_bound y). lia. }
    apply Hall in Hin. rewrite Byte.of_to_N in Hin.
    destruct (N.ltb_spec (Byte.to_N y) 128); [lia|]. simpl in Hin. reflect_bools.
    split_and!; [by destruct (chr_sextet (ascii_of_byte y))|done..]. }
  destruct Hyb as (Hy1 & Hy2 & Hy3). unfold DecodeString. cbn [decode].
  destruct (chr_sextet (ascii_of_byte x)) as [v|]; [|done]. cbn [app].
  by rewrite Hy1, Hy2, Hy3.
Qed.

Lemma nonempty_lines der : nonempty (base64Lines der) = true.
Proof.
  assert (Hb : forall s, s <> "" -> nonempty (bytes_of_string s) = true) by (by intros []).
  apply Hb. unfold break_lines.
  destruct (break_lines_body_ (String.length (EncodeToString der)) _ (EncodeToString_bytes der)) as (x & -> & _).
  by destruct x.
Qed.

(** The limit on the reader is an int64 sum. *)
Lemma read_limit h : 0 < maxReq h < max_int64 -> wrap64 (maxReq h + 1) = maxReq h + 1.
Proof. intros Hm. apply wrap64_id. unfold is_int64, min_int64, max_int64 in *. lia. Qed.

Lemma read_limit_wraps h r : maxReq h = max_int64 -> ReadAllLimited (R_Body r) (wrap64 (maxReq h + 1)) = Ok [].
Proof.
  intros ->. change (wrap64 (max_int64 + 1)) with min_int64. unfold ReadAllLimited.
  destruct (Z.leb_spec min_int64 (Z.of_nat (length (body_data (R_Body r))))) as [_|Hlt]; [done|unfold min_int64 in Hlt; lia].
Qed.

(** C35. Request bodies are read exactly and in bounds, for any limit below the
    largest int64: a body in the broker's own base64 form is read back as the
    same DER whether or not it is labelled base64; a raw DER value with a
    long-form length, which every request is, is taken verbatim unless labelled
    base64; a body over the limit is refused as too large whatever follows it.
    With a limit of 9223372036854775807, which the configuration accepts, the
    limit of the reader wraps to a negative number and every request is refused as
    empty.  Whatever the limit, nothing longer ever reaches the parser. *)
Theorem read_csr_correct `{UnicodeTables} h r (Hmax : 0 < maxReq h) :
  (maxReq h < max_int64 ->
   (forall der, der <> [] -> R_Body r = {| body_data := base64Lines der; body_err := None |} ->
      Z.of_nat (length (base64Lines der)) <= maxReq h -> readCSR h r = inl der) /\
   (forall y raw, R_Body r = {| body_data := Byte.x30 :: y :: raw; body_err := None |} ->
      (128 <= Byte.to_N y)%N -> EqualFold (Header_Get r "Content-Transfer-Encoding") "base64" = false ->
      Z.of_nat (length (Byte.x30 :: y :: raw)) <= maxReq h -> readCSR h r = inl (Byte.x30 :: y :: raw)) /\
   (maxReq h < Z.of_nat (length (body_data (R_Body r))) ->
      readCSR h r = inr (StatusRequestEntityTooLarge, "request too large"))) /\
  (maxReq h = max_int64 -> readCSR h r = inr (StatusBadRequest, "empty request body")) /\
  (forall der, readCSR h r = inl der -> Z.of_nat (length der) <= maxReq h).
Proof.
  split; [intros Hint; pose proof (read_limit h (conj Hmax Hint)) as Hlim; split_and!|split].
  - intros der Hne Hbody Hlen. unfold readCSR. rewrite Hbody, Hlim.
    rewrite ReadAllLimited_short by (simpl; first [done|lia]). simpl body_data.
    destruct (Z.ltb_spec (maxReq h) (Z.of_nat (length (base64Lines der)))) as [?|_]; [lia|].
    rewrite nonempty_lines. simpl negb. cbv iota. rewrite base64Lines_decodes.
    destruct (EqualFold _ _); [done|]. by destruct der.
  - intros y raw Hbody Hy Hcte Hlen. unfold readCSR. rewrite Hbody, Hlim.
    rewrite ReadAllLimited_short by (cbn [body_data body_err]; first [done|lia]). cbn [body_data].
    destruct (Z.ltb_spec (maxReq h) (Z.of_nat (length (Byte.x30 :: y :: raw)))) as [?|_]; [lia|].
    cbn [nonempty negb]. rewrite Hcte.
    destruct (DecodeString _) as [[|b d]|] eqn:Hd; [done| |done]. exfalso.
    apply der_not_base64 in Hd; [done|done|done| |by vm_compute].
    unfold is_ascii_space. apply not_true_iff_false. intros Hs. apply existsb_elem in Hs as (z & Hz & Hyz).
    apply Byte.byte_dec_bl in Hyz as ->. repeat (apply elem_of_cons in Hz as [->|Hz]; [done|]). by apply elem_of_nil in Hz.
  - intros Hbig. unfold readCSR. rewrite Hlim. unfold ReadAllLimited.
    destruct (Z.leb_spec (maxReq h + 1) (Z.of_nat (length (body_data (R_Body r))))) as [_|?]; [|lia].
    rewrite length_firstn.
    destruct (Z.ltb_spec (maxReq h)
      (Z.of_nat (Init.Nat.min (Z.to_nat (maxReq h + 1)) (length (body_data (R_Body r)))))); [done|lia].
  - intros Hm. unfold readCSR. rewrite read_limit_wraps by done. cbn [length negb nonempty].
    by destruct (Z.ltb_spec (maxReq h) (Z.of_nat 0)); [lia|].
  - intros der. unfold readCSR. destruct (ReadAllLimited _ _) as [raw|e]; [|done].
    destruct (Z.ltb_spec (maxReq h) (Z.of_nat (length raw))) as [?|Hle]; [done|].
    destruct (negb (nonempty raw)); [done|].
    assert (Hdec : forall d, DecodeString (string_of_bytes (stripASCIIWhitespace raw)) = Ok d ->
              Z.of_nat (length d) <= maxReq h).
    { intros d Hd. apply decode_length in Hd. rewrite string_of_bytes_length in Hd.
      pose proof (strip_length raw). simpl in Hd. lia. }
    destruct (EqualFold _ _).
    + destruct (DecodeString _) as [d|e]; [|done]. intros [= <-]. by apply Hdec.
    + destruct (DecodeString _) as [[|b d]|]; intros [= <-]; try done. by apply Hdec.
Qed.

(** ** Runs of the whole stack *)

Section Witnesses.
#[local] Existing Instances ascii_tables toyX509.

Definition exampleEstOptions : Options :=
  {| BootstrapRoots := None; DeviceRoots := None; AllowedKeyTypes := ["ec-p256"]; CSRAttrs := [];
     MaxRequestBytes := 0; MinRSABits := 0; MaxRSABits := 0; ServerKeyGenKeyType := "rsa";
     ServerKeyGenKeyBits := 2048; UpstreamTimeout := 0 |}.

Definition exampleHandler : handler :=
  {| opts := exampleEstOptions; maxReq := defaultMaxRequestBytes; upstream := defaultUpstreamTimeout |}.

Definition pemCert (cn : string) : string :=
  EncodeToMemory {| Type_ := "CERTIFICATE"; Headers_ := false; Bytes_ := bytes_of_string cn |}.

(** An OpenBao that takes the login and then signs. *)
Definition exampleUpstream : Client * script :=
  (exampleClient, {| answers := [answer 200 "tok-1"; answer 200 (String.append (pemCert "dev-1") ";12:34")];
                     clock := 0 |}).

Definition exampleWorld : world AllowAllEcho (Client * script) :=
  {| authorizer := Some {| Echo_Role := "devices" |}; enroller := exampleUpstream; auditLog := [] |}.

Definition exampleEnroll : HttpRequest :=
  exampleHttp "POST" "/.well-known/est/simpleenroll" "" (base64Lines (bytes_of_string "dev-1")) None.

Lemma released_only_verified_witness :
  let out := serve exampleHandler "b" 0 exampleEnroll exampleWorld in
  Status (snd out) = 200 /\ released exampleHandler "b" 0 exampleEnroll exampleWorld (fst out) (snd out) /\
  RespBody (snd out) <> [].
Proof.
  cbv zeta. assert (Hst : Status (snd (serve exampleHandler "b" 0 exampleEnroll exampleWorld)) = 200)
    by (vm_compute; reflexivity).
  split; [exact Hst|]. split.
  - apply (released_only_verified exampleHandler "b" 0 exampleEnroll exampleWorld _ _ (surjective_pairing _) eq_refl).
    rewrite Hst. reflexivity.
  - vm_compute. discriminate.
Defined.

Lemma read_csr_correct_witness :
  readCSR exampleHandler exampleEnroll = inl (bytes_of_string "dev-1").
Proof.
  apply (proj1 (proj1 (read_csr_correct exampleHandler exampleEnroll eq_refl) eq_refl)).
  - discriminate.
  - reflexivity.
  - vm_compute. discriminate.
Defined.
End Witnesses.
