(* ===== verification/Cms.v ===== *)
(** * internal/cms/cms.go: CMS messages for SCEP

    The wrapper around the smallstep/pkcs7 library: the digest allowlist and the
    separation of "signature intact" from "signer trusted".  The library is the
    class [Pkcs7Lib]; nothing is assumed of it. *)
From S2P Require Import Prelude GoLib GoCrypto X509 Der.

(** The values of authenticated attributes the broker writes. *)
Inductive AttrValue := VStr (s : string) | VBytes (b : bytes).

Record Attribute := { Attr_Type : list N; Attr_Value : AttrValue }.

Inductive EncryptionAlgorithm := EncryptionAlgorithmDESCBC | EncryptionAlgorithmAES256CBC.

Class Pkcs7Lib := {
  (** a parsed message, a SignedData under construction, a private key *)
  PKCS7 : Type;
  SignedData : Type;
  Key : Type;
  p7_Parse : bytes -> result PKCS7;
  (** the digest algorithm of each signer *)
  p7_Signers : PKCS7 -> list (list N);
  p7_Verify : PKCS7 -> result unit;
  p7_VerifyWithChain : PKCS7 -> CertPool -> result unit;
  p7_GetOnlySigner : PKCS7 -> option Certificate;
  p7_Content : PKCS7 -> bytes;
  (** UnmarshalSignedAttribute into a string and into a byte slice *)
  p7_AttrString : PKCS7 -> list N -> result string;
  p7_AttrBytes : PKCS7 -> list N -> result bytes;
  p7_Decrypt : PKCS7 -> Certificate -> Key -> result bytes;
  (** the first argument is the randomness the call draws *)
  p7_Encrypt : bytes -> EncryptionAlgorithm -> bytes -> list Certificate -> result bytes;
  p7_NewSignedData : bytes -> result SignedData;
  p7_SetDigestAlgorithm : SignedData -> list N -> SignedData;
  p7_AddSigner : SignedData -> Certificate -> Key -> list Attribute -> result SignedData;
  p7_Finish : SignedData -> result bytes;
  p7_DegenerateCertificate : bytes -> result bytes;
}.

(** [init]: the content encryption is pinned for the whole process. *)
Definition ContentEncryptionAlgorithm : EncryptionAlgorithm := EncryptionAlgorithmAES256CBC.

Definition SHA1 : list N := [1; 3; 14; 3; 2; 26]%N.
Definition SHA256 : list N := [2; 16; 840; 1; 101; 3; 4; 2; 1]%N.
Definition SHA384 : list N := [2; 16; 840; 1; 101; 3; 4; 2; 2]%N.
Definition SHA512 : list N := [2; 16; 840; 1; 101; 3; 4; 2; 3]%N.

Definition DefaultDigests : list (list N) := [SHA256; SHA384; SHA512].

(** [%v] of an object identifier *)
Definition OID_String (oid : list N) : string := Join (map (fun n => Itoa (Z.of_N n)) oid) ".".

Section Cms.
Context `{Pkcs7Lib}.

Record Verifier := { Digests : list (list N) }.

Record Signed := {
  Content : bytes;
  Signer : Certificate;
  Chained : bool;
  p7 : PKCS7;
}.

Definition checkDigest (v : Verifier) (oid : list N) : result unit :=
  let allowed := match Digests v with [] => DefaultDigests | ds => ds end in
  if existsb (fun a => OID_eqb a oid) allowed then Ok tt
  else Err (String.append "cms: digest algorithm not permitted: " (OID_String oid)).

Definition parse (v : Verifier) (der : bytes) : result PKCS7 :=
  when match der with [] => true | _ => false end fail "cms: empty message";
  let? p := map_err (String.append "cms: parse: ") (p7_Parse der) in
  match p7_Signers p with
  | [] => Err "cms: message has no signers"
  | [digest] => let? _ := checkDigest v digest in Ok p
  | signers => Err (String.append "cms: expected 1 signer, got " (Itoa (Z.of_nat (length signers))))
  end.

Definition signed (p : PKCS7) (chained : bool) : result Signed :=
  match p7_GetOnlySigner p with
  | None => Err "cms: no signer certificate in message"
  | Some signer => Ok {| Content := p7_Content p; Signer := signer; Chained := chained; p7 := p |}
  end.

Definition VerifySignature (v : Verifier) (der : bytes) : result Signed :=
  let? p := parse v der in
  let? _ := map_err (String.append "cms: signature verification failed: ") (p7_Verify p) in
  signed p false.

Definition VerifyChain (v : Verifier) (der : bytes) (roots : option CertPool) : result Signed :=
  match roots with
  | None => Err "cms: no trust anchor configured for this operation"
  | Some roots =>
      let? p := parse v der in
      let? _ := map_err (String.append "cms: signature or chain verification failed: ")
                  (p7_VerifyWithChain p roots) in
      signed p true
  end.

Definition Decrypt (der : bytes) (cert : Certificate) (key : Key) : result bytes :=
  when match der with [] => true | _ => false end fail "cms: empty enveloped message";
  let? p := map_err (String.append "cms: parse enveloped: ") (p7_Parse der) in
  map_err (fun _ => "cms: decryption failed") (p7_Decrypt p cert key).

Definition Encrypt (rnd : bytes) (content : bytes) (recipient : option Certificate) : result bytes :=
  match recipient with
  | None => Err "cms: no recipient certificate"
  | Some c => map_err (String.append "cms: encrypt: ")
                (p7_Encrypt rnd ContentEncryptionAlgorithm content [c])
  end.

Record SignOptions := { Attributes : list Attribute; Digest : option (list N) }.

Definition Sign (content : bytes) (cert : option Certificate) (key : Key) (opts : SignOptions) : result bytes :=
  match cert with
  | None => Err "cms: no signing certificate"
  | Some cert =>
      let? sd := map_err (String.append "cms: new signed data: ") (p7_NewSignedData content) in
      let digest := match Digest opts with Some d => d | None => SHA256 end in
      let sd := p7_SetDigestAlgorithm sd digest in
      let? sd := map_err (String.append "cms: add signer: ") (p7_AddSigner sd cert key (Attributes opts)) in
      map_err (String.append "cms: finish: ") (p7_Finish sd)
  end.

Definition DegenerateCertsOnly (certs : list Certificate) : result bytes :=
  when match certs with [] => true | _ => false end fail "cms: at least one certificate is required";
  map_err (String.append "cms: degenerate: ") (p7_DegenerateCertificate (concat (map Raw certs))).
End Cms.

(** ** Properties *)

Section CmsProperties.
Context `{Pkcs7Lib}.

Definition digests_of (v : Verifier) : list (list N) :=
  match Digests v with [] => DefaultDigests | ds => ds end.

Lemma checkDigest_ok v oid : checkDigest v oid = Ok tt <-> oid ∈ digests_of v.
Proof.
  unfold checkDigest, digests_of. set (ds := match Digests v with [] => _ | _ => _ end).
  destruct (existsb _ ds) eqn:He.
  - split; [|done]. intros _. apply existsb_elem in He as (x & Hin & Hx).
    by apply bool_decide_eq_true in Hx as ->.
  - split; [done|]. intros Hin. rewrite <- not_true_iff_false in He. exfalso. apply He.
    apply existsb_elem. exists oid. split; [done|]. by apply bool_decide_eq_true.
Qed.

Lemma parse_ok v der p :
  parse v der = Ok p <->
  der <> [] /\ p7_Parse der = Ok p /\ exists d, p7_Signers p = [d] /\ d ∈ digests_of v.
Proof.
  unfold parse. destruct der as [|x der]; [split; [done|by intros [? _]]|].
  destruct (p7_Parse (x :: der)) as [q|e]; simpl; [|split; [done|by intros (_ & ? & _)]].
  destruct (p7_Signers q) as [|d [|d' ds]] eqn:Hs.
  - split; [done|]. intros (_ & [= <-] & d & Hd & _). congruence.
  - destruct (checkDigest v d) as [[]|e] eqn:Hc; simpl.
    + apply checkDigest_ok in Hc. split.
      * intros [= <-]. split_and!; [done..|]. by exists d.
      * by intros (_ & ? & _).
    + split; [done|]. intros (_ & [= <-] & d2 & Hd & Hin). rewrite Hs in Hd. simplify_eq.
      apply checkDigest_ok in Hin. congruence.
  - split; [done|]. intros (_ & [= <-] & d2 & Hd & _). congruence.
Qed.

(** C31. A message counts as signed only by a single signer under a permitted
    digest: a signature check succeeds exactly when the message parses, has one
    signer whose digest is on the allowlist (SHA-1 only if it is configured),
    its signature verifies, and the signer's certificate is present; and it
    carries an identity exactly when it was also verified against a configured
    anchor.  A digest off the list is refused whatever the signature is. *)
Theorem cms_verification_correct v der roots s :
  (VerifySignature v der = Ok s <->
   exists p d, p7_Parse der = Ok p /\ der <> [] /\ p7_Signers p = [d] /\ d ∈ digests_of v /\
     p7_Verify p = Ok tt /\ p7_GetOnlySigner p = Some (Signer s) /\
     s = {| Content := p7_Content p; Signer := Signer s; Chained := false; p7 := p |}) /\
  (VerifyChain v der roots = Ok s <->
   exists p d pool, p7_Parse der = Ok p /\ der <> [] /\ p7_Signers p = [d] /\ d ∈ digests_of v /\
     roots = Some pool /\ p7_VerifyWithChain p pool = Ok tt /\ p7_GetOnlySigner p = Some (Signer s) /\
     s = {| Content := p7_Content p; Signer := Signer s; Chained := true; p7 := p |}) /\
  (SHA1 ∈ digests_of v <-> SHA1 ∈ Digests v).
Proof.
  assert (Hsigned : forall p c, signed p c = Ok s <-> p7_GetOnlySigner p = Some (Signer s) /\
     s = {| Content := p7_Content p; Signer := Signer s; Chained := c; p7 := p |}).
  { intros p c. unfold signed. destruct (p7_GetOnlySigner p) as [g|]; [|split; [done|by intros [? _]]].
    split; [by intros [= <-]|]. intros [[= ->] Hs]. by rewrite Hs at 2. }
  split; [|split].
  - unfold VerifySignature. split.
    + intros Hv. peel Hv. apply Hsigned in Hv as [Hg Hs].
      match goal with Hp : parse _ _ = Ok ?p |- _ => apply parse_ok in Hp as (? & ? & d & ? & ?); exists p, d end.
      by match goal with Hu : p7_Verify _ = Ok ?u |- _ => destruct u end.
    + intros (p & d & Hp & Hne & Hd & Hin & Hver & Hs).
      rewrite (proj2 (parse_ok v der p)) by eauto. simpl. rewrite Hver. simpl. by apply Hsigned.
  - unfold VerifyChain. destruct roots as [pool|].
    + split.
      * intros Hv. peel Hv. apply Hsigned in Hv as [Hg Hs].
        match goal with Hp : parse _ _ = Ok ?p |- _ => apply parse_ok in Hp as (? & ? & d & ? & ?); exists p, d, pool end.
        by match goal with Hu : p7_VerifyWithChain _ _ = Ok ?u |- _ => destruct u end.
      * intros (p & d & pool' & Hp & Hne & Hd & Hin & [= <-] & Hver & Hs).
        rewrite (proj2 (parse_ok v der p)) by eauto. simpl. rewrite Hver. simpl. by apply Hsigned.
    + split; [done|]. by intros (p & d & pool & _ & _ & _ & _ & ? & _).
  - unfold digests_of. destruct (Digests v); [|done]. split; [|by intros ?%elem_of_nil].
    unfold DefaultDigests. intros Hin. exfalso.
    repeat (apply elem_of_cons in Hin as [Hin|Hin]; [discriminate Hin|]). by apply elem_of_nil in Hin.
Qed.
End CmsProperties.
