(* ===== verification/ScepMessage.v ===== *)
(** * internal/scep/message.go and request.go: SCEP messages

    Message types and attributes, the parser that turns a PKIOperation body
    into a verified request, and the responder that builds signed CertReps. *)
From S2P Require Import Prelude GoLib GoCrypto X509 Der Cms Replay.

(** ** message.go *)

Definition oidMessageType : list N := [2; 16; 840; 1; 113733; 1; 9; 2]%N.
Definition oidPKIStatus : list N := [2; 16; 840; 1; 113733; 1; 9; 3]%N.
Definition oidFailInfo : list N := [2; 16; 840; 1; 113733; 1; 9; 4]%N.
Definition oidSenderNonce : list N := [2; 16; 840; 1; 113733; 1; 9; 5]%N.
Definition oidRecipientNonce : list N := [2; 16; 840; 1; 113733; 1; 9; 6]%N.
Definition oidTransactionID : list N := [2; 16; 840; 1; 113733; 1; 9; 7]%N.

Abbreviation MessageType := string (only parsing).
Definition PKCSReq : MessageType := "19".
Definition RenewalReq : MessageType := "17".
Definition CertRep : MessageType := "3".
Definition GetCertInitial : MessageType := "20".
Definition GetCert : MessageType := "21".
Definition GetCRL : MessageType := "22".

Definition Valid (m : MessageType) : bool := (m =? PKCSReq)%string || (m =? RenewalReq)%string.

Definition MessageType_String (m : MessageType) : string :=
  if (m =? PKCSReq)%string then "PKCSReq"
  else if (m =? RenewalReq)%string then "RenewalReq"
  else if (m =? CertRep)%string then "CertRep"
  else if (m =? GetCertInitial)%string then "GetCertInitial"
  else if (m =? GetCert)%string then "GetCert"
  else if (m =? GetCRL)%string then "GetCRL"
  else String.append "unknown(" (String.append m ")").

Abbreviation PKIStatus := string (only parsing).
Definition StatusSuccess : PKIStatus := "0".
Definition StatusFailure : PKIStatus := "2".
Definition StatusPending : PKIStatus := "3".

Abbreviation FailInfo := string (only parsing).
Definition FailBadAlg : FailInfo := "0".
Definition FailBadMessageCheck : FailInfo := "1".
Definition FailBadRequest : FailInfo := "2".
Definition FailBadTime : FailInfo := "3".
Definition FailBadCertID : FailInfo := "4".

Definition nonceLen : Z := 16.
Definition maxTransactionIDLen : Z := 128.

Record Attributes := {
  MessageType_ : MessageType;
  TransactionID_ : TransactionID;
  SenderNonce : Nonce;
  RecipientNonce : Nonce;
  PKIStatus_ : PKIStatus;
  FailInfo_ : FailInfo;
}.

(** The [attributeReader] interface, at the two types it is used with. *)
Class AttributeReader (R : Type) := {
  UnmarshalString : R -> list N -> result string;
  UnmarshalBytes : R -> list N -> result bytes;
}.

#[export] Instance Signed_AttributeReader `{Pkcs7Lib} : AttributeReader Signed := {|
  UnmarshalString s oid := p7_AttrString (p7 s) oid;
  UnmarshalBytes s oid := p7_AttrBytes (p7 s) oid;
|}.

Definition parseAttributes {R} `{AttributeReader R} (r : R) : result Attributes :=
  let? mt := map_err (fun _ => "scep: missing messageType attribute") (UnmarshalString r oidMessageType) in
  when negb (Valid mt) fail String.append "scep: unsupported messageType " (MessageType_String mt);
  let? txID := map_err (fun _ => "scep: missing transactionID attribute") (UnmarshalString r oidTransactionID) in
  when (txID =? "")%string fail "scep: empty transactionID";
  when maxTransactionIDLen <? Z.of_nat (String.length txID)
  fail String.append "scep: transactionID exceeds " (String.append (Itoa maxTransactionIDLen) " bytes");
  let? nonce := map_err (fun _ => "scep: missing senderNonce attribute") (UnmarshalBytes r oidSenderNonce) in
  when negb (Z.of_nat (length nonce) =? nonceLen)
  fail String.append "scep: senderNonce is " (String.append (Itoa (Z.of_nat (length nonce)))
         (String.append " bytes, want " (Itoa nonceLen)));
  Ok {| MessageType_ := mt; TransactionID_ := txID; SenderNonce := nonce; RecipientNonce := [];
        PKIStatus_ := ""; FailInfo_ := "" |}.

(** ** request.go *)

Record ScepRequest := {
  SR_Attributes : Attributes;
  SR_CSR : CertificateRequest;
  SR_Signer : Certificate;
  SignerAuthenticated : bool;
}.

Section Scep.
Context `{Pkcs7Lib}.

Record Parser := {
  P_RACert : option Certificate;
  P_RAKey : option Key;
  P_DeviceRoots : option CertPool;
  P_Verifier : Verifier;
  P_ParseCSR : option (bytes -> result CertificateRequest);
}.

Definition Parse (p : Parser) (der : bytes) : result ScepRequest :=
  match P_ParseCSR p, P_RACert p, P_RAKey p with
  | None, _, _ => Err "scep: no CSR parser configured"
  | _, None, _ | _, _, None => Err "scep: no RA identity configured"
  | Some parseCSR, Some raCert, Some raKey =>
      let? sig := VerifySignature (P_Verifier p) der in
      let? attrs := parseAttributes sig in
      let? (sig, authenticated) :=
        if (MessageType_ attrs =? RenewalReq)%string then
          let? chained := map_err (String.append "scep: renewal signer not trusted: ")
                            (VerifyChain (P_Verifier p) der (P_DeviceRoots p)) in
          Ok (chained, true)
        else Ok (sig, false) in
      let? csrDER := Decrypt (Content sig) raCert raKey in
      let? csr := map_err (String.append "scep: ") (parseCSR csrDER) in
      Ok {| SR_Attributes := attrs; SR_CSR := csr; SR_Signer := Signer sig;
            SignerAuthenticated := authenticated |}
  end.

Record Responder := { R_RACert : option Certificate; R_RAKey : option Key }.

(** What a reply draws at random: the nonce, or the error of drawing it, and
    the randomness of the encryption. *)
Record Draws := { d_nonce : result Nonce; d_seed : bytes }.

(** The authenticated attributes of a CertRep. *)
Definition replyAttributes (req : ScepRequest) (sender : Nonce) (status : PKIStatus) (info : FailInfo)
    : list Attribute :=
  [{| Attr_Type := oidMessageType; Attr_Value := VStr CertRep |};
   {| Attr_Type := oidPKIStatus; Attr_Value := VStr status |};
   {| Attr_Type := oidTransactionID; Attr_Value := VStr (TransactionID_ (SR_Attributes req)) |};
   {| Attr_Type := oidSenderNonce; Attr_Value := VBytes sender |};
   {| Attr_Type := oidRecipientNonce; Attr_Value := VBytes (SenderNonce (SR_Attributes req)) |}]
  ++ if (status =? StatusFailure)%string
     then [{| Attr_Type := oidFailInfo; Attr_Value := VStr info |}] else [].

Definition sign (r : Responder) (rnd : Draws) (req : ScepRequest) (content : bytes) (status : PKIStatus)
    (info : FailInfo) : result bytes :=
  match R_RACert r, R_RAKey r with
  | Some raCert, Some raKey =>
      let? sender := map_err (String.append "scep: nonce: ") (d_nonce rnd) in
      Sign content (Some raCert) raKey
        {| Cms.Attributes := replyAttributes req sender status info; Digest := None |}
  | _, _ => Err "scep: no RA identity configured"
  end.

Definition Success (r : Responder) (rnd : Draws) (req : ScepRequest) (issued : option Certificate)
    : result bytes :=
  match issued with
  | None => Err "scep: no certificate to return"
  | Some cert =>
      let? certsOnly := DegenerateCertsOnly [cert] in
      let? enveloped := Encrypt (d_seed rnd) certsOnly (Some (SR_Signer req)) in
      sign r rnd req enveloped StatusSuccess ""
  end.

Definition Failure (r : Responder) (rnd : Draws) (req : ScepRequest) (info : FailInfo) : result bytes :=
  sign r rnd req [] StatusFailure info.
End Scep.

(** ** Properties *)

Section ScepProperties.
Context `{Pkcs7Lib}.

Lemma parseAttributes_ok {R} `{AttributeReader R} (r : R) a :
  parseAttributes r = Ok a ->
  (MessageType_ a = PKCSReq \/ MessageType_ a = RenewalReq) /\
  1 <= Z.of_nat (String.length (TransactionID_ a)) <= 128 /\ length (SenderNonce a) = 16%nat.
Proof.
  unfold parseAttributes. intros Hp. peel Hp. injection Hp as <-. cbn [MessageType_ TransactionID_ SenderNonce].
  reflect_bools. unfold Valid, maxTransactionIDLen, nonceLen in *. reflect_bools. split_and!.
  - match goal with Hv : _ \/ _ |- _ => destruct Hv as [Hv|Hv] end; reflect_bools; auto.
  - match goal with Hn : ?t <> "" |- _ => destruct t; [done|simpl; lia] end.
  - lia.
  - lia.
Qed.

(** The steps of a parse, in their order. *)
Lemma Parse_ok p der req :
  Parse p der = Ok req ->
  exists parseCSR raCert raKey sig attrs csrDER,
    P_ParseCSR p = Some parseCSR /\ P_RACert p = Some raCert /\ P_RAKey p = Some raKey /\
    VerifySignature (P_Verifier p) der = Ok sig /\ parseAttributes sig = Ok attrs /\
    SR_Attributes req = attrs /\ parseCSR csrDER = Ok (SR_CSR req) /\
    if (MessageType_ attrs =? RenewalReq)%string then
      exists chained, VerifyChain (P_Verifier p) der (P_DeviceRoots p) = Ok chained /\
        SR_Signer req = Signer chained /\ SignerAuthenticated req = true /\
        Decrypt (Content chained) raCert raKey = Ok csrDER
    else SR_Signer req = Signer sig /\ SignerAuthenticated req = false /\
      Decrypt (Content sig) raCert raKey = Ok csrDER.
Proof.
  unfold Parse. destruct (P_ParseCSR p) as [parseCSR|]; [|done].
  destruct (P_RACert p) as [raCert|]; [|done]. destruct (P_RAKey p) as [raKey|]; [|done].
  intros Hp. apply result_bind_ok in Hp as (sig & Hsig & Hp).
  apply result_bind_ok in Hp as (attrs & Hattrs & Hp).
  apply result_bind_ok in Hp as ([sig' auth] & Hchain & Hp).
  apply result_bind_ok in Hp as (csrDER & Hdec & Hp).
  apply result_bind_ok in Hp as (csr & Hcsr & Hp). apply map_err_ok in Hcsr. injection Hp as <-.
  exists parseCSR, raCert, raKey, sig, attrs, csrDER. cbn [SR_Attributes SR_CSR SR_Signer SignerAuthenticated].
  split_and!; [done..|]. destruct (MessageType_ attrs =? RenewalReq)%string.
  - apply result_bind_ok in Hchain as (chained & Hc & Heq). apply map_err_ok in Hc. simplify_eq. eauto.
  - by simplify_eq.
Qed.

(** What a parsed message says of its signer: only a renewal, chained to the
    device anchor, authenticates it. *)
Lemma scep_signer_identity p der req (Hparse : Parse p der = Ok req) :
  let attrs := SR_Attributes req in
  (MessageType_ attrs = PKCSReq /\ SignerAuthenticated req = false \/
   MessageType_ attrs = RenewalReq /\ SignerAuthenticated req = true /\
   exists pool m d, P_DeviceRoots p = Some pool /\ p7_Parse der = Ok m /\ p7_Signers m = [d] /\
     d ∈ digests_of (P_Verifier p) /\ p7_VerifyWithChain m pool = Ok tt /\
     p7_GetOnlySigner m = Some (SR_Signer req)) /\
  1 <= Z.of_nat (String.length (TransactionID_ attrs)) <= 128 /\ length (SenderNonce attrs) = 16%nat /\
  exists parseCSR csrDER, P_ParseCSR p = Some parseCSR /\ parseCSR csrDER = Ok (SR_CSR req).
Proof.
  destruct (Parse_ok p der req Hparse)
    as (parseCSR & raCert & raKey & sig & attrs & csrDER & Hpc & _ & _ & Hsig & Hattrs & Ha & Hcsr & Hcase).
  cbv zeta. rewrite Ha. destruct (parseAttributes_ok sig attrs Hattrs) as (Hmt & Htx & Hn).
  split; [|split; [exact Htx|split; [exact Hn|by exists parseCSR, csrDER]]].
  destruct (String.eqb_spec (MessageType_ attrs) RenewalReq) as [Hr|Hr].
  - right. destruct Hcase as (chained & Hc & Hsgn & Hauth & _). split_and!; [done|done|].
    destruct (P_DeviceRoots p) as [pool|] eqn:Hpool; [|done]. exists pool.
    unfold VerifyChain in Hc. peel Hc.
    match goal with Hp : parse _ _ = Ok ?m |- _ => apply parse_ok in Hp as (_ & Hm & d & Hd & Hin); exists m, d end.
    match goal with Hu : p7_VerifyWithChain _ _ = Ok ?u |- _ => destruct u end.
    split_and!; try done. unfold signed in Hc. destruct (p7_GetOnlySigner _) as [g|]; [|done].
    injection Hc as <-. by rewrite Hsgn.
  - left. destruct Hmt; [|done]. by destruct Hcase as (_ & ? & _).
Qed.

(** A CertRep over [content]: signed by the RA under SHA-256, with the reply
    attributes of this request. *)
Definition cert_rep (r : Responder) (rnd : Draws) (req : ScepRequest) (content : bytes) (status : PKIStatus)
    (info : FailInfo) (out : bytes) : Prop :=
  exists raCert raKey sender sd sd',
    R_RACert r = Some raCert /\ R_RAKey r = Some raKey /\ d_nonce rnd = Ok sender /\
    p7_NewSignedData content = Ok sd /\
    p7_AddSigner (p7_SetDigestAlgorithm sd SHA256) raCert raKey (replyAttributes req sender status info) = Ok sd' /\
    p7_Finish sd' = Ok out.

Lemma sign_ok r rnd req content status info out :
  sign r rnd req content status info = Ok out <-> cert_rep r rnd req content status info out.
Proof.
  unfold sign, cert_rep, Sign. split.
  - destruct (R_RACert r) as [c|]; [|done]. destruct (R_RAKey r) as [k|]; [|done]. intros Hs.
    apply result_bind_ok in Hs as (sender & Hn & Hs). apply map_err_ok in Hn.
    apply result_bind_ok in Hs as (sd & Hsd & Hs). apply map_err_ok in Hsd.
    apply result_bind_ok in Hs as (sd' & Hadd & Hs). apply map_err_ok in Hadd, Hs.
    by exists c, k, sender, sd, sd'.
  - intros (c & k & sender & sd & sd' & -> & -> & Hn & Hsd & Hadd & Hf).
    rewrite Hn. simpl. rewrite Hsd. simpl. rewrite Hadd. simpl. by rewrite Hf.
Qed.

(** C32. Every SCEP reply is bound to its request: a reply the responder builds
    is signed by the RA and carries the request's transaction ID and, as
    recipientNonce, the request's own senderNonce; a failure has an empty
    payload and one failInfo; a success carries the issued certificate, and it
    only, encrypted with the pinned algorithm to the requester's certificate,
    and no failInfo. *)
Theorem scep_reply_bound r rnd req info cert out sender status :
  (Failure r rnd req info = Ok out <-> cert_rep r rnd req [] StatusFailure info out) /\
  (Success r rnd req (Some cert) = Ok out <->
   exists certsOnly enveloped, p7_DegenerateCertificate (Raw cert) = Ok certsOnly /\
     p7_Encrypt (d_seed rnd) EncryptionAlgorithmAES256CBC certsOnly [SR_Signer req] = Ok enveloped /\
     cert_rep r rnd req enveloped StatusSuccess "" out) /\
  Success r rnd req None = Err "scep: no certificate to return" /\
  {| Attr_Type := oidTransactionID; Attr_Value := VStr (TransactionID_ (SR_Attributes req)) |}
    ∈ replyAttributes req sender status info /\
  {| Attr_Type := oidRecipientNonce; Attr_Value := VBytes (SenderNonce (SR_Attributes req)) |}
    ∈ replyAttributes req sender status info /\
  ((exists v, {| Attr_Type := oidFailInfo; Attr_Value := v |} ∈ replyAttributes req sender status info) <->
   status = StatusFailure).
Proof.
  split; [apply sign_ok|]. split; [|split; [done|split; [|split]]].
  - unfold Success, DegenerateCertsOnly. cbn [map concat]. rewrite app_nil_r. split.
    + intros Hs. apply result_bind_ok in Hs as (co & Hco & Hs). apply map_err_ok in Hco.
      apply result_bind_ok in Hs as (en & Hen & Hs). apply map_err_ok in Hen. apply sign_ok in Hs. eauto.
    + intros (co & en & Hco & Hen & Hs). rewrite Hco. simpl. unfold ContentEncryptionAlgorithm. rewrite Hen.
      simpl. by apply sign_ok.
  - unfold replyAttributes. do 2 right. by left.
  - unfold replyAttributes. do 4 right. by left.
  - unfold replyAttributes. destruct (String.eqb_spec status StatusFailure) as [->|Hne].
    + split; [done|]. intros _. exists (VStr info). do 5 right. by left.
    + split; [|done]. intros [v Hv]. exfalso.
      repeat (apply elem_of_cons in Hv as [Hv|Hv]; [discriminate Hv|]). by apply elem_of_nil in Hv.
Qed.
End ScepProperties.
