(* ===== verification/ScepHandler.v ===== *)
(** * internal/scep/handler.go: the SCEP handler

    GetCACert, GetCACaps and PKIOperation, over the same authorizer and enroller
    as EST.  A request is served in a world of the authorizer, the enroller, the
    replay cache and the audit log; the times its steps read and what it draws
    at random are arguments. *)
From S2P Require Import Prelude GoLib GoCrypto GoNet X509 Authz Http Base64 Pem Der Bao Cms Replay ScepMessage.

Definition defaultMaxRequestBytes : Z := 512 * 1024.
Definition defaultUpstreamTimeout : Duration := 20 * Second.
Definition ctPKIOperation : string := "application/x-pki-message".
Definition ctCACert : string := "application/x-x509-ca-cert".
Definition ctCACertChain : string := "application/x-x509-ca-ra-cert".

(** One line of the audit log. *)
Record ScepAudit := {
  S_op : string;
  S_outcome : string;
  S_remote : string;
  S_transaction : string;
  S_authenticated : bool;
  S_role : string;
  S_reason : string;
  S_requested_cn : string;
  S_granted_cn : string;
  S_err : option error;
}.

Record world (A E : Type) := {
  authorizer : A;
  enroller : E;
  replayCache : ReplayCache;
  auditLog : list ScepAudit;
}.
Arguments Build_world {A E}.
Arguments authorizer {A E}.
Arguments enroller {A E}.
Arguments replayCache {A E}.
Arguments auditLog {A E}.

(** The times a request reads, at its replay check and at its authorization,
    and what its reply draws. *)
Record moment := { m_replay : Time; m_authz : Time; m_draws : Draws }.

(** [toSignOptions] of this package, which is the EST one again *)
Definition toSignOptions (c : CertConstraints) : Bao.SignOptions :=
  {| O_CommonName := C_CommonName c; AltNames := C_DNSNames c; IPSANs := C_IPs c; URISANs := C_URIs c;
     O_TTL := if 0 <? C_TTL c then DurationString (C_TTL c) else "";
     O_ExcludeCNFromSANs := C_ExcludeCNFromSANs c; KeyType := ""; KeyBits := 0; Extra := ∅ |}.

Definition writePKIMessage (der : bytes) : Response :=
  {| Status := StatusOK; RespHeader := {["Content-Type" := ctPKIOperation]}; RespBody := der |}.

Section Handler.
Context `{UnicodeTables} `{X509} `{Pkcs7Lib} {A : Type} `{Authorizer A} {E : Type} `{Enroller E}.

Abbreviation W := (world A E) (only parsing).

Record Options := {
  RACert : option Certificate;
  RAKey : option Key;
  DeviceRoots : option CertPool;
  ParseCSR : option (bytes -> result CertificateRequest);
  ChallengePassword : option (CertificateRequest -> result string);
  VerifyIssued : option (option Certificate -> CertConstraints -> result unit);
  O_Digests : list (list N);
  MaxRequestBytes : Z;
  UpstreamTimeout : Duration;
}.

Record handler := { opts : Options; parser : Parser; resp : Responder; maxReq : Z; upstream : Duration }.

Definition NewHandler (o : Options) (en : option E) (az : A) (replay : option ReplayCache)
    : result (handler * W) :=
  match RACert o, RAKey o with
  | Some cert, Some key =>
      match en, ParseCSR o, replay with
      | None, _, _ => Err "scep: Enroller is required"
      | _, None, _ => Err "scep: ParseCSR is required"
      | _, _, None => Err "scep: ReplayCache is required"
      | Some e, Some _, Some rc =>
          Ok ({| opts := o;
                 parser := {| P_RACert := RACert o; P_RAKey := RAKey o; P_DeviceRoots := DeviceRoots o;
                              P_Verifier := {| Digests := O_Digests o |}; P_ParseCSR := ParseCSR o |};
                 resp := {| R_RACert := RACert o; R_RAKey := RAKey o |};
                 maxReq := if MaxRequestBytes o <=? 0 then defaultMaxRequestBytes else MaxRequestBytes o;
                 upstream := if UpstreamTimeout o <=? 0 then defaultUpstreamTimeout else UpstreamTimeout o |},
              {| authorizer := az; enroller := e; replayCache := rc; auditLog := [] |})
      end
  | _, _ => Err "scep: RA certificate and key are required"
  end.

(** ** Calls out of the handler *)

Definition reply {B} (msg : string) (status : Z) : Act W Response B := act_exit (http_Error ∅ msg status).

Definition callReplay (now : Time) (txID : TransactionID) (nonce : Nonce) : Act W Response bool :=
  act_call (fun w => let '(rc, fresh) := Check (replayCache w) now txID nonce in
                     ({| authorizer := authorizer w; enroller := enroller w; replayCache := rc;
                         auditLog := auditLog w |}, fresh)).

Definition callAuthorize (now : Time) (req : Request) : Act W Response (result Decision) :=
  act_call (fun w => let '(a, d) := Authorize (authorizer w) now req in
                     ({| authorizer := a; enroller := enroller w; replayCache := replayCache w;
                         auditLog := auditLog w |}, d)).

Definition callEnroller {B} (f : E -> E * B) : Act W Response B :=
  act_call (fun w => let '(e, b) := f (enroller w) in
                     ({| authorizer := authorizer w; enroller := e; replayCache := replayCache w;
                         auditLog := auditLog w |}, b)).

Definition auditEntry (req : ScepRequest) (d : Decision) (outcome remote : string) (err : option error)
    : ScepAudit :=
  {| S_op := MessageType_String (MessageType_ (SR_Attributes req)); S_outcome := outcome; S_remote := remote;
     S_transaction := TransactionID_ (SR_Attributes req); S_authenticated := SignerAuthenticated req;
     S_role := D_Role d; S_reason := Reason d; S_requested_cn := CommonName (CSR_Subject (SR_CSR req));
     S_granted_cn := C_CommonName (D_Constraints d); S_err := err |}.

Definition audit (req : ScepRequest) (d : Decision) (outcome remote : string) (err : option error)
    : Act W Response unit :=
  act_modify (fun w => {| authorizer := authorizer w; enroller := enroller w; replayCache := replayCache w;
                          auditLog := auditLog w ++ [auditEntry req d outcome remote err] |}).

(** ** GetCACert and GetCACaps *)

Fixpoint parseChain (blks : list Block) : result (list Certificate) :=
  match blks with
  | [] => Ok []
  | b :: blks' =>
      if (Type_ b =? "CERTIFICATE")%string then
        let? c := map_err (String.append "parse CA chain: ") (ParseCertificate (Bytes_ b)) in
        let? cs := parseChain blks' in Ok (c :: cs)
      else parseChain blks'
  end.

Definition caChainCerts (pemBytes : bytes) : result (list Certificate) :=
  let? out := parseChain (blocks (string_of_bytes pemBytes)) in
  when negb (nonempty out) fail "no certificates in CA chain";
  Ok out.

Definition getCACert (h : handler) : Act W Response Response :=
  let! pem := callEnroller Bao.CAChain in
  let! chain := act_try (let? pem := pem in caChainCerts pem)
                  (fun _ => reply "upstream error" StatusBadGateway) in
  let certs := match RACert (opts h) with Some ra => ra :: chain | None => chain end in
  let! der := act_try (DegenerateCertsOnly certs) (fun _ => reply "internal error" StatusInternalServerError) in
  act_ret {| Status := StatusOK; RespHeader := {["Content-Type" := ctCACertChain]}; RespBody := der |}.

Definition caps : list string :=
  ["POSTPKIOperation"; "Renewal"; "SHA-256"; "SHA-512"; "AES"; "SCEPStandard"].

Definition getCACaps : Act W Response Response :=
  act_ret {| Status := StatusOK; RespHeader := {["Content-Type" := "text/plain"]};
             RespBody := bytes_of_string (String.append (Join caps nl) nl) |}.

(** ** PKIOperation *)

Definition readMessage (h : handler) (r : HttpRequest) : bytes + Z * error :=
  if (Method r =? MethodPost)%string then
    match ReadAllLimited (R_Body r) (wrap64 (maxReq h + 1)) with
    | Err _ => inr (StatusBadRequest, "read body")
    | Ok raw =>
        if maxReq h <? Z.of_nat (length raw) then inr (StatusRequestEntityTooLarge, "request too large")
        else if negb (nonempty raw) then inr (StatusBadRequest, "empty request body")
        else inl raw
    end
  else if (Method r =? MethodGet)%string then
    let msg := Query_Get r "message" in
    if (msg =? "")%string then inr (StatusBadRequest, "missing message parameter")
    else if maxReq h <? Z.of_nat (String.length msg) then inr (StatusRequestEntityTooLarge, "request too large")
    else match DecodeString msg with
         | Err _ => inr (StatusBadRequest, "invalid base64 message")
         | Ok der => inl der
         end
  else inr (StatusMethodNotAllowed, "method not allowed").

(** [fail]: a signed CertRep that says no more than [info]. *)
Definition failReply (h : handler) (rnd : Draws) (req : ScepRequest) (info : FailInfo) : Response :=
  match Failure (resp h) rnd req info with
  | Ok out => writePKIMessage out
  | Err _ => http_Error ∅ "internal error" StatusInternalServerError
  end.

Definition fail_ {B} (h : handler) (rnd : Draws) (req : ScepRequest) (info : FailInfo) (reason : string)
    : Act W Response B :=
  act_exit (failReply h rnd req info).

Definition challengePassword (h : handler) (csr : CertificateRequest) : string :=
  match ChallengePassword (opts h) with
  | None => ""
  | Some f => match f csr with Ok cp => cp | Err _ => "" end
  end.

Definition authzRequest (h : handler) (req : ScepRequest) (r : HttpRequest) : Request :=
  {| Req_Operation := if (MessageType_ (SR_Attributes req) =? RenewalReq)%string
                      then OpSimpleReenroll else OpSimpleEnroll;
     Req_ClientCert := if SignerAuthenticated req then Some (SR_Signer req) else None;
     Req_CSR := Some (SR_CSR req);
     Req_ChallengePassword := challengePassword h (SR_CSR req);
     Req_Label := "";
     Req_RemoteAddr := RemoteAddr r |}.

Definition parseFirstCert (pemStr : string) : result Certificate :=
  match Decode pemStr with
  | Some (blk, _) =>
      if (Type_ blk =? "CERTIFICATE")%string then ParseCertificate (Bytes_ blk)
      else Err "expected a CERTIFICATE PEM block"
  | None => Err "expected a CERTIFICATE PEM block"
  end.

Definition csrPEMOf (csr : CertificateRequest) : string :=
  EncodeToMemory {| Type_ := "CERTIFICATE REQUEST"; Headers_ := false; Bytes_ := CSR_Raw csr |}.

(** [h.opts.VerifyIssued], when there is one *)
Definition checkIssued (h : handler) (issued : Certificate) (d : Decision) : result unit :=
  match VerifyIssued (opts h) with
  | Some f => f (Some issued) (D_Constraints d)
  | None => Ok tt
  end.

(** From the authorization on, for a message that is not a replay. *)
Definition issue (h : handler) (m : moment) (r : HttpRequest) (req : ScepRequest) : Act W Response Response :=
  let rnd := m_draws m in
  let remote := RemoteAddr r in
  let! d := callAuthorize (m_authz m) (authzRequest h req r) in
  match d with
  | Err e =>
      do! audit req zeroDecision "error" remote (Some e);
      fail_ h rnd req FailBadRequest "authorization error"
  | Ok d =>
      if negb (Allow d) then
        do! audit req d "deny" remote None;
        fail_ h rnd req FailBadRequest (Reason d)
      else
        let! bundle := callEnroller (fun e => Bao.Sign e (D_Role d) (csrPEMOf (SR_CSR req))
                                                (toSignOptions (D_Constraints d))) in
        match bundle with
        | Err e =>
            do! audit req d "issue-error" remote (Some e);
            fail_ h rnd req FailBadRequest "issuance failed"
        | Ok bundle =>
            let! issued := act_try (parseFirstCert (B_Certificate bundle))
                             (fun _ => fail_ h rnd req FailBadRequest "internal error") in
            match checkIssued h issued d with
            | Err e =>
                do! audit req d "constraint-violation" remote (Some e);
                fail_ h rnd req FailBadRequest "issuance failed"
            | Ok _ =>
                let! out := act_try (Success (resp h) rnd req (Some issued))
                              (fun _ => reply "internal error" StatusInternalServerError) in
                do! audit req d "issued" remote None;
                act_ret (writePKIMessage out)
            end
        end
  end.

Definition pkiOperation (h : handler) (m : moment) (r : HttpRequest) : Act W Response Response :=
  let! body := match readMessage h r with
               | inl body => act_ret body
               | inr (status, e) => reply e status
               end in
  let! req := act_try (Parse (parser h) body) (fun _ => reply "bad request" StatusBadRequest) in
  let! fresh := callReplay (m_replay m) (TransactionID_ (SR_Attributes req)) (SenderNonce (SR_Attributes req)) in
  if negb fresh then fail_ h (m_draws m) req FailBadRequest "replay"
  else issue h m r req.

Definition ServeHTTP (h : handler) (m : moment) (r : HttpRequest) : Act W Response Response :=
  let op := Query_Get r "operation" in
  if (op =? "GetCACert")%string then getCACert h
  else if (op =? "GetCACaps")%string then getCACaps
  else if (op =? "PKIOperation")%string then pkiOperation h m r
  else reply "unsupported operation" StatusBadRequest.

Definition serve (h : handler) (m : moment) (r : HttpRequest) (w : W) : W * Response :=
  act_run (ServeHTTP h m r) w.
End Handler.
