(* ===== verification/ScepTheory.v ===== *)
(** * internal/scep: what the SCEP handler guarantees

    Theorems on [ScepHandler.v] and [ScepMessage.v], for any authorizer, any
    enroller and any CMS library: identities come from the device anchor only,
    a replay reaches nobody, nothing is issued that was not authorized, and a
    refusal says nothing of its reason. *)
From S2P Require Import Prelude GoLib GoCrypto GoNet X509 Authz Http Base64 Pem Der Bao BaoTheory Cms Replay Verify ScepMessage ScepHandler.

Section Handler.
Context `{UnicodeTables} `{X509} `{Pkcs7Lib} {A : Type} `{Authorizer A} {E : Type} `{Enroller E}.

Abbreviation W := (world A E) (only parsing).

(** C14. A SCEP signer is an identity only by the device anchor: whatever a
    message says, the request the authorizer sees carries a client certificate
    exactly for a renewal, and then it is the certificate of the message's only
    signer, verified under a permitted digest against the configured device
    anchor; an enrolment, whose signer is self-signed, carries none.  The
    transaction ID has 1 to 128 bytes, the nonce 16, and the CSR passed the
    configured checks. *)
Theorem scep_identity h body req r
    (Hparse : Parse (parser h) body = Ok req) :
  let az := authzRequest h req r in
  (Req_Operation az = OpSimpleEnroll /\ Req_ClientCert az = None \/
   Req_Operation az = OpSimpleReenroll /\ exists leaf pool p d,
     Req_ClientCert az = Some leaf /\ P_DeviceRoots (parser h) = Some pool /\ p7_Parse body = Ok p /\
     p7_Signers p = [d] /\ d ∈ digests_of (P_Verifier (parser h)) /\
     p7_VerifyWithChain p pool = Ok tt /\ p7_GetOnlySigner p = Some leaf) /\
  1 <= Z.of_nat (String.length (TransactionID_ (SR_Attributes req))) <= 128 /\
  length (SenderNonce (SR_Attributes req)) = 16%nat /\
  exists parseCSR csrDER, P_ParseCSR (parser h) = Some parseCSR /\ parseCSR csrDER = Ok (SR_CSR req) /\
    Req_CSR az = Some (SR_CSR req).
Proof.
  destruct (scep_signer_identity (parser h) body req Hparse) as (Hid & Htx & Hn & parseCSR & der & Hp & Hcsr).
  cbv zeta. split; [|split; [exact Htx|split; [exact Hn|by exists parseCSR, der]]].
  unfold authzRequest. cbn [Req_Operation Req_ClientCert].
  destruct Hid as [[-> ->]|[-> [-> (pool & p & d & Hpool & Hm & Hs & Hd & Hv & Hg)]]]; [by left|].
  right. split; [done|]. by exists (SR_Signer req), pool, p, d.
Qed.

(** ** Replays *)

Lemma keeps_replay_call rc B (f : E -> E * B) :
  act_keeps (fun w : W => replayCache w = rc) (callEnroller f).
Proof. apply keeps_call. intros w Hw. by destruct (f _). Qed.

Lemma issue_keeps_replay h m r req rc : act_keeps (fun w : W => replayCache w = rc) (issue h m r req).
Proof.
  assert (Hcall : forall now q, act_keeps (fun w : W => replayCache w = rc) (callAuthorize now q)).
  { intros now q. apply keeps_call. intros w Hw. by destruct (Authorize _ _ _). }
  assert (Hau : forall q d out rem e, act_keeps (fun w : W => replayCache w = rc) (audit q d out rem e))
    by (intros; by apply keeps_modify).
  pose proof (keeps_replay_call rc) as Hen. unfold issue, fail_, reply. keeps.
Qed.

Lemma pkiOperation_replay h m r body req (w : W) :
  readMessage h r = inl body -> Parse (parser h) body = Ok req ->
  replayCache (fst (pkiOperation h m r w)) =
  fst (Check (replayCache w) (m_replay m) (TransactionID_ (SR_Attributes req)) (SenderNonce (SR_Attributes req))).
Proof.
  intros Hread Hparse. unfold pkiOperation, act_bind, act_try, act_ret, callReplay, act_call.
  rewrite Hread. cbn [fst snd]. rewrite Hparse.
  destruct (Check _ _ _ _) as [rc fresh]. cbn [fst snd]. destruct fresh; cbn [negb]; [|done].
  by apply issue_keeps_replay.
Qed.

(** A replay reaches nobody: a message whose transaction and nonce the cache
    refuses changes neither the authorizer, the enroller nor the audit log, and
    is answered like any other refusal; and every message that parses is
    recorded before anything else is done with it. *)
Theorem scep_replay_stops h m r body req (w : W)
    (Hread : readMessage h r = inl body) (Hparse : Parse (parser h) body = Ok req) :
  let attrs := SR_Attributes req in
  let checked := Check (replayCache w) (m_replay m) (TransactionID_ attrs) (SenderNonce attrs) in
  let out := pkiOperation h m r w in
  replayCache (fst out) = fst checked /\
  (snd checked = false ->
   out = ({| authorizer := authorizer w; enroller := enroller w; replayCache := fst checked;
             auditLog := auditLog w |}, inl (failReply h (m_draws m) req FailBadRequest))).
Proof.
  cbv zeta. split; [by eapply pkiOperation_replay|].
  unfold pkiOperation, act_bind, act_try, act_ret, callReplay, act_call.
  rewrite Hread. cbn [fst snd]. rewrite Hparse.
  destruct (Check _ _ _ _) as [rc fresh]. cbn [fst snd]. by intros ->.
Qed.

(** ** Issuance *)

(** A message got through to issuance with this decision. *)
Record scep_admitted (h : handler) (m : moment) (r : HttpRequest) (w : W) (req : ScepRequest) (d : Decision)
    : Prop := {
  sa_message : exists body, readMessage h r = inl body /\ Parse (parser h) body = Ok req;
  sa_fresh : snd (Check (replayCache w) (m_replay m) (TransactionID_ (SR_Attributes req))
                    (SenderNonce (SR_Attributes req))) = true;
  sa_authorized : snd (Authorize (authorizer w) (m_authz m) (authzRequest h req r)) = Ok d;
  sa_allow : Allow d = true;
}.

(** A certificate leaves in a reply. *)
Definition scep_released (h : handler) (m : moment) (r : HttpRequest) (w w' : W) (resp_ : Response) : Prop :=
  exists req d bundle issued out,
    scep_admitted h m r w req d /\
    snd (Bao.Sign (enroller w) (D_Role d) (csrPEMOf (SR_CSR req)) (toSignOptions (D_Constraints d))) = Ok bundle /\
    parseFirstCert (B_Certificate bundle) = Ok issued /\ checkIssued h issued d = Ok tt /\
    Success (resp h) (m_draws m) req (Some issued) = Ok out /\ resp_ = writePKIMessage out /\
    auditLog w' = auditLog w ++ [auditEntry req d "issued" (RemoteAddr r) None].

(** What serving a request makes of the enroller. *)
Inductive scep_effect (h : handler) (m : moment) (r : HttpRequest) (w : W) : E -> Prop :=
| no_effect : scep_effect h m r w (enroller w)
| chain_effect :
    Query_Get r "operation" = "GetCACert" -> scep_effect h m r w (fst (Bao.CAChain (enroller w)))
| sign_effect req d :
    scep_admitted h m r w req d ->
    Decode (csrPEMOf (SR_CSR req)) = Some ({| Type_ := "CERTIFICATE REQUEST"; Headers_ := false;
                                              Bytes_ := CSR_Raw (SR_CSR req) |}, "") ->
    scep_effect h m r w
      (fst (Bao.Sign (enroller w) (D_Role d) (csrPEMOf (SR_CSR req)) (toSignOptions (D_Constraints d)))).

(** The one reply every refusal of a message gets, and the reply to a failure
    to build one. *)
Definition refusal (h : handler) (m : moment) (req : ScepRequest) (resp : Response) : Prop :=
  resp = failReply h (m_draws m) req FailBadRequest.
Definition broken (resp : Response) : Prop :=
  resp = http_Error ∅ "internal error" StatusInternalServerError.

Lemma issue_spec h m r req body (w w1 : W) :
  readMessage h r = inl body -> Parse (parser h) body = Ok req ->
  authorizer w1 = authorizer w -> enroller w1 = enroller w -> auditLog w1 = auditLog w ->
  snd (Check (replayCache w) (m_replay m) (TransactionID_ (SR_Attributes req)) (SenderNonce (SR_Attributes req)))
    = true ->
  match issue h m r req w1 with
  | (w', inl resp) => scep_effect h m r w (enroller w') /\ (refusal h m req resp \/ broken resp)
  | (w', inr resp) => scep_effect h m r w (enroller w') /\ scep_released h m r w w' resp
  end.
Proof.
  intros Hread Hparse Haz Hen Hlog Hfresh.
  unfold issue, act_bind, callAuthorize, callEnroller, act_call, audit, act_modify, fail_, reply, act_exit,
    act_try, act_ret. cbn [authorizer enroller replayCache auditLog]. rewrite Haz, Hen.
  destruct (Authorize (authorizer w) (m_authz m) (authzRequest h req r)) as [a d] eqn:Ha.
  destruct d as [d|e]; [|split; [exact (no_effect h m r w)|by left]].
  destruct (Allow d) eqn:Hallow; simpl negb; cbv iota; [|split; [exact (no_effect h m r w)|by left]].
  assert (Had : scep_admitted h m r w req d).
  { split; [by exists body|done| |done]. by rewrite Ha. }
  pose proof (sign_effect h m r w req d Had (Decode_EncodeToMemory "CERTIFICATE REQUEST" _ eq_refl)) as He.
  cbn [negb enroller authorizer replayCache auditLog] in *. cbv beta iota. destruct (Bao.Sign (enroller w) _ _ _) as [e1 bundle] eqn:Hs. cbn [fst] in He. cbv beta iota.
  destruct bundle as [bundle|e]; cbv beta iota; [|split; [exact He|by left]].
  destruct (parseFirstCert (B_Certificate bundle)) as [issued|e] eqn:Hp; [|split; [exact He|by left]].
  destruct (checkIssued h issued d) as [[]|e] eqn:Hc; [|split; [exact He|by left]].
  destruct (Success (resp h) (m_draws m) req (Some issued)) as [out|e] eqn:Hsucc; [|split; [exact He|by right]].
  split; [exact He|]. exists req, d, bundle, issued, out. rewrite Hs. cbn [auditLog]. by rewrite Hlog.
Qed.

Lemma readMessage_status h r status e : readMessage h r = inr (status, e) -> 400 <= status < 500.
Proof.
  unfold readMessage. destruct (_ =? _)%string.
  - destruct (ReadAllLimited _ _); [|by intros [= <- _]]. destruct (_ <? _); [by intros [= <- _]|].
    destruct (negb _); [by intros [= <- _]|done].
  - destruct (_ =? _)%string; [|by intros [= <- _]]. destruct (_ =? _)%string; [by intros [= <- _]|].
    destruct (_ <? _); [by intros [= <- _]|]. by destruct (DecodeString _); intros; simplify_eq.
Qed.

Lemma pkiOperation_spec h m r (w : W) :
  match pkiOperation h m r w with
  | (w', inl resp) =>
      scep_effect h m r w (enroller w') /\
      ((exists status msg, 400 <= status < 500 /\ resp = http_Error ∅ msg status) \/
       (exists body req, readMessage h r = inl body /\ Parse (parser h) body = Ok req /\
          (refusal h m req resp \/ broken resp)))
  | (w', inr resp) => scep_effect h m r w (enroller w') /\ scep_released h m r w w' resp
  end.
Proof.
  unfold pkiOperation, act_bind at 1. destruct (readMessage h r) as [body|[status e]] eqn:Hread.
  2:{ split; [exact (no_effect h m r w)|]. left. exists status, e. split; [|done]. by eapply readMessage_status. }
  unfold act_ret at 1, act_bind at 1, act_try at 1. destruct (Parse (parser h) body) as [req|e] eqn:Hparse.
  2:{ split; [exact (no_effect h m r w)|]. left. by exists StatusBadRequest, "bad request". }
  unfold act_ret at 1, act_bind at 1, callReplay, act_call.
  destruct (Check _ _ _ _) as [rc fresh] eqn:Hck. destruct fresh; cbn [negb]; cbv beta iota.
  - set (w1 := {| authorizer := authorizer w |}).
    pose proof (issue_spec h m r req body w w1 Hread Hparse eq_refl eq_refl eq_refl ltac:(by rewrite Hck)) as Hi.
    destruct (issue h m r req w1) as [w' [resp|resp]]; [|exact Hi].
    destruct Hi as [He Hr]. split; [exact He|]. right. by exists body, req.
  - split; [exact (no_effect h m r w)|]. right. exists body, req. split_and!; [done|done|]. by left.
Qed.

Lemma scep_serve_effect h m r (w : W) : scep_effect h m r w (enroller (fst (serve h m r w))).
Proof.
  unfold serve, act_run, ServeHTTP.
  assert (Hfst : forall o : W * (Response + Response),
            fst (match o with (w', inl r) => (w', r) | (w', inr r) => (w', r) end) = fst o)
    by (by intros [w' [?|?]]).
  rewrite Hfst. destruct (String.eqb_spec (Query_Get r "operation") "GetCACert") as [Hop|_].
  - unfold getCACert, act_bind at 1, callEnroller, act_call.
    pose proof (chain_effect h m r w Hop) as He. destruct (Bao.CAChain (enroller w)) as [e1 pem].
    unfold act_bind, act_try. destruct (result_bind _ _); [|exact He]. unfold act_ret.
    destruct (DegenerateCertsOnly _); exact He.
  - destruct (_ =? _)%string; [constructor|]. destruct (_ =? _)%string; [|constructor].
    pose proof (pkiOperation_spec h m r w) as Hp. destruct (pkiOperation h m r w) as [w' [resp|resp]]; apply Hp.
Qed.

(** One check of the cache at most. *)
Lemma serve_replay h m r (w : W) :
  exists ops, replayCache (fst (serve h m r w)) = after (replayCache w) ops /\ (length ops <= 1)%nat.
Proof.
  assert (Hsame : forall o : Act W Response Response,
            act_keeps (fun w' : W => replayCache w' = replayCache w) o ->
            exists ops, replayCache (fst (act_run o w)) = after (replayCache w) ops /\ (length ops <= 1)%nat).
  { intros o Ho. exists []. rewrite (keeps_run _ o w Ho eq_refl). split; [done|simpl; lia]. }
  pose proof (keeps_replay_call (replayCache w)) as Hen.
  unfold serve, ServeHTTP. destruct (_ =? _)%string; [apply Hsame; unfold getCACert, reply; keeps|].
  destruct (_ =? _)%string; [apply Hsame; unfold getCACaps; keeps|].
  destruct (_ =? _)%string; [|apply Hsame; unfold reply; keeps].
  destruct (readMessage h r) as [body|e] eqn:Hread; [destruct (Parse (parser h) body) as [req|e] eqn:Hparse|].
  - exists [(m_replay m, replayKey (TransactionID_ (SR_Attributes req)) (SenderNonce (SR_Attributes req)))].
    split; [|simpl; lia]. pose proof (pkiOperation_replay h m r body req w Hread Hparse) as Hp.
    assert (Hrun : fst (act_run (pkiOperation h m r) w) = fst (pkiOperation h m r w))
      by (unfold act_run; by destruct (pkiOperation h m r w) as [w' [?|?]]).
    rewrite Hrun, Hp. unfold Check, after. simpl. by destruct (checkKey _ _ _).
  - apply Hsame. unfold pkiOperation. rewrite Hread. intros w0 Hw0. unfold act_bind, act_ret, act_try, reply, act_exit.
    by rewrite Hparse.
  - apply Hsame. unfold pkiOperation. rewrite Hread. intros w0 Hw0. by destruct e.
Qed.

(** A sequence of requests. *)
Definition served_all (h : handler) (reqs : list (moment * HttpRequest)) (w : W) : W :=
  fold_left (fun w '(m, r) => fst (serve h m r w)) reqs w.

Lemma after_app c ops ops' : after c (ops ++ ops') = after (after c ops) ops'.
Proof.
  revert c. unfold after. induction ops as [|[now k] ops IH]; intros c; [done|]. cbn [app replay_run].
  destruct (checkKey c now k) as [c' b]. specialize (IH c').
  destruct (replay_run c' (ops ++ ops')), (replay_run c' ops). exact IH.
Qed.

Lemma served_all_replay h reqs (w : W) :
  exists ops, replayCache (served_all h reqs w) = after (replayCache w) ops /\ (length ops <= length reqs)%nat.
Proof.
  revert w. induction reqs as [|[m r] reqs IH]; intros w; [by exists []|].
  destruct (serve_replay h m r w) as (ops & Hops & Hl).
  destruct (IH (fst (serve h m r w))) as (ops' & Hops' & Hl').
  exists (ops ++ ops'). cbn [served_all fold_left]. unfold served_all in Hops'.
  rewrite Hops', Hops, after_app, length_app. split; [done|simpl; lia].
Qed.

(** C8. SCEP issues nothing that was not authorized, over any sequence of
    requests: serving one more leaves the enroller untouched, or fetches the
    chain for GetCACert, or makes exactly one sign call, for a message that
    parsed, was not a replay, and was allowed by the authorizer, with exactly
    the role and constraints of that decision and a PEM that decodes to exactly
    the CSR of the envelope; and the replay cache it is checked against is the
    initial one after a sequence of at most one check per request, so what is
    proved of such sequences holds of it. *)
Theorem scep_upstream_only_as_authorized h reqs m r (w : W) :
  let wn := served_all h reqs w in
  scep_effect h m r wn (enroller (fst (serve h m r wn))) /\
  exists ops, replayCache wn = after (replayCache w) ops /\ (length ops <= length reqs)%nat.
Proof. split; [apply scep_serve_effect|apply served_all_replay]. Qed.

(** C20. A refusal is no oracle: once a message is parsed, the client gets either
    the issued certificate, verified against the decision and audited, or one
    and the same signed failure whatever the reason (replay, policy, upstream,
    or a certificate withheld), or a plain internal error when the reply itself
    could not be built. *)
Theorem scep_refusals_uniform h m r body req (w w' : W) resp_
    (Hop : Query_Get r "operation" = "PKIOperation")
    (Hread : readMessage h r = inl body) (Hparse : Parse (parser h) body = Ok req)
    (Hserve : serve h m r w = (w', resp_)) :
  resp_ = failReply h (m_draws m) req FailBadRequest \/
  resp_ = http_Error ∅ "internal error" StatusInternalServerError \/
  scep_released h m r w w' resp_.
Proof.
  unfold serve, act_run, ServeHTTP in Hserve. rewrite Hop in Hserve. simpl in Hserve.
  unfold pkiOperation, act_bind at 1 in Hserve. rewrite Hread in Hserve.
  unfold act_ret at 1, act_bind at 1, act_try at 1 in Hserve. rewrite Hparse in Hserve.
  unfold act_ret at 1, act_bind at 1, callReplay, act_call in Hserve.
  destruct (Check _ _ _ _) as [rc fresh] eqn:Hck. destruct fresh; cbn [negb] in Hserve; cbv beta iota in Hserve.
  - set (w1 := {| authorizer := authorizer w; enroller := enroller w; replayCache := rc; auditLog := auditLog w |})
      in Hserve.
    pose proof (issue_spec h m r req body w w1 Hread Hparse eq_refl eq_refl eq_refl ltac:(by rewrite Hck)) as Hi.
    destruct (issue h m r req w1) as [w2 [resp2|resp2]]; injection Hserve as <- <-;
      [destruct Hi as [_ [?|?]]; auto|right; right; apply Hi].
  - unfold fail_, act_exit in Hserve. injection Hserve as _ <-. by left.
Qed.
End Handler.

(** ** Runs of the whole stack *)

Section Witnesses.
#[local] Existing Instances ascii_tables toyX509.

(** A CMS library of plain text: a message is its fields between bars (message
    type, transaction, nonce, signer, content), every signature is good, a
    chain is good if the signer has the name of an anchor, and the ciphertext of
    a content is the content. *)
Definition toy_field (p : list string) (n : nat) : string := nth n p "".

Definition attr_text (a : Attribute) : string :=
  String.append "[" (String.append (match Attr_Value a with VStr s => s | VBytes b => string_of_bytes b end) "]").

Definition toyPkcs7 : Pkcs7Lib := {|
  PKCS7 := list string;
  SignedData := string;
  Key := unit;
  p7_Parse b := Ok (split_on "|" (string_of_bytes b));
  p7_Signers _ := [SHA256];
  p7_Verify _ := Ok tt;
  p7_VerifyWithChain p pool :=
    if existsb (fun c => (CommonName (Subject c) =? toy_field p 3)%string) (pool_certs pool)
    then Ok tt else Err "unknown authority";
  p7_GetOnlySigner p := Some (exampleCert (toy_field p 3) [] Hour);
  p7_Content p := bytes_of_string (toy_field p 4);
  p7_AttrString p oid := Ok (toy_field p (if bool_decide (oid = oidMessageType) then 0 else 1));
  p7_AttrBytes p _ := Ok (bytes_of_string (toy_field p 2));
  p7_Decrypt p _ _ := Ok (bytes_of_string (toy_field p 0));
  p7_Encrypt _ _ content _ := Ok content;
  p7_NewSignedData b := Ok (string_of_bytes b);
  p7_SetDigestAlgorithm sd _ := sd;
  p7_AddSigner sd _ _ attrs := Ok (String.append sd (Join (map attr_text attrs) ""));
  p7_Finish sd := Ok (bytes_of_string sd);
  p7_DegenerateCertificate b := Ok b;
|}.
#[local] Existing Instance toyPkcs7.

Definition exampleRA : Certificate := exampleCert "ra" [] Hour.

Definition exampleScepOptions : Options :=
  {| RACert := Some exampleRA; RAKey := Some tt; DeviceRoots := Some (AddCert NewCertPool (exampleCert "dev-1" [] Hour));
     ParseCSR := Some ParseCertificateRequest; ChallengePassword := None; VerifyIssued := Some Verify.VerifyIssued;
     O_Digests := []; MaxRequestBytes := 0; UpstreamTimeout := 0 |}.

Definition exampleScep : handler :=
  {| opts := exampleScepOptions;
     parser := {| P_RACert := Some exampleRA; P_RAKey := Some tt; P_DeviceRoots := DeviceRoots exampleScepOptions;
                  P_Verifier := {| Digests := [] |}; P_ParseCSR := ParseCSR exampleScepOptions |};
     resp := {| R_RACert := Some exampleRA; R_RAKey := Some tt |};
     maxReq := defaultMaxRequestBytes; upstream := defaultUpstreamTimeout |}.

Definition exampleMoment : moment := {| m_replay := 0; m_authz := 0; m_draws := {| d_nonce := Ok []; d_seed := [] |} |}.

(** A renewal by dev-1. *)
Definition exampleMessage : bytes := bytes_of_string "17|tx-1|0123456789abcdef|dev-1|dev-1".

Definition examplePKIOperation : HttpRequest :=
  exampleHttp "POST" "/scep" "operation=PKIOperation" exampleMessage None.

Definition exampleRequest : ScepRequest :=
  {| SR_Attributes := {| MessageType_ := RenewalReq; TransactionID_ := "tx-1";
                         SenderNonce := bytes_of_string "0123456789abcdef"; RecipientNonce := [];
                         PKIStatus_ := ""; FailInfo_ := "" |};
     SR_CSR := exampleCSR "dev-1" []; SR_Signer := exampleCert "dev-1" [] Hour; SignerAuthenticated := true |}.

Definition exampleScepWorld (rc : ReplayCache) : world AllowAllEcho (Client * script) :=
  {| authorizer := {| Echo_Role := "devices" |};
     enroller := (exampleClient, {| answers := [answer 200 "tok-1";
                    answer 200 (String.append (EncodeToMemory {| Type_ := "CERTIFICATE"; Headers_ := false;
                                                 Bytes_ := bytes_of_string "dev-1" |}) ";12:34")]; clock := 0 |});
     replayCache := rc; auditLog := [] |}.

Definition freshCache : ReplayCache := NewReplayCache 0 0.
Definition seenCache : ReplayCache :=
  fst (Check freshCache 0 "tx-1" (bytes_of_string "0123456789abcdef")).

Lemma scep_identity_witness :
  Parse (parser exampleScep) exampleMessage = Ok exampleRequest /\
  exists leaf, Req_ClientCert (authzRequest exampleScep exampleRequest examplePKIOperation) = Some leaf.
Proof.
  assert (Hp : Parse (parser exampleScep) exampleMessage = Ok exampleRequest) by (vm_compute; reflexivity).
  split; [exact Hp|].
  destruct (scep_identity exampleScep exampleMessage exampleRequest examplePKIOperation Hp)
    as [[[Hop _]|[_ (leaf & pool & p & d & Hleaf & _)]] _]; [discriminate Hop|by exists leaf].
Defined.

Lemma scep_replay_stops_witness :
  Parse (parser exampleScep) exampleMessage = Ok exampleRequest /\
  enroller (fst (pkiOperation exampleScep exampleMoment examplePKIOperation (exampleScepWorld seenCache)))
  = enroller (exampleScepWorld seenCache).
Proof.
  assert (Hp : Parse (parser exampleScep) exampleMessage = Ok exampleRequest) by (vm_compute; reflexivity).
  split; [exact Hp|].
  assert (Hr : readMessage exampleScep examplePKIOperation = inl exampleMessage) by (vm_compute; reflexivity).
  rewrite (proj2 (scep_replay_stops exampleScep exampleMoment examplePKIOperation exampleMessage exampleRequest
                    (exampleScepWorld seenCache) Hr Hp) ltac:(vm_compute; reflexivity)).
  reflexivity.
Defined.

(** The first time, the certificate is released. *)
Lemma scep_refusals_uniform_witness :
  let out := serve exampleScep exampleMoment examplePKIOperation (exampleScepWorld freshCache) in
  map S_outcome (auditLog (fst out)) = ["issued"] /\
  scep_released exampleScep exampleMoment examplePKIOperation (exampleScepWorld freshCache) (fst out) (snd out).
Proof.
  cbv zeta.
  assert (Hp : Parse (parser exampleScep) exampleMessage = Ok exampleRequest) by (vm_compute; reflexivity).
  assert (Hr : readMessage exampleScep examplePKIOperation = inl exampleMessage) by (vm_compute; reflexivity).
  split; [vm_compute; reflexivity|].
  destruct (scep_refusals_uniform exampleScep exampleMoment examplePKIOperation exampleMessage exampleRequest
              (exampleScepWorld freshCache) _ _ ltac:(vm_compute; reflexivity) Hr Hp (surjective_pairing _))
    as [He|[He|Hrel]]; [exfalso|exfalso|exact Hrel].
  - apply (f_equal RespBody) in He. vm_compute in He. discriminate He.
  - apply (f_equal Status) in He. vm_compute in He. discriminate He.
Defined.
End Witnesses.
