(* ===== verification/Config.v ===== *)
(** * internal/config/config.go: configuration

    The configuration records, their defaults, [Validate], the secret and
    trust-anchor loaders and the duration decoder.  The operating system and
    the YAML library are the classes [Os], [ConfigYaml] and [YamlNode];
    tls.LoadX509KeyPair is [KeyPairs]. *)
From S2P Require Import Prelude GoLib GoTime GoCrypto X509 Pem Cms Limits.
From Stdlib Require Import SpecFloat.
#[local] Open Scope Z_scope.

(** ** The data *)

Record SCEP := {
  Scep_Enabled : bool;
  Scep_ListenAddr : string;
  RACertFile : string;
  RAKeyFile : string;
  AllowSHA1 : bool;
  Scep_MaxRequestBytes : Z;
  ReplayTTL : Duration;
  ReplayMaxEntries : Z;
}.

Record Server := {
  Srv_ListenAddr : string;
  TLSCertFile : string;
  TLSKeyFile : string;
  ReadTimeout : Duration;
  WriteTimeout : Duration;
  ReadHeaderTimeout : Duration;
  IdleTimeout : Duration;
  Srv_MaxRequestBytes : Z;
  MaxHeaderBytes : Z;
  ShutdownTimeout : Duration;
  HealthAddr : string;
}.

Record Limits_ := {
  Lim_PerClientRate : spec_float;
  Lim_PerClientBurst : spec_float;
  Lim_GlobalRate : spec_float;
  Lim_GlobalBurst : spec_float;
  Lim_MaxConcurrent : Z;
  Lim_AcquireTimeout : Duration;
  MaxTrackedClients : Z;
  UpstreamTimeout : Duration;
}.

Record AppRole := {
  MountPath : string;
  Role_RoleID : string;
  SecretIDFile : string;
  SecretIDEnv : string;
  Role_RenewThreshold : Duration;
}.

Record OpenBao := {
  Bao_Address : string;
  Mount : string;
  CACertFile : string;
  Bao_MaxRetries : Z;
  Bao_AppRole : AppRole;
}.

Record Trust := { BootstrapCAFile : string; DeviceCAFile : string }.

Record RoleRule := { Rule_Match_ : string; Rule_Role_ : string }.

Record RoleMap := { Map_Default : string; Map_Rules : list RoleRule }.

Record Policy := {
  AllowedKeyTypes : list string;
  Pol_MaxValidity : Duration;
  RequireCPP : bool;
  MinRSABits : Z;
  MaxRSABits : Z;
  ServerKeyGenKeyType : string;
  ServerKeyGenKeyBits : Z;
  SANConstraint : string;
  AllowUnauthenticatedEnrollment : bool;
}.

Record Inventory := { Inv_Backend : string; Inv_Path : string }.
Record Challenge := { Ch_Backend : string; StaticSecretEnv : string }.
Record Audit := { Audit_Path : string }.

Record Config := {
  Cfg_Server : Server;
  Cfg_OpenBao : OpenBao;
  Cfg_Trust : Trust;
  Cfg_RoleMap : RoleMap;
  Cfg_Policy : Policy;
  Cfg_Inventory : Inventory;
  Cfg_Challenge : Challenge;
  Cfg_Limits : Limits_;
  Cfg_SCEP : SCEP;
  Cfg_Audit : Audit;
}.

(** ** What the configuration reads *)

Class Os := {
  LookupEnv : string -> option string;
  os_ReadFile : string -> result bytes;
}.

(** [os.Getenv]: an unset variable is empty. *)
Definition Getenv `{Os} (key : string) : string := default "" (LookupEnv key).

(** A YAML scalar, as it decodes into a string and into an int64. *)
Class YamlNode (N : Type) := {
  Decode_string : N -> result string;
  Decode_int64 : N -> result Z;
}.

(** The decoder of a file onto a configuration, unknown keys rejected. *)
Class ConfigYaml := yaml_Decode : bytes -> Config -> result Config.

(** [Duration.UnmarshalYAML]: the value it sets. *)
Definition UnmarshalYAML `{UnicodeTables} {N} `{YamlNode N} (value : N) : result Duration :=
  match Decode_string value with
  | Ok s =>
      match ParseDuration s with
      | Some parsed => Ok parsed
      | None =>
          match Decode_int64 value with
          | Ok secs => Ok (wrap64 (secs * Second))
          | Err _ => Err (String.append "invalid duration " (String.append (Quote s)
                            (String.append ": expected a duration string (e.g. "
                               (String.append (Quote "15s") ") or integer seconds"))))
          end
      end
  | Err _ =>
      let? secs := map_err (String.append "duration must be a string or integer seconds: ") (Decode_int64 value) in
      Ok (wrap64 (secs * Second))
  end.

(** ** Default *)

Definition Default : Config := {|
  Cfg_Server := {| Srv_ListenAddr := ":8443"; TLSCertFile := ""; TLSKeyFile := "";
                   ReadTimeout := 15 * Second; WriteTimeout := 30 * Second;
                   ReadHeaderTimeout := 10 * Second; IdleTimeout := 60 * Second; Srv_MaxRequestBytes := 0;
                   MaxHeaderBytes := 16 * 1024; ShutdownTimeout := 10 * Second; HealthAddr := ":9090" |};
  Cfg_OpenBao := {| Bao_Address := ""; Mount := "pki_int"; CACertFile := ""; Bao_MaxRetries := 3;
                    Bao_AppRole := {| MountPath := "approle"; Role_RoleID := ""; SecretIDFile := "";
                                      SecretIDEnv := "OPENBAO_APPROLE_SECRET_ID";
                                      Role_RenewThreshold := 5 * Minute |} |};
  Cfg_Trust := {| BootstrapCAFile := ""; DeviceCAFile := "" |};
  Cfg_RoleMap := {| Map_Default := ""; Map_Rules := [] |};
  Cfg_Policy := {| AllowedKeyTypes := ["rsa-2048"; "rsa-3072"; "rsa-4096"; "ec-p256"; "ec-p384"];
                   Pol_MaxValidity := 90 * 24 * Hour; RequireCPP := false; MinRSABits := 2048;
                   MaxRSABits := 8192; ServerKeyGenKeyType := "rsa"; ServerKeyGenKeyBits := 2048;
                   SANConstraint := "identity"; AllowUnauthenticatedEnrollment := false |};
  Cfg_Inventory := {| Inv_Backend := "none"; Inv_Path := "" |};
  Cfg_Challenge := {| Ch_Backend := "none"; StaticSecretEnv := "" |};
  Cfg_Limits := {| Lim_PerClientRate := f_const 1; Lim_PerClientBurst := f_const 5;
                   Lim_GlobalRate := f_const 50; Lim_GlobalBurst := f_const 100; Lim_MaxConcurrent := 32;
                   Lim_AcquireTimeout := 5 * Second; MaxTrackedClients := 65536;
                   UpstreamTimeout := 20 * Second |};
  Cfg_SCEP := {| Scep_Enabled := false; Scep_ListenAddr := ":8080"; RACertFile := ""; RAKeyFile := "";
                 AllowSHA1 := false; Scep_MaxRequestBytes := 0; ReplayTTL := 15 * Minute;
                 ReplayMaxEntries := 100000 |};
  Cfg_Audit := {| Audit_Path := "" |};
|}.

(** ** Validate *)

Section Validate.
Context `{UnicodeTables} `{Os}.

Definition isNone (backend : string) : bool := (backend =? "")%string || (backend =? "none")%string.

(** The [switch] on the SecretID's source. *)
Definition validateSecret (ar : AppRole) : result unit :=
  if negb (SecretIDFile ar =? "")%string then Ok tt
  else if (SecretIDEnv ar =? "")%string
  then Err "one of openbao.approle.secret_id_file or openbao.approle.secret_id_env is required"
  else match LookupEnv (SecretIDEnv ar) with
       | Some _ => Ok tt
       | None => Err (Errorf "secret id env %q is not set" [FStr (SecretIDEnv ar)])
       end.

(** The checks on the SCEP listener. *)
Definition validateSCEP (c : Config) : result unit :=
  when (RACertFile (Cfg_SCEP c) =? "")%string || (RAKeyFile (Cfg_SCEP c) =? "")%string
  fail "scep.ra_cert_file and scep.ra_key_file are required when SCEP is enabled";
  when isNone (Ch_Backend (Cfg_Challenge c)) && negb (AllowUnauthenticatedEnrollment (Cfg_Policy c))
  fail "scep.enabled requires a challenge backend (or policy.allow_unauthenticated_enrollment): a SCEP PKCSReq signer is self-signed and authenticates nothing";
  Ok tt.

Definition Validate (c : Config) : result unit :=
  when (Bao_Address (Cfg_OpenBao c) =? "")%string fail "openbao.address is required";
  when (Mount (Cfg_OpenBao c) =? "")%string fail "openbao.mount is required";
  when (Role_RoleID (Bao_AppRole (Cfg_OpenBao c)) =? "")%string fail "openbao.approle.role_id is required";
  let? _ := validateSecret (Bao_AppRole (Cfg_OpenBao c)) in
  when (TLSCertFile (Cfg_Server c) =? "")%string || (TLSKeyFile (Cfg_Server c) =? "")%string
  fail "server.tls_cert_file and server.tls_key_file are required";
  when (BootstrapCAFile (Cfg_Trust c) =? "")%string && (DeviceCAFile (Cfg_Trust c) =? "")%string
  fail "at least one of trust.bootstrap_ca_file or trust.device_ca_file is required";
  when (Map_Default (Cfg_RoleMap c) =? "")%string && (length (Map_Rules (Cfg_RoleMap c)) =? 0)%nat
  fail "role_map must define a default role or at least one rule";
  when RequireCPP (Cfg_Policy c) && isNone (Ch_Backend (Cfg_Challenge c))
  fail Errorf "policy.require_challenge_password is set but challenge.backend is %q; configure a challenge backend or the broker will deny every enrollment"
         [FStr (Ch_Backend (Cfg_Challenge c))];
  let? _ := if Scep_Enabled (Cfg_SCEP c) then validateSCEP c else Ok tt in
  let p := Cfg_Policy c in
  when (0 <? MinRSABits p) && (0 <? MaxRSABits p) && (MaxRSABits p <? MinRSABits p)
  fail Errorf "policy.min_rsa_bits (%d) exceeds policy.max_rsa_bits (%d)"
         [FInt (MinRSABits p); FInt (MaxRSABits p)];
  when f_eq (Lim_PerClientRate (Cfg_Limits c)) (f_const 0)
  fail "limits.per_client_rate: 0 is ambiguous; omit the key for the default or set a negative value to disable";
  when f_eq (Lim_GlobalRate (Cfg_Limits c)) (f_const 0)
  fail "limits.global_rate: 0 is ambiguous; omit the key for the default or set a negative value to disable";
  Ok tt.

Definition Load `{ConfigYaml} (path : string) : result Config :=
  let? raw := map_err (String.append "read config: ") (os_ReadFile path) in
  let? c := map_err (fun e => Errorf "parse config %s: %w" [FStr path; FStr e]) (yaml_Decode raw Default) in
  let? _ := Validate c in
  Ok c.

(** ** Secrets, trust anchors, identities *)

Definition ResolveSecretID (c : Config) : result string :=
  let ar := Bao_AppRole (Cfg_OpenBao c) in
  if negb (SecretIDFile ar =? "")%string then
    let? raw := map_err (String.append "read secret id file: ") (os_ReadFile (SecretIDFile ar)) in
    let v := TrimSpace (string_of_bytes raw) in
    when (v =? "")%string fail Errorf "secret id file %q is empty" [FStr (SecretIDFile ar)];
    Ok v
  else match LookupEnv (SecretIDEnv ar) with
       | Some v => when (v =? "")%string fail Errorf "secret id env %q is empty" [FStr (SecretIDEnv ar)]; Ok v
       | None => Err (Errorf "secret id env %q is empty" [FStr (SecretIDEnv ar)])
       end.

Definition OpenBaoCACert (c : Config) : result bytes :=
  if (CACertFile (Cfg_OpenBao c) =? "")%string then Ok [] else os_ReadFile (CACertFile (Cfg_OpenBao c)).

Definition poolFromFile `{X509} (path : string) : result CertPool :=
  let? pem := os_ReadFile path in
  let '(pool, ok) := AppendCertsFromPEM NewCertPool (string_of_bytes pem) in
  when negb ok fail Errorf "no certificates found in %s" [FStr path];
  Ok pool.

(** A pool that is not configured is absent. *)
Definition optionalPool `{X509} (what path : string) : result (option CertPool) :=
  if negb (path =? "")%string
  then let? pool := map_err (String.append what) (poolFromFile path) in Ok (Some pool)
  else Ok None.

Definition TrustPools `{X509} (c : Config) : result (option CertPool * option CertPool) :=
  let? bootstrap := optionalPool "bootstrap CA: " (BootstrapCAFile (Cfg_Trust c)) in
  let? device := optionalPool "device CA: " (DeviceCAFile (Cfg_Trust c)) in
  Ok (bootstrap, device).

(** [tls.LoadX509KeyPair]: a pair that loads has a leaf; [is_rsa] and [key_type]
    are the type assertion on the private key and its [%T]. *)
Class KeyPairs `{Pkcs7Lib} := {
  LoadX509KeyPair : string -> string -> result (bytes * list bytes * Key);
  is_rsa : Key -> bool;
  key_type : Key -> string;
}.

Definition ServerTLSCertificate `{KeyPairs} (c : Config) : result (bytes * list bytes * Key) :=
  LoadX509KeyPair (TLSCertFile (Cfg_Server c)) (TLSKeyFile (Cfg_Server c)).

Definition SCEPRAIdentity `{X509} `{KeyPairs} (c : Config) : result (Certificate * Key) :=
  let? (leafDER, _, key) := map_err (String.append "scep RA identity: ")
                              (LoadX509KeyPair (RACertFile (Cfg_SCEP c)) (RAKeyFile (Cfg_SCEP c))) in
  let? leaf := map_err (String.append "scep RA certificate: ") (ParseCertificate leafDER) in
  when negb (is_rsa key) fail String.append "scep RA key must be RSA, got " (key_type key);
  Ok (leaf, key).
End Validate.

(** ** What Validate guarantees *)

Section ConfigTheorems.
Context `{UnicodeTables} `{Os}.

(** A coherent configuration. *)
Record valid_config (c : Config) : Prop := {
  vc_openbao : Bao_Address (Cfg_OpenBao c) <> "" /\ Mount (Cfg_OpenBao c) <> "" /\
               Role_RoleID (Bao_AppRole (Cfg_OpenBao c)) <> "";
  vc_secret : SecretIDFile (Bao_AppRole (Cfg_OpenBao c)) <> "" \/
              SecretIDEnv (Bao_AppRole (Cfg_OpenBao c)) <> "" /\
              is_Some (LookupEnv (SecretIDEnv (Bao_AppRole (Cfg_OpenBao c))));
  vc_tls : TLSCertFile (Cfg_Server c) <> "" /\ TLSKeyFile (Cfg_Server c) <> "";
  vc_anchor : BootstrapCAFile (Cfg_Trust c) <> "" \/ DeviceCAFile (Cfg_Trust c) <> "";
  vc_roles : Map_Default (Cfg_RoleMap c) <> "" \/ Map_Rules (Cfg_RoleMap c) <> [];
  vc_challenge : RequireCPP (Cfg_Policy c) = true -> isNone (Ch_Backend (Cfg_Challenge c)) = false;
  vc_scep : Scep_Enabled (Cfg_SCEP c) = true ->
            RACertFile (Cfg_SCEP c) <> "" /\ RAKeyFile (Cfg_SCEP c) <> "" /\
            (isNone (Ch_Backend (Cfg_Challenge c)) = false \/
             AllowUnauthenticatedEnrollment (Cfg_Policy c) = true);
  vc_rsa : 0 < MinRSABits (Cfg_Policy c) -> 0 < MaxRSABits (Cfg_Policy c) ->
           MinRSABits (Cfg_Policy c) <= MaxRSABits (Cfg_Policy c);
  vc_rates : f_eq (Lim_PerClientRate (Cfg_Limits c)) (f_const 0) = false /\
             f_eq (Lim_GlobalRate (Cfg_Limits c)) (f_const 0) = false;
}.

Lemma when_ok {A} (b : bool) e (k : result A) a :
  (if b then Err e else k) = Ok a <-> b = false /\ k = Ok a.
Proof. destruct b; naive_solver. Qed.

Lemma then_ok {A} (r : result unit) (k : result A) a :
  (let? _ := r in k) = Ok a <-> r = Ok tt /\ k = Ok a.
Proof. destruct r as [[]|e]; simpl; naive_solver. Qed.

Lemma eqb_ne (s t : string) : (s =? t)%string = false <-> s <> t.
Proof. apply String.eqb_neq. Qed.

Lemma validateSecret_ok ar :
  validateSecret ar = Ok tt <->
  SecretIDFile ar <> "" \/ SecretIDEnv ar <> "" /\ is_Some (LookupEnv (SecretIDEnv ar)).
Proof.
  unfold validateSecret. destruct (String.eqb_spec (SecretIDFile ar) "") as [->|]; simpl; [|naive_solver].
  destruct (String.eqb_spec (SecretIDEnv ar) "") as [->|]; [naive_solver|].
  destruct (LookupEnv (SecretIDEnv ar)); unfold is_Some; naive_solver.
Qed.

Lemma validateSCEP_ok c :
  validateSCEP c = Ok tt <->
  RACertFile (Cfg_SCEP c) <> "" /\ RAKeyFile (Cfg_SCEP c) <> "" /\
  (isNone (Ch_Backend (Cfg_Challenge c)) = false \/ AllowUnauthenticatedEnrollment (Cfg_Policy c) = true).
Proof.
  unfold validateSCEP. rewrite !when_ok, orb_false_iff, andb_false_iff, negb_false_iff, !eqb_ne. tauto.
Qed.

Lemma Validate_ok c : Validate c = Ok tt <-> valid_config c.
Proof.
  unfold Validate. cbv zeta.
  rewrite ?when_ok, then_ok, ?when_ok, then_ok, ?when_ok, validateSecret_ok.
  rewrite !orb_false_iff, !andb_false_iff, Nat.eqb_neq, !eqb_ne, !Z.ltb_ge.
  assert (Hs : (if Scep_Enabled (Cfg_SCEP c) then validateSCEP c else Ok tt) = Ok tt <->
               (Scep_Enabled (Cfg_SCEP c) = true -> validateSCEP c = Ok tt))
    by (destruct (Scep_Enabled _); naive_solver).
  rewrite Hs, validateSCEP_ok. clear Hs.
  assert (Hr : length (Map_Rules (Cfg_RoleMap c)) <> 0%nat <-> Map_Rules (Cfg_RoleMap c) <> [])
    by (destruct (Map_Rules _); simpl; naive_solver).
  rewrite Hr. clear Hr. split.
  - intros (Ha & Hm & Hi & Hsec & Ht & Hanc & Hrol & Hch & Hsc & Hrsa & Hp & Hg & _). split; try tauto.
    + intros Hc. destruct Hch; congruence.
    + lia.
  - intros [Hb Hsec Ht Hanc Hrol Hch Hsc Hrsa [Hp Hg]].
    split_and!; try tauto; try done.
    + destruct (RequireCPP _); [right; by apply Hch|by left].
    + destruct (Z.le_gt_cases (MinRSABits (Cfg_Policy c)) 0); [lia|].
      destruct (Z.le_gt_cases (MaxRSABits (Cfg_Policy c)) 0); lia.
Qed.

(** C10. Startup refuses exactly the incoherent configurations: a file loads to
    [c] if and only if it can be read and decodes onto the defaults to [c], and
    OpenBao, the AppRole and its secret source, the TLS files, a trust anchor
    and a role are configured, a required challenge has a backend, SCEP (which
    authenticates nothing by itself) has an RA identity and either a challenge
    backend or the explicit opt-out, the RSA bounds are ordered, and neither
    request rate is the ambiguous 0. *)
Theorem load_correct `{ConfigYaml} path c :
  Load path = Ok c <->
  (exists raw, os_ReadFile path = Ok raw /\ yaml_Decode raw Default = Ok c) /\ valid_config c.
Proof.
  rewrite <- Validate_ok. unfold Load. split.
  - intros Hl. apply result_bind_ok in Hl as (raw & Hr & Hl). apply map_err_ok in Hr.
    apply result_bind_ok in Hl as (c' & Hy & Hl). apply map_err_ok in Hy.
    apply then_ok in Hl as [Hv [= <-]]. eauto.
  - intros [(raw & -> & Hy) Hv]. simpl. rewrite Hy. simpl. by rewrite Hv.
Qed.

(** ** Durations *)

(** Durations are read in their unit: a whole number with a unit reads as
    that many nanoseconds, whatever the node's integer form; a bare integer
    reads as seconds, exactly up to 9223372036 and wrapped around 2^64
    nanoseconds above that; and a text that is neither is an error. *)
Theorem duration_yaml_correct {N} `{YamlNode N} (node : N) n :
  (forall u d, Decode_string node = Ok (String.append (Itoa n) u) -> unitMap u = Some d ->
     0 <= n -> n * d <= max_int64 -> UnmarshalYAML node = Ok (n * d)) /\
  (Decode_string node = Ok (Itoa n) -> Decode_int64 node = Ok n -> 0 < n <= max_int64 ->
     UnmarshalYAML node = Ok (wrap64 (n * Second)) /\
     (wrap64 (n * Second) = n * Second <-> n <= 9223372036)) /\
  (forall s e, Decode_string node = Ok s -> ParseDuration s = None -> Decode_int64 node = Err e ->
     is_ok (UnmarshalYAML node) = false).
Proof.
  unfold UnmarshalYAML. split_and!.
  - intros u d -> Hu Hn Hle. by rewrite (ParseDuration_whole n u d).
  - intros -> -> Hn. rewrite ParseDuration_bare by done. split; [done|].
    unfold wrap64, Second. split; intros Hw.
    + pose proof (Z.mod_pos_bound (n * 1000000000 + 2 ^ 63) (2 ^ 64) ltac:(lia)). lia.
    + rewrite Z.mod_small by lia. lia.
  - by intros s e -> -> ->.
Qed.

(** ** Secrets and trust anchors *)

(** The SecretID is never empty and a configured file always wins: it
    resolves to v exactly when v is not empty and is the file's trimmed content
    if a file is configured, and the variable's value if not. *)
Theorem secret_id_correct c v :
  ResolveSecretID c = Ok v <->
  v <> "" /\
  (SecretIDFile (Bao_AppRole (Cfg_OpenBao c)) <> "" /\
   (exists raw, os_ReadFile (SecretIDFile (Bao_AppRole (Cfg_OpenBao c))) = Ok raw /\ v = TrimSpace (string_of_bytes raw)) \/
   SecretIDFile (Bao_AppRole (Cfg_OpenBao c)) = "" /\
   LookupEnv (SecretIDEnv (Bao_AppRole (Cfg_OpenBao c))) = Some v).
Proof.
  unfold ResolveSecretID. cbv zeta.
  destruct (String.eqb_spec (SecretIDFile (Bao_AppRole (Cfg_OpenBao c))) "") as [->|Hf]; simpl.
  - destruct (LookupEnv _) as [w|]; [|naive_solver]. rewrite when_ok, eqb_ne. naive_solver.
  - destruct (os_ReadFile _) as [raw|e]; simpl; [|naive_solver]. rewrite when_ok, eqb_ne.
    split; [|naive_solver]. intros [Hne [= <-]]. split; [done|]. left. eauto.
Qed.

(** The pool of a file. *)
Definition pool_of `{X509} (path : string) (pool : CertPool) : Prop :=
  exists pem, os_ReadFile path = Ok pem /\
    AppendCertsFromPEM NewCertPool (string_of_bytes pem) = (pool, true).

Lemma poolFromFile_ok `{X509} path pool : poolFromFile path = Ok pool <-> pool_of path pool.
Proof.
  unfold poolFromFile, pool_of. destruct (os_ReadFile path) as [pem|e]; simpl; [|naive_solver].
  destruct (AppendCertsFromPEM _ _) as [q ok] eqn:Hq. rewrite when_ok, negb_false_iff. split.
  - intros [-> [= <-]]. by exists pem.
  - intros (pem' & [= <-] & Hp). rewrite Hq in Hp. by injection Hp as -> ->.
Qed.

Lemma optionalPool_ok `{X509} what path o :
  optionalPool what path = Ok o <->
  path = "" /\ o = None \/ path <> "" /\ exists pool, o = Some pool /\ pool_of path pool.
Proof.
  unfold optionalPool. destruct (String.eqb_spec path "") as [->|Hp]; simpl; [naive_solver|].
  setoid_rewrite <- poolFromFile_ok. destruct (poolFromFile path); simpl; naive_solver.
Qed.

(** The two trust anchors never mix: loading succeeds exactly when each
    configured file holds a certificate, and then each pool is that of its own
    file, and absent if its file is not configured. *)
Theorem trust_pools_correct `{X509} c bootstrap device :
  TrustPools c = Ok (bootstrap, device) <->
  (BootstrapCAFile (Cfg_Trust c) = "" /\ bootstrap = None \/
   BootstrapCAFile (Cfg_Trust c) <> "" /\
   exists pool, bootstrap = Some pool /\ pool_of (BootstrapCAFile (Cfg_Trust c)) pool) /\
  (DeviceCAFile (Cfg_Trust c) = "" /\ device = None \/
   DeviceCAFile (Cfg_Trust c) <> "" /\
   exists pool, device = Some pool /\ pool_of (DeviceCAFile (Cfg_Trust c)) pool).
Proof.
  rewrite <- (optionalPool_ok "bootstrap CA: "), <- (optionalPool_ok "device CA: "). unfold TrustPools.
  destruct (optionalPool "bootstrap CA: " _) as [b|e], (optionalPool "device CA: " _) as [d|e']; simpl;
    (split; [intros [=]|intros [[=] [=]]]; by subst).
Qed.
End ConfigTheorems.

(** ** Runs *)

Section Witnesses.
#[local] Existing Instance ascii_tables.

(** A scalar as its text and, if it is one, its integer. *)
#[local] Instance scalar_node : YamlNode (string * option Z) := {|
  Decode_string v := Ok (fst v);
  Decode_int64 v := of_option "not an integer" (snd v);
|}.

Lemma duration_yaml_correct_witness :
  UnmarshalYAML ("15m", None) = Ok (15 * Minute) /\ UnmarshalYAML ("300", Some 300) = Ok (300 * Second) /\
  UnmarshalYAML ("18446744074", Some 18446744074) = Ok 290448384.
Proof.
  destruct (duration_yaml_correct ("15m", None) 15) as (Hu & _ & _).
  destruct (duration_yaml_correct ("300", Some 300) 300) as (_ & Hb & _).
  destruct (duration_yaml_correct ("18446744074", Some 18446744074) 18446744074) as (_ & Hw & _).
  split_and!.
  - apply (Hu "m" Minute); vm_compute; first [reflexivity|discriminate].
  - apply Hb; [vm_compute; reflexivity|reflexivity|split; vm_compute; [reflexivity|discriminate]].
  - apply Hw; [vm_compute; reflexivity|reflexivity|split; vm_compute; [reflexivity|discriminate]].
Defined.
End Witnesses.
