(* ===== verification/Baotest.v ===== *)
(** * internal/baotest: provisioning a PKI mount on a live OpenBao

    [baotest.go]: what the integration tests set up on a real server before the
    broker talks to it, and take down again.  It runs under [testing.T]: a
    [t.Fatal] or [t.Skip] ends the test, so the code is written in [Act] with
    those as its exits.  The network is the [Upstream] of [Bao.v], observed
    through its log of exchanges. *)
From S2P Require Import Prelude GoLib GoCrypto GoNet X509 Http Bao BaoTheory Config.

Definition EnvAddr : string := "CERTBROKER_TEST_OPENBAO_ADDR".
Definition EnvToken : string := "CERTBROKER_TEST_OPENBAO_TOKEN".

(** The values of a request body; a nested map is its entries in order of their
    keys, which is how [json.Marshal] writes it. *)
#[warnings="-register-all"]
Inductive any := AStr (s : string) | ABool (b : bool) | AInt (z : Z) | AMap (m : list (string * any)).
Abbreviation anyMap := (gmap string any) (only parsing).

(** [encoding/json] on those bodies and on the replies the code reads: a string
    inside [data], or a map, of which only the keys matter. *)
Class BaotestJson := {
  any_Marshal : anyMap -> result bytes;
  un_role_id : bytes -> result string;
  un_secret_id : bytes -> result string;
  un_certificate : bytes -> result string;
  un_map : bytes -> result (gset string);
}.

(** [crypto/rand.Read] of so many bytes *)
Class CryptoRand (N : Type) := rand_Read : N -> nat -> N * result bytes.
#[export] Instance logged_rand {N} `{CryptoRand N} : CryptoRand (N * list exchange) :=
  fun n k => let '(n', r) := rand_Read (fst n) k in ((n', snd n), r).

(** [io.ReadAll] *)
Definition ReadAll (b : Body) : result bytes :=
  match body_err b with Some e => Err e | None => Ok (body_data b) end.

Record Server := {
  T_Addr : string;
  T_Mount : string;
  T_Role : string;
  T_AppRole : string;
  T_RoleID : string;
  T_SecretID : string;
  T_CACertPEM : bytes;
  T_token : string;
}.

(** How a test ends early. *)
Inductive stopped := Skipped (msg : string) | Fatal (msg : string).

(** The test: its network, and the cleanups it registered, last first. *)
Record testing (N : Type) := { t_net : N; t_cleanups : list Server }.
Arguments Build_testing {N}.
Arguments t_net {N}.
Arguments t_cleanups {N}.

Definition MethodDelete : string := "DELETE".

(** [PolicyName] *)
Definition PolicyName (s : Server) : string := T_AppRole s.

(** ** Paths and bodies *)

Definition mountsPath (s : Server) : string := String.append "v1/sys/mounts/" (T_Mount s).
Definition policyPath (s : Server) : string := String.append "v1/sys/policies/acl/" (PolicyName s).
Definition appRolePath (s : Server) : string := String.append "v1/auth/approle/role/" (T_AppRole s).
Definition pkiPath (s : Server) (rest : string) : string :=
  String.append "v1/" (String.append (T_Mount s) rest).
Definition authPath : string := "v1/sys/auth".
Definition enablePath : string := "v1/sys/auth/approle".

Definition mountBody : anyMap :=
  <["type" := AStr "pki"]> (<["config" := AMap [("max_lease_ttl", AStr "87600h")]]> ∅).
Definition caBody : anyMap :=
  <["common_name" := AStr "certbroker integration test CA"]> (<["ttl" := AStr "87600h"]> ∅).

(** [writeRoleWith]'s body: the overrides over the defaults. *)
Definition roleDefaults : anyMap := list_to_map [
  ("allowed_domains", AStr "example.com");
  ("allow_subdomains", ABool true);
  ("allow_bare_domains", ABool false);
  ("allow_localhost", ABool false);
  ("allow_ip_sans", ABool false);
  ("use_csr_common_name", ABool false);
  ("use_csr_sans", ABool false);
  ("server_flag", ABool true);
  ("client_flag", ABool true);
  ("key_type", AStr "any");
  ("max_ttl", AStr "2160h");
  ("ttl", AStr "720h")].
Definition roleBody (overrides : anyMap) : anyMap := overrides ∪ roleDefaults.

Definition testRole (allowedDomains : string) : anyMap :=
  <["allowed_domains" := AStr allowedDomains]>
    (<["use_csr_common_name" := ABool false]> (<["use_csr_sans" := ABool false]> ∅)).

Definition enableBody : anyMap := {["type" := AStr "approle"]}.
Definition appRoleBody (s : Server) : anyMap :=
  <["token_policies" := AStr (PolicyName s)]>
    (<["token_ttl" := AStr "20m"]>
      (<["token_max_ttl" := AStr "1h"]>
        (<["secret_id_ttl" := AInt 0]> (<["secret_id_num_uses" := AInt 0]> ∅)))).

(** The rules of the policy: a path pattern with the spaces after it, and the
    capabilities. *)
Definition policyRules (mount : string) : list (string * string * list string) :=
  [(String.append mount "/sign/*", "   ", ["create"; "update"]);
   (String.append mount "/issue/*", "  ", ["create"; "update"]);
   (String.append mount "/ca_chain", " ", ["read"])].

Definition quoted (s : string) : string := String dquote (String.append s (String dquote "")).
Definition ruleLine (r : string * string * list string) : string :=
  let '(pattern, pad, caps) := r in
  String.append "path " (String.append (quoted pattern) (String.append pad
    (String.append "{ capabilities = [" (String.append (Join (map quoted caps) ", ") "] }")))).
Definition policyText (mount : string) : string :=
  String newline (String.concat "" (map (fun r => String.append (ruleLine r) (String newline "")) (policyRules mount))).
Definition policyBody (s : Server) : anyMap := {["policy" := AStr (policyText (T_Mount s))]}.

Section Baotest.
Context `{UnicodeTables} `{Os} `{!BaotestJson} {N : Type} `{Upstream N} `{!CryptoRand N}.

Abbreviation Test A := (Act (testing N) stopped A).

Definition on_net {A} (f : N -> N * A) : Test A :=
  act_call (fun w => let '(n, a) := f (t_net w) in ({| t_net := n; t_cleanups := t_cleanups w |}, a)).

Definition t_Fatal {A} (msg : string) : Test A := act_exit (Fatal msg).

(** ** HTTP plumbing *)

Definition callTo (s : Server) (method path : string) (payload : option bytes) : HttpCall :=
  {| hc_method := method; hc_url := String.append (T_Addr s) (String "/" path);
     hc_payload := payload; hc_token := T_token s |}.

(** [s.request]; [decode] is the decoding into [out], if there is one, and
    [zero] what [out] holds before. *)
Definition request {A} (s : Server) (method path : string) (body : option anyMap)
    (decode : option (bytes -> result A)) (zero : A) (n : N) : N * result A :=
  match (match body with
         | None => Ok None
         | Some b => let? p := map_err (fun e => Errorf "marshal %s: %w" [FStr path; FStr e]) (any_Marshal b) in
                     Ok (Some p)
         end) with
  | Err e => (n, Err e)
  | Ok payload =>
      let call := callTo s method path payload in
      match NewRequest method (hc_url call) with
      | Err e => (n, Err (Errorf "build request %s: %w" [FStr path; FStr e]))
      | Ok _ =>
          let '(n, resp) := net_Do n call in
          (n, let? (status, respBody) := map_err (fun e => Errorf "%s %s: %w" [FStr method; FStr path; FStr e]) resp in
              let? raw := map_err (fun e => Errorf "read %s: %w" [FStr path; FStr e]) (ReadAll respBody) in
              when 400 <=? status
              fail Errorf "%s %s -> %d: %s" [FStr method; FStr path; FInt status;
                                             FStr (TrimSpace (string_of_bytes raw))];
              match decode with
              | Some f => if nonempty raw
                          then map_err (fun e => Errorf "decode %s: %w" [FStr path; FStr e]) (f raw)
                          else Ok zero
              | None => Ok zero
              end)
      end
  end.

Definition request2 {A} (s : Server) (method path : string) (body : option anyMap)
    (decode : option (bytes -> result A)) (zero : A) : Test A :=
  let! r := on_net (request s method path body decode zero) in
  act_try r (fun e => t_Fatal (Errorf "baotest: %v" [FStr e])).

Definition post {A} (s : Server) (path : string) (body : anyMap) (decode : option (bytes -> result A)) (zero : A)
    : Test A :=
  request2 s MethodPost path (Some body) decode zero.

(** A post whose reply is not read. *)
Definition post_ (s : Server) (path : string) (body : anyMap) : Test unit := post s path body None tt.

Definition try_ (s : Server) (method path : string) (body : option anyMap) (n : N) : N * result unit :=
  request s method path body None tt n.

Definition randomSuffix : Test string :=
  let! r := on_net (fun n => rand_Read n 6) in
  let! b := act_try r (fun e => t_Fatal (Errorf "baotest: random: %v" [FStr e])) in
  act_ret (hex_EncodeToString b).

(** ** The steps of the provisioning *)

Definition mountPKI (s : Server) : Test unit := post_ s (mountsPath s) mountBody.
Definition generateCA (s : Server) : Test unit := post_ s (pkiPath s "/root/generate/internal") caBody.
Definition writeRoleWith (s : Server) (name : string) (overrides : anyMap) : Test unit :=
  post_ s (pkiPath s (String.append "/roles/" name)) (roleBody overrides).
Definition writeRole (s : Server) (allowedDomains : string) : Test unit :=
  writeRoleWith s (T_Role s) (testRole allowedDomains).
Definition WriteRole (s : Server) (name : string) (overrides : anyMap) : Test unit :=
  writeRoleWith s name overrides.

Definition enableAppRole (s : Server) : Test unit :=
  let! r := on_net (request s MethodGet authPath None (Some un_map) ∅) in
  if match r with Ok out => bool_decide ("approle/" ∈ out) | Err _ => false end then act_ret tt
  else
    let! _ := on_net (try_ s MethodPost enablePath (Some enableBody)) in
    act_ret tt.

Definition writePolicy (s : Server) : Test unit := post_ s (policyPath s) (policyBody s).
Definition writeAppRole (s : Server) : Test unit := post_ s (appRolePath s) (appRoleBody s).

Definition readRoleID (s : Server) : Test string :=
  let! out := request2 s MethodGet (String.append (appRolePath s) "/role-id") None (Some un_role_id) "" in
  if (out =? "")%string then t_Fatal "baotest: empty role_id" else act_ret out.

Definition issueSecretID (s : Server) : Test string :=
  let! out := post s (String.append (appRolePath s) "/secret-id") ∅ (Some un_secret_id) "" in
  if (out =? "")%string then t_Fatal "baotest: empty secret_id" else act_ret out.
Definition IssueSecretID (s : Server) : Test string := issueSecretID s.

Definition readCACert (s : Server) : Test bytes :=
  let! out := request2 s MethodGet (pkiPath s "/cert/ca") None (Some un_certificate) "" in
  if (out =? "")%string then t_Fatal "baotest: empty CA certificate" else act_ret (bytes_of_string out).

(** [teardown]: three deletions, whatever they answer. *)
Definition teardown (s : Server) (n : N) : N :=
  let '(n, _) := try_ s MethodDelete (mountsPath s) None n in
  let '(n, _) := try_ s MethodDelete (appRolePath s) None n in
  let '(n, _) := try_ s MethodDelete (policyPath s) None n in n.

Definition newServer (addr tok suffix : string) : Server :=
  {| T_Addr := addr; T_Mount := String.append "pki_test_" suffix; T_Role := "test-role";
     T_AppRole := String.append "certbroker_test_" suffix;
     T_RoleID := ""; T_SecretID := ""; T_CACertPEM := []; T_token := tok |}.

Definition withIDs (s : Server) (roleID secretID : string) (ca : bytes) : Server :=
  {| T_Addr := T_Addr s; T_Mount := T_Mount s; T_Role := T_Role s; T_AppRole := T_AppRole s;
     T_RoleID := roleID; T_SecretID := secretID; T_CACertPEM := ca; T_token := T_token s |}.

Definition t_Cleanup (s : Server) : Test unit :=
  act_modify (fun w => {| t_net := t_net w; t_cleanups := s :: t_cleanups w |}).

(** [Provision] from the mount to the CA certificate. *)
Definition provisionSteps (s : Server) (allowedDomains : string) : Test Server :=
  do! mountPKI s;
  do! generateCA s;
  do! writeRole s allowedDomains;
  do! enableAppRole s;
  do! writePolicy s;
  do! writeAppRole s;
  let! roleID := readRoleID s in
  let! secretID := issueSecretID s in
  let! ca := readCACert s in
  act_ret (withIDs s roleID secretID ca).

Definition Provision (allowedDomains : string) : Test Server :=
  let addr := Getenv EnvAddr in
  let tok := Getenv EnvToken in
  if (addr =? "")%string || (tok =? "")%string then
    act_exit (Skipped (Sprintf "integration test needs %s and %s" [FStr EnvAddr; FStr EnvToken]))
  else
    let! suffix := randomSuffix in
    let! s := provisionSteps (newServer addr tok suffix) allowedDomains in
    do! t_Cleanup s;
    act_ret s.
End Baotest.

(** ** What the provisioning sends

    [follows s L V m]: run from any test, [m] returns a value with [V] after
    exactly one of the sequences of exchanges in [L], each call of them accepted unless
    it is best effort; or it fails, having sent a beginning of one, for one of
    the causes of [stops], all of which lie at the end of what was sent.  Either
    way it registers no cleanup. *)
Section Follows.
Context `{UnicodeTables} `{Os} `{!BaotestJson} {N : Type} `{Upstream N} `{!CryptoRand N}.
Abbreviation log := (list exchange) (only parsing).

(** The payload of a body that encodes. *)
Definition payloadOf (body : option anyMap) : option bytes :=
  match body with
  | Some b => match any_Marshal b with Ok p => Some p | Err _ => None end
  | None => None
  end.
Definition theCall (s : Server) (method path : string) (body : option anyMap) : HttpCall :=
  callTo s method path (payloadOf body).

(** The reply was read, with a status below 400. *)
Definition replied (out : result (Z * Body)) (raw : bytes) : Prop :=
  exists status body, out = Ok (status, body) /\ ReadAll body = Ok raw /\ status < 400.
Definition accepted (out : result (Z * Body)) : Prop := exists raw, replied out raw.

(** The outcomes that are no acceptance, each with its error. *)
Definition refused (method path : string) (out : result (Z * Body)) (e : error) : Prop :=
  (exists e0, out = Err e0 /\ e = Errorf "%s %s: %w" [FStr method; FStr path; FStr e0]) \/
  (exists status body e0, out = Ok (status, body) /\ ReadAll body = Err e0 /\
     e = Errorf "read %s: %w" [FStr path; FStr e0]) \/
  (exists status body raw, out = Ok (status, body) /\ ReadAll body = Ok raw /\ 400 <= status /\
     e = Errorf "%s %s -> %d: %s" [FStr method; FStr path; FInt status; FStr (TrimSpace (string_of_bytes raw))]).

(** A request that cannot be made at all. *)
Definition unsendable (s : Server) (method path : string) (body : option anyMap) (e : error) : Prop :=
  (exists b e0, body = Some b /\ any_Marshal b = Err e0 /\ e = Errorf "marshal %s: %w" [FStr path; FStr e0]) \/
  (exists e0, NewRequest (N := N) method (hc_url (theCall s method path body)) = Err e0 /\
     e = Errorf "build request %s: %w" [FStr path; FStr e0]).

(** The calls whose reply holds a value, with its decoding and the complaint
    when there is none. *)
Inductive reads (s : Server) : string -> string -> option anyMap -> (bytes -> result string) -> string -> Prop :=
| reads_role_id : reads s MethodGet (String.append (appRolePath s) "/role-id") None un_role_id "baotest: empty role_id"
| reads_secret_id :
    reads s MethodPost (String.append (appRolePath s) "/secret-id") (Some ∅) un_secret_id "baotest: empty secret_id"
| reads_ca : reads s MethodGet (pkiPath s "/cert/ca") None un_certificate "baotest: empty CA certificate".

(** The two calls of [enableAppRole]. *)
Definition best_effort (s : Server) (c : HttpCall) : Prop :=
  hc_url c = hc_url (callTo s MethodGet authPath None) \/ hc_url c = hc_url (callTo s MethodPost enablePath None).

Definition calls (xs : log) : list HttpCall := map x_call xs.

Definition settled (s : Server) (xs : log) : Prop :=
  Forall (fun x => accepted (x_out x) \/ best_effort s (x_call x)) xs.

(** Why a test that sent [xs], and nothing after, failed: everything before the
    last exchange was in order, and the last one was refused, or brought a value
    that does not decode or is empty, or the call [next] could not be made. *)
Inductive stops (s : Server) : log -> list HttpCall -> string -> Prop :=
| stop_refused xs method path body out e :
    settled s xs -> ~ best_effort s (theCall s method path body) -> refused method path out e ->
    stops s (xs ++ [{| x_call := theCall s method path body; x_out := out |}]) []
      (Errorf "baotest: %v" [FStr e])
| stop_undecodable xs method path body decode complaint out raw e :
    settled s xs -> reads s method path body decode complaint -> replied out raw -> decode raw = Err e ->
    stops s (xs ++ [{| x_call := theCall s method path body; x_out := out |}]) []
      (Errorf "baotest: %v" [FStr (Errorf "decode %s: %w" [FStr path; FStr e])])
| stop_empty xs method path body decode complaint out raw :
    settled s xs -> reads s method path body decode complaint -> replied out raw ->
    raw = [] \/ decode raw = Ok "" ->
    stops s (xs ++ [{| x_call := theCall s method path body; x_out := out |}]) [] complaint
| stop_unsendable xs method path body e :
    settled s xs -> ~ best_effort s (theCall s method path body) -> unsendable s method path body e ->
    stops s xs [theCall s method path body] (Errorf "baotest: %v" [FStr e]).

Lemma stops_app s xs ys next msg : settled s xs -> stops s ys next msg -> stops s (xs ++ ys) next msg.
Proof.
  intros Hx Hs. unfold settled in *. destruct Hs; rewrite ?app_assoc.
  all: econstructor; eauto; by apply Forall_app.
Qed.

Definition follows {A} (s : Server) (L : log -> Prop) (V : log -> A -> Prop)
    (m : Act (testing (N * log)) stopped A) : Prop :=
  (exists xs, L xs) /\
  forall w, exists xs, snd (t_net (fst (m w))) = snd (t_net w) ++ xs /\ t_cleanups (fst (m w)) = t_cleanups w /\
    match snd (m w) with
    | inr a => L xs /\ V xs a /\ settled s xs
    | inl (Fatal msg) => exists next rest more, L (xs ++ rest) /\ calls rest = next ++ more /\ stops s xs next msg
    | inl (Skipped _) => False
    end.

(** Exactly these calls, whatever they brought. *)
Definition sends (cs : list HttpCall) : log -> Prop := fun xs => calls xs = cs.
Definition seq_ (L1 L2 : log -> Prop) : log -> Prop :=
  fun xs => exists x1 x2, xs = x1 ++ x2 /\ L1 x1 /\ L2 x2.

Lemma sends_some cs : exists xs, sends cs xs.
Proof.
  exists (map (fun c => {| x_call := c; x_out := Err "" |}) cs). unfold sends, calls.
  rewrite map_map. simpl. by rewrite map_id.
Qed.

Lemma follows_bind {A B} s L1 L2 (V1 : log -> A -> Prop) (V2 : log -> B -> Prop) m f :
  follows s L1 V1 m -> (forall xs a, V1 xs a -> follows s L2 (fun ys => V2 (xs ++ ys)) (f a)) -> (exists xs, L2 xs) ->
  follows s (seq_ L1 L2) V2 (act_bind m f).
Proof.
  intros [[x1 Hx1] Hm] Hf [x2 Hx2]. split; [by exists (x1 ++ x2), x1, x2|]. intros w.
  destruct (Hm w) as (xs & Hl & Hc & Hr). unfold act_bind. destruct (m w) as [w1 [[msg|msg]|a]]; simpl in *.
  - done.
  - exists xs. split_and!; [done..|]. destruct Hr as (next & rest & more & HL & Hnext & Hstop).
    exists next, (rest ++ x2), (more ++ calls x2). unfold calls in *. rewrite map_app, Hnext, <- app_assoc.
    split_and!; [|done..]. rewrite app_assoc. by exists (xs ++ rest), x2.
  - destruct Hr as (HL & HV & Hok). destruct (Hf xs a HV) as [_ Hfa]. destruct (Hfa w1) as (ys & Hl' & Hc' & Hr').
    exists (xs ++ ys). rewrite Hl', Hc', Hl, app_assoc. split_and!; [done..|].
    destruct (snd (f a w1)) as [[msg|msg]|b].
    + done.
    + destruct Hr' as (next & rest & more & HL' & Hnext & Hstop). exists next, rest, more. rewrite <- app_assoc.
      split_and!; [by eexists _, _|done|by apply stops_app].
    + destruct Hr' as (HL' & HV' & Hok'). split_and!; [by eexists _, _|done|by apply Forall_app].
Qed.

Lemma follows_weaken {A} s (L1 L2 : log -> Prop) (V1 V2 : log -> A -> Prop) m :
  (forall xs, L1 xs -> L2 xs) -> (forall xs a, V1 xs a -> V2 xs a) -> follows s L1 V1 m -> follows s L2 V2 m.
Proof.
  intros HL HV [[cs Hcs] Hm]. split; [eauto|]. intros w. destruct (Hm w) as (xs & Hl & Hc & Hr).
  exists xs. split_and!; [done..|]. destruct (snd (m w)) as [[msg|msg]|a]; [done| |naive_solver].
  destruct Hr as (next & rest & more & Hr & Hs). exists next, rest, more. auto.
Qed.

Lemma settled_nil s : settled s [].
Proof. by constructor. Qed.

Lemma follows_ret {A} s (V : log -> A -> Prop) a : V [] a -> follows s (sends []) V (act_ret a).
Proof.
  intros Ha. split; [apply sends_some|]. intros w. exists []. simpl. rewrite app_nil_r.
  split_and!; try done. apply settled_nil.
Qed.

(** A step of exactly one call before others. *)
Lemma follows_before {A B} s c cs (L : log -> Prop) (V1 : log -> A -> Prop) (V2 : log -> B -> Prop) m f :
  follows s (sends [c]) V1 m ->
  (forall xs a, V1 xs a -> follows s (seq_ (sends cs) L) (fun ys => V2 (xs ++ ys)) (f a)) -> (exists xs, L xs) ->
  follows s (seq_ (sends (c :: cs)) L) V2 (act_bind m f).
Proof.
  intros Hm Hf [xs HL]. apply (follows_weaken s (seq_ (sends [c]) (seq_ (sends cs) L)) _ V2 V2); [|done|].
  - intros ? (x1 & ? & -> & H1' & x2 & x3 & -> & H2' & H3'). exists (x1 ++ x2), x3. split; [by rewrite app_assoc|].
    unfold sends, calls in *. by rewrite map_app, H1', H2'.
  - eapply follows_bind; [done..|]. destruct (sends_some cs) as [ys Hys]. by exists (ys ++ xs), ys, xs.
Qed.

(** The same before a fixed sequence. *)
Lemma follows_cons {A B} s c cs (V1 : log -> A -> Prop) (V2 : log -> B -> Prop) m f :
  follows s (sends [c]) V1 m -> (forall xs a, V1 xs a -> follows s (sends cs) (fun ys => V2 (xs ++ ys)) (f a)) ->
  follows s (sends (c :: cs)) V2 (act_bind m f).
Proof.
  intros Hm Hf. apply (follows_weaken s (seq_ (sends [c]) (sends cs)) _ V2 V2); [|done|].
  - intros ? (x1 & x2 & -> & H1' & H2'). unfold sends, calls in *. by rewrite map_app, H1', H2'.
  - eapply follows_bind; eauto using sends_some.
Qed.

(** *** One request *)

(** What a reply that was accepted is decoded to. *)
Definition decoded {A} (path : string) (decode : option (bytes -> result A)) (zero : A) (raw : bytes) : result A :=
  match decode with
  | Some f => if nonempty raw
              then map_err (fun e => Errorf "decode %s: %w" [FStr path; FStr e]) (f raw)
              else Ok zero
  | None => Ok zero
  end.

(** A request makes its call, once, or none when it cannot be encoded or built;
    its reply is refused or decoded. *)
Lemma request_sends {A} s method path body (decode : option (bytes -> result A)) zero (n : N * log) :
  let '(n', r) := request s method path body decode zero n in
  exists xs, snd n' = snd n ++ xs /\
    ((xs = [] /\ exists e, r = Err e /\ unsendable s method path body e) \/
     exists out, xs = [{| x_call := theCall s method path body; x_out := out |}] /\
       ((exists e, r = Err e /\ refused method path out e) \/
        (exists raw, r = decoded path decode zero raw /\ replied out raw))).
Proof.
  unfold request. set (make := match body with None => _ | Some b => _ end).
  assert (Hmake : (exists e, make = Err e /\ unsendable s method path body e) \/ make = Ok (payloadOf body)).
  { subst make. destruct body as [b|]; [|by right]. simpl. destruct (any_Marshal b) as [p|e0] eqn:Hm; [by right|].
    left. eexists. split; [done|]. left. by exists b, e0. }
  destruct Hmake as [(e & -> & He)| ->]; [exists []; rewrite app_nil_r; split; [done|]; left; by split; [|exists e]|].
  fold (theCall s method path body). cbn [NewRequest logged].
  destruct (NewRequest method (hc_url (theCall s method path body))) as [[]|e0] eqn:Hnew; cycle 1.
  { exists []. rewrite app_nil_r. split; [done|]. left. split; [done|]. eexists. split; [done|]. right. by exists e0. }
  cbn [net_Do logged]. destruct (net_Do (fst n) _) as [n' out]. eexists. split; [done|]. right. exists out.
  split; [done|]. destruct out as [[status b]|e0]; [|left; eexists; split; [done|]; left; by exists e0].
  cbn. destruct (ReadAll b) as [raw|e0] eqn:Hraw;
    [|left; eexists; split; [done|]; right; left; by exists status, b, e0].
  cbn. destruct (Z.leb_spec 400 status) as [?|?].
  - left. eexists. split; [done|]. right; right. by exists status, b, raw.
  - right. exists raw. split; [done|]. by exists status, b.
Qed.

Lemma settled_one s call out : accepted out \/ best_effort s call -> settled s [{| x_call := call; x_out := out |}].
Proof. intros Hx. by apply Forall_singleton. Qed.

(** A request of which only the reply's status matters. *)
Lemma follows_request s method path body :
  ~ best_effort s (theCall s method path body) ->
  follows s (sends [theCall s method path body]) (fun _ _ => True) (request2 s method path body None tt).
Proof.
  intros Hbe. split; [apply sends_some|]. intros w. unfold request2, act_bind, on_net, act_call.
  pose proof (request_sends s method path body (@None (bytes -> result unit)) tt (t_net w)) as Hr.
  destruct (request _ _ _ _ _ _ (t_net w)) as [n' r]. destruct Hr as (xs & Hl & Hr). exists xs.
  destruct Hr as [[-> (e & -> & He)]|(out & -> & [(e & -> & He)|(raw & -> & Hraw)])]; cbn; (split; [done|split; [done|]]).
  - exists [theCall s method path body], [{| x_call := theCall s method path body; x_out := Err "" |}], [].
    split; [done|]. split; [done|]. apply (stop_unsendable s []); [apply settled_nil|done..].
  - exists [], [], []. split; [done|]. split; [done|]. apply (stop_refused s []); [apply settled_nil|done..].
  - split_and!; [done..|]. apply settled_one. left. by exists raw.
Qed.

(** [v] was read from the reply to that call. *)
Definition brought (xs : log) (call : HttpCall) (decode : bytes -> result string) (v : string) : Prop :=
  v <> "" /\ exists out raw, {| x_call := call; x_out := out |} ∈ xs /\ replied out raw /\ decode raw = Ok v.

(** A request for a value. *)
Lemma follows_value {A} s method path body decode complaint (g : string -> A) (V : log -> A -> Prop) :
  ~ best_effort s (theCall s method path body) -> reads s method path body decode complaint ->
  (forall xs v, brought xs (theCall s method path body) decode v -> V xs (g v)) ->
  follows s (sends [theCall s method path body]) V
    (let! out := request2 s method path body (Some decode) "" in
     if (out =? "")%string then t_Fatal complaint else act_ret (g out)).
Proof.
  intros Hbe Hreads HV. split; [apply sends_some|]. intros w. unfold request2, act_bind, on_net, act_call.
  pose proof (request_sends s method path body (Some decode) "" (t_net w)) as Hr.
  destruct (request _ _ _ _ _ _ (t_net w)) as [n' r]. destruct Hr as (xs & Hl & Hr). exists xs.
  destruct Hr as [[-> (e & -> & He)]|(out & -> & [(e & -> & He)|(raw & -> & Hraw)])].
  - cbn. split; [done|split; [done|]]. exists [theCall s method path body], [{| x_call := theCall s method path body; x_out := Err "" |}], [].
    split; [done|]. split; [done|]. apply (stop_unsendable s []); [apply settled_nil|done..].
  - cbn. split; [done|split; [done|]]. exists [], [], []. split; [done|]. split; [done|]. apply (stop_refused s []); [apply settled_nil|done..].
  - assert (Hempty : raw = [] \/ decode raw = Ok "" ->
      stops s [{| x_call := theCall s method path body; x_out := out |}] [] complaint)
      by (intros Hv; eapply (stop_empty s []); [apply settled_nil|done..]).
    unfold decoded. destruct raw as [|c raw'] eqn:Hdata; cbn.
    { split; [done|split; [done|]]. exists [], [], []. split; [done|]. split; [done|]. apply Hempty. by left. }
    destruct (decode (c :: raw')) as [v|e] eqn:Hv; cbn.
    + destruct (String.eqb_spec v "") as [->|Hne]; cbn; (split; [done|split; [done|]]).
      * exists [], [], []. split; [done|]. split; [done|]. apply Hempty. by right.
      * split_and!; [done| |].
        { apply HV. split; [done|]. exists out, (c :: raw'). split; [by left|done]. } apply settled_one. left. by exists (c :: raw').
    + split; [done|split; [done|]]. exists [], [], []. split; [done|]. split; [done|]. eapply (stop_undecodable s []); [apply settled_nil|done..].
Qed.

(** ** The whole provisioning *)

(** The listing of the auth engines has the AppRole engine. *)
Definition engine_there (out : result (Z * Body)) : Prop :=
  exists raw m, replied out raw /\ raw <> [] /\ un_map raw = Ok m /\ "approle/" ∈ m.

(** What [enableAppRole] sends: the listing, and unless that has the engine, the
    request for it; what cannot be made is left out. *)
Definition sent_or_not (s : Server) (method path : string) (body : option anyMap)
    (after : option (result (Z * Body)) -> log -> Prop) : log -> Prop :=
  fun xs => (after None xs /\ exists e, unsendable s method path body e) \/
            exists out rest, xs = {| x_call := theCall s method path body; x_out := out |} :: rest /\ after (Some out) rest.
Definition enabling (s : Server) : log -> Prop :=
  sent_or_not s MethodGet authPath None (fun look xs =>
    ((exists out, look = Some out /\ engine_there out) /\ xs = []) \/
    (~ (exists out, look = Some out /\ engine_there out) /\
     sent_or_not s MethodPost enablePath (Some enableBody) (fun _ ys => ys = []) xs)).

Lemma enable_sends s (n : N * log) :
  exists xs, snd (fst (try_ s MethodPost enablePath (Some enableBody) n)) = snd n ++ xs /\
    sent_or_not s MethodPost enablePath (Some enableBody) (fun _ ys => ys = []) xs /\ settled s xs.
Proof.
  unfold try_.
  pose proof (request_sends s MethodPost enablePath (Some enableBody) (@None (bytes -> result unit)) tt n) as Hr.
  destruct (request _ _ _ _ _ _ n) as [n' r]. destruct Hr as (xs & Hl & Hr). exists xs. split; [done|].
  destruct Hr as [[-> (e & _ & He)]|(out & -> & _)].
  - split; [left; split; [done|by exists e]|apply settled_nil].
  - split; [right; by exists out, []|]. apply settled_one. right. by right.
Qed.

Lemma engine_there_spec out raw :
  replied out raw ->
  match decoded authPath (Some un_map) ∅ raw with Ok m => bool_decide ("approle/" ∈ m) | Err _ => false end = true <->
  engine_there out.
Proof.
  intros Hraw. assert (Hone : forall raw', replied out raw' -> raw' = raw)
    by (intros raw' (? & ? & ? & ? & _); destruct Hraw as (? & ? & ? & ? & _); congruence).
  unfold decoded. split.
  - destruct raw as [|c raw']; cbn; [by intros ?%bool_decide_eq_true_1%not_elem_of_empty|].
    destruct (un_map (c :: raw')) as [m|e] eqn:Hm; cbn; [|done]. intros Hin%bool_decide_eq_true_1.
    by exists (c :: raw'), m.
  - intros (raw' & m & Hr & Hne & Hm & Hin). apply Hone in Hr as ->. destruct raw as [|c raw']; [done|]. cbn.
    rewrite Hm. cbn. by apply bool_decide_eq_true_2.
Qed.

Lemma follows_enable s : follows s (enabling s) (fun _ _ => True) (enableAppRole s).
Proof.
  set (look := fun out => {| x_call := theCall s MethodGet authPath None; x_out := out |}).
  assert (Hrun : forall w, exists xs, snd (t_net (fst (enableAppRole s w))) = snd (t_net w) ++ xs /\
    t_cleanups (fst (enableAppRole s w)) = t_cleanups w /\
    match snd (enableAppRole s w) with inr _ => enabling s xs /\ settled s xs | inl _ => False end).
  { intros w. unfold enableAppRole, act_bind, on_net, act_call.
    pose proof (request_sends s MethodGet authPath None (Some un_map) ∅ (t_net w)) as Hr.
    destruct (request _ _ _ _ _ _ (t_net w)) as [n1 r]. destruct Hr as (xs & Hl & Hr).
    assert (Hlook : settled s xs /\ forall ys,
      (match r with Ok out => bool_decide ("approle/" ∈ out) | Err _ => false end = true -> ys = []) ->
      (match r with Ok out => bool_decide ("approle/" ∈ out) | Err _ => false end = false ->
         sent_or_not s MethodPost enablePath (Some enableBody) (fun _ ys => ys = []) ys) ->
      enabling s (xs ++ ys)).
    { destruct Hr as [[-> (e & -> & He)]|(out & -> & Hr)].
      - split; [apply settled_nil|]. intros ys _ Hys. left. split; [|by exists e]. right.
        split; [by intros (out & [=] & _)|by apply Hys].
      - split; [apply settled_one; right; by left|]. intros ys Hyes Hno. right. exists out, ys. split; [done|].
        assert (Hiff : match r with Ok out => bool_decide ("approle/" ∈ out) | Err _ => false end = true <-> engine_there out).
        { destruct Hr as [(e & -> & He)|(raw & -> & Hraw)]; [|by apply engine_there_spec]. split; [done|].
          intros (raw & m & (st & b & -> & Hread & Hst) & _).
          destruct He as [(e0 & [=] & _)|[(st' & b' & e0 & [= <- <-] & Hread' & _)|(st' & b' & raw' & [= <- <-] & Hread' & Hst' & _)]];
            [congruence|lia]. }
        destruct (match r with Ok out => _ | Err _ => _ end).
        + left. split; [exists out; split; [done|by apply Hiff]|by apply Hyes].
        + right. split; [|by apply Hno]. intros (out' & [= <-] & Hout). by apply Hiff in Hout. }
    destruct Hlook as [Hset Hen]. destruct (match r with Ok _ => _ | Err _ => _ end).
    - exists xs. cbn. split_and!; [done..| |done]. rewrite <- (app_nil_r xs). by apply Hen.
    - destruct (enable_sends s n1) as (ys & Hl2 & Hys & Hset2). cbn.
      destruct (try_ s MethodPost enablePath (Some enableBody) n1) as [n2 r2]. cbn in *.
      exists (xs ++ ys). rewrite Hl2, Hl, app_assoc. split_and!; [done..| |by apply Forall_app]. by apply Hen. }
  split.
  - exists [look (Err ""); {| x_call := theCall s MethodPost enablePath (Some enableBody); x_out := Err "" |}].
    right. exists (Err ""), [{| x_call := theCall s MethodPost enablePath (Some enableBody); x_out := Err "" |}].
    split; [done|]. right. split; [|right; by exists (Err ""), []].
    by intros (out & [= <-] & raw & m & (st & b & [=] & _) & _).
  - intros w. destruct (Hrun w) as (xs & Hl & Hc & Hr). exists xs. split_and!; [done..|].
    destruct (snd (enableAppRole s w)); [done|]. by destruct Hr.
Qed.

(** The calls of a provisioning, in order. *)
Definition beforeAppRole (s : Server) (allowedDomains : string) : list HttpCall :=
  [theCall s MethodPost (mountsPath s) (Some mountBody);
   theCall s MethodPost (pkiPath s "/root/generate/internal") (Some caBody);
   theCall s MethodPost (pkiPath s "/roles/test-role") (Some (roleBody (testRole allowedDomains)))].
Definition afterAppRole (s : Server) : list HttpCall :=
  [theCall s MethodPost (policyPath s) (Some (policyBody s));
   theCall s MethodPost (appRolePath s) (Some (appRoleBody s));
   theCall s MethodGet (String.append (appRolePath s) "/role-id") None;
   theCall s MethodPost (String.append (appRolePath s) "/secret-id") (Some ∅);
   theCall s MethodGet (pkiPath s "/cert/ca") None].
Definition provisioning (s : Server) (allowedDomains : string) : log -> Prop :=
  seq_ (sends (beforeAppRole s allowedDomains)) (seq_ (enabling s) (sends (afterAppRole s))).

(** What a provisioned server has over the one it started from: the two IDs and
    the certificate that were read. *)
Definition provisioned (s : Server) (xs : log) (s' : Server) : Prop :=
  exists roleID secretID ca, s' = withIDs s roleID secretID (bytes_of_string ca) /\
    brought xs (theCall s MethodGet (String.append (appRolePath s) "/role-id") None) un_role_id roleID /\
    brought xs (theCall s MethodPost (String.append (appRolePath s) "/secret-id") (Some ∅)) un_secret_id secretID /\
    brought xs (theCall s MethodGet (pkiPath s "/cert/ca") None) un_certificate ca.

Lemma brought_app xs ys call decode v : brought ys call decode v -> brought (xs ++ ys) call decode v.
Proof. intros (Hv & out & raw & Hin & ?). split; [done|]. exists out, raw. by rewrite elem_of_app; eauto. Qed.

Lemma brought_before xs ys call decode v : brought xs call decode v -> brought (xs ++ ys) call decode v.
Proof. intros (Hv & out & raw & Hin & ?). split; [done|]. exists out, raw. by rewrite elem_of_app; eauto. Qed.

Lemma provisioned_app s xs ys s' : provisioned s ys s' -> provisioned s (xs ++ ys) s'.
Proof. intros (r & i & c & -> & Hr & Hi & Hc). exists r, i, c. by eauto 10 using brought_app. Qed.

(** The calls whose refusal matters are not those of [enableAppRole]. *)
Lemma not_best_effort s method path body :
  path <> authPath -> path <> enablePath -> ~ best_effort s (theCall s method path body).
Proof.
  intros Ha He [Hu|Hu]; cbn in Hu; apply string_app_inj_l in Hu; injection Hu as Hu; congruence.
Qed.

Section Script.
Variables addr tok suffix allowed : string.
Let s : Server := newServer addr tok suffix.

Ltac step := first [apply follows_request; apply not_best_effort; discriminate
                   |apply follows_value; [apply not_best_effort; discriminate|constructor|]].

(** From the policy on, the calls are fixed. *)
Lemma follows_after :
  follows s (sends (afterAppRole s)) (provisioned s)
    (do! writePolicy s;
     do! writeAppRole s;
     let! roleID := readRoleID s in
     let! secretID := issueSecretID s in
     let! ca := readCACert s in
     act_ret (withIDs s roleID secretID ca)).
Proof.
  apply (follows_cons s _ _ (fun _ _ => True)); [step|intros x1 _ _].
  apply (follows_cons s _ _ (fun _ _ => True)); [step|intros x2 _ _].
  eapply follows_cons; [step; by intros ? ? Hv; exact Hv|intros x3 roleID Hr].
  eapply follows_cons; [step; by intros ? ? Hv; exact Hv|intros x4 secretID Hs].
  eapply (follows_cons s _ _ (fun xs ca => exists v, ca = bytes_of_string v /\ brought xs _ _ v));
    [step; by intros xs v Hv; exists v|intros x5 ca (v & -> & Hv)].
  apply follows_ret. apply provisioned_app, provisioned_app. exists roleID, secretID, v.
  split_and!; [done|apply brought_before, Hr|apply brought_app, brought_before, Hs|].
  by apply brought_app, brought_app, brought_before.
Qed.

Lemma follows_steps : follows s (provisioning s allowed) (provisioned s) (provisionSteps s allowed).
Proof.
  unfold provisionSteps, provisioning, writeRole, writeRoleWith.
  assert (Hrest : follows s (seq_ (enabling s) (sends (afterAppRole s))) (provisioned s)
    (do! enableAppRole s; do! writePolicy s; do! writeAppRole s;
     let! roleID := readRoleID s in let! secretID := issueSecretID s in let! ca := readCACert s in
     act_ret (withIDs s roleID secretID ca)))
    by (eapply follows_bind; [apply follows_enable|intros xs _ _; eapply follows_weaken; [done|intros ys s'; apply provisioned_app|apply follows_after]|apply sends_some]).
  assert (Hsome : exists xs, seq_ (enabling s) (sends (afterAppRole s)) xs) by apply Hrest.
  apply (follows_before s _ _ _ (fun _ _ => True)); [step|intros x1 _ _|done].
  apply (follows_before s _ _ _ (fun _ _ => True)); [step|intros x2 _ _|done].
  apply (follows_before s _ _ _ (fun _ _ => True)); [step|intros x3 _ _|done].
  eapply follows_weaken; [|intros ys s'; by eauto using provisioned_app|exact Hrest]. intros xs Hxs. by exists [], xs.
Qed.
End Script.

Lemma randomSuffix_quiet (w : testing (N * log)) :
  let '(w', r) := randomSuffix w in
  snd (t_net w') = snd (t_net w) /\ t_cleanups w' = t_cleanups w /\
  match snd (rand_Read (t_net w) 6) with
  | Ok b => r = inr (hex_EncodeToString b)
  | Err e => r = inl (Fatal (Errorf "baotest: random: %v" [FStr e]))
  end.
Proof.
  unfold randomSuffix, on_net, act_call, act_bind.
  assert (Hr : snd (fst (rand_Read (t_net w) 6%nat)) = snd (t_net w))
    by (unfold rand_Read at 1, logged_rand; by destruct (rand_Read (fst (t_net w)) 6%nat)).
  by destruct (rand_Read (t_net w) 6%nat) as [n' [b|e]].
Qed.

(** C40. Provisioning does what it says and no more: without both variables the
    test is skipped and nothing is sent; otherwise, whatever the server answers,
    the calls made are a beginning of the one script (mount, CA, role, the
    AppRole engine exactly when the listing does not show it, policy, AppRole,
    its two IDs, CA certificate), all to the configured address under the
    configured token, for names that carry the random suffix.  Provisioning
    succeeds only when the whole script was sent and every call outside the
    engine check was accepted; then both IDs and the certificate are those the
    replies brought, none of them empty, and exactly this server's teardown is
    registered.  It fails only when the
    random source fails, before anything is sent, or at the first call that is
    refused (no reply, a reply that breaks off, a status of 400 or more), brings
    no usable value, or cannot be made; that call is the last, all before it
    were accepted, its error is the message of the failure, and no cleanup is
    registered. *)
Theorem provision_correct allowed (w : testing (N * list exchange)) :
  let '(w', r) := Provision allowed w in
  if (Getenv EnvAddr =? "")%string || (Getenv EnvToken =? "")%string
  then w' = w /\ exists msg, r = inl (Skipped msg)
  else match snd (rand_Read (t_net w) 6) with
  | Err e => r = inl (Fatal (Errorf "baotest: random: %v" [FStr e])) /\
             snd (t_net w') = snd (t_net w) /\ t_cleanups w' = t_cleanups w
  | Ok b =>
      exists xs, let s := newServer (Getenv EnvAddr) (Getenv EnvToken) (hex_EncodeToString b) in
        snd (t_net w') = snd (t_net w) ++ xs /\
        match r with
        | inr s' => provisioning s allowed xs /\ settled s xs /\ provisioned s xs s' /\
                    t_cleanups w' = s' :: t_cleanups w
        | inl (Fatal msg) =>
            exists next rest more, provisioning s allowed (xs ++ rest) /\ calls rest = next ++ more /\
              stops s xs next msg /\ t_cleanups w' = t_cleanups w
        | inl (Skipped _) => False
        end
  end.
Proof.
  unfold Provision. destruct (_ || _) eqn:Henv; [by split; [|eexists]|].
  unfold act_bind at 1. pose proof (randomSuffix_quiet w) as Hq.
  destruct (randomSuffix w) as [w1 r1]. destruct Hq as (Hl1 & Hc1 & Hr1).
  destruct (snd (rand_Read (t_net w) 6)) as [b|e]; subst r1; [|done].
  set (s := newServer (Getenv EnvAddr) (Getenv EnvToken) (hex_EncodeToString b)).
  destruct (proj2 (follows_steps (Getenv EnvAddr) (Getenv EnvToken) (hex_EncodeToString b) allowed) w1)
    as (xs & Hl & Hc & Hr).
  fold s in Hl, Hc, Hr. rewrite Hl1 in Hl. rewrite Hc1 in Hc. unfold act_bind at 1.
  destruct (provisionSteps s allowed w1) as [w2 [[msg|msg]|s']]; simpl in Hl, Hc, Hr; [done| |]; exists xs.
  - split; [done|]. destruct Hr as (next & rest & more & HL & Hn & Hs). by exists next, rest, more.
  - destruct Hr as (HL & HV & Hok). simpl. by rewrite Hc.
Qed.
End Follows.

(** ** Taking it down again *)

Section Teardown.
Context `{UnicodeTables} `{Os} `{!BaotestJson} {N : Type} `{Upstream N} `{!CryptoRand N}.

Lemma try_sends s method path (n : N * list exchange) :
  NewRequest (N := N) method (hc_url (callTo s method path None)) = Ok tt ->
  map x_call (snd (fst (try_ s method path None n))) = map x_call (snd n) ++ [theCall s method path None].
Proof.
  intros Hnew. unfold try_, request. cbn [NewRequest logged]. rewrite Hnew.
  cbn [net_Do logged]. destruct (net_Do (fst n) _) as [n' out]. cbn. by rewrite map_app.
Qed.

(** Whatever the server answers, the teardown asks for the deletion of the
    mount, the AppRole and the policy, at the addresses where the provisioning
    put them. *)
Theorem teardown_correct s (n : N * list exchange)
    (Hnew : forall url, NewRequest (N := N) MethodDelete url = Ok tt) :
  map x_call (snd (teardown s n)) =
    map x_call (snd n) ++ [theCall s MethodDelete (mountsPath s) None;
                           theCall s MethodDelete (appRolePath s) None;
                           theCall s MethodDelete (policyPath s) None].
Proof.
  unfold teardown. pose proof (try_sends s MethodDelete (mountsPath s) n (Hnew _)) as H1'.
  destruct (try_ s MethodDelete (mountsPath s) None n) as [n1 r1].
  pose proof (try_sends s MethodDelete (appRolePath s) n1 (Hnew _)) as H2'.
  destruct (try_ s MethodDelete (appRolePath s) None n1) as [n2 r2].
  pose proof (try_sends s MethodDelete (policyPath s) n2 (Hnew _)) as H3'.
  destruct (try_ s MethodDelete (policyPath s) None n2) as [n3 r3]. cbn [fst] in *.
  by rewrite H3', H2', H1', <- !app_assoc.
Qed.
End Teardown.

(** ** The role and the policy *)

Lemma testRole_lookup allowed k :
  testRole allowed !! k =
    if decide (k = "allowed_domains") then Some (AStr allowed)
    else if decide (k = "use_csr_common_name") then Some (ABool false)
    else if decide (k = "use_csr_sans") then Some (ABool false)
    else None.
Proof. unfold testRole. rewrite !lookup_insert, lookup_empty. by repeat case_decide; subst. Qed.

(** The issuing role never merges the CSR's own names into a certificate: not
    in the role of the broker's tests, and not in a role a test adds unless
    its overrides say so. *)
Theorem role_ignores_csr_names overrides allowed k
    (Hk : k = "use_csr_common_name" \/ k = "use_csr_sans") :
  roleBody (testRole allowed) !! k = Some (ABool false) /\
  roleBody overrides !! k = Some (default (ABool false) (overrides !! k)).
Proof.
  assert (Hd : roleDefaults !! k = Some (ABool false)) by (destruct Hk as [-> | ->]; by vm_compute).
  unfold roleBody. rewrite !lookup_union, testRole_lookup, Hd. split.
  - by destruct Hk as [-> | ->].
  - by destruct (overrides !! k).
Qed.

(** The access the policy gives, for any matching of ACL paths in which a
    pattern matches itself and one that ends in a star matches every path that
    begins with the rest. *)
Section Acl.
Context `{UnicodeTables} (acl_match : string -> string -> bool).
Hypothesis acl_exact : forall p, acl_match p p = true.
Hypothesis acl_glob : forall p rest, acl_match (String.append p "*") (String.append p rest) = true.

Definition grants (mount path cap : string) : Prop :=
  exists pattern pad caps, (pattern, pad, caps) ∈ policyRules mount /\
    acl_match pattern path = true /\ cap ∈ caps.

(** The policy lets the broker's client, on the same mount, make every call it
    makes there: it may sign and issue under every role, and read the chain. *)
Theorem policy_covers_client (c : Bao.Config) role :
  exists sign issue chain,
    signPath c role = String.append "v1/" sign /\ grants (PKIMount c) sign "update" /\
    issuePath c role = String.append "v1/" issue /\ grants (PKIMount c) issue "update" /\
    chainPath c = String.append "v1/" chain /\ grants (PKIMount c) chain "read".
Proof.
  exists (String.append (PKIMount c) (String.append "/sign/" (PathEscape role))),
         (String.append (PKIMount c) (String.append "/issue/" (PathEscape role))),
         (String.append (PKIMount c) "/ca_chain").
  assert (Hglob : forall seg, acl_match (String.append (PKIMount c) (String.append seg "*"))
            (String.append (PKIMount c) (String.append seg (PathEscape role))) = true)
    by (intros seg; rewrite <- !string_app_assoc; apply acl_glob).
  assert (Hp : signPath c role = String.append "v1/" (String.append (PKIMount c) (String.append "/sign/" (PathEscape role))) /\
               issuePath c role = String.append "v1/" (String.append (PKIMount c) (String.append "/issue/" (PathEscape role))) /\
               chainPath c = String.append "v1/" (String.append (PKIMount c) "/ca_chain"))
    by (unfold signPath, issuePath, chainPath; simpl; by rewrite !string_app_nil_r).
  destruct Hp as (-> & -> & ->). unfold grants.
  split_and!; try done; eexists _, _, _; (split; [unfold policyRules|split]).
  - by left.
  - exact (Hglob "/sign/").
  - right; by left.
  - by right; left.
  - exact (Hglob "/issue/").
  - right; by left.
  - by right; right; left.
  - apply acl_exact.
  - by left.
Qed.
End Acl.

(** ** A run *)

Section Witnesses.
#[local] Existing Instance ascii_tables.

Definition testOs : Os := {|
  LookupEnv k := if (k =? EnvAddr)%string then Some "http://localhost:8200"
                 else if (k =? EnvToken)%string then Some "root" else None;
  os_ReadFile _ := Err "no such file";
|}.
Definition testJson : BaotestJson := {|
  any_Marshal m := Ok (bytes_of_string (Join (map fst (map_to_list m)) ","));
  un_role_id b := Ok (string_of_bytes b);
  un_secret_id b := Ok (string_of_bytes b);
  un_certificate b := Ok (string_of_bytes b);
  un_map b := Ok {[ string_of_bytes b ]};
|}.
Definition testRand : CryptoRand script := fun n k => (n, Ok (repeat Byte.xab k)).
#[local] Existing Instances testOs testJson testRand.

Definition freshServer (answers : list (result (Z * Body))) : testing (script * list exchange) :=
  {| t_net := ({| BaoTheory.answers := answers; clock := 0 |}, []); t_cleanups := [] |}.

(** The answers of a server that has the AppRole engine. *)
Definition happy : list (result (Z * Body)) :=
  [answer 204 ""; answer 200 "{}"; answer 200 "{}"; answer 200 "approle/"; answer 204 ""; answer 204 "";
   answer 200 "role"; answer 200 "secret"; answer 200 "PEM"].

Example provision_runs :
  match Provision "example.com" (freshServer happy) with
  | (w, inr s) => T_Mount s = "pki_test_abababababab" /\ T_RoleID s = "role" /\ T_SecretID s = "secret" /\
                  map (fun x => hc_method (x_call x)) (snd (t_net w)) =
                    ["POST"; "POST"; "POST"; "GET"; "POST"; "POST"; "GET"; "POST"; "GET"] /\
                  t_cleanups w = [s]
  | _ => False
  end.
Proof. vm_compute. done. Qed.

Example provision_stops :
  match Provision "example.com" (freshServer [answer 204 ""; answer 403 "denied"; answer 200 "{}"]) with
  | (w, inl (Fatal msg)) =>
      msg = "baotest: POST v1/pki_test_abababababab/root/generate/internal -> 403: denied" /\
      length (snd (t_net w)) = 2%nat /\ t_cleanups w = []
  | _ => False
  end.
Proof. vm_compute. done. Qed.

(** The text, with its quotation marks written as apostrophes. *)
Example policy_text :
  string_map (fun c => if Ascii.eqb c dquote then byte_chr 39 else c) (policyText "pki_int") =
"
path 'pki_int/sign/*'   { capabilities = ['create', 'update'] }
path 'pki_int/issue/*'  { capabilities = ['create', 'update'] }
path 'pki_int/ca_chain' { capabilities = ['read'] }
".
Proof. vm_compute. reflexivity. Qed.

(** The matching of the documentation, on strings. *)
Definition exampleAcl (pattern path : string) : bool :=
  (pattern =? path)%string ||
  (HasSuffix pattern "*" && HasPrefix path (string_take (String.length pattern - 1) pattern)).

Lemma exampleAcl_glob p rest : exampleAcl (String.append p "*") (String.append p rest) = true.
Proof.
  unfold exampleAcl. apply orb_true_iff. right. apply andb_true_iff. split.
  - apply HasSuffix_spec. by exists p.
  - apply HasPrefix_spec. exists rest. f_equal. rewrite string_length_app. simpl.
    rewrite Nat.add_sub. induction p as [|c p IH]; simpl; [done|]. by f_equal.
Qed.

Lemma policy_covers_client_witness : grants exampleAcl "pki_int" "pki_int/ca_chain" "read".
Proof.
  assert (Hexact : forall p, exampleAcl p p = true)
    by (intros p; unfold exampleAcl; rewrite String.eqb_refl; reflexivity).
  destruct (policy_covers_client exampleAcl Hexact exampleAcl_glob exampleConfig "devices")
    as (sign & issue & chain & _ & _ & _ & _ & Hc & Hg).
  injection Hc as <-. exact Hg.
Defined.

Lemma role_ignores_csr_names_witness :
  roleBody (testRole "example.com") !! "use_csr_sans" = Some (ABool false).
Proof. exact (proj1 (role_ignores_csr_names ∅ "example.com" "use_csr_sans" (or_intror eq_refl))). Defined.

Lemma teardown_correct_witness :
  let s := newServer "http://localhost:8200" "root" "ab" in
  map hc_method (map x_call (snd (teardown s (t_net (freshServer []))))) = ["DELETE"; "DELETE"; "DELETE"].
Proof.
  intros s. assert (Hnew : forall url, NewRequest (N := script) MethodDelete url = Ok tt) by (intros; reflexivity).
  rewrite (teardown_correct s (t_net (freshServer [])) Hnew). reflexivity.
Defined.
End Witnesses.
