(* ===== verification/Main.v ===== *)
(** * cmd/certbroker/main.go: the broker assembled from its configuration

    [selectAuthorizer], [buildInventory], [buildChallenge], [buildSCEPServer],
    the health endpoints and the wiring of [run], up to the point where the
    listeners start.  EST and SCEP share the authorizer and the OpenBao client:
    [state] holds them once, with the limiter in front of both, and a request on
    either listener is a step on it. *)
From S2P Require Import Prelude GoLib GoCrypto GoNet X509 Authz Match Inventory Challenge Policy Verify Pipeline Replay Limits Http Middleware Pem Csr Bao Cms ScepMessage.
From S2P Require Import Est ScepHandler Config.
From Stdlib Require Import SpecFloat.

Section Main.
Context `{UnicodeTables} `{Os} `{ConfigYaml} `{InventoryFile} `{X509} `{Pkcs7Lib} `{!KeyPairs}.

(** ** buildInventory and buildChallenge *)

(** The inventories a configuration can select. *)
Inductive AnyInventory := InvNone (n : NoInventory) | InvFile (f : FileInventory).

#[export] Instance AnyInventory_Lookup : Inventory.Inventory AnyInventory :=
  fun i id => match i with InvNone n => Lookup n id | InvFile f => Lookup f id end.

Definition buildInventory (c : Config.Config) : result AnyInventory :=
  let backend := Inv_Backend (Cfg_Inventory c) in
  if isNone backend then Ok (InvNone MkNoInventory)
  else if (backend =? "file")%string then
    when (Inv_Path (Cfg_Inventory c) =? "")%string fail "inventory.path is required for the file backend";
    let? f := NewFileInventory (Inv_Path (Cfg_Inventory c)) in
    Ok (InvFile f)
  else Err (String.append "unsupported inventory backend: " backend).

(** No backend is no validator. *)
Definition buildChallenge (c : Config.Config) : result (option StaticSecret) :=
  let backend := Ch_Backend (Cfg_Challenge c) in
  if isNone backend then Ok None
  else if (backend =? "static")%string then
    when (StaticSecretEnv (Cfg_Challenge c) =? "")%string
    fail "challenge.static_secret_env is required for the static backend";
    let? s := NewStaticSecret (Getenv (StaticSecretEnv (Cfg_Challenge c))) in
    Ok (Some s)
  else Err (String.append "unsupported challenge backend: " backend).

(** ** selectAuthorizer *)

Abbreviation ConfiguredPipeline := (Pipeline.Pipeline AnyInventory StaticSecret RuleSelector StandardConstraints)
  (only parsing).

Inductive AnyAuthorizer := Echo (a : AllowAllEcho) | Pipe (p : ConfiguredPipeline).

#[export] Instance AnyAuthorizer_Authorize : Authorizer AnyAuthorizer :=
  fun a now req =>
    match a with
    | Echo e => let '(e, d) := Authorize e now req in (Echo e, d)
    | Pipe p => let '(p, d) := Authorize p now req in (Pipe p, d)
    end.

Definition toRule (r : RoleRule) : Rule := {| Rule_Match := Rule_Match_ r; Rule_Role := Rule_Role_ r |}.

Definition selectAuthorizer (c : Config.Config) (devAllowAll : bool) (devRole : string) : result AnyAuthorizer :=
  if devAllowAll then
    let role := if (devRole =? "")%string then Map_Default (Cfg_RoleMap c) else devRole in
    when (role =? "")%string fail "-dev-insecure-allow-all requires -dev-role or role_map.default";
    Ok (Echo {| Echo_Role := role |})
  else
    let? inv := buildInventory c in
    let? ch := buildChallenge c in
    let rules := map toRule (Map_Rules (Cfg_RoleMap c)) in
    Ok (Pipe {| P_Inventory := Some inv; P_Challenge := ch;
                P_Roles := Some (NewRuleSelector rules (Map_Default (Cfg_RoleMap c)));
                P_Constraints := Some (NewStandardConstraints (SANConstraint (Cfg_Policy c))
                                                              (Pol_MaxValidity (Cfg_Policy c)));
                RequireChallenge := RequireCPP (Cfg_Policy c);
                AllowUnauthenticated := AllowUnauthenticatedEnrollment (Cfg_Policy c) |}).

(** ** The servers *)

Definition baoConfig (c : Config.Config) (caCert : bytes) (secretID : string) : Bao.Config :=
  let ob := Cfg_OpenBao c in
  {| Address := Bao_Address ob; PKIMount := Mount ob; CACertPEM := caCert;
     AppRoleMount := MountPath (Bao_AppRole ob); RoleID := Role_RoleID (Bao_AppRole ob);
     SecretID := secretID; RenewThreshold := Role_RenewThreshold (Bao_AppRole ob);
     MaxRetries := Bao_MaxRetries ob |}.

Definition estOptions (c : Config.Config) (bootstrapRoots deviceRoots : option CertPool) : Est.Options :=
  {| Est.BootstrapRoots := bootstrapRoots; Est.DeviceRoots := deviceRoots;
     Est.AllowedKeyTypes := AllowedKeyTypes (Cfg_Policy c); Est.CSRAttrs := [];
     Est.MaxRequestBytes := Srv_MaxRequestBytes (Cfg_Server c);
     Est.MinRSABits := MinRSABits (Cfg_Policy c); Est.MaxRSABits := MaxRSABits (Cfg_Policy c);
     Est.ServerKeyGenKeyType := ServerKeyGenKeyType (Cfg_Policy c);
     Est.ServerKeyGenKeyBits := ServerKeyGenKeyBits (Cfg_Policy c);
     Est.UpstreamTimeout := UpstreamTimeout (Cfg_Limits c) |}.

Definition limitsConfig (c : Config.Config) : Limits.Config spec_float :=
  let l := Cfg_Limits c in
  {| PerClientRate := Lim_PerClientRate l; PerClientBurst := Lim_PerClientBurst l;
     GlobalRate := Lim_GlobalRate l; GlobalBurst := Lim_GlobalBurst l;
     MaxConcurrent := Lim_MaxConcurrent l; AcquireTimeout := Lim_AcquireTimeout l;
     MaxClients := MaxTrackedClients l |}.

Definition scepDigests (c : Config.Config) : list (list N) :=
  if AllowSHA1 (Cfg_SCEP c) then SHA1 :: DefaultDigests else DefaultDigests.

Definition scepOptions (c : Config.Config) (raCert : Certificate) (raKey : Key) (deviceRoots : option CertPool)
    : ScepHandler.Options :=
  {| ScepHandler.RACert := Some raCert; ScepHandler.RAKey := Some raKey;
     ScepHandler.DeviceRoots := deviceRoots;
     ScepHandler.ParseCSR := Some (fun der => ParseCSRLimited der (MinRSABits (Cfg_Policy c))
                                                (MaxRSABits (Cfg_Policy c)));
     ScepHandler.ChallengePassword := Some Csr.ChallengePassword;
     ScepHandler.VerifyIssued := Some Verify.VerifyIssued;
     ScepHandler.O_Digests := scepDigests c;
     ScepHandler.MaxRequestBytes := Scep_MaxRequestBytes (Cfg_SCEP c);
     ScepHandler.UpstreamTimeout := UpstreamTimeout (Cfg_Limits c) |}.

Definition buildSCEPServer {E} (c : Config.Config) (baoClient : E) (authorizer : AnyAuthorizer)
    (deviceRoots : option CertPool) : result (ScepHandler.handler * ScepHandler.world AnyAuthorizer E) :=
  let? (raCert, raKey) := SCEPRAIdentity c in
  ScepHandler.NewHandler (scepOptions c raCert raKey deviceRoots) (Some baoClient) authorizer
    (Some (NewReplayCache (ReplayTTL (Cfg_SCEP c)) (ReplayMaxEntries (Cfg_SCEP c)))).

(** What [run] builds, and what its handlers share. *)
Record broker := {
  estHandler : Est.handler;
  scepHandler : option ScepHandler.handler;
  estTLS : tls_Config (bytes * list bytes * Key);
}.

Record state (E : Type) := {
  st_authorizer : AnyAuthorizer;
  st_bao : E;
  st_replay : option ReplayCache;
  st_limiter : Limiter spec_float;
  st_estLog : list AuditEntry;
  st_scepLog : list ScepAudit;
}.
Arguments Build_state {E}.
Arguments st_authorizer {E}.
Arguments st_bao {E}.
Arguments st_replay {E}.
Arguments st_limiter {E}.
Arguments st_estLog {E}.
Arguments st_scepLog {E}.

(** [run], up to the listeners; [connect] is the OpenBao client with its
    network. *)
Definition run {E} (connect : Client -> E) (configPath : string) (devAllowAll : bool) (devRole : string)
    : result (Config.Config * broker * state E) :=
  let? c := Load configPath in
  let? secretID := ResolveSecretID c in
  let? caCert := OpenBaoCACert c in
  let? client := Bao.New (baoConfig c caCert secretID) in
  let baoClient := connect client in
  let? (bootstrapRoots, deviceRoots) := TrustPools c in
  let? cert := ServerTLSCertificate c in
  let? authorizer := selectAuthorizer c devAllowAll devRole in
  let? (estH, _) := Est.NewHandler (estOptions c bootstrapRoots deviceRoots) (Some baoClient) (Some authorizer) in
  let lim := Limits.New (limitsConfig c) in
  let? scep := if Scep_Enabled (Cfg_SCEP c)
               then let? (h, w) := buildSCEPServer c baoClient authorizer deviceRoots in
                    Ok (Some h, Some (ScepHandler.replayCache w))
               else Ok (None, None) in
  Ok (c, {| estHandler := estH; scepHandler := fst scep; estTLS := TLSConfig cert |},
      {| st_authorizer := authorizer; st_bao := baoClient; st_replay := snd scep;
         st_limiter := lim; st_estLog := []; st_scepLog := [] |}).

(** ** Requests on the listeners *)

Section Serving.
Context {E : Type} `{Enroller E}.

(** How the limiter meets a request: the time it arrives, the orders in which
    the bucket tables are iterated, and whether it gets a concurrency slot. *)
Record arrival := {
  arr_now : Time;
  arr_gnow : Time;
  arr_order : list string;
  arr_gorder : list string;
  arr_acquired : bool;
}.

Definition limited {W} (s : state E) (a : arrival) (next : HttpRequest -> W -> W * Response) (r : HttpRequest)
    (w : W) : Limiter spec_float * (W * Response) :=
  Middleware.Middleware (st_limiter s) (arr_now a) (arr_gnow a) (arr_order a) (arr_gorder a) (arr_acquired a) next r w.

(** The EST listener: [limiter.Middleware(handler)]. *)
Definition serveEST (b : broker) (a : arrival) (boundary : string) (now : Time) (r : HttpRequest) (s : state E)
    : state E * Response :=
  let '(l, (w, resp)) := limited s a (Est.serve (estHandler b) boundary now) r
                           {| Est.authorizer := Some (st_authorizer s); Est.enroller := st_bao s;
                              Est.auditLog := st_estLog s |} in
  ({| st_authorizer := default (st_authorizer s) (Est.authorizer w); st_bao := Est.enroller w;
      st_replay := st_replay s; st_limiter := l; st_estLog := Est.auditLog w; st_scepLog := st_scepLog s |}, resp).

(** The SCEP listener, behind the same limiter; there is none unless SCEP is
    enabled. *)
Definition serveSCEP (b : broker) (a : arrival) (m : moment) (r : HttpRequest) (s : state E)
    : option (state E * Response) :=
  match scepHandler b, st_replay s with
  | Some h, Some rc =>
      let '(l, (w, resp)) := limited s a (ScepHandler.serve h m) r
                          {| ScepHandler.authorizer := st_authorizer s; ScepHandler.enroller := st_bao s;
                             ScepHandler.replayCache := rc; ScepHandler.auditLog := st_scepLog s |} in
      Some ({| st_authorizer := ScepHandler.authorizer w; st_bao := ScepHandler.enroller w;
               st_replay := Some (ScepHandler.replayCache w); st_limiter := l; st_estLog := st_estLog s;
               st_scepLog := ScepHandler.auditLog w |}, resp)
  | _, _ => None
  end.

(** [healthHandler], for a path in the clean form the mux serves directly. *)
Definition healthHandler (r : HttpRequest) (e : E) : E * Response :=
  if (URL_Path r =? "/healthz")%string then
    (e, {| Status := StatusOK; RespHeader := ∅; RespBody := bytes_of_string "ok" |})
  else if (URL_Path r =? "/readyz")%string then
    match Bao.CAChain e with
    | (e, Err err) => (e, http_Error ∅ (String.append "not ready: " err) StatusServiceUnavailable)
    | (e, Ok _) => (e, {| Status := StatusOK; RespHeader := ∅; RespBody := bytes_of_string "ready" |})
    end
  else (e, http_NotFound).

(** One request on one of the listeners: what it makes of the state. *)
Inductive event :=
| EstRequest (a : arrival) (boundary : string) (now : Time) (r : HttpRequest)
| ScepRequest (a : arrival) (m : moment) (r : HttpRequest)
| HealthRequest (r : HttpRequest).

Definition withBao (s : state E) (e : E) : state E :=
  {| st_authorizer := st_authorizer s; st_bao := e; st_replay := st_replay s;
     st_limiter := st_limiter s; st_estLog := st_estLog s; st_scepLog := st_scepLog s |}.

Definition serve (b : broker) (ev : event) (s : state E) : state E * option Response :=
  match ev with
  | EstRequest a boundary now r => let '(s, resp) := serveEST b a boundary now r s in (s, Some resp)
  | ScepRequest a m r =>
                    match serveSCEP b a m r s with
                    | Some (s, resp) => (s, Some resp)
                    | None => (s, None)
                    end
  | HealthRequest r => let '(e, resp) := healthHandler r (st_bao s) in (withBao s e, Some resp)
  end.

Fixpoint serves (b : broker) (evs : list event) (s : state E) : state E :=
  match evs with
  | [] => s
  | ev :: evs' => serves b evs' (fst (serve b ev s))
  end.
End Serving.
End Main.
Arguments Build_state {E}.
Arguments st_authorizer {E}.
Arguments st_bao {E}.
Arguments st_replay {E}.
Arguments st_limiter {E}.
Arguments st_estLog {E}.
Arguments st_scepLog {E}.
