(* ===== verification/MainTheory.v ===== *)
(** * cmd/certbroker: what the assembled broker guarantees

    The broker that [run] builds from a configuration file: its authorizer is
    the configured one, and over any sequence of requests on its listeners it
    asks OpenBao for a certificate only for a request with a credential. *)
From S2P Require Import Prelude GoLib GoTime GoCrypto GoNet X509 Authz Match Inventory Challenge Policy Verify Pipeline Replay Limits Http Middleware Pem Csr Bao Cms ScepMessage.
From S2P Require Import BaoTheory Est EstTheory ScepHandler ScepTheory Config Main.

Section MainTheory.
Context `{UnicodeTables} `{Os} `{ConfigYaml} `{InventoryFile} `{X509} `{Pkcs7Lib} `{!KeyPairs}.

(** ** The configured authorizer *)

(** The secret the configuration names. *)
Definition configured_secret (c : Config.Config) (s : string) : Prop :=
  Ch_Backend (Cfg_Challenge c) = "static" /\ s <> "" /\
  LookupEnv (StaticSecretEnv (Cfg_Challenge c)) = Some s.

Lemma buildChallenge_ok c o :
  buildChallenge c = Ok o ->
  match o with
  | None => isNone (Ch_Backend (Cfg_Challenge c)) = true
  | Some s => isNone (Ch_Backend (Cfg_Challenge c)) = false /\ configured_secret c (secret s)
  end.
Proof.
  unfold buildChallenge, configured_secret. destruct (isNone _) eqn:Hn; [by intros [= <-]|].
  destruct (String.eqb_spec (Ch_Backend (Cfg_Challenge c)) "static") as [->|]; [|done].
  destruct (_ =? _)%string; [done|]. unfold Getenv, NewStaticSecret.
  destruct (LookupEnv _) as [v|]; [|done]. simpl. destruct (String.eqb_spec v ""); [done|].
  by intros [= <-].
Qed.

Lemma selectAuthorizer_pipe c role a :
  selectAuthorizer c false role = Ok a ->
  exists inv ch p, buildInventory c = Ok inv /\ buildChallenge c = Ok ch /\ a = Pipe p /\
    P_Inventory p = Some inv /\ P_Challenge p = ch /\
    P_Roles p = Some (NewRuleSelector (map toRule (Map_Rules (Cfg_RoleMap c))) (Map_Default (Cfg_RoleMap c))) /\
    P_Constraints p = Some (NewStandardConstraints (SANConstraint (Cfg_Policy c)) (Pol_MaxValidity (Cfg_Policy c))) /\
    RequireChallenge p = RequireCPP (Cfg_Policy c) /\
    AllowUnauthenticated p = AllowUnauthenticatedEnrollment (Cfg_Policy c).
Proof.
  unfold selectAuthorizer. intros Hs. apply result_bind_ok in Hs as (inv & Hi & Hs).
  apply result_bind_ok in Hs as (ch & Hc & Hs). injection Hs as <-. by eexists inv, ch, _.
Qed.

(** C36. The authorizer is the configured one, and fails closed: the permissive
    development authorizer is chosen exactly when its flag is given and a role
    is named; otherwise, for a validated configuration, it is the pipeline with
    the configured policy, a challenge is required exactly when the
    configuration says so, and wherever a challenge is required, or SCEP is
    enabled without the explicit opt-out, the pipeline has a validator whose
    secret is the configured variable's non-empty value. *)
Theorem authorizer_as_configured c dev role a
    (Hvalid : Validate c = Ok tt) (Hsel : selectAuthorizer c dev role = Ok a) :
  (dev = true -> exists r, a = Echo {| Echo_Role := r |} /\ r <> "") /\
  (dev = false -> exists p, a = Pipe p /\
     RequireChallenge p = RequireCPP (Cfg_Policy c) /\
     AllowUnauthenticated p = AllowUnauthenticatedEnrollment (Cfg_Policy c) /\
     P_Constraints p = Some (NewStandardConstraints (SANConstraint (Cfg_Policy c)) (Pol_MaxValidity (Cfg_Policy c))) /\
     (RequireCPP (Cfg_Policy c) = true \/
      Scep_Enabled (Cfg_SCEP c) = true /\ AllowUnauthenticatedEnrollment (Cfg_Policy c) = false ->
      exists s, P_Challenge p = Some s /\ configured_secret c (secret s)) /\
     (isNone (Ch_Backend (Cfg_Challenge c)) = true -> P_Challenge p = None)).
Proof.
  split; intros ->.
  - unfold selectAuthorizer in Hsel. apply when_ok in Hsel as [Hr [= <-]].
    apply eqb_ne in Hr. by eexists.
  - apply selectAuthorizer_pipe in Hsel as (inv & ch & p & _ & Hch & -> & _ & Hpc & _ & Hcons & Hreq & Hallow).
    exists p. split_and!; [done..| |].
    + intros Hwhy. apply buildChallenge_ok in Hch. rewrite Hpc. destruct ch as [s|].
      * exists s. by destruct Hch.
      * exfalso. apply Validate_ok in Hvalid as [_ _ _ _ _ Hcpp Hscep _ _].
        destruct Hwhy as [Hw|[Hw Ha]]; [rewrite (Hcpp Hw) in Hch; done|].
        destruct (Hscep Hw) as (_ & _ & [Hb|Hb]); congruence.
    + intros Hn. apply buildChallenge_ok in Hch. rewrite Hpc. destruct ch; [|done]. destruct Hch; congruence.
Qed.

(** The configured validators keep no state, so neither does the authorizer. *)
Lemma authorizer_stable (a : AnyAuthorizer) now req : fst (Authorize a now req) = a.
Proof.
  destruct a as [e|p]; [done|]. unfold Authorize at 1, AnyAuthorizer_Authorize.
  assert (Hp : fst (Authorize p now req) = p).
  { assert (Hst : forall id rec pw, fst (challengeStage p now id rec pw) = p).
    { intros id rec pw. unfold challengeStage.
      assert (Hsame : forall c r, P_Challenge p = Some c -> fst (withChallenge p c, r : Decision + bool) = p)
        by (intros c r Hc; unfold withChallenge; destruct p; simpl in *; by subst).
      destruct (_ || _); [|destruct (negb _); [|done]]; destruct (P_Challenge p) as [s|] eqn:Hc; try done;
        unfold Challenge.Validate, StaticSecret_Validate; cbv beta;
        match goal with |- context [if negb ?b then (s, _) else _] => destruct b end; by apply Hsame. }
    unfold Authorize, Pipeline_Authorize. destruct (bool_decide _ && _); [done|].
    destruct (lookupInventory _ _) as [rec|]; [|done]. destruct (negb _); [done|].
    pose proof (Hst (resolveIdentity req) rec (Req_ChallengePassword req)) as Hc.
    destruct (challengeStage _ _ _ _ _) as [p' [d|v]]; simpl in Hc; subst p'; [done|].
    destruct (_ && _ && _); [done|]. destruct (_ =? _)%string; [done|].
    destruct (P_Constraints p); [|done]. by destruct (Build _ _ _). }
  destruct (Authorize p now req) as [p' d]. simpl in Hp |- *. by subst.
Qed.

(** With open enrollment off, an allowed request has a verified certificate or
    the configured secret. *)
Lemma allowed_has_credential c role (a : AnyAuthorizer) now req d :
  selectAuthorizer c false role = Ok a -> AllowUnauthenticatedEnrollment (Cfg_Policy c) = false ->
  snd (Authorize a now req) = Ok d -> Allow d = true ->
  (exists leaf, Req_ClientCert req = Some leaf) \/ configured_secret c (Req_ChallengePassword req).
Proof.
  intros Hsel Hopen Ha Hallow.
  apply selectAuthorizer_pipe in Hsel as (inv & ch & p & _ & Hch & -> & _ & Hpc & _ & _ & _ & Hun).
  unfold Authorize at 1, AnyAuthorizer_Authorize in Ha.
  destruct (Authorize p now req) as [p' r] eqn:Haz. simpl in Ha. subst r.
  apply (authorize_sound p now req p' d) in Haz as (rec & v & b & Haz); [|done].
  destruct (az_gate _ _ _ _ _ _ _ _ Haz) as [Hg|[Hg|Hg]]; [left|right|congruence].
  - by apply resolveIdentity_authenticated in Hg.
  - destruct (az_challenge _ _ _ _ _ _ _ _ Haz) as [s s' Hs _ Hv|]; [|done].
    apply negb_true_iff, String.eqb_neq in Hg. rewrite Hs in Hpc. subst ch.
    apply buildChallenge_ok in Hch as [_ Hch].
    pose proof (validate_sound s now _ _ s' Hv Hg) as Hk. simpl in Hk. by rewrite Hk.
Qed.

(** ** The validity asked for *)

(** C30. The validity that was decided is the validity OpenBao is asked for: for
    any positive TTL, of whole seconds or not, down to a nanosecond and up to the
    largest, the "ttl" of the sign body, on either protocol, is a text that Go's
    [time.ParseDuration] reads back as exactly that TTL; without a TTL the field
    is not sent. *)
Theorem ttl_reaches_upstream csrPEM (cons : CertConstraints) :
  let ttl o := signBody csrPEM o !! "ttl" in
  (C_TTL cons <= 0 -> ttl (Est.toSignOptions cons) = None /\ ttl (ScepHandler.toSignOptions cons) = None) /\
  (0 < C_TTL cons <= max_int64 ->
   exists text, ttl (Est.toSignOptions cons) = Some (JStr text) /\
     ttl (ScepHandler.toSignOptions cons) = Some (JStr text) /\ GoTime.ParseDuration text = Some (C_TTL cons)).
Proof.
  cbv beta zeta. rewrite !signBody_ttl by done. cbn [O_TTL Est.toSignOptions ScepHandler.toSignOptions]. split.
  - intros Hle. by destruct (Z.ltb_spec 0 (C_TTL cons)); [lia|].
  - intros Hd. pose proof (GoTime.ParseDuration_DurationString (C_TTL cons) Hd) as Hread.
    destruct (Z.ltb_spec 0 (C_TTL cons)) as [_|?]; [|lia]. exists (DurationString (C_TTL cons)).
    destruct (String.eqb_spec (DurationString (C_TTL cons)) "") as [He|_]; [by rewrite He in Hread|done].
Qed.

(** ** The authorizer never changes *)

Section Stable.
Context {E : Type} `{Enroller E}.

Lemma est_keeps_authorizer h boundary now r (a : AnyAuthorizer) :
  act_keeps (fun w : Est.world AnyAuthorizer E => Est.authorizer w = Some a) (Est.ServeHTTP h boundary now r).
Proof.
  assert (Hcall : forall req, act_keeps (fun w : Est.world AnyAuthorizer E => Est.authorizer w = Some a)
                                (Est.callAuthorize now req)).
  { intros req. apply keeps_call. intros w ->. unfold authorize.
    pose proof (authorizer_stable a now req) as Ha. destruct (Authorize a now req) as [a' d]. by rewrite <- Ha. }
  assert (Hen : forall B (f : E -> E * B), act_keeps (fun w : Est.world AnyAuthorizer E => Est.authorizer w = Some a)
                                (Est.callEnroller f)).
  { intros B f. apply keeps_call. intros w Hw. by destruct (f _). }
  assert (Hau : forall op req d out e, act_keeps (fun w : Est.world AnyAuthorizer E => Est.authorizer w = Some a)
                                (Est.audit op req d out e)) by (intros; by apply keeps_modify).
  assert (Had : forall op label, act_keeps (fun w : Est.world AnyAuthorizer E => Est.authorizer w = Some a)
                                (admission h now op label r))
    by (intros; unfold admission, Est.reply; keeps).
  unfold Est.ServeHTTP, methodGuard, enroll, serverKeyGen, caCerts, csrAttrs, Est.reply. keeps.
Qed.

Lemma scep_keeps_authorizer h m r (a : AnyAuthorizer) :
  act_keeps (fun w : ScepHandler.world AnyAuthorizer E => ScepHandler.authorizer w = a)
    (ScepHandler.ServeHTTP h m r).
Proof.
  assert (Hcall : forall now req, act_keeps (fun w : ScepHandler.world AnyAuthorizer E => ScepHandler.authorizer w = a)
                                (ScepHandler.callAuthorize now req)).
  { intros now req. apply keeps_call. intros w ->.
    pose proof (authorizer_stable a now req) as Ha. by destruct (Authorize a now req) as [a' d]. }
  assert (Hen : forall B (f : E -> E * B), act_keeps
            (fun w : ScepHandler.world AnyAuthorizer E => ScepHandler.authorizer w = a) (ScepHandler.callEnroller f)).
  { intros B f. apply keeps_call. intros w Hw. by destruct (f _). }
  assert (Hre : forall now tx nonce, act_keeps
            (fun w : ScepHandler.world AnyAuthorizer E => ScepHandler.authorizer w = a) (callReplay now tx nonce)).
  { intros now tx nonce. apply keeps_call. intros w Hw. by destruct (Check _ _ _ _). }
  assert (Hau : forall req d out rem e, act_keeps
            (fun w : ScepHandler.world AnyAuthorizer E => ScepHandler.authorizer w = a)
            (ScepHandler.audit req d out rem e)) by (intros; by apply keeps_modify).
  unfold ScepHandler.ServeHTTP, getCACert, getCACaps, pkiOperation, issue, fail_, ScepHandler.reply. keeps.
Qed.

Lemma serve_authorizer b ev (s : state E) : st_authorizer (fst (Main.serve b ev s)) = st_authorizer s.
Proof.
  destruct ev as [a boundary now r|a m r|r]; unfold Main.serve.
  - unfold serveEST, limited. set (w0 := {| Est.authorizer := Some (st_authorizer s) |}).
    pose proof (keeps_run _ (Est.ServeHTTP (estHandler b) boundary now r) w0
                  (est_keeps_authorizer _ _ _ _ (st_authorizer s)) eq_refl) as Hk.
    pose proof (Middleware_world (st_limiter s) (arr_now a) (arr_gnow a) (arr_order a) (arr_gorder a) (arr_acquired a)
                  (Est.serve (estHandler b) boundary now) r w0) as Hw.
    destruct (Middleware.Middleware _ _ _ _ _ _ _ _ w0) as [l [w resp]]. simpl in Hk, Hw |- *.
    destruct Hw as [->| ->]; [done|]. unfold Est.serve. by rewrite Hk.
  - unfold serveSCEP, limited. destruct (scepHandler b) as [h|]; [|done].
    destruct (st_replay s) as [rc|]; [|done].
    set (w0 := {| ScepHandler.authorizer := st_authorizer s |}).
    pose proof (keeps_run _ (ScepHandler.ServeHTTP h m r) w0
                  (scep_keeps_authorizer _ _ _ (st_authorizer s)) eq_refl) as Hk.
    pose proof (Middleware_world (st_limiter s) (arr_now a) (arr_gnow a) (arr_order a) (arr_gorder a) (arr_acquired a)
                  (ScepHandler.serve h m) r w0) as Hw.
    destruct (Middleware.Middleware _ _ _ _ _ _ _ _ w0) as [l [w resp]]. simpl in Hk, Hw |- *.
    by destruct Hw as [->| ->].
  - by destruct (healthHandler r (st_bao s)).
Qed.

Lemma serves_authorizer b evs (s : state E) : st_authorizer (serves b evs s) = st_authorizer s.
Proof.
  revert s. induction evs as [|ev evs IH]; intros s; [done|]. cbn [serves]. by rewrite IH, serve_authorizer.
Qed.
End Stable.

(** ** Credentials *)

(** The certificate of a configured anchor that a TLS client presented. *)
Definition client_certificate (c : Config.Config) (r : HttpRequest) : Prop :=
  exists path pool leaf, (path = BootstrapCAFile (Cfg_Trust c) \/ path = DeviceCAFile (Cfg_Trust c)) /\
    path <> "" /\ pool_of path pool /\ VerifyPeer (R_TLS r) (Some pool) = Ok leaf.

(** A SCEP message signed under the device anchor. *)
Definition signer_certificate (c : Config.Config) (body : bytes) : Prop :=
  exists pool p leaf, DeviceCAFile (Cfg_Trust c) <> "" /\ pool_of (DeviceCAFile (Cfg_Trust c)) pool /\
    p7_Parse body = Ok p /\ p7_VerifyWithChain p pool = Ok tt /\ p7_GetOnlySigner p = Some leaf.

(** What a request proves: a certificate of an anchor, or the configured secret
    in a CSR whose signature the broker checked. *)
Definition credential (c : Config.Config) (b : broker) (ev : event) : Prop :=
  match ev with
  | EstRequest _ _ _ r =>
      client_certificate c r \/
      exists der csr, readCSR (estHandler b) r = inl der /\ Est.parseCSR (estHandler b) der = Ok csr /\
        configured_secret c (suppliedPassword csr)
  | ScepRequest _ _ r =>
      exists h body req, scepHandler b = Some h /\ readMessage h r = inl body /\ Parse (parser h) body = Ok req /\
        (signer_certificate c body \/ configured_secret c (ScepHandler.challengePassword h (SR_CSR req)))
  | HealthRequest _ => False
  end.

Definition pool_for (path : string) (o : option CertPool) : Prop :=
  forall pool, o = Some pool -> path <> "" /\ pool_of path pool.

(** What [run] puts in the broker. *)
Record built (c : Config.Config) (b : broker) (a : AnyAuthorizer) (dev : bool) (role : string) : Prop := {
  bu_config : Validate c = Ok tt;
  bu_authorizer : selectAuthorizer c dev role = Ok a;
  bu_bootstrap : pool_for (BootstrapCAFile (Cfg_Trust c)) (Est.BootstrapRoots (Est.opts (estHandler b)));
  bu_device : pool_for (DeviceCAFile (Cfg_Trust c)) (Est.DeviceRoots (Est.opts (estHandler b)));
  bu_scep : forall h, scepHandler b = Some h ->
    Scep_Enabled (Cfg_SCEP c) = true /\ pool_for (DeviceCAFile (Cfg_Trust c)) (P_DeviceRoots (parser h));
}.

Lemma optionalPool_for what path o : optionalPool what path = Ok o -> pool_for path o.
Proof. intros [[-> ->]|(Hp & pool & -> & Hf)]%optionalPool_ok pool'; [done|]. by intros [= <-]. Qed.

Lemma buildSCEPServer_ok {E} c (e : E) a device h w :
  buildSCEPServer c e a device = Ok (h, w) -> P_DeviceRoots (parser h) = device.
Proof.
  unfold buildSCEPServer. intros Hb. apply result_bind_ok in Hb as ([ra key] & _ & Hb).
  unfold ScepHandler.NewHandler in Hb. simpl in Hb. by injection Hb as <- <-.
Qed.

Lemma run_built {E} (connect : Client -> E) path dev role c b s :
  run connect path dev role = Ok (c, b, s) -> built c b (st_authorizer s) dev role.
Proof.
  unfold run. intros Hr. apply result_bind_ok in Hr as (c' & Hload & Hr).
  apply result_bind_ok in Hr as (secretID & _ & Hr). apply result_bind_ok in Hr as (ca & _ & Hr).
  apply result_bind_ok in Hr as (client & _ & Hr). apply result_bind_ok in Hr as ([boot device] & Hpools & Hr).
  apply result_bind_ok in Hr as (cert & _ & Hr). apply result_bind_ok in Hr as (a & Ha & Hr).
  apply result_bind_ok in Hr as ([estH estW] & Hest & Hr). apply result_bind_ok in Hr as ([sh rc] & Hscep & Hr).
  injection Hr as <- <- <-. cbn [st_authorizer].
  unfold TrustPools in Hpools. apply result_bind_ok in Hpools as (boot' & Hboot & Hpools).
  apply result_bind_ok in Hpools as (device' & Hdev & Hpools). injection Hpools as -> ->.
  apply optionalPool_for in Hboot, Hdev. simpl in Hest. injection Hest as <- _.
  split; cbn [estHandler scepHandler Est.opts Est.BootstrapRoots Est.DeviceRoots estOptions fst]; try done.
  - unfold Load in Hload. apply result_bind_ok in Hload as (raw & _ & Hload).
    apply result_bind_ok in Hload as (c'' & _ & Hload). apply then_ok in Hload as [Hv [= <-]]. done.
  - intros h ->. destruct (Scep_Enabled _); [|done]. split; [done|].
    apply result_bind_ok in Hscep as ([h' w] & Hb & [= <- _]). by rewrite (buildSCEPServer_ok _ _ _ _ _ _ Hb).
Qed.

Lemma clientIdentity_anchor h r op cert :
  clientIdentity h r op = Ok (Some cert) ->
  exists roots, (roots = Est.BootstrapRoots (Est.opts h) \/ roots = Est.DeviceRoots (Est.opts h)) /\
    VerifyPeer (R_TLS r) roots = Ok cert.
Proof.
  assert (Hb : bootstrapIdentity h r = Ok (Some cert) ->
    exists roots, (roots = Est.BootstrapRoots (Est.opts h) \/ roots = Est.DeviceRoots (Est.opts h)) /\
      VerifyPeer (R_TLS r) roots = Ok cert).
  { rewrite (bootstrapIdentity_spec h r (Some cert)). eauto. }
  destruct op; simpl; [exact Hb| |].
  - intros Hc. apply result_bind_ok in Hc as (leaf & Hv & [= ->]). eauto.
  - destruct (presented r); [|exact Hb].
    destruct (VerifyPeer (R_TLS r) (Est.DeviceRoots (Est.opts h))) as [leaf|] eqn:Hv; [|exact Hb].
    intros [= ->]. eauto.
Qed.

Lemma anchored_client c b a role r roots cert :
  built c b a false role ->
  roots = Est.BootstrapRoots (Est.opts (estHandler b)) \/ roots = Est.DeviceRoots (Est.opts (estHandler b)) ->
  VerifyPeer (R_TLS r) roots = Ok cert -> client_certificate c r.
Proof.
  intros Hb Hroots Hv.
  destruct roots as [pool|]; [|unfold VerifyPeer in Hv; repeat case_match; done].
  destruct Hroots as [Hr|Hr]; symmetry in Hr.
  - destruct (bu_bootstrap _ _ _ _ _ Hb pool Hr). unfold client_certificate. eauto 10.
  - destruct (bu_device _ _ _ _ _ Hb pool Hr). unfold client_certificate. eauto 10.
Qed.

Section Credentials.
Context {E : Type} `{Enroller E}.

Lemma est_admitted_credential c b a role arr boundary now op label r az der req d :
  built c b a false role -> AllowUnauthenticatedEnrollment (Cfg_Policy c) = false -> az = Some a ->
  admitted (estHandler b) now op label r az der req d -> credential c b (EstRequest arr boundary now r).
Proof.
  intros Hb Hopen -> [Hread (csr & cert & Hcsr & _ & Hid & ->) Haz Hallow].
  set (req := {| Req_Operation := op |}) in Haz.
  assert (Haz' : snd (Authorize a now req) = Ok d) by (unfold authorize in Haz; by destruct (Authorize a now req)).
  destruct (allowed_has_credential c role a now req d (bu_authorizer _ _ _ _ _ Hb) Hopen Haz' Hallow)
    as [[leaf Hleaf]|Hs]; [left|right].
  - simpl in Hleaf. subst cert. destruct (clientIdentity_anchor _ _ _ _ Hid) as (roots & Hroots & Hv).
    by eapply anchored_client.
  - by exists der, csr.
Qed.

Lemma scep_admitted_credential c b a role arr h m r (w : ScepHandler.world AnyAuthorizer E) req d :
  built c b a false role -> AllowUnauthenticatedEnrollment (Cfg_Policy c) = false ->
  scepHandler b = Some h -> ScepHandler.authorizer w = a ->
  scep_admitted h m r w req d -> credential c b (ScepRequest arr m r).
Proof.
  intros Hb Hopen Hh <- [(body & Hread & Hparse) _ Haz Hallow]. exists h, body, req. split_and!; try done.
  destruct (allowed_has_credential c role _ _ _ d (bu_authorizer _ _ _ _ _ Hb) Hopen Haz Hallow)
    as [[leaf Hleaf]|Hs]; [left|by right].
  unfold authzRequest in Hleaf. cbn [Req_ClientCert] in Hleaf.
  destruct (scep_signer_identity (parser h) body req Hparse) as [[[_ Hauth]|[_ [_ (pool & p & g & Hpool & Hp & _ & _ & Hv & Hg)]]] _];
    [by rewrite Hauth in Hleaf|].
  destruct (bu_scep _ _ _ _ _ Hb h Hh) as [_ Hdev]. destruct (Hdev pool Hpool).
  by exists pool, p, (SR_Signer req).
Qed.

(** C4. No credential, no certificate: a broker assembled from a configuration
    file, without the development flag and without the explicit opt-out, makes
    of its OpenBao client, in any state that requests on its listeners can lead
    to, nothing but a read of the CA chain, except for a request that presented
    a certificate of a configured trust anchor (over TLS, or as the signer of
    its SCEP message under the device anchor), or carried the configured
    non-empty challenge secret. *)
Theorem no_credential_no_certificate (connect : Client -> E) path role c b s0 evs ev
    (Hrun : run connect path false role = Ok (c, b, s0))
    (Hopen : AllowUnauthenticatedEnrollment (Cfg_Policy c) = false) :
  let s := serves b evs s0 in
  let s' := fst (Main.serve b ev s) in
  st_bao s' = st_bao s \/ st_bao s' = fst (CAChain (st_bao s)) \/ credential c b ev.
Proof.
  cbv zeta. pose proof (run_built connect path false role c b s0 Hrun) as Hb.
  rewrite <- (serves_authorizer b evs s0) in Hb. set (s := serves b evs s0) in *. clearbody s. clear Hrun.
  destruct ev as [arr boundary now r|arr m r|r]; unfold Main.serve.
  - unfold serveEST, limited. set (w0 := {| Est.authorizer := Some (st_authorizer s) |}).
    pose proof (proj1 (serve_served (estHandler b) boundary now r w0)) as He.
    pose proof (Middleware_world (st_limiter s) (arr_now arr) (arr_gnow arr) (arr_order arr) (arr_gorder arr) (arr_acquired arr)
                  (Est.serve (estHandler b) boundary now) r w0) as Hw.
    destruct (Middleware.Middleware _ _ _ _ _ _ _ _ w0) as [l [w resp]]. cbn [fst snd st_bao] in He, Hw |- *.
    destruct Hw as [->| ->]; [by left|].
    inversion He as [Heq|Hm Heq|op label der req d Hop Hm Had Hdec Heq|label der req d Hm Had Heq];
      [by left|by right; left|right; right..];
      exact (est_admitted_credential c b (st_authorizer s) role arr boundary now _ _ r _ _ _ _ Hb Hopen eq_refl Had).
  - unfold serveSCEP, limited. destruct (scepHandler b) as [h|] eqn:Hh; [|by left].
    destruct (st_replay s) as [rc|]; [|by left].
    set (w0 := {| ScepHandler.authorizer := st_authorizer s |}).
    pose proof (scep_serve_effect h m r w0) as He.
    pose proof (Middleware_world (st_limiter s) (arr_now arr) (arr_gnow arr) (arr_order arr) (arr_gorder arr) (arr_acquired arr)
                  (ScepHandler.serve h m) r w0) as Hw.
    destruct (Middleware.Middleware _ _ _ _ _ _ _ _ w0) as [l [w resp]]. cbn [fst snd st_bao] in He, Hw |- *.
    destruct Hw as [->| ->]; [by left|].
    inversion He as [Heq|Hop Heq|req d Had Hdec Heq]; [by left|by right; left|right; right].
    exact (scep_admitted_credential c b (st_authorizer s) role arr h m r w0 _ _ Hb Hopen Hh eq_refl Had).
  - unfold healthHandler. destruct (_ =? _)%string; [by left|]. destruct (_ =? _)%string; [|by left].
    right; left. by destruct (Bao.CAChain (st_bao s)) as [e [p|err]].
Qed.
End Credentials.
End MainTheory.

(** ** A deployment *)

Section Witnesses.
#[local] Existing Instances ascii_tables toyX509 toyPkcs7.

Definition exampleFile : Config.Config := {|
  Cfg_Server := {| Srv_ListenAddr := ":8443"; TLSCertFile := "tls.crt"; TLSKeyFile := "tls.key";
                   ReadTimeout := 15 * Second; WriteTimeout := 30 * Second; ReadHeaderTimeout := 10 * Second;
                   IdleTimeout := 60 * Second; Srv_MaxRequestBytes := 0; MaxHeaderBytes := 16384;
                   ShutdownTimeout := 10 * Second; HealthAddr := ":9090" |};
  Cfg_OpenBao := {| Bao_Address := "https://openbao:8200"; Mount := "pki_int"; CACertFile := ""; Bao_MaxRetries := 3;
                    Bao_AppRole := {| MountPath := "approle"; Role_RoleID := "broker"; SecretIDFile := "";
                                      SecretIDEnv := "OPENBAO_APPROLE_SECRET_ID";
                                      Role_RenewThreshold := 5 * Minute |} |};
  Cfg_Trust := {| BootstrapCAFile := "bootstrap.pem"; DeviceCAFile := "device.pem" |};
  Cfg_RoleMap := {| Map_Default := "devices"; Map_Rules := [] |};
  Cfg_Policy := {| AllowedKeyTypes := []; Pol_MaxValidity := 90 * 24 * Hour; RequireCPP := true;
                   MinRSABits := 2048; MaxRSABits := 8192; ServerKeyGenKeyType := "rsa";
                   ServerKeyGenKeyBits := 2048; SANConstraint := "csr"; AllowUnauthenticatedEnrollment := false |};
  Cfg_Inventory := {| Inv_Backend := "none"; Inv_Path := "" |};
  Cfg_Challenge := {| Ch_Backend := "static"; StaticSecretEnv := "ENROLL_SECRET" |};
  Cfg_Limits := Cfg_Limits Default;
  Cfg_SCEP := {| Scep_Enabled := true; Scep_ListenAddr := ":8080"; RACertFile := "ra.crt"; RAKeyFile := "ra.key";
                 AllowSHA1 := false; Scep_MaxRequestBytes := 0; ReplayTTL := 15 * Minute;
                 ReplayMaxEntries := 100000 |};
  Cfg_Audit := {| Audit_Path := "" |};
|}.

(** A machine with the two variables, and a certificate of its own name in
    every file. *)
Definition exampleOs : Os := {|
  LookupEnv k := if (k =? "ENROLL_SECRET")%string then Some "s3cret"
                 else if (k =? "OPENBAO_APPROLE_SECRET_ID")%string then Some "id" else None;
  os_ReadFile path := Ok (bytes_of_string (EncodeToMemory {| Type_ := "CERTIFICATE"; Headers_ := false;
                                                              Bytes_ := bytes_of_string path |}));
|}.

Definition exampleYaml : ConfigYaml := fun _ _ => Ok exampleFile.
Definition exampleInventory : InventoryFile := {|
  inv_ReadFile _ := Err "no such file"; inv_yaml_Unmarshal _ := Ok []
|}.
Definition exampleKeys : KeyPairs := {|
  LoadX509KeyPair cert _ := Ok (bytes_of_string cert, [], tt); is_rsa _ := true; key_type _ := "*rsa.PrivateKey"
|}.
#[local] Existing Instances exampleOs exampleYaml exampleInventory exampleKeys.

Definition exampleConnect (c : Client) : Client * BaoTheory.script :=
  (c, {| BaoTheory.answers := [BaoTheory.answer 200 "tok-1"]; BaoTheory.clock := 0 |}).

(** An enrolment that presents nothing. *)
Definition nobody : event :=
  EstRequest {| arr_now := 0; arr_gnow := 0; arr_order := []; arr_gorder := []; arr_acquired := true |} "b" 0 (exampleHttp "POST" "/.well-known/est/simpleenroll" ""
                     (base64Lines (bytes_of_string "dev-1")) None).

Definition ninetyMinutes : CertConstraints :=
  {| C_CommonName := "dev-1"; C_DNSNames := []; C_IPs := []; C_URIs := []; C_TTL := 90 * Minute + 1500 * Millisecond;
     C_ExcludeCNFromSANs := false |}.

Lemma ttl_reaches_upstream_witness :
  exists text, signBody "CSR" (Est.toSignOptions ninetyMinutes) !! "ttl" = Some (JStr text) /\ text = "1h30m1.5s" /\
    GoTime.ParseDuration text = Some (90 * Minute + 1500 * Millisecond).
Proof.
  destruct (proj2 (ttl_reaches_upstream "CSR" ninetyMinutes) ltac:(split; [reflexivity|vm_compute; discriminate]))
    as (text & Hest & _ & Hread).
  exists text. split; [exact Hest|]. split; [|exact Hread].
  assert (Hv : signBody "CSR" (Est.toSignOptions ninetyMinutes) !! "ttl" = Some (JStr "1h30m1.5s"))
    by (vm_compute; reflexivity).
  rewrite Hv in Hest. injection Hest as <-. reflexivity.
Defined.

Lemma authorizer_as_configured_witness :
  Validate exampleFile = Ok tt /\
  exists p s, selectAuthorizer exampleFile false "" = Ok (Pipe p) /\ P_Challenge p = Some s /\
    configured_secret exampleFile (secret s).
Proof.
  assert (Hv : Validate exampleFile = Ok tt) by (vm_compute; reflexivity). split; [exact Hv|].
  destruct (selectAuthorizer exampleFile false "") as [a|e] eqn:Hs;
    [|exfalso; vm_compute in Hs; discriminate Hs].
  destruct (proj2 (authorizer_as_configured exampleFile false "" a Hv Hs) eq_refl)
    as (p & -> & _ & _ & _ & Hreq & _).
  destruct (Hreq (or_introl eq_refl)) as (s & Hp & Hsec).
  exists p, s. split; [reflexivity|]. split; [exact Hp|exact Hsec].
Defined.

(** Started, the broker asks OpenBao for nothing on behalf of nobody. *)
Lemma no_credential_no_certificate_witness :
  match run exampleConnect "config.yaml" false "" with
  | Ok (c, b, s0) =>
      st_bao (fst (Main.serve b nobody (serves b [nobody] s0))) = st_bao (serves b [nobody] s0) \/
      st_bao (fst (Main.serve b nobody (serves b [nobody] s0))) = fst (CAChain (st_bao (serves b [nobody] s0))) \/
      credential c b nobody
  | Err _ => False
  end.
Proof.
  destruct (run exampleConnect "config.yaml" false "") as [[[c b] s0]|e] eqn:Hrun.
  - apply (no_credential_no_certificate exampleConnect "config.yaml" "" c b s0 [nobody] nobody Hrun).
    assert (Hopen : (let? (c, _, _) := run exampleConnect "config.yaml" false "" in
                     Ok (AllowUnauthenticatedEnrollment (Cfg_Policy c))) = Ok false) by (vm_compute; reflexivity).
    rewrite Hrun in Hopen. injection Hopen as Hopen. exact Hopen.
  - assert (Hok : is_ok (run exampleConnect "config.yaml" false "") = true) by (vm_compute; reflexivity).
    rewrite Hrun in Hok. discriminate Hok.
Defined.

(** The denial is in the audit log. *)
Example nobody_is_denied :
  match run exampleConnect "config.yaml" false "" with
  | Ok (c, b, s0) => map A_outcome (st_estLog (serves b [nobody] s0)) = ["deny"]
  | Err _ => False
  end.
Proof. vm_compute. reflexivity. Qed.
End Witnesses.
