(* ===== verification/Overlap.v ===== *)
(** * Requests that overlap: the steps they share a state by

    [Main.v] serves one request after the other.  In the process every request
    has its goroutine, and between any two of its steps others run.  The steps
    are the code's critical sections: a bucket table under its mutex, the
    decision of the authorizer (which reads what no request changes), each step
    of an OpenBao call (see [BaoConc.v]), a check of the replay cache, a line of
    the audit log.  [EstConc.v] and [ScepConc.v] write the handlers over them,
    [BrokerConc.v] the whole broker. *)
From S2P Require Import Prelude GoLib GoCrypto GoNet X509 Authz Match Inventory Challenge Policy Verify Pipeline Replay Limits Http Middleware Pem Csr Bao BaoTheory Threads Flow BaoConc BaoSafe Cms ScepMessage.
From S2P Require Import Est ScepHandler Config Main MainTheory.
From Stdlib Require Import SpecFloat.

(** ** The state, field by field *)

Section State.
Context {E : Type}.

Definition withAuthorizer (s : state E) (a : AnyAuthorizer) : state E :=
  {| st_authorizer := a; st_bao := st_bao s; st_replay := st_replay s; st_limiter := st_limiter s;
     st_estLog := st_estLog s; st_scepLog := st_scepLog s |}.
Definition withReplay (s : state E) (rc : option ReplayCache) : state E :=
  {| st_authorizer := st_authorizer s; st_bao := st_bao s; st_replay := rc; st_limiter := st_limiter s;
     st_estLog := st_estLog s; st_scepLog := st_scepLog s |}.
Definition withLimiter (s : state E) (l : Limiter spec_float) : state E :=
  {| st_authorizer := st_authorizer s; st_bao := st_bao s; st_replay := st_replay s; st_limiter := l;
     st_estLog := st_estLog s; st_scepLog := st_scepLog s |}.
Definition withEstLog (s : state E) (es : list AuditEntry) : state E :=
  {| st_authorizer := st_authorizer s; st_bao := st_bao s; st_replay := st_replay s; st_limiter := st_limiter s;
     st_estLog := es; st_scepLog := st_scepLog s |}.
Definition withScepLog (s : state E) (es : list ScepAudit) : state E :=
  {| st_authorizer := st_authorizer s; st_bao := st_bao s; st_replay := st_replay s; st_limiter := st_limiter s;
     st_estLog := st_estLog s; st_scepLog := es |}.
End State.

(** ** The steps *)

Section Steps.
Context `{UnicodeTables} `{InventoryFile} `{X509} `{Json} {N : Type} `{Upstream N}.

Abbreviation St := (state (Client * N)).

(** A call of the OpenBao client. *)
Definition onBao {A} (p : prog (Client * N) A) : prog St A := lift st_bao (fun e s => withBao s e) p.

Definition callAuthorize (now : Time) (req : Request) : prog St (result Decision) :=
  atomic (fun s => let '(a, d) := Authorize (st_authorizer s) now req in (withAuthorizer s a, d)).

Definition estAudit (op : Operation) (req : Request) (d : Decision) (outcome : string) (err : option error)
    : prog St unit :=
  atomic (fun s => (withEstLog s (st_estLog s ++ [Est.auditEntry op req d outcome err]), tt)).

Definition scepAudit (req : ScepMessage.ScepRequest) (d : Decision) (outcome remote : string) (err : option error)
    : prog St unit :=
  atomic (fun s => (withScepLog s (st_scepLog s ++ [ScepHandler.auditEntry req d outcome remote err]), tt)).

(** The cache is there whenever a SCEP handler is. *)
Definition callReplay (now : Time) (txID : TransactionID) (nonce : Nonce) : prog St bool :=
  atomic (fun s => match st_replay s with
                   | Some rc => let '(rc, fresh) := Check rc now txID nonce in (withReplay s (Some rc), fresh)
                   | None => (s, false)
                   end).

(** The two bucket tables, each under its own mutex. *)
Definition allowClient (now : Time) (order : list string) (client : string) : prog St bool :=
  atomic (fun s => let '(l, ok) := askClient (st_limiter s) now order client in (withLimiter s l, ok)).
Definition allowGlobal (now : Time) (gorder : list string) : prog St bool :=
  atomic (fun s => let '(l, ok) := askGlobal (st_limiter s) now gorder in (withLimiter s l, ok)).

(** [limiter.Middleware(next)]; whether a slot is had in time is part of the
    arrival, as in [Main.v]. *)
Definition limited (a : arrival) (next : prog St Response) (r : HttpRequest) : prog St Response :=
  let& ok := allowClient (arr_now a) (arr_order a) (ClientIP r) in
  if negb ok then Return reject
  else
    let& ok := allowGlobal (arr_gnow a) (arr_gorder a) in
    if negb ok then Return reject
    else if arr_acquired a then next else Return shed.

(** ** Run alone *)

Lemma run_onBao {A} (p : prog (Client * N) A) (s : St) :
  Threads.run (onBao p) s = let '(e, a) := Threads.run p (st_bao s) in (withBao s e, a).
Proof. apply run_lift; [done..|]. by intros []. Qed.

(** The middleware: the rest runs on the state with the limiter moved, or not
    at all. *)
Lemma run_limited a next r (s : St) :
  Threads.run (limited a next r) s =
  let '(l, why) := rateLimit (st_limiter s) (arr_now a) (arr_gnow a) (arr_order a) (arr_gorder a) (ClientIP r) in
  match why with
  | Some _ => (withLimiter s l, reject)
  | None => if arr_acquired a then Threads.run next (withLimiter s l) else (withLimiter s l, shed)
  end.
Proof.
  unfold limited, rateLimit. rewrite run_bind. cbn [allowClient Threads.run atomic].
  destruct (askClient (st_limiter s) _ _ _) as [l [|]]; cbn [negb Threads.run]; [|done].
  rewrite run_bind. cbn [allowGlobal Threads.run atomic withLimiter st_limiter].
  destruct (askGlobal l _ _) as [l' [|]]; cbn [negb Threads.run]; [|done]. by destruct (arr_acquired a).
Qed.
End Steps.

(** ** What every step keeps *)

Section Invariant.
Context `{UnicodeTables} `{InventoryFile} `{X509} `{Json} {N : Type} `{Upstream N}.
Context (g : Bao.Config) (asked : operation -> Prop) (a : AnyAuthorizer).

Abbreviation St := (state (Client * (N * list exchange))).

(** The authorizer is the configured one, and the client is in order: it sends
    what may be sent and holds a granted token. *)
Definition broker_ok (s : St) : Prop := st_authorizer s = a /\ shared_ok g asked (st_bao s).

Definition broker_later (s s' : St) : Prop :=
  later (st_bao s) (st_bao s') /\ st_estLog s `prefix_of` st_estLog s' /\ st_scepLog s `prefix_of` st_scepLog s'.

#[export] Instance broker_later_preorder : PreOrder broker_later.
Proof.
  split.
  - by intros s.
  - intros s1 s2 s3 (Hb & He & Hs) (Hb' & He' & Hs'). split_and!; by etrans.
Qed.

Abbreviation safe := (Threads.safe broker_ok broker_later).

Lemma safe_bao {A} (Q : A -> Client * (N * list exchange) -> Prop) (p : prog (Client * (N * list exchange)) A) (s : St) :
  Threads.safe (shared_ok g asked) later Q p (st_bao s) -> safe (fun x s' => Q x (st_bao s')) (onBao p) s.
Proof.
  apply safe_lift.
  - by intros s0 [_ ?].
  - by intros s0 s1 [? _].
  - intros s0 t [Ha _] Ht Hle. by split_and!.
Qed.

(** A step beside the client. *)
Lemma keeps_beside (s s' : St) :
  broker_ok s -> st_authorizer s' = st_authorizer s -> st_bao s' = st_bao s ->
  st_estLog s `prefix_of` st_estLog s' -> st_scepLog s `prefix_of` st_scepLog s' ->
  broker_ok s' /\ broker_later s s'.
Proof. intros [Ha Hb] Ha' Hb' He Hs. unfold broker_ok, broker_later. rewrite Ha', Hb'. by split_and!. Qed.

Lemma safe_beside {A} (Q : A -> St -> Prop) (f : St -> St * A) (s : St) :
  (forall s1, st_authorizer (fst (f s1)) = st_authorizer s1 /\ st_bao (fst (f s1)) = st_bao s1 /\
              st_estLog s1 `prefix_of` st_estLog (fst (f s1)) /\ st_scepLog s1 `prefix_of` st_scepLog (fst (f s1))) ->
  (forall s1, broker_later s (fst (f s1)) -> Q (snd (f s1)) (fst (f s1))) ->
  safe Q (atomic f) s.
Proof.
  intros Hf HQ. apply safe_atomic. intros s1 Hs1 Hok. destruct (Hf s1) as (Ha & Hb & He & Hs).
  destruct (keeps_beside s1 (fst (f s1)) Hok Ha Hb He Hs) as [Hok' Hl]. split_and!; [done|done|]. apply HQ. by trans s1.
Qed.

Lemma safe_authorize now req (s : St) :
  safe (fun d _ => d = snd (Authorize a now req)) (callAuthorize now req) s.
Proof.
  apply safe_atomic. intros s1 _ [Ha Hb]. rewrite Ha. pose proof (authorizer_stable a now req) as Hst.
  destruct (Authorize a now req) as [a' d]. cbn in *. subst a'. by split_and!.
Qed.

Lemma safe_estAudit op req d outcome err (s : St) :
  safe (fun _ s' => Est.auditEntry op req d outcome err ∈ st_estLog s') (estAudit op req d outcome err) s.
Proof.
  apply safe_beside; [intros s1; split_and!; try done; by apply prefix_app_r|].
  intros s1 _. apply elem_of_app. right. by left.
Qed.

Lemma safe_scepAudit req d outcome remote err (s : St) :
  safe (fun _ s' => ScepHandler.auditEntry req d outcome remote err ∈ st_scepLog s')
    (scepAudit req d outcome remote err) s.
Proof.
  apply safe_beside; [intros s1; split_and!; try done; by apply prefix_app_r|].
  intros s1 _. apply elem_of_app. right. by left.
Qed.

(** A fresh message was fresh for the cache of that moment. *)
Lemma safe_replay now txID nonce (s : St) :
  safe (fun fresh _ => fresh = true -> exists rc, snd (Check rc now txID nonce) = true) (callReplay now txID nonce) s.
Proof.
  apply safe_beside.
  - intros s1. destruct (st_replay s1) as [rc|]; [|done]. by destruct (Check rc now txID nonce).
  - intros s1 _. destruct (st_replay s1) as [rc|]; [|done].
    destruct (Check rc now txID nonce) as [rc' fresh] eqn:Hc. intros Hf. exists rc. by rewrite Hc.
Qed.

Lemma safe_limited (Q : Response -> St -> Prop) arr next r (s : St) :
  (forall s', Q reject s') -> (forall s', Q shed s') ->
  (forall s', broker_later s s' -> safe Q next s') -> safe Q (limited arr next r) s.
Proof.
  intros Hrej Hshed Hnext. unfold limited.
  apply safe_bind with (Q1 := fun _ s' => broker_later s s'); [apply _| |].
  { apply safe_beside; [|done]. intros s1. cbv beta zeta. by destruct (askClient (st_limiter s1) _ _ _). }
  intros [|] s1 _ Hs1; cbn [negb]; [|apply Hrej].
  apply safe_bind with (Q1 := fun _ s' => broker_later s s'); [apply _| |].
  { apply safe_beside; [intros s2; cbv beta zeta; by destruct (askGlobal (st_limiter s2) _ _)|]. intros s2 Hs2. by trans s1. }
  intros [|] s2 _ Hs2; cbn [negb]; [|apply Hrej]. destruct (arr_acquired arr); [by apply Hnext|apply Hshed].
Qed.
End Invariant.
