(* ===== verification/EstConc.v ===== *)
(** * internal/est/handler.go: EST requests that overlap

    The EST handler as a program over the shared steps of [Overlap.v], text for
    text the one of [Est.v]; run alone it is the handler of [Est.v]; and
    whatever runs beside it, it asks of OpenBao only what was authorized for its
    request and releases only what OpenBao answered to that very call, verified
    and audited. *)
From S2P Require Import Prelude GoLib GoCrypto GoNet X509 Authz Match Inventory Challenge Policy Verify Pipeline Replay Limits Http Middleware Pem Pkcs7 Csr Bao BaoTheory Threads Flow BaoConc BaoSafe.
From S2P Require Import Config Main MainTheory Overlap Est EstTheory.

Section Programs.
Context `{UnicodeTables} `{InventoryFile} `{X509} `{Json} {N : Type} `{Upstream N} (g : Bao.Config).

Abbreviation St := (state (Client * N)).
Abbreviation Flow A := (flow St Response A).

Definition reply {B} (msg : string) (status : Z) : Flow B := f_exit (http_Error ∅ msg status).
Definition audit op req d outcome err : Flow unit := f_call (estAudit op req d outcome err).

Definition admission (h : handler) (now : Time) (op : Operation) (label : string) (r : HttpRequest)
    : Flow (bytes * Request * Decision) :=
  let@ csrDER := match readCSR h r with
                 | inl der => f_ret der
                 | inr (status, e) => reply e status
                 end in
  let@ csr := f_try (parseCSR h csrDER)
                (fun e => reply (String.append "invalid CSR: " e) StatusBadRequest) in
  do@ f_try (ValidateKeyType csr (AllowedKeyTypes (opts h))) (fun e => reply e StatusForbidden);
  let cp := suppliedPassword csr in
  let@ clientCert := f_try (clientIdentity h r op)
                       (fun _ => reply "client certificate required" StatusForbidden) in
  let req := {| Req_Operation := op; Req_ClientCert := clientCert; Req_CSR := Some csr;
                Req_ChallengePassword := cp; Req_Label := label; Req_RemoteAddr := RemoteAddr r |} in
  let@ d := f_call (Overlap.callAuthorize now req) in
  match d with
  | Err e =>
      do@ audit op req zeroDecision "error" (Some e);
      reply "authorization error" StatusInternalServerError
  | Ok d =>
      if negb (Allow d) then
        do@ audit op req d "deny" None;
        reply "not authorized" StatusForbidden
      else f_ret (csrDER, req, d)
  end.

Definition enroll (h : handler) (now : Time) (op : Operation) (label : string) (r : HttpRequest)
    : Flow Response :=
  let@ (csrDER, req, d) := admission h now op label r in
  let@ bundle := f_call (onBao (Client_Sign g (D_Role d) (csrPEMOf csrDER) (toSignOptions (D_Constraints d)))) in
  match bundle with
  | Err e =>
      do@ audit op req d "issue-error" (Some e);
      reply "issuance failed" StatusBadGateway
  | Ok bundle =>
      let@ leafDER := f_try (singleCertDER (B_Certificate bundle))
                        (fun _ => reply "internal error" StatusInternalServerError) in
      match checkIssued leafDER d with
      | Err e =>
          do@ audit op req d "constraint-violation" (Some e);
          reply "issuance failed" StatusBadGateway
      | Ok _ =>
          let@ p7 := f_try (DegenerateCertsOnly [leafDER])
                       (fun _ => reply "internal error" StatusInternalServerError) in
          do@ audit op req d "issued" None;
          f_ret (writePKCS7 p7)
      end
  end.

Definition serverKeyGen (h : handler) (boundary : string) (now : Time) (label : string) (r : HttpRequest)
    : Flow Response :=
  let op := OpServerKeyGen in
  let@ (_, req, d) := admission h now op label r in
  let c := D_Constraints d in
  let@ bundle := f_call (onBao (Client_Issue g (D_Role d) (C_CommonName c) (issueOptions h c))) in
  match bundle with
  | Err e =>
      do@ audit op req d "issue-error" (Some e);
      reply "issuance failed" StatusBadGateway
  | Ok bundle =>
      let@ keyDER := f_try (singleBlockDER (PrivateKey bundle))
                       (fun _ => reply "internal error" StatusInternalServerError) in
      let@ certDER := f_try (singleCertDER (B_Certificate bundle))
                        (fun _ => reply "internal error" StatusInternalServerError) in
      match checkIssued certDER d with
      | Err e =>
          do@ audit op req d "constraint-violation" (Some e);
          reply "issuance failed" StatusBadGateway
      | Ok _ =>
          let@ p7 := f_try (DegenerateCertsOnly [certDER])
                       (fun _ => reply "internal error" StatusInternalServerError) in
          do@ audit op req d "issued" None;
          f_ret (writeServerKeyGen boundary keyDER p7)
      end
  end.

Definition caCerts : Flow Response :=
  let@ chain := f_call (onBao (Client_CAChain g)) in
  let@ chainPEM := f_try chain (fun _ => reply "upstream error" StatusBadGateway) in
  let@ ders := f_try (pemCertsToDER chainPEM) (fun _ => reply "upstream error" StatusBadGateway) in
  let@ p7 := f_try (DegenerateCertsOnly ders) (fun _ => reply "internal error" StatusInternalServerError) in
  f_ret (writePKCS7 p7).

Definition csrAttrs (h : handler) : Flow Response :=
  f_ret
    (if negb (nonempty (CSRAttrs (opts h))) then
       {| Status := StatusNoContent; RespHeader := ∅; RespBody := [] |}
     else
       {| Status := StatusOK;
          RespHeader := <["Content-Transfer-Encoding" := "base64"]> {["Content-Type" := ctCSRAttrs]};
          RespBody := base64Lines (CSRAttrs (opts h)) |}).

Definition methodGuard (r : HttpRequest) (method : string) (fn : Flow Response) : Flow Response :=
  if negb (Method r =? method)%string then
    f_exit (http_Error {["Allow" := method]} "method not allowed" StatusMethodNotAllowed)
  else fn.

Definition ServeHTTP (h : handler) (boundary : string) (now : Time) (r : HttpRequest) : Flow Response :=
  if negb (HasPrefix (URL_Path r) wellKnownPrefix) then f_exit http_NotFound
  else
    let rest := Trim (TrimPrefix (URL_Path r) wellKnownPrefix) "/" in
    if (rest =? "")%string then f_exit http_NotFound
    else
      let '(label, op) := routeOf rest in
      if (op =? "cacerts")%string then methodGuard r MethodGet caCerts
      else if (op =? "simpleenroll")%string then methodGuard r MethodPost (enroll h now OpSimpleEnroll label r)
      else if (op =? "simplereenroll")%string then methodGuard r MethodPost (enroll h now OpSimpleReenroll label r)
      else if (op =? "serverkeygen")%string then methodGuard r MethodPost (serverKeyGen h boundary now label r)
      else if (op =? "csrattrs")%string then methodGuard r MethodGet (csrAttrs h)
      else f_exit http_NotFound.

Definition serve (h : handler) (boundary : string) (now : Time) (r : HttpRequest) : prog St Response :=
  f_run (ServeHTTP h boundary now r).

(** ** It ends *)

Lemma within_refused n op req d outcome err msg status :
  within (S n) (do@ audit op req d outcome err; reply (B := Response) msg status).
Proof. by apply within_f_bind_step. Qed.

Lemma within_admission h now op label r : within 2 (admission h now op label r).
Proof.
  unfold admission. apply (within_f_bind 0 2); [by destruct (readCSR h r) as [|[]]|intros der].
  do 3 (apply within_f_bind_try; [done|intros ?]). apply within_f_bind_step. intros [d|e].
  - destruct (negb _); [by apply within_f_bind_step|done].
  - by apply within_f_bind_step.
Qed.

Lemma within_enroll h now op label r : within (callBound g + 3) (enroll h now op label r).
Proof.
  replace (callBound g + 3)%nat with (2 + (callBound g + 1))%nat by lia.
  apply within_f_bind; [apply within_admission|]. intros [[der req] d].
  apply within_f_bind; [by apply within_f_call, within_lift, within_Sign|]. intros [bundle|e]; [|by apply within_refused].
  apply within_f_bind_try; [done|intros leaf]. destruct (checkIssued _ _); [|by apply within_refused].
  apply within_f_bind_try; [done|intros p7]. by apply within_f_bind_step.
Qed.

Lemma within_serverKeyGen h boundary now label r : within (callBound g + 3) (serverKeyGen h boundary now label r).
Proof.
  replace (callBound g + 3)%nat with (2 + (callBound g + 1))%nat by lia.
  apply within_f_bind; [apply within_admission|]. intros [[der req] d].
  apply within_f_bind; [by apply within_f_call, within_lift, within_Issue|]. intros [bundle|e]; [|by apply within_refused].
  do 2 (apply within_f_bind_try; [done|intros ?]). destruct (checkIssued _ _); [|by apply within_refused].
  apply within_f_bind_try; [done|intros p7]. by apply within_f_bind_step.
Qed.

Lemma within_caCerts : within (callBound g + 3) caCerts.
Proof.
  apply within_f_bind; [by apply within_f_call, within_lift, within_CAChain|]. intros chain.
  by do 3 (apply within_f_bind_try; [done|intros ?]).
Qed.

Lemma est_within_serve h boundary now r : within (callBound g + 3) (serve h boundary now r).
Proof.
  apply within_f_run. unfold ServeHTTP, methodGuard. destruct (negb _); [done|]. destruct (_ =? _)%string; [done|].
  destruct (routeOf _) as [label op].
  repeat (destruct (_ =? _)%string; [destruct (negb _);
    [done|first [apply within_caCerts|apply within_enroll|apply within_serverKeyGen|done]]|]). done.
Qed.

(** ** Run alone, the handler of [Est.v] *)

Abbreviation W := (Est.world AnyAuthorizer (Client * N)).

(** What the EST handler sees of the state. *)
Definition est_get (s : St) : W :=
  {| Est.authorizer := Some (st_authorizer s); Est.enroller := st_bao s; Est.auditLog := st_estLog s |}.
Definition est_put (w : W) (s : St) : St :=
  {| st_authorizer := default (st_authorizer s) (Est.authorizer w); st_bao := Est.enroller w;
     st_replay := st_replay s; st_limiter := st_limiter s; st_estLog := Est.auditLog w; st_scepLog := st_scepLog s |}.
Definition est_ok (w : W) : Prop := cfg (fst (Est.enroller w)) = g /\ is_Some (Est.authorizer w).

Lemma est_view : view est_get est_put (fun _ => True) est_ok.
Proof.
  split.
  - intros s [az e l] [_ [a Ha]]. simpl in Ha. by subst az.
  - intros s [az e l] [az' e' l'] [_ [a Ha]] [_ [a' Ha']]. simpl in *. by subst az az'.
  - by intros [].
  - done.
Qed.

Abbreviation agrees := (Flow.agrees est_get est_put (fun _ => True) est_ok).
Abbreviation does := (Flow.does est_get est_put (fun _ => True) est_ok).

Lemma authorize_does now req :
  does (Overlap.callAuthorize now req)
    (fun w => let '(az, d) := authorize (authorizer w) now req in
              ({| authorizer := az; enroller := enroller w; auditLog := auditLog w |}, d)).
Proof.
  intros s _ [Hc Ha]. simpl. destruct (Authorize (st_authorizer s) now req) as [a d]. by split.
Qed.

Lemma est_bao_does {A} (p : prog (Client * N) A) f :
  (forall c n, cfg c = g -> Threads.run p (c, n) = f (c, n) /\ cfg (fst (fst (f (c, n)))) = g) ->
  does (onBao p) (fun w => let '(e, b) := f (enroller w) in
                           ({| authorizer := authorizer w; enroller := e; auditLog := auditLog w |}, b)).
Proof.
  intros Hp s _ [Hc Ha]. simpl in *. rewrite run_onBao. destruct (st_bao s) as [c n] eqn:Hb.
  destruct (Hp c n Hc) as [-> Hc']. destruct (f (c, n)) as [e b]. by split.
Qed.

Lemma est_audit_agrees op req d outcome err : agrees (audit op req d outcome err) (Est.audit op req d outcome err).
Proof. intros s _ Hs. by split. Qed.

Lemma est_authorize_agrees now req : agrees (f_call (Overlap.callAuthorize now req)) (Est.callAuthorize now req).
Proof. apply agrees_call, authorize_does. Qed.

Lemma est_sign_agrees role csrPEM o :
  agrees (f_call (onBao (Client_Sign g role csrPEM o))) (Est.callEnroller (fun e => Sign e role csrPEM o)).
Proof.
  apply agrees_call, (est_bao_does _ (fun e => Sign e role csrPEM o)). intros c n <-. split; [apply run_Sign|]. exact (sign_cfg c n role csrPEM o).
Qed.

Lemma issue_agrees role cn o :
  agrees (f_call (onBao (Client_Issue g role cn o))) (Est.callEnroller (fun e => Issue e role cn o)).
Proof.
  apply agrees_call, (est_bao_does _ (fun e => Issue e role cn o)). intros c n <-. split; [apply run_Issue|]. exact (issue_cfg c n role cn o).
Qed.

Lemma est_chain_agrees : agrees (f_call (onBao (Client_CAChain g))) (Est.callEnroller CAChain).
Proof. apply agrees_call, (est_bao_does _ CAChain). intros c n <-. split; [apply run_CAChain|]. exact (chain_cfg c n). Qed.

#[local] Hint Resolve est_audit_agrees est_authorize_agrees est_sign_agrees issue_agrees est_chain_agrees : agrees.

Lemma admission_agrees h now op label r : agrees (admission h now op label r) (Est.admission h now op label r).
Proof. unfold admission, Est.admission, reply, Est.reply. agrees est_view. Qed.
#[local] Hint Resolve admission_agrees : agrees.

Lemma est_ServeHTTP_agrees h boundary now r : agrees (ServeHTTP h boundary now r) (Est.ServeHTTP h boundary now r).
Proof.
  unfold ServeHTTP, Est.ServeHTTP, methodGuard, Est.methodGuard, enroll, Est.enroll, serverKeyGen, Est.serverKeyGen,
    caCerts, Est.caCerts, csrAttrs, Est.csrAttrs, reply, Est.reply.
  agrees est_view.
Qed.

Lemma est_serve_does h boundary now r : does (serve h boundary now r) (Est.serve h boundary now r).
Proof. apply agrees_run, est_ServeHTTP_agrees. Qed.
End Programs.

(** ** Beside other requests *)

Section Overlapping.
Context `{UnicodeTables} `{InventoryFile} `{X509} `{Json} {N : Type} `{Upstream N}.
Context (g : Bao.Config) (asked : operation -> Prop) (a : AnyAuthorizer) (h : handler).

Abbreviation St := (state (Client * (N * list exchange))).
Abbreviation safe := (Threads.safe (broker_ok g asked a) broker_later).

(** What a request asks of OpenBao: the chain, or one issuance as decided. *)
Inductive est_asks (now : Time) (r : HttpRequest) : operation -> Prop :=
| est_asks_chain : Method r = MethodGet -> est_asks now r OpCAChain
| est_asks_sign op label csrDER req d :
    op = OpSimpleEnroll \/ op = OpSimpleReenroll -> Method r = MethodPost ->
    admitted h now op label r (Some a) csrDER req d ->
    est_asks now r (OpSign (D_Role d) (csrPEMOf csrDER) (toSignOptions (D_Constraints d)))
| est_asks_issue label csrDER req d :
    Method r = MethodPost -> admitted h now OpServerKeyGen label r (Some a) csrDER req d ->
    est_asks now r (OpIssue (D_Role d) (C_CommonName (D_Constraints d)) (issueOptions h (D_Constraints d))).

(** The certificate of a reply, with the call it comes from. *)
Definition est_released (boundary : string) (now : Time) (r : HttpRequest) (resp : Response) (s : St) : Prop :=
  exists op label csrDER req d call bundle leafDER cert p7,
    admitted h now op label r (Some a) csrDER req d /\
    answered g call (Bundle (Ok bundle)) (log (st_bao s)) /\
    (op <> OpServerKeyGen /\
       call = OpSign (D_Role d) (csrPEMOf csrDER) (toSignOptions (D_Constraints d)) /\ resp = writePKCS7 p7 \/
     op = OpServerKeyGen /\
       call = OpIssue (D_Role d) (C_CommonName (D_Constraints d)) (issueOptions h (D_Constraints d)) /\
       exists keyDER, singleBlockDER (PrivateKey bundle) = Ok keyDER /\ resp = writeServerKeyGen boundary keyDER p7) /\
    singleCertDER (B_Certificate bundle) = Ok leafDER /\
    ParseCertificate leafDER = Ok cert /\ VerifyIssued (Some cert) (D_Constraints d) = Ok tt /\
    DegenerateCertsOnly [leafDER] = Ok p7 /\
    Est.auditEntry op req d "issued" None ∈ st_estLog s.

Definition est_done boundary now r (resp : Response) (s : St) : Prop :=
  Method r = MethodPost -> 400 <= Status resp \/ est_released boundary now r resp s.

Lemma est_done_monotone boundary now r : monotone broker_later (est_done boundary now r).
Proof.
  intros resp s s' (Hb & Hlog & _) Hd Hm. destruct (Hd Hm) as [?|Hrel]; [by left|right].
  destruct Hrel as (op & label & der & req & d & call & bundle & leaf & cert & p7 & Had & Hans & Hcall & Hleaf & Hcert & Hver & Hp7 & Haud).
  exists op, label, der, req, d, call, bundle, leaf, cert, p7. split_and!; try done.
  - by apply (answered_monotone g call _ (st_bao s)).
  - destruct Hlog as [es ->]. apply elem_of_app. by left.
Qed.

Abbreviation Exits boundary now r := (ends (est_done boundary now r) (est_done boundary now r)).

(** A reply with an error, audited or not. *)
Lemma safe_refused {A} boundary now r (Q : A -> St -> Prop) msg status s :
  400 <= status -> safe (ends (est_done boundary now r) Q) (reply msg status) s.
Proof. intros Hs _. by left. Qed.

Lemma safe_refused_audited {A} boundary now r (Q : A -> St -> Prop) op req d outcome err msg status s :
  400 <= status ->
  safe (ends (est_done boundary now r) Q) (do@ audit op req d outcome err; reply msg status) s.
Proof.
  intros Hs. eapply safe_f_bind; [apply _|apply safe_f_call; [apply _|apply safe_estAudit]|].
  intros [] s' _ _. by apply safe_refused.
Qed.

Lemma safe_admission boundary now op label r s :
  safe (ends (est_done boundary now r)
             (fun x _ => admitted h now op label r (Some a) (fst (fst x)) (snd (fst x)) (snd x)))
    (admission h now op label r) s.
Proof.
  unfold admission. destruct (readCSR h r) as [der|[status e]] eqn:Hread.
  2:{ intros _. left. by eapply readCSR_status. }
  eapply safe_f_bind with (Q1 := fun x _ => x = der); [apply _|done|]. intros ? s1 _ ->.
  apply safe_f_try; [apply _|by intros; apply safe_refused|]. intros csr Hcsr.
  apply safe_f_try; [apply _|by intros; apply safe_refused|]. intros [] Hkt.
  apply safe_f_try; [apply _|by intros; apply safe_refused|]. intros cert Hid.
  eapply safe_f_bind; [apply _|apply safe_f_call; [apply _|apply safe_authorize]|]. intros d s2 _ Hd.
  destruct d as [d|e]; [|by apply safe_refused_audited].
  destruct (Allow d) eqn:Hallow; cbn [negb]; [|by apply safe_refused_audited].
  split; cbn [fst snd]; [done|by exists csr, cert| |done].
  unfold authorize. rewrite Hd. by destruct (Authorize a now _).
Qed.

(** From here on, one request, whose calls may be made. *)
Context (now : Time) (r : HttpRequest) (Hasked : forall op, est_asks now r op -> asked op).

Lemma safe_enroll boundary op label s :
  op = OpSimpleEnroll \/ op = OpSimpleReenroll -> Method r = MethodPost ->
  safe (Exits boundary now r) (enroll g h now op label r) s.
Proof.
  intros Hop Hm. eapply safe_f_bind; [apply _|apply safe_admission|].
  intros [[der req] d] s1 _ Had. cbn [fst snd] in Had.
  set (call := OpSign (D_Role d) (csrPEMOf der) (toSignOptions (D_Constraints d))).
  eapply safe_f_bind; [apply _|apply safe_f_call; [apply _|apply safe_bao, safe_Sign]|].
  { by eapply Hasked, est_asks_sign. }
  intros [bundle|e] s2 _ Hans; [|by apply safe_refused_audited].
  apply safe_f_try; [apply _|by intros; apply safe_refused|]. intros leaf Hleaf.
  destruct (checkIssued leaf d) as [[]|e] eqn:Hc; [|by apply safe_refused_audited].
  apply safe_f_try; [apply _|by intros; apply safe_refused|]. intros p7 Hp7.
  eapply safe_f_bind; [apply _|apply safe_f_call; [apply _|apply safe_estAudit]|]. intros [] s3 Hl Haud _. right.
  destruct (checkIssued_ok _ _ Hc) as (cert & Hcert & Hver).
  exists op, label, der, req, d, call, bundle, leaf, cert, p7. split_and!; try done.
  - apply (answered_monotone g call _ (st_bao s2)); [apply Hl|exact Hans].
  - left. split_and!; [by destruct Hop; subst|done..].
Qed.

Lemma safe_serverKeyGen boundary label s :
  Method r = MethodPost -> safe (Exits boundary now r) (serverKeyGen g h boundary now label r) s.
Proof.
  intros Hm. eapply safe_f_bind; [apply _|apply safe_admission|].
  intros [[der req] d] s1 _ Had. cbn [fst snd] in Had.
  set (call := OpIssue (D_Role d) (C_CommonName (D_Constraints d)) (issueOptions h (D_Constraints d))).
  eapply safe_f_bind; [apply _|apply safe_f_call; [apply _|apply safe_bao, safe_Issue]|].
  { by eapply Hasked, est_asks_issue. }
  intros [bundle|e] s2 _ Hans; [|by apply safe_refused_audited].
  apply safe_f_try; [apply _|by intros; apply safe_refused|]. intros key Hkey.
  apply safe_f_try; [apply _|by intros; apply safe_refused|]. intros leaf Hleaf.
  destruct (checkIssued leaf d) as [[]|e] eqn:Hc; [|by apply safe_refused_audited].
  apply safe_f_try; [apply _|by intros; apply safe_refused|]. intros p7 Hp7.
  eapply safe_f_bind; [apply _|apply safe_f_call; [apply _|apply safe_estAudit]|]. intros [] s3 Hl Haud _. right.
  destruct (checkIssued_ok _ _ Hc) as (cert & Hcert & Hver).
  exists OpServerKeyGen, label, der, req, d, call, bundle, leaf, cert, p7. split_and!; try done.
  - apply (answered_monotone g call _ (st_bao s2)); [apply Hl|exact Hans].
  - right. split_and!; [done..|by exists key].
Qed.

(** A GET releases nothing. *)
Lemma safe_caCerts boundary s :
  Method r = MethodGet -> safe (Exits boundary now r) (caCerts g) s.
Proof.
  intros Hm. assert (Hnot : forall resp s', est_done boundary now r resp s') by (intros ? ? Hpost; by rewrite Hm in Hpost).
  eapply safe_f_bind; [apply _|apply safe_f_call; [apply _|apply safe_bao, safe_CAChain]|].
  { by apply Hasked, est_asks_chain. }
  intros chain s1 _ _.
  do 3 (apply safe_f_try; [apply _|by intros; apply safe_refused|]; intros ? _). apply Hnot.
Qed.

Lemma est_safe_ServeHTTP boundary s :
  safe (Exits boundary now r) (ServeHTTP g h boundary now r) s.
Proof.
  assert (Hexit : forall resp, 400 <= Status resp ->
            safe (Exits boundary now r) (f_exit (A := Response) resp) s) by (intros resp Hr _; by left).
  assert (Hguard : forall m fn, (Method r = m -> safe (Exits boundary now r) fn s) ->
            safe (Exits boundary now r) (methodGuard r m fn) s).
  { intros m fn Hfn. unfold methodGuard. destruct (String.eqb_spec (Method r) m); simpl negb; [auto|].
    by apply Hexit. }
  unfold ServeHTTP. destruct (negb _); [by apply Hexit|]. destruct (_ =? _)%string; [by apply Hexit|].
  destruct (routeOf _) as [label op].
  destruct (_ =? _)%string; [apply Hguard, safe_caCerts|].
  destruct (_ =? _)%string; [apply Hguard, safe_enroll; by left|].
  destruct (_ =? _)%string; [apply Hguard, safe_enroll; by right|].
  destruct (_ =? _)%string; [apply Hguard, safe_serverKeyGen|].
  destruct (_ =? _)%string; [apply Hguard|by apply Hexit]. intros Hm Hpost. by rewrite Hm in Hpost.
Qed.

Lemma est_safe_serve boundary s : safe (est_done boundary now r) (serve g h boundary now r) s.
Proof. apply safe_f_run; [apply _|apply est_safe_ServeHTTP]. Qed.
End Overlapping.
