(* ===== verification/ScepConc.v ===== *)
(** * internal/scep/handler.go: SCEP messages that overlap

    The SCEP handler as a program over the shared steps of [Overlap.v], text for
    text the one of [ScepHandler.v]; run alone it is that handler; and whatever
    runs beside it, it asks of OpenBao only what was authorized for its message,
    and answers as the sequential handler may. *)
From S2P Require Import Prelude GoLib GoCrypto GoNet X509 Authz Match Inventory Challenge Policy Verify Pipeline Replay Limits Http Middleware Pem Csr Bao BaoTheory Threads Flow BaoConc BaoSafe.
From S2P Require Import Config Main MainTheory Overlap Cms ScepMessage ScepHandler ScepTheory.

Section Programs.
Context `{UnicodeTables} `{InventoryFile} `{X509} `{Pkcs7Lib} `{Json} {N : Type} `{Upstream N} (g : Bao.Config).

Abbreviation St := (state (Client * N)).
Abbreviation Flow A := (flow St Response A).

Definition reply {B} (msg : string) (status : Z) : Flow B := f_exit (http_Error ∅ msg status).
Definition fail_ {B} (h : handler) (rnd : Draws) (req : ScepRequest) (info : FailInfo) (reason : string) : Flow B :=
  f_exit (failReply h rnd req info).
Definition audit req d outcome remote err : Flow unit := f_call (scepAudit req d outcome remote err).

Definition getCACert (h : handler) : Flow Response :=
  let@ pem := f_call (onBao (Client_CAChain g)) in
  let@ chain := f_try (let? pem := pem in caChainCerts pem)
                  (fun _ => reply "upstream error" StatusBadGateway) in
  let certs := match RACert (opts h) with Some ra => ra :: chain | None => chain end in
  let@ der := f_try (DegenerateCertsOnly certs) (fun _ => reply "internal error" StatusInternalServerError) in
  f_ret {| Status := StatusOK; RespHeader := {["Content-Type" := ctCACertChain]}; RespBody := der |}.

Definition getCACaps : Flow Response :=
  f_ret {| Status := StatusOK; RespHeader := {["Content-Type" := "text/plain"]};
           RespBody := bytes_of_string (String.append (Join caps nl) nl) |}.

Definition issue (h : handler) (m : moment) (r : HttpRequest) (req : ScepRequest) : Flow Response :=
  let rnd := m_draws m in
  let remote := RemoteAddr r in
  let@ d := f_call (Overlap.callAuthorize (m_authz m) (authzRequest h req r)) in
  match d with
  | Err e =>
      do@ audit req zeroDecision "error" remote (Some e);
      fail_ h rnd req FailBadRequest "authorization error"
  | Ok d =>
      if negb (Allow d) then
        do@ audit req d "deny" remote None;
        fail_ h rnd req FailBadRequest (Reason d)
      else
        let@ bundle := f_call (onBao (Client_Sign g (D_Role d) (csrPEMOf (SR_CSR req))
                                        (toSignOptions (D_Constraints d)))) in
        match bundle with
        | Err e =>
            do@ audit req d "issue-error" remote (Some e);
            fail_ h rnd req FailBadRequest "issuance failed"
        | Ok bundle =>
            let@ issued := f_try (parseFirstCert (B_Certificate bundle))
                             (fun _ => fail_ h rnd req FailBadRequest "internal error") in
            match checkIssued h issued d with
            | Err e =>
                do@ audit req d "constraint-violation" remote (Some e);
                fail_ h rnd req FailBadRequest "issuance failed"
            | Ok _ =>
                let@ out := f_try (Success (resp h) rnd req (Some issued))
                              (fun _ => reply "internal error" StatusInternalServerError) in
                do@ audit req d "issued" remote None;
                f_ret (writePKIMessage out)
            end
        end
  end.

Definition pkiOperation (h : handler) (m : moment) (r : HttpRequest) : Flow Response :=
  let@ body := match readMessage h r with
               | inl body => f_ret body
               | inr (status, e) => reply e status
               end in
  let@ req := f_try (Parse (parser h) body) (fun _ => reply "bad request" StatusBadRequest) in
  let@ fresh := f_call (Overlap.callReplay (m_replay m) (TransactionID_ (SR_Attributes req))
                          (SenderNonce (SR_Attributes req))) in
  if negb fresh then fail_ h (m_draws m) req FailBadRequest "replay"
  else issue h m r req.

Definition ServeHTTP (h : handler) (m : moment) (r : HttpRequest) : Flow Response :=
  let op := Query_Get r "operation" in
  if (op =? "GetCACert")%string then getCACert h
  else if (op =? "GetCACaps")%string then getCACaps
  else if (op =? "PKIOperation")%string then pkiOperation h m r
  else reply "unsupported operation" StatusBadRequest.

Definition serve (h : handler) (m : moment) (r : HttpRequest) : prog St Response := f_run (ServeHTTP h m r).

(** ** It ends *)

Lemma scep_within_serve h m r : within (callBound g + 3) (serve h m r).
Proof.
  assert (Haud : forall req d outcome remote err reason n,
            within (S n) (do@ audit req d outcome remote err;
                          fail_ (B := Response) h (m_draws m) req FailBadRequest reason))
    by (intros; by apply within_f_bind_step).
  apply within_f_run. unfold ServeHTTP. destruct (_ =? _)%string; [|destruct (_ =? _)%string; [done|destruct (_ =? _)%string; [|done]]].
  - apply within_f_bind; [by apply within_f_call, within_lift, within_CAChain|]. intros pem.
    by do 2 (apply within_f_bind_try; [done|intros ?]).
  - replace (callBound g + 3)%nat with (1 + (1 + (callBound g + 1)))%nat by lia. unfold pkiOperation.
    apply (within_f_bind 0); [by destruct (readMessage h r) as [|[]]|intros body].
    apply within_f_bind_try; [done|intros req]. apply within_f_bind_step. intros [|]; cbn [negb]; [|done].
    unfold issue. apply within_f_bind_step. intros [d|e]; [|rewrite Nat.add_comm; apply Haud].
    destruct (negb _); [rewrite Nat.add_comm; apply Haud|].
    apply within_f_bind; [by apply within_f_call, within_lift, within_Sign|]. intros [bundle|e]; [|apply Haud].
    apply within_f_bind_try; [done|intros issued]. destruct (checkIssued h issued d); [|apply Haud].
    apply within_f_bind_try; [done|intros out]. by apply within_f_bind_step.
Qed.

(** ** Run alone, the handler of [ScepHandler.v] *)

Abbreviation W := (ScepHandler.world AnyAuthorizer (Client * N)).

(** What the SCEP handler sees of the state: there is a cache. *)
Definition scep_fit (s : St) : Prop := is_Some (st_replay s).
Definition scep_get (s : St) : W :=
  {| authorizer := st_authorizer s; enroller := st_bao s;
     replayCache := default (NewReplayCache 0 0) (st_replay s); auditLog := st_scepLog s |}.
Definition scep_put (w : W) (s : St) : St :=
  {| st_authorizer := authorizer w; st_bao := enroller w; st_replay := Some (replayCache w);
     st_limiter := st_limiter s; st_estLog := st_estLog s; st_scepLog := auditLog w |}.
Definition scep_ok (w : W) : Prop := cfg (fst (enroller w)) = g.

Lemma scep_view : view scep_get scep_put scep_fit scep_ok.
Proof.
  split.
  - by intros s [].
  - done.
  - intros [az e rc l el sl] [rc' Hrc]. simpl in Hrc. by subst rc.
  - by eexists.
Qed.

Abbreviation agrees := (Flow.agrees scep_get scep_put scep_fit scep_ok).
Abbreviation does := (Flow.does scep_get scep_put scep_fit scep_ok).

Lemma scep_audit_agrees req d outcome remote err :
  agrees (audit req d outcome remote err) (ScepHandler.audit req d outcome remote err).
Proof. intros [az e rc l el sl] [rc' Hrc] Hs. simpl in Hrc. subst rc. by split. Qed.

Lemma scep_authorize_agrees now req :
  agrees (f_call (Overlap.callAuthorize now req)) (ScepHandler.callAuthorize now req).
Proof.
  apply agrees_call. intros [az e rc l el sl] [rc' Hrc] Hs. simpl in *. subst rc.
  destruct (Authorize az now req) as [a d]. by split.
Qed.

Lemma replay_agrees now txID nonce :
  agrees (f_call (Overlap.callReplay now txID nonce)) (ScepHandler.callReplay now txID nonce).
Proof.
  apply agrees_call. intros [az e rc l el sl] [rc' Hrc] Hs. simpl in *. subst rc. simpl.
  destruct (Check rc' now txID nonce) as [rc2 fresh]. by split.
Qed.

Lemma scep_bao_does {A} (p : prog (Client * N) A) f :
  (forall c n, cfg c = g -> Threads.run p (c, n) = f (c, n) /\ cfg (fst (fst (f (c, n)))) = g) ->
  does (onBao p) (fun w => let '(e, b) := f (enroller w) in
                           ({| authorizer := authorizer w; enroller := e; replayCache := replayCache w;
                               auditLog := auditLog w |}, b)).
Proof.
  intros Hp [az [c n] rc l el sl] [rc' Hrc] Hc. simpl in *. subst rc. rewrite run_onBao. simpl.
  destruct (Hp c n Hc) as [-> Hc']. destruct (f (c, n)) as [e b]. by split.
Qed.

Lemma scep_sign_agrees role csrPEM o :
  agrees (f_call (onBao (Client_Sign g role csrPEM o)))
    (ScepHandler.callEnroller (fun e => Bao.Sign e role csrPEM o)).
Proof.
  apply agrees_call, (scep_bao_does _ (fun e => Bao.Sign e role csrPEM o)). intros c n <-.
  split; [apply run_Sign|]. exact (sign_cfg c n role csrPEM o).
Qed.

Lemma scep_chain_agrees : agrees (f_call (onBao (Client_CAChain g))) (ScepHandler.callEnroller CAChain).
Proof.
  apply agrees_call, (scep_bao_does _ CAChain). intros c n <-. split; [apply run_CAChain|]. exact (chain_cfg c n).
Qed.

#[local] Hint Resolve scep_audit_agrees scep_authorize_agrees replay_agrees scep_sign_agrees scep_chain_agrees : agrees.

Lemma scep_ServeHTTP_agrees h m r : agrees (ServeHTTP h m r) (ScepHandler.ServeHTTP h m r).
Proof.
  unfold ServeHTTP, ScepHandler.ServeHTTP, getCACert, ScepHandler.getCACert, getCACaps, ScepHandler.getCACaps,
    pkiOperation, ScepHandler.pkiOperation, issue, ScepHandler.issue, fail_, ScepHandler.fail_, reply,
    ScepHandler.reply.
  agrees scep_view.
Qed.

Lemma scep_serve_does h m r : does (serve h m r) (ScepHandler.serve h m r).
Proof. apply agrees_run, scep_ServeHTTP_agrees. Qed.
End Programs.

(** ** Beside other requests *)

Section Overlapping.
Context `{UnicodeTables} `{InventoryFile} `{X509} `{Pkcs7Lib} `{Json} {N : Type} `{Upstream N}.
Context (g : Bao.Config) (asked : operation -> Prop) (a : AnyAuthorizer) (h : handler).

Abbreviation St := (state (Client * (N * list exchange))).
Abbreviation W := (ScepHandler.world AnyAuthorizer (Client * (N * list exchange))).
Abbreviation safe := (Threads.safe (broker_ok g asked a) broker_later).

(** Admitted, with the replay cache of the moment it was checked. *)
Definition admitted_now (m : moment) (r : HttpRequest) (req : ScepRequest) (d : Decision) : Prop :=
  exists w : W, authorizer w = a /\ scep_admitted h m r w req d.

Definition signCall (req : ScepRequest) (d : Decision) : operation :=
  OpSign (D_Role d) (csrPEMOf (SR_CSR req)) (toSignOptions (D_Constraints d)).

Inductive scep_asks (m : moment) (r : HttpRequest) : operation -> Prop :=
| scep_asks_chain : Query_Get r "operation" = "GetCACert" -> scep_asks m r OpCAChain
| scep_asks_sign req d : admitted_now m r req d -> scep_asks m r (signCall req d).

(** The certificate of a reply: what OpenBao answered to the call decided for the
    message, within what was decided by [authz.VerifyIssued]. *)
Definition scep_issued (m : moment) (r : HttpRequest) (resp_ : Response) (s : St) : Prop :=
  exists req d bundle issued out,
    admitted_now m r req d /\ answered g (signCall req d) (Bundle (Ok bundle)) (log (st_bao s)) /\
    parseFirstCert (B_Certificate bundle) = Ok issued /\ Verify.VerifyIssued (Some issued) (D_Constraints d) = Ok tt /\
    Success (resp h) (m_draws m) req (Some issued) = Ok out /\ resp_ = writePKIMessage out /\
    ScepHandler.auditEntry req d "issued" (RemoteAddr r) None ∈ st_scepLog s.

(** How a PKIOperation is answered: by an HTTP error, by the one refusal, or by
    the certificate. *)
Definition scep_done (m : moment) (r : HttpRequest) (resp_ : Response) (s : St) : Prop :=
  Query_Get r "operation" = "PKIOperation" ->
  400 <= Status resp_ \/
  (exists body req, readMessage h r = inl body /\ Parse (parser h) body = Ok req /\ refusal h m req resp_) \/
  scep_issued m r resp_ s.

Lemma scep_done_monotone m r : monotone broker_later (scep_done m r).
Proof.
  intros resp_ s s' (Hb & _ & Hlog) Hd Hop.
  destruct (Hd Hop) as [?|[?|(req & d & bundle & issued & out & Had & Hans & Hp & Hc & Hs & Hr & Haud)]];
    [by left|by right; left|right; right].
  exists req, d, bundle, issued, out. split_and!; try done.
  - by apply (answered_monotone g (signCall req d) _ (st_bao s)).
  - destruct Hlog as [es ->]. apply elem_of_app. by left.
Qed.

Abbreviation Exits m r := (ends (scep_done m r) (scep_done m r)).

Lemma safe_error {A} m r (Q : A -> St -> Prop) msg status s :
  400 <= status -> safe (ends (scep_done m r) Q) (reply msg status) s.
Proof. intros Hs _. by left. Qed.

Section Message.
Context (m : moment) (r : HttpRequest) (body : bytes) (req : ScepRequest).
Context (Hread : readMessage h r = inl body) (Hparse : Parse (parser h) body = Ok req).
(** The handler verifies what is issued, as [buildSCEPServer] builds it. *)
Context (Hverify : VerifyIssued (opts h) = Some Verify.VerifyIssued).

Lemma safe_refusal {A} (Q : A -> St -> Prop) reason s :
  safe (ends (scep_done m r) Q) (fail_ h (m_draws m) req FailBadRequest reason) s.
Proof. intros _. right; left. by exists body, req. Qed.

Lemma safe_refusal_audited {A} (Q : A -> St -> Prop) reason d outcome remote err s :
  safe (ends (scep_done m r) Q)
    (do@ audit req d outcome remote err; fail_ h (m_draws m) req FailBadRequest reason) s.
Proof.
  eapply safe_f_bind; [apply _|apply safe_f_call; [apply _|apply safe_scepAudit]|].
  intros [] s' _ _. apply safe_refusal.
Qed.

Context (Hasked : forall op, scep_asks m r op -> asked op).

Lemma safe_issue rc s :
  snd (Check rc (m_replay m) (TransactionID_ (SR_Attributes req)) (SenderNonce (SR_Attributes req))) = true ->
  safe (Exits m r) (issue g h m r req) s.
Proof.
  intros Hfresh. unfold issue.
  eapply safe_f_bind; [apply _|apply safe_f_call; [apply _|apply safe_authorize]|]. intros d s1 _ Hd.
  destruct d as [d|e]; [|apply safe_refusal_audited].
  destruct (Allow d) eqn:Hallow; cbn [negb]; [|apply safe_refusal_audited].
  assert (Had : admitted_now m r req d).
  { exists {| authorizer := a; enroller := st_bao s; replayCache := rc; auditLog := [] |}. split; [done|].
    split; [by exists body|done|by rewrite Hd|done]. }
  eapply safe_f_bind; [apply _|apply safe_f_call; [apply _|apply safe_bao, safe_Sign]|].
  { by apply Hasked, scep_asks_sign. }
  intros [bundle|e] s2 _ Hans; [|apply safe_refusal_audited].
  apply safe_f_try; [apply _|by intros; apply safe_refusal|]. intros issued Hissued.
  destruct (checkIssued h issued d) as [[]|e] eqn:Hc; [|apply safe_refusal_audited].
  unfold checkIssued in Hc. rewrite Hverify in Hc.
  apply safe_f_try; [apply _|by intros; apply safe_error|]. intros out Hout.
  eapply safe_f_bind; [apply _|apply safe_f_call; [apply _|apply safe_scepAudit]|]. intros [] s3 Hl Haud _. right; right.
  exists req, d, bundle, issued, out. split_and!; try done.
  apply (answered_monotone g (signCall req d) _ (st_bao s2)); [apply Hl|exact Hans].
Qed.
End Message.

(** From here on, one request, whose calls may be made. *)
Context (m : moment) (r : HttpRequest) (Hasked : forall op, scep_asks m r op -> asked op).
Context (Hverify : VerifyIssued (opts h) = Some Verify.VerifyIssued).

Lemma safe_pkiOperation s : safe (Exits m r) (pkiOperation g h m r) s.
Proof.
  unfold pkiOperation. destruct (readMessage h r) as [body|[status e]] eqn:Hread.
  2:{ intros _. left. by apply readMessage_status in Hread as [? _]. }
  eapply safe_f_bind with (Q1 := fun x _ => x = body); [apply _|done|]. intros ? s1 _ ->.
  apply safe_f_try; [apply _|by intros; apply safe_error|]. intros req Hparse.
  eapply safe_f_bind; [apply _|apply safe_f_call; [apply _|apply safe_replay]|]. intros fresh s2 _ Hfresh.
  destruct fresh; cbn [negb]; [|by eapply safe_refusal].
  destruct (Hfresh eq_refl) as [rc Hrc]. eapply safe_issue; [done|done|exact Hverify|exact Hasked|exact Hrc].
Qed.

Lemma scep_safe_ServeHTTP s : safe (Exits m r) (ServeHTTP g h m r) s.
Proof.
  unfold ServeHTTP. destruct (String.eqb_spec (Query_Get r "operation") "GetCACert") as [Hop|_].
  - assert (Hnot : forall resp_ s', scep_done m r resp_ s') by (intros ? ? Hp; by rewrite Hop in Hp).
    eapply safe_f_bind; [apply _|apply safe_f_call; [apply _|apply safe_bao, safe_CAChain]|].
    { by apply Hasked, scep_asks_chain. }
    intros pem s1 _ _. do 2 (apply safe_f_try; [apply _|by intros; apply safe_error|]; intros ? _). apply Hnot.
  - destruct (String.eqb_spec (Query_Get r "operation") "GetCACaps") as [Hop|_]; [intros Hp; by rewrite Hop in Hp|].
    destruct (_ =? _)%string; [apply safe_pkiOperation|by apply safe_error].
Qed.

Lemma scep_safe_serve s : safe (scep_done m r) (serve g h m r) s.
Proof. apply safe_f_run; [apply _|apply scep_safe_ServeHTTP]. Qed.
End Overlapping.
