(* ===== verification/BrokerConc.v ===== *)
(** * The broker, with requests that overlap

    Every request on the listeners as a thread of the one broker that [run]
    builds.  One after the other they are [Main.serves]; interleaved in any way,
    down to the atomic steps of the OpenBao client, they still ask for nothing
    on the wire without a credential, each is answered from the answer to its
    own call, and all of them end. *)
From S2P Require Import Prelude GoLib GoCrypto GoNet X509 Authz Match Inventory Challenge Policy Verify Pipeline Replay Limits Http Middleware Pem Csr Bao BaoTheory Threads Flow BaoConc BaoSafe Cms ScepMessage.
From S2P Require Import Est EstTheory ScepHandler ScepTheory Config Main MainTheory Overlap EstConc ScepConc.
From Stdlib Require Import SpecFloat.

Section Programs.
Context `{UnicodeTables} `{InventoryFile} `{X509} `{Pkcs7Lib} `{Json} {N : Type} `{Upstream N}.
Context (g : Bao.Config) (b : broker).

Abbreviation St := (state (Client * N)).

Definition healthHandler (r : HttpRequest) : prog St Response :=
  if (URL_Path r =? "/healthz")%string then
    Return {| Status := StatusOK; RespHeader := ∅; RespBody := bytes_of_string "ok" |}
  else if (URL_Path r =? "/readyz")%string then
    let& chain := onBao (Client_CAChain g) in
    Return (match chain with
            | Err err => http_Error ∅ (String.append "not ready: " err) StatusServiceUnavailable
            | Ok _ => {| Status := StatusOK; RespHeader := ∅; RespBody := bytes_of_string "ready" |}
            end)
  else Return http_NotFound.

Definition answer_ (p : prog St Response) : prog St (option Response) := let& resp := p in Return (Some resp).

(** The thread of a request; nobody listens for SCEP unless it is enabled. *)
Definition serve (ev : event) : prog St (option Response) :=
  match ev with
  | EstRequest arr boundary now r => answer_ (Overlap.limited arr (EstConc.serve g (estHandler b) boundary now r) r)
  | ScepRequest arr m r =>
      match scepHandler b with
      | Some h => answer_ (Overlap.limited arr (ScepConc.serve g h m r) r)
      | None => Return None
      end
  | HealthRequest r => answer_ (healthHandler r)
  end.

(** ** One after the other *)

(** What a state the broker can be in has: the client's configuration, and a
    replay cache for a SCEP handler. *)
Definition ready (s : St) : Prop :=
  cfg (fst (st_bao s)) = g /\ (is_Some (scepHandler b) -> is_Some (st_replay s)).

Lemma run_answer p (s : St) :
  Threads.run (answer_ p) s = let '(s', resp) := Threads.run p s in (s', Some resp).
Proof. unfold answer_. rewrite run_bind. by destruct (Threads.run p s). Qed.

Lemma serveEST_alone arr boundary now r (s : St) :
  ready s ->
  Threads.run (Overlap.limited arr (EstConc.serve g (estHandler b) boundary now r) r) s = serveEST b arr boundary now r s /\
  ready (fst (serveEST b arr boundary now r s)).
Proof.
  intros [Hc Hrc]. rewrite run_limited. unfold serveEST, Main.limited, Middleware.Middleware.
  destruct (rateLimit _ _ _ _ _ _) as [l [why|]]; [by destruct s|].
  destruct (arr_acquired arr); [|by destruct s].
  destruct (est_serve_does g (estHandler b) boundary now r (withLimiter s l) Logic.I) as [[Hok _] ->]; [by split|].
  change (est_get (withLimiter s l)) with (est_get s) in *. unfold est_get in *.
  by destruct (Est.serve _ _ _ _ _) as [w resp].
Qed.

Lemma serveSCEP_alone h arr m r (s : St) :
  ready s -> scepHandler b = Some h ->
  exists s' resp, serveSCEP b arr m r s = Some (s', resp) /\
    Threads.run (Overlap.limited arr (ScepConc.serve g h m r) r) s = (s', resp) /\ ready s'.
Proof.
  intros [Hc Hrc] Hh. destruct (Hrc ltac:(by rewrite Hh)) as [rc Hrc'].
  rewrite run_limited. unfold serveSCEP, Main.limited, Middleware.Middleware. rewrite Hh, Hrc'.
  destruct (rateLimit _ _ _ _ _ _) as [l [why|]].
  { eexists _, _. split; [done|]. destruct s. simpl in *. subst. by split. }
  destruct (arr_acquired arr); [|eexists _, _; split; [done|]; destruct s; simpl in *; subst; by split].
  destruct (scep_serve_does g h m r (withLimiter s l) (ex_intro _ rc Hrc') Hc) as [Hok ->].
  assert (Hget : scep_get (withLimiter s l) = {| ScepHandler.authorizer := st_authorizer s; ScepHandler.enroller := st_bao s;
            ScepHandler.replayCache := rc; ScepHandler.auditLog := st_scepLog s |})
    by (unfold scep_get, withLimiter; simpl; by rewrite Hrc').
  rewrite Hget in *. destruct (ScepHandler.serve _ _ _ _) as [w resp]. by eexists _, _.
Qed.

Lemma serve_alone ev (s : St) :
  ready s -> Threads.run (serve ev) s = Main.serve b ev s /\ ready (fst (Main.serve b ev s)).
Proof.
  intros Hs. destruct ev as [arr boundary now r|arr m r|r]; cbn [serve Main.serve].
  - rewrite run_answer. destruct (serveEST_alone arr boundary now r s Hs) as [-> Hr].
    by destruct (serveEST _ _ _ _ _ _).
  - destruct (scepHandler b) as [h|] eqn:Hh.
    + rewrite run_answer. destruct (serveSCEP_alone h arr m r s Hs Hh) as (s' & resp & -> & -> & Hr). by split.
    + unfold serveSCEP. by rewrite Hh.
  - rewrite run_answer. destruct Hs as [Hc Hrc]. unfold healthHandler, Main.healthHandler.
    destruct (_ =? _)%string; [by destruct s|]. destruct (_ =? _)%string; [|by destruct s].
    rewrite run_bind, run_onBao. destruct (st_bao s) as [c n] eqn:Hb. cbn [fst] in Hc.
    rewrite <- Hc, run_CAChain. pose proof (chain_cfg c n) as Hcfg.
    destruct (CAChain (c, n)) as [[c' n'] [pem|e]]; (split; [done|]); (split; [by rewrite <- Hc|exact Hrc]).
Qed.

(** The responses of [Main.serves]. *)
Fixpoint responses (evs : list event) (s : St) : list (option Response) :=
  match evs with
  | [] => []
  | ev :: evs' => snd (Main.serve b ev s) :: responses evs' (fst (Main.serve b ev s))
  end.

Lemma serves_run_all evs (s : St) :
  ready s -> run_all (map serve evs) s = (serves b evs s, responses evs s).
Proof.
  revert s. induction evs as [|ev evs IH]; intros s Hs; [done|]. cbn [map run_all serves responses].
  destruct (serve_alone ev s Hs) as [-> Hr]. destruct (Main.serve b ev s) as [s1 o]. cbn [fst snd] in *.
  by rewrite IH.
Qed.

(** ** All requests end *)

(** A request: a call of OpenBao and at most five short steps. *)
Definition eventBound : nat := callBound g + 5.

Lemma within_limited n arr (next : prog St Response) r :
  within n next -> within (2 + n) (Overlap.limited arr next r).
Proof.
  intros Hn. apply (within_bind 1 (1 + n)); [apply within_atomic|]. intros [|]; cbn [negb]; [|done].
  apply (within_bind 1 n); [apply within_atomic|]. intros [|]; cbn [negb]; [|done]. by destruct (arr_acquired arr).
Qed.

Lemma within_event ev : within eventBound (serve ev).
Proof.
  unfold eventBound. replace (callBound g + 5)%nat with (2 + (callBound g + 3) + 0)%nat by lia.
  destruct ev as [arr boundary now r|arr m r|r]; cbn [serve].
  - apply within_bind; [apply within_limited, est_within_serve|done].
  - destruct (scepHandler b) as [h|]; [|done].
    apply within_bind; [apply within_limited, scep_within_serve|done].
  - apply within_bind; [|done]. unfold healthHandler. destruct (_ =? _)%string; [done|].
    destruct (_ =? _)%string; [|done]. replace (2 + (callBound g + 3))%nat with (callBound g + 5)%nat by lia.
    apply within_bind; [apply within_lift, within_CAChain|done].
Qed.
End Programs.

(** ** The broker that [run] builds *)

Section Broker.
Context `{UnicodeTables} `{Os} `{ConfigYaml} `{InventoryFile} `{X509} `{Pkcs7Lib} `{!KeyPairs}.
Context `{Json} {N : Type} `{Upstream N}.

Lemma run_shares {E} (connect : Client -> E) path dev role c b s :
  run connect path dev role = Ok (c, b, s) ->
  exists client, token client = "" /\ st_bao s = connect client /\
    (is_Some (scepHandler b) -> is_Some (st_replay s)).
Proof.
  unfold run. intros Hr. apply result_bind_ok in Hr as (c' & _ & Hr).
  apply result_bind_ok in Hr as (secretID & _ & Hr). apply result_bind_ok in Hr as (ca & _ & Hr).
  apply result_bind_ok in Hr as (client & Hclient & Hr). apply result_bind_ok in Hr as ([boot device] & _ & Hr).
  apply result_bind_ok in Hr as (cert & _ & Hr). apply result_bind_ok in Hr as (a & _ & Hr).
  apply result_bind_ok in Hr as ([estH estW] & _ & Hr). apply result_bind_ok in Hr as ([sh rc] & Hscep & Hr).
  injection Hr as <- <- <-. exists client. split_and!; [|done|].
  - unfold Bao.New in Hclient. peel Hclient. by simplify_eq.
  - cbn [scepHandler st_replay fst snd]. destruct (Scep_Enabled _).
    + apply result_bind_ok in Hscep as ([h w] & _ & Hscep). by simplify_eq.
    + simplify_eq. by intros [].
Qed.

(** The client on a network nothing was sent to yet. *)
Definition onto (n : N) (c : Client) : Client * (N * list exchange) := (c, (n, [])).

Abbreviation St := (state (Client * (N * list exchange))).
Definition configOf (s : St) : Bao.Config := cfg (fst (st_bao s)).

Lemma run_ready n path dev role c b s : run (onto n) path dev role = Ok (c, b, s) -> ready (configOf s) b s.
Proof. intros Hr. destruct (run_shares _ _ _ _ _ _ _ Hr) as (client & _ & _ & Hrc). by split. Qed.

(** The two renderings of the broker agree: requests that do not overlap are a special case of requests that do:
    what [Main.serves] makes of a broker, request after request, with the
    responses it gives, is one of the interleavings of their threads. *)
Lemma serving_refines n path dev role c b s evs
    (Hrun : run (onto n) path dev role = Ok (c, b, s)) :
  exists labels, steps pool_step (s, map (serve (configOf s) b) evs) labels
                   (serves b evs s, map Return (responses b evs s)).
Proof.
  destruct (pool_run_all (map (serve (configOf s) b) evs) s) as [labels Hsteps]. exists labels.
  by rewrite (serves_run_all (configOf s) b evs s (run_ready _ _ _ _ _ _ _ Hrun)) in Hsteps.
Qed.

(** C11. Every request is answered, however many there are and however they
    overlap: a run makes at most [9 * (MaxRetries + 1) + 12] steps for each of
    them, whatever OpenBao answers, and from wherever it stands it can be
    completed, within that bound, to one where all have been answered. *)
Theorem overlapping_requests_end n path dev role c b s evs labels st
    (Hrun : run (onto n) path dev role = Ok (c, b, s))
    (Hsteps : steps pool_step (s, map (serve (configOf s) b) evs) labels st) :
  (length labels <= length evs * eventBound (configOf s))%nat /\
  exists more st', steps pool_step st more st' /\ Forall returned (snd st') /\
    (length (labels ++ more) <= length evs * eventBound (configOf s))%nat.
Proof.
  assert (Hns : Forall (within (eventBound (configOf s))) (map (serve (N := N * list exchange) (configOf s) b) evs)).
  { clear. induction evs; simpl; constructor; [apply within_event|done]. }
  pose proof (pool_ends _ _ _ _ _ Hns Hsteps) as Hends. rewrite length_map in Hends. exact Hends.
Qed.

(** *** What overlapping requests ask for *)

Section Requests.
Context (b : broker) (a : AnyAuthorizer) (g : Bao.Config).

(** Its SCEP handler, if any, verifies what is issued. *)
Definition verifies : Prop :=
  forall h, scepHandler b = Some h -> ScepHandler.VerifyIssued (ScepHandler.opts h) = Some Verify.VerifyIssued.

Definition event_asks (ev : event) (op : operation) : Prop :=
  match ev with
  | EstRequest _ _ now r => est_asks a (estHandler b) now r op
  | ScepRequest _ m r => exists h, scepHandler b = Some h /\ scep_asks (N := N) a h m r op
  | HealthRequest _ => op = OpCAChain
  end.

(** How a request is answered. *)
Definition event_done (ev : event) (o : option Response) (s : St) : Prop :=
  forall resp, o = Some resp ->
  match ev with
  | EstRequest _ boundary now r => est_done g a (estHandler b) boundary now r resp s
  | ScepRequest _ m r => exists h, scepHandler b = Some h /\ scep_done g a h m r resp s
  | HealthRequest _ => True
  end.

Lemma event_done_monotone ev : monotone broker_later (event_done ev).
Proof.
  intros o s s' Hle Hd resp Hr. specialize (Hd resp Hr). destruct ev as [arr boundary now r|arr m r|r]; [| |done].
  - by eapply est_done_monotone.
  - destruct Hd as (h & Hh & Hd). exists h. split; [done|]. by eapply scep_done_monotone.
Qed.

Context (evs : list event).
Definition asked_by (op : operation) : Prop := exists ev, ev ∈ evs /\ event_asks ev op.

Abbreviation safe := (Threads.safe (broker_ok g asked_by a) broker_later).

Lemma safe_answer (Q : Response -> St -> Prop) (Q' : option Response -> St -> Prop) p s :
  (forall resp s', Q resp s' -> Q' (Some resp) s') -> safe Q p s -> safe Q' (answer_ p) s.
Proof. intros HQ Hp. eapply safe_bind; [apply _|exact Hp|]. intros resp s' _ Hq. by apply HQ. Qed.

Lemma safe_event ev s : verifies -> ev ∈ evs -> safe (event_done ev) (serve g b ev) s.
Proof.
  intros Hver Hev. destruct ev as [arr boundary now r|arr m r|r]; cbn [serve].
  - apply (safe_answer (est_done g a (estHandler b) boundary now r)); [by intros resp s' Hd ? [= <-]|].
    apply safe_limited; [by intros s' _; left|by intros s' _; left|]. intros s' _. apply est_safe_serve.
    intros op Hop. by exists (EstRequest arr boundary now r).
  - destruct (scepHandler b) as [h|] eqn:Hh; [|by intros resp].
    apply (safe_answer (scep_done g a h m r)); [intros resp s' Hd ? [= <-]; by exists h|].
    apply safe_limited; [by intros s' _; left|by intros s' _; left|]. intros s' _. apply scep_safe_serve; [|by apply Hver].
    intros op Hop. exists (ScepRequest arr m r). split; [done|]. by exists h.
  - apply (safe_answer (fun _ _ => True)); [done|]. unfold healthHandler.
    destruct (_ =? _)%string; [done|]. destruct (_ =? _)%string; [|done].
    eapply safe_bind; [apply _|apply safe_bao, safe_CAChain; by exists (HealthRequest r)|done].
Qed.
End Requests.

Lemma events_safe b a g evs l s :
  verifies b -> (forall ev, ev ∈ l -> ev ∈ evs) ->
  Forall2 (fun Q p => Threads.safe (broker_ok g (asked_by b a evs) a) broker_later Q p s)
    (map (event_done b a g) l) (map (serve g b) l).
Proof.
  intros Hver. induction l as [|ev l IH]; intros Hl; constructor.
  - apply safe_event; [done|]. apply Hl. by left.
  - apply IH. intros ev' Hev. apply Hl. by right.
Qed.

(** What [buildSCEPServer] hands its handler. *)
Lemma run_verifies {E} (connect : Client -> E) path dev role c b s :
  run connect path dev role = Ok (c, b, s) -> verifies b.
Proof.
  unfold run. intros Hr. apply result_bind_ok in Hr as (c' & _ & Hr).
  apply result_bind_ok in Hr as (secretID & _ & Hr). apply result_bind_ok in Hr as (ca & _ & Hr).
  apply result_bind_ok in Hr as (client & _ & Hr). apply result_bind_ok in Hr as ([boot device] & _ & Hr).
  apply result_bind_ok in Hr as (cert & _ & Hr). apply result_bind_ok in Hr as (a & _ & Hr).
  apply result_bind_ok in Hr as ([estH estW] & _ & Hr). apply result_bind_ok in Hr as ([sh rc] & Hscep & Hr).
  injection Hr as <- <- <-. intros h. cbn [scepHandler fst]. intros ->. destruct (Scep_Enabled _); [|done].
  apply result_bind_ok in Hscep as ([h' w] & Hb & [= <- _]). unfold buildSCEPServer in Hb.
  apply result_bind_ok in Hb as ([ra key] & _ & Hb). unfold ScepHandler.NewHandler in Hb. simpl in Hb.
  by injection Hb as <- _.
Qed.

(** A run of overlapping requests keeps everything. *)
Lemma overlapping_run n path dev role c b s evs labels st :
  run (onto n) path dev role = Ok (c, b, s) ->
  steps pool_step (s, map (serve (configOf s) b) evs) labels st ->
  broker_ok (configOf s) (asked_by b (st_authorizer s) evs) (st_authorizer s) (fst st) /\
  Forall2 (fun Q p => Threads.safe (broker_ok (configOf s) (asked_by b (st_authorizer s) evs) (st_authorizer s))
                        broker_later Q p (fst st))
    (map (event_done b (st_authorizer s) (configOf s)) evs) (snd st).
Proof.
  intros Hr Hsteps. destruct (run_shares _ _ _ _ _ _ _ Hr) as (client & Htok & Hbao & _).
  assert (Hok : broker_ok (configOf s) (asked_by b (st_authorizer s) evs) (st_authorizer s) s).
  { split; [done|]. unfold configOf. rewrite Hbao. by apply shared_ok_fresh. }
  destruct (pool_safe _ broker_later _ _ _ _ _
              ltac:(apply Forall_map, Forall_true; intros ev; apply event_done_monotone) Hok
              (events_safe b (st_authorizer s) (configOf s) evs evs s (run_verifies _ _ _ _ _ _ _ Hr) ltac:(done)) Hsteps) as (Hok' & _ & Hps).
  by split.
Qed.

(** What an operation is asked for, shows a credential. *)
Lemma asks_credential c b a dev_role ev op :
  built c b a false dev_role -> AllowUnauthenticatedEnrollment (Cfg_Policy c) = false ->
  event_asks b a ev op -> op = OpCAChain \/ credential c b ev.
Proof.
  intros Hb Hopen. destruct ev as [arr boundary now r|arr m r|r]; simpl.
  - intros Hop. destruct Hop as [Hm|op label der req d _ _ Had|label der req d _ Had]; [by left|right|right];
      by eapply (est_admitted_credential c b a dev_role arr boundary now _ _ r (Some a)).
  - intros (h & Hh & Hop). destruct Hop as [Hm|req d (w & Hw & Had)]; [by left|right].
    by eapply (scep_admitted_credential c b a dev_role arr h m r w).
  - intros ->. by left.
Qed.

(** C1. No credential, no certificate, however requests overlap: whatever
    requests come to a broker assembled from a configuration file, without the
    development flag and without the explicit opt-out, and however their steps
    interleave, everything on the wire to OpenBao is a login, a renewal of a
    granted token, a read of the CA chain, or, under a granted token, the
    issuance decided for a request that was admitted and that presented a
    certificate of a configured anchor or carried the configured secret. *)
Theorem overlapping_no_credential_no_certificate n path role c b s evs labels st
    (Hrun : run (onto n) path false role = Ok (c, b, s))
    (Hopen : AllowUnauthenticatedEnrollment (Cfg_Policy c) = false)
    (Hsteps : steps pool_step (s, map (serve (configOf s) b) evs) labels st) :
  let g := configOf s in
  forall before x after, log (st_bao (fst st)) = before ++ x :: after ->
  x_call x = loginCall g \/
  exists tok, granted g before tok /\
    (x_call x = renewCall g tok \/
     exists op, pkiCall g op tok (x_call x) /\
       (op = OpCAChain \/
        exists ev, ev ∈ evs /\ event_asks b (st_authorizer s) ev op /\ credential c b ev)).
Proof.
  intros g before x after Hlog. destruct (overlapping_run _ _ _ _ _ _ _ _ _ _ Hrun Hsteps) as [[_ (_ & Hok & _)] _].
  destruct (Hok before x after Hlog) as [Hl|(tok & Hg & Hc)]; [by left|right]. exists tok. split; [done|].
  destruct Hc as [Hr|(op & (ev & Hev & Hop) & Hc)]; [by left|right]. exists op. split; [done|].
  destruct (asks_credential _ _ _ _ _ _ (run_built _ _ _ _ _ _ _ Hrun) Hopen Hop) as [?|?]; [by left|right; by exists ev].
Qed.

(** C2. Overlapping requests do not get each other's certificates: however the
    requests of a broker interleave, an EST request with a non-error answer to
    a POST was admitted by the broker's authorizer, and was given the
    certificate that OpenBao answered to its own call, verified against its own
    decision by [authz.VerifyIssued], with its record in the audit log; a SCEP
    message is answered by an error, by the one refusal, or likewise with the
    certificate of its own call that [authz.VerifyIssued] found within its own
    decision. *)
Theorem overlapping_answers_own n path dev role c b s evs labels st i ev resp
    (Hrun : run (onto n) path dev role = Ok (c, b, s))
    (Hsteps : steps pool_step (s, map (serve (configOf s) b) evs) labels st)
    (Hev : evs !! i = Some ev) (Hresp : snd st !! i = Some (Return (Some resp))) :
  match ev with
  | EstRequest _ boundary now r =>
      Method r = MethodPost ->
      400 <= Status resp \/ est_released (configOf s) (st_authorizer s) (estHandler b) boundary now r resp (fst st)
  | ScepRequest _ m r =>
      exists h, scepHandler b = Some h /\ scep_done (configOf s) (st_authorizer s) h m r resp (fst st)
  | HealthRequest _ => True
  end.
Proof.
  destruct (overlapping_run _ _ _ _ _ _ _ _ _ _ Hrun Hsteps) as [_ Hps].
  assert (Hd : event_done b (st_authorizer s) (configOf s) ev (Some resp) (fst st)).
  { apply (Forall2_lookup_lr _ _ _ i (event_done b (st_authorizer s) (configOf s) ev) (Return (Some resp)) Hps); [|done].
    by rewrite list_lookup_fmap, Hev. }
  exact (Hd resp eq_refl).
Qed.
End Broker.

(** ** Three requests at once *)

Section Witnesses.
#[local] Existing Instances ascii_tables toyX509 toyPkcs7 exampleOs exampleInventory exampleKeys.

(** The deployment of [MainTheory.v], without challenges. *)
Definition certificatesOnly : Config.Config :=
  let f := exampleFile in let p := Cfg_Policy f in
  {| Cfg_Server := Cfg_Server f; Cfg_OpenBao := Cfg_OpenBao f; Cfg_Trust := Cfg_Trust f; Cfg_RoleMap := Cfg_RoleMap f;
     Cfg_Policy := {| AllowedKeyTypes := AllowedKeyTypes p; Pol_MaxValidity := Pol_MaxValidity p; RequireCPP := false;
                      MinRSABits := MinRSABits p; MaxRSABits := MaxRSABits p;
                      ServerKeyGenKeyType := ServerKeyGenKeyType p; ServerKeyGenKeyBits := ServerKeyGenKeyBits p;
                      SANConstraint := SANConstraint p; AllowUnauthenticatedEnrollment := false |};
     Cfg_Inventory := Cfg_Inventory f; Cfg_Challenge := Cfg_Challenge f; Cfg_Limits := Cfg_Limits f;
     Cfg_SCEP := Cfg_SCEP f; Cfg_Audit := Cfg_Audit f |}.
#[local] Instance certificatesYaml : ConfigYaml := fun _ _ => Ok certificatesOnly.

Definition arrives : arrival := {| arr_now := 0; arr_gnow := 0; arr_order := []; arr_gorder := []; arr_acquired := true |}.

(** A device renews over EST, another over SCEP, and nobody enrols. *)
Definition device : Certificate := exampleCert "device.pem" [] Hour.
Definition estRenewal : event :=
  EstRequest arrives "b" 0
    (exampleHttp "POST" "/.well-known/est/simplereenroll" "" (base64Lines (bytes_of_string "device.pem"))
       (Some {| PeerCertificates := [device] |})).
Definition renewalMoment : moment :=
  {| m_replay := 0; m_authz := 0; m_draws := {| d_nonce := Ok []; d_seed := [] |} |}.
Definition renewalMessage : HttpRequest :=
  exampleHttp "POST" "/scep" "operation=PKIOperation"
    (bytes_of_string "17|tx-1|0123456789abcdef|device.pem|device.pem") None.
Definition scepRenewal : event := ScepRequest arrives renewalMoment renewalMessage.
Definition threeRequests : list event := [estRenewal; nobody; scepRenewal].

Definition issues (cn : string) : result (Z * Body) :=
  BaoTheory.answer 200 (String.append (pemCert cn) ";12:34").
Definition upstreamScript : script :=
  {| answers := [BaoTheory.answer 200 "tok-1"; BaoTheory.answer 200 "tok-2"; issues "device.pem"; issues "device.pem"];
     clock := 0 |}.

(** In turn, until each is done. *)
Definition turns : list nat :=
  (concat (replicate 4 [0; 1; 2]) ++ concat (replicate 5 [0; 2]) ++ [2])%nat.

Abbreviation Pool := (state (Client * (script * list exchange)) *
                      list (prog (state (Client * (script * list exchange))) (option Response)))%type.

Definition threeRun : option (Config.Config * broker * state (Client * (script * list exchange)) * Pool) :=
  match run (onto upstreamScript) "config.yaml" false "" with
  | Ok (c, b, s) => option_map (fun st => (c, b, s, st)) (schedule turns (s, map (serve (configOf s) b) threeRequests))
  | Err _ => None
  end.

Lemma threeRun_steps c b s st :
  threeRun = Some (c, b, s, st) ->
  run (onto upstreamScript) "config.yaml" false "" = Ok (c, b, s) /\
  steps pool_step (s, map (serve (configOf s) b) threeRequests) turns st.
Proof.
  unfold threeRun. destruct (run _ _ _ _) as [[[c' b'] s']|e]; [|done].
  destruct (schedule turns _) as [st'|] eqn:Hs; [|done]. intros [= <- <- <- <-].
  split; [done|by apply schedule_steps].
Qed.

(** What the run came to. *)
Definition outcome (r : Config.Config * broker * state (Client * (script * list exchange)) * Pool) :=
  let '(c, b, s, st) := r in
  (AllowUnauthenticatedEnrollment (Cfg_Policy c), map (fun x => hc_token (x_call x)) (log (st_bao (fst st))),
   map A_outcome (st_estLog (fst st)), map S_outcome (st_scepLog (fst st)),
   map (fun p => match p with Return (Some resp) => Some (Status resp) | _ => None end) (snd st)).

Lemma threeRun_outcome :
  option_map outcome threeRun =
  Some (false, [""; ""; "tok-1"; "tok-2"], ["deny"; "issued"], ["issued"], [Some 200; Some 403; Some 200]).
Proof. vm_compute. reflexivity. Qed.

(** One after the other, one login is enough. *)
Definition oneLogin : script :=
  {| answers := [BaoTheory.answer 200 "tok-1"; issues "device.pem"; issues "device.pem"]; clock := 0 |}.

Lemma serving_refines_witness :
  exists c b s labels, run (onto oneLogin) "config.yaml" false "" = Ok (c, b, s) /\
    map (option_map Status) (responses b threeRequests s) = [Some 200; Some 403; Some 200] /\
    steps pool_step (s, map (serve (configOf s) b) threeRequests) labels
      (serves b threeRequests s, map Return (responses b threeRequests s)).
Proof.
  assert (Hout : match run (onto oneLogin) "config.yaml" false "" with
                 | Ok (_, b, s) => map (option_map Status) (responses b threeRequests s)
                 | Err _ => []
                 end = [Some 200; Some 403; Some 200]) by (vm_compute; reflexivity).
  destruct (run (onto oneLogin) "config.yaml" false "") as [[[c b] s]|e] eqn:Hrun; [|discriminate Hout].
  destruct (serving_refines _ _ _ _ _ _ _ threeRequests Hrun) as [labels Hsteps].
  exists c, b, s, labels. split; [reflexivity|]. split; [exact Hout|exact Hsteps].
Defined.

Lemma overlapping_requests_end_witness :
  exists c b s st, threeRun = Some (c, b, s, st) /\ (length turns <= 3 * eventBound (configOf s))%nat /\
    map (fun p => match p with Return (Some resp) => Some (Status resp) | _ => None end) (snd st) =
      [Some 200; Some 403; Some 200].
Proof.
  pose proof threeRun_outcome as Hout. destruct threeRun as [[[[c b] s] st]|] eqn:H3; [|discriminate Hout].
  destruct (threeRun_steps _ _ _ _ H3) as [Hrun Hsteps]. exists c, b, s, st. split; [reflexivity|]. split.
  - exact (proj1 (overlapping_requests_end _ _ _ _ _ _ _ threeRequests turns st Hrun Hsteps)).
  - unfold outcome in Hout. cbn [option_map] in Hout. injection Hout as _ _ _ _ Hst. exact Hst.
Defined.

(** The call under "tok-1" was asked for by a request with a credential. *)
Lemma overlapping_no_credential_no_certificate_witness :
  exists c b s st x tok op, threeRun = Some (c, b, s, st) /\
    log (st_bao (fst st)) !! 2%nat = Some x /\ hc_token (x_call x) = "tok-1" /\
    pkiCall (configOf s) op tok (x_call x) /\
    (op = OpCAChain \/
     exists ev, ev ∈ threeRequests /\ event_asks (N := script) b (st_authorizer s) ev op /\ credential c b ev).
Proof.
  pose proof threeRun_outcome as Hout. destruct threeRun as [[[[c b] s] st]|] eqn:H3; [|discriminate Hout].
  destruct (threeRun_steps _ _ _ _ H3) as [Hrun Hsteps].
  unfold outcome in Hout. cbn [option_map] in Hout. injection Hout as Hopen Htoks _ _ _.
  assert (Hpaths : option_map (fun r => map (fun x => hc_url (x_call x)) (log (st_bao (fst (snd r))))) threeRun =
            Some ["https://openbao:8200/v1/auth/approle/login"; "https://openbao:8200/v1/auth/approle/login";
                  "https://openbao:8200/v1/pki_int/sign/devices"; "https://openbao:8200/v1/pki_int/sign/devices"])
    by (vm_compute; reflexivity).
  assert (Haddr : option_map (fun r => Address (configOf (snd (fst r)))) threeRun = Some "https://openbao:8200")
    by (vm_compute; reflexivity).
  rewrite H3 in Hpaths, Haddr. cbn [option_map snd fst] in Hpaths, Haddr. injection Haddr as Haddr. injection Hpaths as Hpaths.
  destruct (log (st_bao (fst st))) as [|x0 [|x1 [|x [|x3 [|]]]]] eqn:Hlog; try discriminate Htoks.
  cbn [map] in Htoks, Hpaths. injection Htoks as _ _ Htok _. injection Hpaths as _ _ Hurl _.
  destruct (overlapping_no_credential_no_certificate _ _ _ _ _ _ threeRequests turns st Hrun Hopen Hsteps
              [x0; x1] x [x3] Hlog) as [Hl|(tok & Hg & [Hr|(op & Hcall & Hop)])].
  - rewrite Hl in Htok. discriminate Htok.
  - exfalso. rewrite Hr in Hurl. unfold renewCall, callOf, callURL in Hurl. cbn [hc_url] in Hurl.
    rewrite Haddr in Hurl. vm_compute in Hurl. discriminate Hurl.
  - exists c, b, s, st, x, tok, op. split; [reflexivity|]. rewrite Hlog. split; [reflexivity|].
    split; [exact Htok|]. split; [exact Hcall|exact Hop].
Defined.

(** The EST renewal got the certificate OpenBao answered to its own call. *)
Lemma overlapping_answers_own_witness :
  exists c b s st resp, threeRun = Some (c, b, s, st) /\ snd st !! 0%nat = Some (Return (Some resp)) /\
    Status resp = 200 /\
    est_released (configOf s) (st_authorizer s) (estHandler b) "b" 0
      (exampleHttp "POST" "/.well-known/est/simplereenroll" "" (base64Lines (bytes_of_string "device.pem"))
         (Some {| PeerCertificates := [device] |})) resp (fst st).
Proof.
  pose proof threeRun_outcome as Hout. destruct threeRun as [[[[c b] s] st]|] eqn:H3; [|discriminate Hout].
  destruct (threeRun_steps _ _ _ _ H3) as [Hrun Hsteps].
  unfold outcome in Hout. cbn [option_map] in Hout. injection Hout as _ _ _ _ Hst.
  destruct (snd st) as [|p ps] eqn:Hps; [discriminate Hst|]. cbn [map] in Hst. injection Hst as Hp _.
  destruct p as [[resp|]|B f k]; [|discriminate Hp|discriminate Hp]. injection Hp as Hok.
  assert (Hresp : snd st !! 0%nat = Some (Return (Some resp))) by (rewrite Hps; reflexivity).
  exists c, b, s, st, resp. split; [reflexivity|]. split; [exact Hresp|]. split; [exact Hok|].
  destruct (overlapping_answers_own _ _ _ _ _ _ _ threeRequests turns st 0%nat estRenewal resp Hrun Hsteps
              eq_refl Hresp eq_refl) as [Hbad|Hrel].
  - exfalso. rewrite Hok in Hbad. apply Hbad. reflexivity.
  - exact Hrel.
Defined.
End Witnesses.
