(* ===== verification/ScepOnce.v ===== *)
(** * internal/scep/replay.go: copies of a message that overlap

    The replay cache under requests that overlap: of any number of copies of a
    SCEP message that are served side by side, at most one gets past it.  The
    ghost state is which request a pair of transaction and nonce was accepted
    for; the rest of the broker does not touch the cache. *)
From S2P Require Import Prelude GoLib GoCrypto GoNet X509 Authz Match Inventory Challenge Policy Verify Pipeline Replay Limits Http Middleware Pem Csr Bao BaoTheory Threads Flow BaoConc BaoSafe.
From S2P Require Import Config Main MainTheory Overlap EstConc Cms ScepMessage ScepHandler ScepTheory ScepConc BrokerConc.

(** ** The cache and who was let through *)

Abbreviation winners := (gmap string nat).

Section Cache.
Context (T : Duration) (cap : Z) (t0 : Time) (keys : gset string).

(** A cache of checks made from [t0] on, of pairs in [keys], none of which
    expires before [t0 + T]; whoever was let through is recorded. *)
Record cache_ok (rc : ReplayCache) (won : winners) : Prop := {
  co_ttl : ttl rc = T;
  co_cap : maxSize rc = cap;
  co_keys : dom (Replay.seen rc) ⊆ keys;
  co_live : forall k t, Replay.seen rc !! k = Some t -> t0 + T <= t;
  co_won : forall k i, won !! k = Some i -> is_Some (Replay.seen rc !! k);
}.

(** A check within the window, with room for every pair: the first copy is let
    through, and every other refused. *)
Lemma cache_check rc won now key i :
  cache_ok rc won -> key ∈ keys -> t0 <= now < t0 + T -> Z.of_nat (size keys) <= cap ->
  (checkKey rc now key).1 = rc /\ (checkKey rc now key).2 = false \/
  won !! key = None /\ (checkKey rc now key).2 = true /\
    cache_ok (checkKey rc now key).1 (<[key := i]> won).
Proof.
  intros [Httl Hcap Hkeys Hlive Hwon] Hkey [Hnow Hend] Hroom. unfold checkKey, unexpired, Before.
  destruct (Replay.seen rc !! key) as [t|] eqn:Hk.
  - left. specialize (Hlive key t Hk). by destruct (Z.ltb_spec now t); [|lia].
  - right. assert (Hout : key ∉ dom (Replay.seen rc)) by (by apply not_elem_of_dom).
    assert (Hsize : (size (Replay.seen rc) < size keys)%nat).
    { rewrite <- size_dom. apply subset_size. split; [done|]. intros Hsub. by apply Hout, Hsub. }
    destruct (Z.leb_spec (maxSize rc) (Size rc)) as [Hfull|_]; [unfold Size in Hfull; lia|].
    split_and!; [destruct (won !! key) eqn:Hw; [|done]; destruct (Hwon _ _ Hw); congruence|done|].
    split; cbn [fst ttl maxSize Replay.seen withSeen]; try done.
    + rewrite dom_insert_L. set_solver.
    + intros k t Ht. apply lookup_insert_Some in Ht as [[_ <-]|[_ Ht]]; [unfold Add; lia|by eapply Hlive].
    + intros k j Hj. rewrite lookup_insert. case_decide; [done|].
      apply lookup_insert_Some in Hj as [[? _]|[_ Hj]]; [done|by eapply Hwon].
Qed.

Lemma cache_ok_fresh rc : ttl rc = T -> maxSize rc = cap -> Replay.seen rc = ∅ -> cache_ok rc ∅.
Proof.
  intros Httl Hcap Hseen. split; [done|done| | |].
  - rewrite Hseen, dom_empty_L. set_solver.
  - intros k t. by rewrite Hseen, lookup_empty.
  - intros k i. by rewrite lookup_empty.
Qed.
End Cache.

(** ** The requests *)

Section Once.
Context `{UnicodeTables} `{InventoryFile} `{X509} `{Pkcs7Lib} `{Json} {N : Type} `{Upstream N}.
Context (g : Bao.Config) (b : broker).

Abbreviation St := (state (Client * N)).

(** A step beside the cache. *)
Definition same_cache (s s' : St) : Prop := st_replay s' = st_replay s.

Lemma bao_same_cache {A} (p : prog (Client * N) A) : steps_in same_cache (onBao p).
Proof. by apply steps_in_lift. Qed.
Lemma authorize_same_cache now req : steps_in same_cache (Overlap.callAuthorize now req).
Proof. intros s. simpl. by destruct (Authorize _ _ _). Qed.
Lemma estAudit_same_cache op req d out e : steps_in same_cache (estAudit op req d out e).
Proof. done. Qed.
Lemma scepAudit_same_cache req d out rem e : steps_in same_cache (scepAudit req d out rem e).
Proof. done. Qed.
#[local] Hint Resolve bao_same_cache authorize_same_cache estAudit_same_cache scepAudit_same_cache : steps_in.

Lemma est_same_cache h boundary now r : steps_in same_cache (EstConc.serve g h boundary now r).
Proof.
  apply steps_in_f_run.
  unfold EstConc.ServeHTTP, EstConc.methodGuard, EstConc.enroll, EstConc.serverKeyGen, EstConc.caCerts, EstConc.csrAttrs,
    EstConc.admission, EstConc.audit, EstConc.reply.
  steps_in.
Qed.

Lemma limited_same_cache arr next r : steps_in same_cache next -> steps_in same_cache (Overlap.limited arr next r).
Proof.
  intros Hn. apply steps_in_bind.
  { intros s. unfold same_cache. simpl. by destruct (askClient (st_limiter s) _ _ _). }
  intros [|]; cbn [negb]; [|done]. apply steps_in_bind.
  { intros s. unfold same_cache. simpl. by destruct (askGlobal (st_limiter s) _ _). }
  intros [|]; cbn [negb]; [|done]. by destruct (arr_acquired arr).
Qed.

Lemma issue_same_cache h m r req : steps_in same_cache (ScepConc.issue g h m r req).
Proof. unfold ScepConc.issue, ScepConc.audit, ScepConc.fail_, ScepConc.reply. steps_in. Qed.

Lemma health_same_cache r : steps_in same_cache (BrokerConc.healthHandler g r).
Proof.
  unfold BrokerConc.healthHandler. destruct (_ =? _)%string; [done|]. destruct (_ =? _)%string; [|done].
  apply steps_in_bind; [apply bao_same_cache|done].
Qed.

(** The pair of a SCEP request that parses. *)
Definition pairOf (h : ScepHandler.handler) (r : HttpRequest) : option (ScepRequest * string) :=
  match readMessage h r with
  | inl body => match Parse (parser h) body with
                | Ok req => Some (req, replayKey (TransactionID_ (SR_Attributes req)) (SenderNonce (SR_Attributes req)))
                | Err _ => None
                end
  | inr _ => None
  end.

(** Not answered with a certificate: an HTTP error or the refusal. *)
Definition turned_away (h : ScepHandler.handler) (m : moment) (req : ScepRequest) (resp : Response) : Prop :=
  400 <= Status resp \/ refusal h m req resp.

Section Window.
Context (T : Duration) (cap : Z) (t0 : Time) (keys : gset string) (Hroom : Z.of_nat (size keys) <= cap).

Definition replay_ok (s : St) (won : winners) : Prop :=
  exists rc, st_replay s = Some rc /\ cache_ok T cap t0 keys rc won.

Abbreviation upholds := (Threads.upholds replay_ok (⊆@{winners})).

Lemma upholds_beside {A} (Q : A -> winners -> Prop) (p : prog St A) won :
  steps_in same_cache p -> (forall x won', won ⊆ won' -> Q x won') -> upholds Q p won.
Proof.
  apply upholds_quiet; [apply _|]. intros s s' w Hs (rc & Hrc & Hok). exists rc. split; [by rewrite Hs|done].
Qed.

(** Request number [i]: if its message parses, then it is turned away, or it is
    the one its pair was accepted for. *)
Definition once (i : nat) (h : ScepHandler.handler) (m : moment) (r : HttpRequest) (resp : Response)
    (won : winners) : Prop :=
  Query_Get r "operation" = "PKIOperation" ->
  forall req key, pairOf h r = Some (req, key) -> turned_away h m req resp \/ won !! key = Some i.

Lemma once_lasting i h m r : lasting (⊆) (once i h m r).
Proof.
  intros resp w w' Hle Ho Hop req key Hp. destruct (Ho Hop req key Hp) as [?|Hw]; [by left|right].
  by eapply lookup_weaken.
Qed.

Lemma upholds_pki i h m r won :
  (forall req key, pairOf h r = Some (req, key) -> key ∈ keys) -> t0 <= m_replay m < t0 + T ->
  upholds (fun x => once i h m r (match x with inl resp | inr resp => resp end)) (ScepConc.pkiOperation g h m r) won.
Proof.
  intros Hkeys Hwin. unfold ScepConc.pkiOperation, once. unfold pairOf in *.
  destruct (readMessage h r) as [body|[status e]]; [|done]. cbn [f_ret f_bind p_bind].
  destruct (Parse (parser h) body) as [req|e]; [|done]. cbn [f_try f_ret f_bind p_bind].
  specialize (Hkeys req _ eq_refl).
  set (key := replayKey (TransactionID_ (SR_Attributes req)) (SenderNonce (SR_Attributes req))) in *.
  intros s1 w1 Hle (rc & Hrc & Hok). rewrite Hrc. unfold Check. fold key.
  pose proof (cache_check _ _ _ _ rc w1 (m_replay m) key i Hok Hkeys Hwin Hroom) as Hc.
  destruct (checkKey rc (m_replay m) key) as [rc' fresh]. cbn [fst snd] in *.
  destruct Hc as [[-> ->]|(Hnone & -> & Hok')].
  - exists w1. split; [done|]. split; [by exists rc|]. cbn. intros Hop req' key' [= <- <-]. left. by right.
  - exists (<[key := i]> w1). split; [by apply insert_subseteq|]. split; [by exists rc'|].
    apply upholds_beside; [apply issue_same_cache|]. intros x w' Hw' Hop req' key' [= <- <-]. right.
    eapply lookup_weaken; [|exact Hw']. apply lookup_insert_eq.
Qed.

Lemma upholds_serve i h m r won :
  (forall req key, pairOf h r = Some (req, key) -> key ∈ keys) -> t0 <= m_replay m < t0 + T ->
  upholds (once i h m r) (ScepConc.serve g h m r) won.
Proof.
  intros Hkeys Hwin. eapply upholds_bind with
    (Q1 := fun x => once i h m r (match x with inl resp | inr resp => resp end)); [apply _| |by intros [resp|resp]].
  unfold ScepConc.ServeHTTP. destruct (String.eqb_spec (Query_Get r "operation") "GetCACert") as [Hop|_].
  { apply upholds_beside; [unfold ScepConc.getCACert, ScepConc.reply; steps_in|].
    intros x w' _ Hop'. by rewrite Hop in Hop'. }
  destruct (String.eqb_spec (Query_Get r "operation") "GetCACaps") as [Hop|_].
  { intros Hop'. by rewrite Hop in Hop'. }
  destruct (String.eqb_spec (Query_Get r "operation") "PKIOperation") as [_|Hop]; [by apply upholds_pki|].
  by intros Hop'.
Qed.
End Window.
End Once.

(** ** The broker *)

Section Broker.
Context `{UnicodeTables} `{Os} `{ConfigYaml} `{InventoryFile} `{X509} `{Pkcs7Lib} `{!KeyPairs}.
Context `{Json} {N : Type} `{Upstream N}.

Abbreviation St := (state (Client * (N * list exchange))).

Lemma run_cache {E} (connect : Client -> E) path dev role c b s rc :
  run connect path dev role = Ok (c, b, s) -> st_replay s = Some rc -> Replay.seen rc = ∅.
Proof.
  unfold run. intros Hr. apply result_bind_ok in Hr as (c' & _ & Hr).
  apply result_bind_ok in Hr as (secretID & _ & Hr). apply result_bind_ok in Hr as (ca & _ & Hr).
  apply result_bind_ok in Hr as (client & _ & Hr). apply result_bind_ok in Hr as ([boot device] & _ & Hr).
  apply result_bind_ok in Hr as (cert & _ & Hr). apply result_bind_ok in Hr as (a & _ & Hr).
  apply result_bind_ok in Hr as ([estH estW] & _ & Hr). apply result_bind_ok in Hr as ([sh orc] & Hscep & Hr).
  injection Hr as <- <- <-. cbn [st_replay snd]. intros ->. destruct (Scep_Enabled _); [|by simplify_eq].
  apply result_bind_ok in Hscep as ([h w] & Hb & [= _ <-]). unfold buildSCEPServer in Hb.
  apply result_bind_ok in Hb as ([ra key] & _ & Hb). simpl in Hb. by injection Hb as _ <-.
Qed.

Section Requests.
Context (b : broker) (evs : list event).

Definition event_key (ev : event) : option string :=
  match ev, scepHandler b with
  | Main.ScepRequest _ _ r, Some h => option_map snd (pairOf h r)
  | _, _ => None
  end.
Definition pairs : gset string := list_to_set (omap event_key evs).

Lemma pairs_size : (size pairs <= length evs)%nat.
Proof.
  unfold pairs. induction evs as [|ev l IH]; [change (size (∅ : gset string) <= 0)%nat; by rewrite size_empty|].
  change (omap event_key (ev :: l)) with
    (match event_key ev with Some k => k :: omap event_key l | None => omap event_key l end).
  cbn [length]. destruct (event_key ev) as [k|]; [|lia]. rewrite list_to_set_cons.
  rewrite size_union_alt, size_singleton.
  pose proof (subseteq_size (list_to_set (omap event_key l) ∖ {[k]} : gset string) (list_to_set (omap event_key l))
                ltac:(set_solver)). lia.
Qed.

Lemma event_key_pairs ev k : ev ∈ evs -> event_key ev = Some k -> k ∈ pairs.
Proof. intros Hev Hk. apply elem_of_list_to_set, list_elem_of_omap. by exists ev. Qed.

Definition event_once (i : nat) (ev : event) (o : option Response) (won : winners) : Prop :=
  forall resp h, o = Some resp -> scepHandler b = Some h ->
  match ev with Main.ScepRequest _ m r => once i h m r resp won | _ => True end.

Lemma event_once_lasting i ev : lasting (⊆) (event_once i ev).
Proof.
  intros o w w' Hle Ho resp h Hr Hh. specialize (Ho resp h Hr Hh). destruct ev as [| |]; [done| |done].
  by eapply once_lasting.
Qed.

Lemma upholds_event (g : Bao.Config) T cap t0 i ev won :
  Z.of_nat (size pairs) <= cap -> ev ∈ evs ->
  (forall arr m r, ev = Main.ScepRequest arr m r -> t0 <= m_replay m < t0 + T) ->
  Threads.upholds (replay_ok (N := N * list exchange) T cap t0 pairs) (⊆) (event_once i ev) (BrokerConc.serve g b ev) won.
Proof.
  intros Hroom Hev Hwin. destruct ev as [arr boundary now r|arr m r|r]; cbn [BrokerConc.serve].
  - apply upholds_beside; [|done]. apply steps_in_bind; [apply limited_same_cache, est_same_cache|done].
  - destruct (scepHandler b) as [h|] eqn:Hh; [|by intros resp h ?].
    assert (Hkeys : forall req key, pairOf h r = Some (req, key) -> key ∈ pairs).
    { intros req key Hp. apply (event_key_pairs (Main.ScepRequest arr m r)); [done|]. simpl. by rewrite Hh, Hp. }
    eapply upholds_bind with (Q1 := once i h m r); [apply _| |].
    2:{ intros resp w' _ Ho resp' h' [= <-] Hh'. rewrite Hh in Hh'. by injection Hh' as <-. }
    assert (Haway : forall resp w, 400 <= Status resp -> once i h m r resp w)
      by (intros resp w Hs _ req key _; left; by left).
    eapply upholds_bind with (Q1 := fun _ _ => True); [apply _| |].
    { apply upholds_beside; [|done]. intros s. unfold same_cache. simpl.
      by destruct (askClient (st_limiter s) _ _ _). }
    intros [|] w1 _ _; cbn [negb]; [|by apply Haway].
    eapply upholds_bind with (Q1 := fun _ _ => True); [apply _| |].
    { apply upholds_beside; [|done]. intros s. unfold same_cache. simpl.
      by destruct (askGlobal (st_limiter s) _ _). }
    intros [|] w2 _ _; cbn [negb]; [|by apply Haway].
    destruct (arr_acquired arr); [|by apply Haway]. apply upholds_serve; [done|done|by eapply Hwin].
  - apply upholds_beside; [|done]. apply steps_in_bind; [apply health_same_cache|done].
Qed.
End Requests.

(** C3. Of two copies of a SCEP message that overlap, at most one is answered
    with a certificate: however the requests of a broker interleave, two of them
    with the same transaction and sender nonce do not both get past the replay
    cache; at least one is answered by an error or by the one refusal.  All
    messages are checked within one TTL, and the cache has room for them. *)
Theorem overlapping_copies_once n path dev role c b s evs labels st rc t0 h
    i arr m r req resp j arr' m' r' req' resp' key
    (Hrun : run (onto n) path dev role = Ok (c, b, s))
    (Hsteps : steps pool_step (s, map (BrokerConc.serve (configOf s) b) evs) labels st)
    (Hh : scepHandler b = Some h) (Hrc : st_replay s = Some rc)
    (Hwindow : forall a m r, Main.ScepRequest a m r ∈ evs -> t0 <= m_replay m < t0 + ttl rc)
    (Hroom : Z.of_nat (length evs) <= maxSize rc)
    (Hij : i <> j)
    (Hi : evs !! i = Some (Main.ScepRequest arr m r)) (Hopi : Query_Get r "operation" = "PKIOperation")
    (Hj : evs !! j = Some (Main.ScepRequest arr' m' r')) (Hopj : Query_Get r' "operation" = "PKIOperation")
    (Hpi : pairOf h r = Some (req, key)) (Hpj : pairOf h r' = Some (req', key))
    (Hri : snd st !! i = Some (Return (Some resp))) (Hrj : snd st !! j = Some (Return (Some resp'))) :
  turned_away h m req resp \/ turned_away h m' req' resp'.
Proof.
  set (K := pairs b evs).
  assert (HK : Z.of_nat (size K) <= maxSize rc) by (pose proof (pairs_size b evs); unfold K; lia).
  assert (Hok : replay_ok (ttl rc) (maxSize rc) t0 K s ∅).
  { exists rc. split; [done|]. apply cache_ok_fresh; [done|done|]. by eapply run_cache. }
  assert (HQs : Forall (lasting (⊆)) (imap (event_once b) evs)).
  { apply Forall_lookup_2. intros k Q Hk. rewrite list_lookup_imap in Hk.
    destruct (evs !! k) as [ev|]; [|done]. injection Hk as <-. apply event_once_lasting. }
  assert (Hps0 : Forall2 (fun Q p => Threads.upholds (replay_ok (ttl rc) (maxSize rc) t0 K) (⊆) Q p ∅)
            (imap (event_once b) evs) (map (BrokerConc.serve (N := N * list exchange) (configOf s) b) evs)).
  { apply Forall2_same_length_lookup_2; [by rewrite length_imap, length_map|].
    intros k Q p Hk Hp. rewrite list_lookup_imap in Hk. rewrite list_lookup_fmap in Hp.
    destruct (evs !! k) as [ev|] eqn:Hev; [|done]. injection Hk as <-. injection Hp as <-.
    apply list_elem_of_lookup_2 in Hev. apply upholds_event; [exact HK|exact Hev|].
    intros a0 m0 r0 ->. by eapply Hwindow. }
  destruct (pool_upholds _ (⊆) _ _ _ _ _ _ HQs Hok Hps0 Hsteps) as (won & _ & _ & Hps).
  assert (Honce : forall k a0 m0 r0 resp0, evs !! k = Some (Main.ScepRequest a0 m0 r0) ->
              snd st !! k = Some (Return (Some resp0)) -> once k h m0 r0 resp0 won).
  { intros k a0 m0 r0 resp0 Hk Hr0.
    assert (HQ : imap (event_once b) evs !! k = Some (event_once b k (Main.ScepRequest a0 m0 r0)))
      by (rewrite list_lookup_imap, Hk; done).
    exact (Forall2_lookup_lr _ _ _ k _ _ Hps HQ Hr0 resp0 h eq_refl Hh). }
  destruct (Honce i arr m r resp Hi Hri Hopi req key Hpi) as [?|Hwi]; [by left|].
  destruct (Honce j arr' m' r' resp' Hj Hrj Hopj req' key Hpj) as [?|Hwj]; [by right|].
  congruence.
Qed.
End Broker.

(** ** One message, sent twice at once *)

Section Witnesses.
#[local] Existing Instances ascii_tables toyX509 toyPkcs7 exampleOs exampleInventory exampleKeys certificatesYaml.

Definition twoCopies : list event := [scepRenewal; scepRenewal].
Definition copyTurns : list nat := (concat (replicate 3 [0; 1]) ++ replicate 7 0)%nat.

Abbreviation Pool := (state (Client * (script * list exchange)) *
                      list (prog (state (Client * (script * list exchange))) (option Response)))%type.

Definition copiesRun : option (Config.Config * broker * state (Client * (script * list exchange)) * Pool) :=
  match run (onto oneLogin) "config.yaml" false "" with
  | Ok (c, b, s) =>
      option_map (fun st => (c, b, s, st)) (schedule copyTurns (s, map (BrokerConc.serve (configOf s) b) twoCopies))
  | Err _ => None
  end.

(** What the run came to, and what the broker is. *)
Definition copiesOutcome (r : Config.Config * broker * state (Client * (script * list exchange)) * Pool) :=
  let '(_, b, s, st) := r in
  (map S_outcome (st_scepLog (fst st)),
   map (fun p => match p with Return (Some resp) => Some (Status resp) | _ => None end) (snd st),
   match scepHandler b with Some h => option_map snd (pairOf h renewalMessage) | None => None end,
   option_map (fun rc => (maxSize rc, ttl rc)) (st_replay s)).

Lemma copiesRun_outcome :
  option_map copiesOutcome copiesRun =
  Some (["issued"], [Some 200; Some 200],
        Some "0fe1f8566f184b1ac7528ec30c5bba536e8c1374c7b8b40c1501689f2bd1e1a4", Some (100000, 15 * Minute)).
Proof. vm_compute. reflexivity. Qed.

(** Both are answered, one of them with a certificate, one with the refusal. *)
Lemma overlapping_copies_once_witness :
  exists c b s st h req resp resp', copiesRun = Some (c, b, s, st) /\
    map S_outcome (st_scepLog (fst st)) = ["issued"] /\
    snd st = [Return (Some resp); Return (Some resp')] /\ Status resp = 200 /\ Status resp' = 200 /\
    (turned_away h renewalMoment req resp \/ turned_away h renewalMoment req resp').
Proof.
  pose proof copiesRun_outcome as Hout. destruct copiesRun as [[[[c b] s] st]|] eqn:Hcopies; [|discriminate Hout].
  assert (Hsteps : run (onto oneLogin) "config.yaml" false "" = Ok (c, b, s) /\
                   steps pool_step (s, map (BrokerConc.serve (configOf s) b) twoCopies) copyTurns st).
  { unfold copiesRun in Hcopies. destruct (run _ _ _ _) as [[[c' b'] s']|e]; [|discriminate Hcopies].
    destruct (schedule copyTurns _) as [st'|] eqn:Hs; [|discriminate Hcopies]. injection Hcopies as <- <- <- <-.
    split; [reflexivity|]. by apply schedule_steps. }
  destruct Hsteps as [Hrun Hsteps].
  unfold copiesOutcome in Hout. cbn [option_map] in Hout. injection Hout as Haudit Hst Hpair Hrc.
  destruct (scepHandler b) as [h|] eqn:Hh; [|discriminate Hpair].
  destruct (pairOf h renewalMessage) as [[req key]|] eqn:Hp; [|discriminate Hpair].
  destruct (st_replay s) as [rc|] eqn:Hcache; [|discriminate Hrc]. cbn [option_map] in Hrc. injection Hrc as Hmax Httl.
  destruct (snd st) as [|p0 [|p1 [|p2 ps]]] eqn:Hps; try discriminate Hst. cbn [map] in Hst.
  destruct p0 as [[resp|]|B f k]; [|discriminate Hst|discriminate Hst].
  destruct p1 as [[resp'|]|B f k]; [|discriminate Hst|discriminate Hst]. injection Hst as H200 H200'.
  exists c, b, s, st, h, req, resp, resp'. split; [reflexivity|]. split; [exact Haudit|].
  split; [exact Hps|]. split; [exact H200|]. split; [exact H200'|].
  apply (overlapping_copies_once _ _ _ _ _ _ _ twoCopies copyTurns st rc 0 h 0%nat arrives renewalMoment renewalMessage
           req resp 1%nat arrives renewalMoment renewalMessage req resp' key Hrun Hsteps Hh Hcache); try reflexivity.
  - intros a m r Hin. rewrite Httl. apply elem_of_cons in Hin as [Hin|Hin]; [|apply list_elem_of_singleton in Hin];
      injection Hin as _ -> _; split; vm_compute; congruence.
  - rewrite Hmax. vm_compute. discriminate.
  - discriminate.
  - exact Hp.
  - exact Hp.
  - rewrite Hps. reflexivity.
  - rewrite Hps. reflexivity.
Defined.
End Witnesses.
