(* ===== verification/Lifecycle.v ===== *)
(** * cmd/certbroker/main.go: the process after its parts are built

    The listeners as goroutines, the error channel they report on, the signal,
    the [select] of [run] and the shutdown of the servers, as a step relation;
    what the process ends with; and the servers' timeouts. *)
From S2P Require Import Prelude GoLib GoCrypto GoNet X509 Authz Match Inventory Challenge Policy Verify Pipeline Replay Limits Http Middleware Pem Csr Bao Cms ScepMessage.
From S2P Require Import BaoTheory Est ScepHandler ScepTheory Config Main MainTheory.

(** ** The servers *)

(** The fields of [http.Server] that [run] sets besides the handler. *)
Record http_Server := {
  Hs_Addr : string;
  Hs_ReadTimeout : Duration;
  Hs_ReadHeaderTimeout : Duration;
  Hs_WriteTimeout : Duration;
  Hs_IdleTimeout : Duration;
  Hs_MaxHeaderBytes : Z;
}.

Definition serverAt (c : Config.Config) (addr : string) : http_Server :=
  let s := Cfg_Server c in
  {| Hs_Addr := addr; Hs_ReadTimeout := ReadTimeout s; Hs_ReadHeaderTimeout := ReadHeaderTimeout s;
     Hs_WriteTimeout := WriteTimeout s; Hs_IdleTimeout := IdleTimeout s; Hs_MaxHeaderBytes := MaxHeaderBytes s |}.

Definition estSrv (c : Config.Config) : http_Server := serverAt c (Srv_ListenAddr (Cfg_Server c)).
Definition healthSrv (c : Config.Config) : http_Server := serverAt c (HealthAddr (Cfg_Server c)).
Definition scepSrv (c : Config.Config) : option http_Server :=
  if Scep_Enabled (Cfg_SCEP c) then Some (serverAt c (Scep_ListenAddr (Cfg_SCEP c))) else None.

(** The bound on the whole shutdown. *)
Definition shutdownTimeout (c : Config.Config) : Duration :=
  let t := ShutdownTimeout (Cfg_Server c) in if t <=? 0 then 10 * Second else t.

(** ** Goroutines, channel and signal *)

Inductive listener := EstL | HealthL | ScepL.
#[export] Instance listener_eq_dec : EqDecision listener.
Proof. solve_decision. Defined.

(** A listener's goroutine: in [ListenAndServe]; returned from it with an error
    to report; reported; or returned because its server was shut down. *)
Inductive goroutine := Listening | Failed (e : error) | Reported | Closed.

(** [run] after the listeners start: in the [select]; to call [Shutdown] on the
    servers still listed; inside such a call; returned. *)
Inductive runPhase :=
| Selecting
| Closing (todo : list listener)
| InShutdown (l : listener) (todo : list listener)
| Returned (r : result unit).

Record process := {
  goroutines : list (listener * goroutine);
  errCh : list error;
  signalled : bool;              (** [ctx.Done()] is closed *)
  shut : list listener;          (** servers whose [Shutdown] was called *)
  phase_ : runPhase;
}.

Definition errCh_cap : nat := 3.

Definition with_go (p : process) (gs : list (listener * goroutine)) (ch : list error) : process :=
  {| goroutines := gs; errCh := ch; signalled := signalled p; shut := shut p; phase_ := phase_ p |}.
Definition with_phase (p : process) (ph : runPhase) (ch : list error) (sh : list listener) : process :=
  {| goroutines := goroutines p; errCh := ch; signalled := signalled p; shut := sh; phase_ := ph |}.

Section Lifecycle.
Context `{UnicodeTables} `{Os} `{ConfigYaml} `{InventoryFile} `{X509} `{Pkcs7Lib} `{!KeyPairs}.

(** The listeners [run] starts, in order, and the order of their shutdown. *)
Definition listeners (b : broker) : list listener :=
  EstL :: HealthL :: match scepHandler b with Some _ => [ScepL] | None => [] end.

Definition started (b : broker) : process :=
  {| goroutines := map (fun l => (l, Listening)) (listeners b); errCh := []; signalled := false;
     shut := []; phase_ := Selecting |}.

Inductive act :=
| Fails (i : nat) (e : error)   (** [ListenAndServe] returns an error *)
| Sends (i : nat)               (** [errCh <- err] *)
| Closes (i : nat)              (** it returns [http.ErrServerClosed] *)
| Signals                       (** SIGINT or SIGTERM *)
| TakesError                    (** [case err := <-errCh] *)
| TakesSignal                   (** [case <-ctx.Done()] *)
| CallsShutdown
| ShutdownReturns               (** drained, or the deadline is over: ignored *)
| Returns.

Definition running (p : process) : Prop := forall r, phase_ p <> Returned r.

(** When [run] has returned, the process exits and nothing moves. *)
Inductive process_step (b : broker) : process -> act -> process -> Prop :=
| step_fails p i l e :
    running p -> goroutines p !! i = Some (l, Listening) -> l ∉ shut p ->
    process_step b p (Fails i e) (with_go p (<[i := (l, Failed e)]> (goroutines p)) (errCh p))
| step_sends p i l e :
    running p -> goroutines p !! i = Some (l, Failed e) -> (length (errCh p) < errCh_cap)%nat ->
    process_step b p (Sends i) (with_go p (<[i := (l, Reported)]> (goroutines p)) (errCh p ++ [e]))
| step_closes p i l :
    running p -> goroutines p !! i = Some (l, Listening) -> l ∈ shut p ->
    process_step b p (Closes i) (with_go p (<[i := (l, Closed)]> (goroutines p)) (errCh p))
| step_signals p :
    running p -> signalled p = false ->
    process_step b p Signals {| goroutines := goroutines p; errCh := errCh p; signalled := true;
                                shut := shut p; phase_ := phase_ p |}
| step_takes_error p e rest :
    phase_ p = Selecting -> errCh p = e :: rest ->
    process_step b p TakesError (with_phase p (Returned (Err e)) rest (shut p))
| step_takes_signal p :
    phase_ p = Selecting -> signalled p = true ->
    process_step b p TakesSignal (with_phase p (Closing (listeners b)) (errCh p) (shut p))
| step_calls p l todo :
    phase_ p = Closing (l :: todo) ->
    process_step b p CallsShutdown (with_phase p (InShutdown l todo) (errCh p) (shut p ++ [l]))
| step_returns_shutdown p l todo :
    phase_ p = InShutdown l todo ->
    process_step b p ShutdownReturns (with_phase p (Closing todo) (errCh p) (shut p))
| step_returns p :
    phase_ p = Closing [] ->
    process_step b p Returns (with_phase p (Returned (Ok tt)) (errCh p) (shut p)).

(** ** What holds in every run *)

Section Runs.
Context (b : broker).

Definition is_reported (lg : listener * goroutine) : bool :=
  match snd lg with Reported => true | _ => false end.

(** How far the shutdown has come. *)
Definition shutdown_ok (p : process) : Prop :=
  match phase_ p with
  | Selecting => shut p = []
  | Closing todo => signalled p = true /\ shut p ++ todo = listeners b
  | InShutdown l todo => signalled p = true /\ shut p ++ todo = listeners b
  | Returned (Ok _) => signalled p = true /\ shut p = listeners b
  | Returned (Err _) => shut p = []
  end.

Record process_ok (p : process) : Prop := {
  po_listeners : map fst (goroutines p) = listeners b;
  po_channel : running p -> length (errCh p) = count is_reported (goroutines p);
  po_shutdown : shutdown_ok p;
}.

Lemma listeners_length : (length (listeners b) <= 3)%nat.
Proof. unfold listeners. destruct (scepHandler b); simpl; lia. Qed.

Lemma count_insert {A} (f : A -> bool) (l : list A) i x y :
  l !! i = Some x ->
  (count f (<[i := y]> l) + (if f x then 1 else 0) = count f l + (if f y then 1 else 0))%nat.
Proof.
  revert i. induction l as [|z l IH]; intros [|i]; simpl; try done; [intros [= ->]; lia|].
  intros Hi. specialize (IH i Hi). lia.
Qed.

Lemma insert_fst (gs : list (listener * goroutine)) i l g g' :
  gs !! i = Some (l, g) -> map fst (<[i := (l, g')]> gs) = map fst gs.
Proof.
  intros Hi. change (fst <$> <[i := (l, g')]> gs = fst <$> gs). rewrite list_fmap_insert. simpl.
  apply list_insert_id. by rewrite list_lookup_fmap, Hi.
Qed.

(** A goroutine moves: the channel holds one error per report. *)
Lemma process_ok_go p i l g g' ch :
  map fst (goroutines p) = listeners b /\ (running p -> length (errCh p) = count is_reported (goroutines p)) /\
  shutdown_ok p ->
  goroutines p !! i = Some (l, g) ->
  (length ch + (if is_reported (l, g) then 1 else 0) = length (errCh p) + (if is_reported (l, g') then 1 else 0))%nat ->
  process_ok (with_go p (<[i := (l, g')]> (goroutines p)) ch).
Proof.
  intros (Hl & Hch & Hsh) Hi Hlen. split; [by simpl; rewrite (insert_fst _ _ _ _ _ Hi)| |done].
  intros Hr. specialize (Hch Hr). pose proof (count_insert is_reported _ i _ (l, g') Hi) as Hc. simpl. lia.
Qed.

Lemma process_ok_step p a p' : process_ok p -> process_step b p a p' -> process_ok p'.
Proof.
  intros [Hl Hch Hsh] Hstep.
  destruct Hstep as [p i l e Hrun Hi Hns|p i l e Hrun Hi Hcap|p i l Hrun Hi Hs|p Hrun Hsig|p e rest Hph Herr
                    |p Hph Hsig|p l todo Hph|p l todo Hph|p Hph].
  - by apply (process_ok_go p i l _ (Failed e) _ (conj Hl (conj Hch Hsh)) Hi).
  - apply (process_ok_go p i l _ Reported _ (conj Hl (conj Hch Hsh)) Hi). simpl. rewrite length_app. simpl. lia.
  - by apply (process_ok_go p i l _ Closed _ (conj Hl (conj Hch Hsh)) Hi).
  - split; [exact Hl|exact Hch|]. unfold shutdown_ok in *. simpl. destruct (phase_ p) as [|todo|l todo|[[]|e]]; naive_solver.
  - unfold shutdown_ok in Hsh. rewrite Hph in Hsh. split; [done| |done]. intros Hr. by destruct (Hr (Err e)).
  - unfold shutdown_ok in Hsh. rewrite Hph in Hsh. split; [done| |].
    + intros _. apply Hch. intros r. by rewrite Hph.
    + unfold shutdown_ok. simpl. by rewrite Hsh.
  - unfold shutdown_ok in Hsh. rewrite Hph in Hsh. split; [done| |].
    + intros _. apply Hch. intros r. by rewrite Hph.
    + unfold shutdown_ok. simpl. by rewrite <- app_assoc.
  - unfold shutdown_ok in Hsh. rewrite Hph in Hsh. split; [done| |done].
    intros _. apply Hch. intros r. by rewrite Hph.
  - unfold shutdown_ok in Hsh. rewrite Hph in Hsh. split; [done| |].
    + intros Hr. by destruct (Hr (Ok tt)).
    + unfold shutdown_ok. simpl. by rewrite app_nil_r in Hsh.
Qed.

Lemma process_ok_started : process_ok (started b).
Proof.
  split; [|intros _|done]; unfold started, listeners; by destruct (scepHandler b).
Qed.

Lemma process_ok_reachable acts p : steps (process_step b) (started b) acts p -> process_ok p.
Proof.
  intros Hrun. eapply (steps_invariant (process_step b) process_ok); [|exact Hrun|apply process_ok_started].
  intros s a s'. apply process_ok_step.
Qed.

(** A reporting goroutine never blocks: while [run] has not returned there is
    room for its error. *)
Lemma never_blocks p i l e :
  process_ok p -> running p -> goroutines p !! i = Some (l, Failed e) -> (length (errCh p) < errCh_cap)%nat.
Proof.
  intros [Hl Hch _] Hr Hi. rewrite (Hch Hr).
  pose proof (count_insert is_reported _ i _ (l, Reported) Hi) as Hc. unfold is_reported in Hc at 2 4. simpl in Hc.
  pose proof (count_le_length is_reported (<[i := (l, Reported)]> (goroutines p))) as Hle.
  pose proof listeners_length as Hlen. rewrite <- Hl, length_map in Hlen. rewrite length_insert in Hle.
  unfold errCh_cap. lia.
Qed.

(** ** The process ends *)

Definition weight_go (lg : listener * goroutine) : nat :=
  match snd lg with Listening => 2 | Failed _ => 1 | Reported | Closed => 0 end.
Definition weight_phase (ph : runPhase) : nat :=
  match ph with
  | Selecting => 9
  | Closing todo => 2 * length todo + 1
  | InShutdown _ todo => 2 * length todo + 2
  | Returned _ => 0
  end.
Definition weight (p : process) : nat :=
  (sum_list (map weight_go (goroutines p)) + (if signalled p then 0 else 1) + weight_phase (phase_ p))%nat.

Lemma weight_go_insert (gs : list (listener * goroutine)) i x y :
  gs !! i = Some x ->
  (sum_list (map weight_go (<[i := y]> gs)) + weight_go x = sum_list (map weight_go gs) + weight_go y)%nat.
Proof.
  revert i. induction gs as [|z gs IH]; intros [|i]; simpl; try done; [intros [= ->]; lia|].
  intros Hi. specialize (IH i Hi). lia.
Qed.

Lemma weight_decreases p a p' : process_step b p a p' -> (weight p' < weight p)%nat.
Proof.
  pose proof listeners_length as Hlen. unfold weight.
  intros Hstep. destruct Hstep as [p i l e Hrun Hi Hns|p i l e Hrun Hi Hcap|p i l Hrun Hi Hs|p Hrun Hsig|p e rest Hph Herr
                    |p Hph Hsig|p l todo Hph|p l todo Hph|p Hph];
    cbn [with_go with_phase goroutines signalled phase_].
  - pose proof (weight_go_insert _ i _ (l, Failed e) Hi) as Hw. unfold weight_go in Hw at 2 4. simpl in Hw. lia.
  - pose proof (weight_go_insert _ i _ (l, Reported) Hi) as Hw. unfold weight_go in Hw at 2 4. simpl in Hw. lia.
  - pose proof (weight_go_insert _ i _ (l, Closed) Hi) as Hw. unfold weight_go in Hw at 2 4. simpl in Hw. lia.
  - rewrite Hsig. lia.
  - rewrite Hph. cbn [weight_phase]. lia.
  - rewrite Hph. cbn [weight_phase]. lia.
  - rewrite Hph. cbn [weight_phase length]. lia.
  - rewrite Hph. cbn [weight_phase]. lia.
  - rewrite Hph. cbn [weight_phase length]. lia.
Qed.

(** What makes [run] return: a signal, or an error of a listener. *)
Definition has_cause (p : process) : Prop :=
  signalled p = true \/ errCh p <> [] \/ exists i l e, goroutines p !! i = Some (l, Failed e).

(** The program's own steps: what [run] and its goroutines do next, apart from
    new failures and signals. *)
Definition own_act (a : act) : Prop := match a with Fails _ _ | Signals => False | _ => True end.
Definition own_process_step (p : process) (a : act) (p' : process) : Prop := process_step b p a p' /\ own_act a.

Lemma cause_moves p :
  process_ok p -> running p -> has_cause p \/ phase_ p <> Selecting -> exists a p', own_process_step p a p'.
Proof.
  intros Hok Hrun Hwhy. destruct (phase_ p) as [|[|l todo]|l todo|r] eqn:Hph.
  - destruct Hwhy as [[Hsig|[Hch|(i & l & e & Hi)]]|]; [| | |done].
    + eexists _, _. split; [by apply step_takes_signal|done].
    + destruct (errCh p) as [|e rest] eqn:Herr; [done|]. eexists _, _. split; [by eapply step_takes_error|done].
    + eexists _, _. split; [eapply step_sends; [done|exact Hi|by apply (never_blocks p i l e)]|done].
  - eexists _, _. split; [by apply step_returns|done].
  - eexists _, _. split; [by eapply step_calls|done].
  - eexists _, _. split; [by eapply step_returns_shutdown|done].
  - by destruct (Hrun r).
Qed.

Lemma cause_stays p a p' : has_cause p \/ phase_ p <> Selecting -> process_step b p a p' -> has_cause p' \/ phase_ p' <> Selecting.
Proof.
  intros Hwhy Hstep. unfold has_cause in *.
  destruct Hstep as [p i l e Hrun Hi Hns|p i l e Hrun Hi Hcap|p i l Hrun Hi Hs|p Hrun Hsig|p e rest Hph Herr
                    |p Hph Hsig|p l todo Hph|p l todo Hph|p Hph]; simpl; try (by right); cycle 3.
  - left. by left.
  - destruct Hwhy as [Hwhy|?]; [left|by right]. destruct Hwhy as [?|[?|_]]; [by left|by right; left|right; right].
    exists i, l, e. apply list_lookup_insert_eq. by eapply lookup_lt_Some.
  - destruct Hwhy as [Hwhy|?]; [left|by right]. right; left. by destruct (errCh p).
  - destruct Hwhy as [Hwhy|?]; [left|by right].
    destruct Hwhy as [?|[?|(j & l' & e & Hj)]]; [by left|by right; left|right; right].
    exists j, l', e. rewrite list_lookup_insert_ne; [done|]. intros ->. by rewrite Hi in Hj.
Qed.

(** C12. The process ends, and ends as it should.  However listeners fail,
    signals arrive and goroutines are scheduled: a run from the start of the
    listeners makes at most 16 steps; no goroutine ever blocks reporting its
    error; and as soon as there is a signal or a listener has failed, [run] and
    the goroutines can always go on, without any further event, until [run]
    returns.  When it returns nil it was signalled and has called Shutdown on
    every listener it started, in order; when it returns an error it has shut
    nothing down. *)
Theorem process_ends acts p (Hrun : steps (process_step b) (started b) acts p) :
  (length acts <= 16)%nat /\
  (forall i l e, running p -> goroutines p !! i = Some (l, Failed e) -> exists p', process_step b p (Sends i) p') /\
  (has_cause p -> exists more p' r, steps own_process_step p more p' /\ phase_ p' = Returned r) /\
  match phase_ p with
  | Returned (Ok _) => signalled p = true /\ shut p = listeners b
  | Returned (Err _) => shut p = []
  | _ => True
  end.
Proof.
  pose proof (process_ok_reachable _ _ Hrun) as Hok. split_and!.
  - pose proof (steps_bounded (process_step b) weight weight_decreases _ _ _ Hrun) as Hw.
    assert (H16 : (weight (started b) <= 16)%nat); [|lia].
    unfold weight, started, listeners. destruct (scepHandler b); simpl; lia.
  - intros i l e Hr Hi. eexists. eapply step_sends; [done|exact Hi|by apply (never_blocks p i l e)].
  - intros Hwhy.
    destruct (steps_complete own_process_step weight ltac:(intros ? ? ? [? _]; by eapply weight_decreases)
                (fun q => process_ok q /\ (has_cause q \/ phase_ q <> Selecting))
                (fun q => exists r, phase_ q = Returned r)) with (s := p) as (more & p' & Hmore & r & Hr).
    + intros q a q' [Hq Hc] [Hstep _]. split; [by eapply process_ok_step|by eapply cause_stays].
    + intros q [Hq Hc]. destruct (phase_ q) as [| | |r] eqn:Hph; [| | |left; by exists r]; right;
        (apply cause_moves; [done|intros r'; by rewrite Hph|by rewrite Hph]).
    + split; [done|by left].
    + by exists more, p', r.
  - pose proof (po_shutdown _ Hok) as Hs. unfold shutdown_ok in Hs. by destruct (phase_ p) as [| | |[[]|e]].
Qed.

(** *** The steps, executed *)

Definition still_running (p : process) : bool := match phase_ p with Returned _ => false | _ => true end.

Definition do_act (p : process) (a : act) : option process :=
  match a with
  | Fails i e =>
      match goroutines p !! i with
      | Some (l, Listening) => if still_running p && negb (bool_decide (l ∈ shut p))
                               then Some (with_go p (<[i := (l, Failed e)]> (goroutines p)) (errCh p)) else None
      | _ => None
      end
  | Sends i =>
      match goroutines p !! i with
      | Some (l, Failed e) => if still_running p && (length (errCh p) <? errCh_cap)%nat
                              then Some (with_go p (<[i := (l, Reported)]> (goroutines p)) (errCh p ++ [e])) else None
      | _ => None
      end
  | Closes i =>
      match goroutines p !! i with
      | Some (l, Listening) => if still_running p && bool_decide (l ∈ shut p)
                               then Some (with_go p (<[i := (l, Closed)]> (goroutines p)) (errCh p)) else None
      | _ => None
      end
  | Signals => if still_running p && negb (signalled p)
               then Some {| goroutines := goroutines p; errCh := errCh p; signalled := true;
                            shut := shut p; phase_ := phase_ p |} else None
  | TakesError => match phase_ p, errCh p with
                  | Selecting, e :: rest => Some (with_phase p (Returned (Err e)) rest (shut p))
                  | _, _ => None
                  end
  | TakesSignal => match phase_ p with
                   | Selecting => if signalled p then Some (with_phase p (Closing (listeners b)) (errCh p) (shut p)) else None
                   | _ => None
                   end
  | CallsShutdown => match phase_ p with
                     | Closing (l :: todo) => Some (with_phase p (InShutdown l todo) (errCh p) (shut p ++ [l]))
                     | _ => None
                     end
  | ShutdownReturns => match phase_ p with
                       | InShutdown l todo => Some (with_phase p (Closing todo) (errCh p) (shut p))
                       | _ => None
                       end
  | Returns => match phase_ p with
               | Closing [] => Some (with_phase p (Returned (Ok tt)) (errCh p) (shut p))
               | _ => None
               end
  end.

Lemma still_running_ok p : still_running p = true -> running p.
Proof. unfold still_running, running. by destruct (phase_ p). Qed.

Lemma do_act_step p a p' : do_act p a = Some p' -> process_step b p a p'.
Proof.
  intros Ha. destruct a as [i e|i|i| | | | | |]; simpl in Ha; branch Ha; reflect_bools;
    repeat match goal with
    | Hr : still_running _ = true |- _ => apply still_running_ok in Hr
    | Hd : bool_decide _ = true |- _ => apply bool_decide_eq_true in Hd
    | Hd : bool_decide _ = false |- _ => apply bool_decide_eq_false in Hd
    end; econstructor; try done; by apply Nat.ltb_lt.
Qed.

Fixpoint do_acts (p : process) (acts : list act) : option process :=
  match acts with
  | [] => Some p
  | a :: acts' => match do_act p a with Some p' => do_acts p' acts' | None => None end
  end.

Lemma do_acts_steps p acts p' : do_acts p acts = Some p' -> steps (process_step b) p acts p'.
Proof.
  revert p. induction acts as [|a acts IH]; intros p; simpl.
  - intros [= ->]. constructor.
  - destruct (do_act p a) as [p1|] eqn:Ha; [|done]. intros Hrun.
    eapply steps_cons; [by apply do_act_step|by apply IH].
Qed.

(** *** What happened before *)

Lemma signalled_by acts p p' :
  steps (process_step b) p acts p' -> signalled p' = true -> signalled p = true \/ Signals ∈ acts.
Proof.
  induction 1 as [p|p a p1 acts p' Hstep _ IH]; intros Hs; [by left|].
  destruct (IH Hs) as [H1'|H1']; [|right; by right].
  destruct Hstep; simpl in H1'; try (by left). right. by left.
Qed.

(** An error on its way to the result of [run]. *)
Definition carries (p : process) (e : error) : Prop :=
  e ∈ errCh p \/ (exists i l, goroutines p !! i = Some (l, Failed e)) \/ phase_ p = Returned (Err e).

Lemma carries_step p a p' e :
  process_step b p a p' -> carries p' e -> carries p e \/ exists i, a = Fails i e.
Proof.
  intros Hstep Hc. unfold carries in *.
  destruct Hstep as [p i l e' Hrun Hi Hns|p i l e' Hrun Hi Hcap|p i l Hrun Hi Hs|p Hrun Hsig|p e' rest Hph Herr
                    |p Hph Hsig|p l todo Hph|p l todo Hph|p Hph]; simpl in Hc; try tauto.
  - destruct Hc as [?|[(j & l' & Hj)|?]]; [tauto| |tauto].
    apply list_lookup_insert_Some in Hj as [(_ & [= <- <-] & _)|[_ Hj]]; [right; by exists i|left; right; left; eauto].
  - rewrite elem_of_app, list_elem_of_singleton in Hc. destruct Hc as [[?| ->]|[(j & l' & Hj)|?]]; [tauto| | |tauto].
    + left; right; left; eauto.
    + apply list_lookup_insert_Some in Hj as [(_ & [=] & _)|[_ Hj]]. left; right; left; eauto.
  - destruct Hc as [?|[(j & l' & Hj)|?]]; [tauto| |tauto].
    apply list_lookup_insert_Some in Hj as [(_ & [=] & _)|[_ Hj]]. left; right; left; eauto.
  - rewrite Herr. destruct Hc as [?|[?|[= ->]]]; [left; left; by right|tauto|left; left; by left].
  - destruct Hc as [?|[?|?]]; [tauto..|done].
  - destruct Hc as [?|[?|?]]; [tauto..|done].
  - destruct Hc as [?|[?|?]]; [tauto..|done].
  - destruct Hc as [?|[?|?]]; [tauto..|done].
Qed.

Lemma carries_run acts p p' e :
  steps (process_step b) p acts p' -> carries p' e -> carries p e \/ exists i, Fails i e ∈ acts.
Proof.
  induction 1 as [p|p a p1 acts p' Hstep _ IH]; intros Hc; [by left|].
  destruct (IH Hc) as [H1'|[i Hi]]; [|right; exists i; by right].
  destruct (carries_step _ _ _ _ Hstep H1') as [?|[i ->]]; [by left|right; exists i; by left].
Qed.
End Runs.

(** ** The program *)

(** The flags of [main]. *)
Record flags := { f_config : string; f_devAllowAll : bool; f_devRole : string }.
Definition defaultFlags : flags :=
  {| f_config := "/etc/certbroker/config.yaml"; f_devAllowAll := false; f_devRole := "" |}.

(** [run], to its end. *)
Inductive run_returns {E} (connect : Client -> E) (f : flags) : result unit -> Prop :=
| run_refused e :
    run connect (f_config f) (f_devAllowAll f) (f_devRole f) = Err e -> run_returns connect f (Err e)
| run_served c b s acts p r :
    run connect (f_config f) (f_devAllowAll f) (f_devRole f) = Ok (c, b, s) ->
    steps (process_step b) (started b) acts p -> phase_ p = Returned r -> run_returns connect f r.

(** [main]: [os.Exit(1)] on an error. *)
Definition exit_code (r : result unit) : Z := match r with Ok _ => 0 | Err _ => 1 end.

(** C37. The exit status tells what happened: the process exits with 0 only
    after it served with a configuration that validates, was signalled, and
    called Shutdown on every listener it had started, in their order; it exits
    with 1, having shut nothing down, when it could not be assembled or when
    one of its listeners failed, with that error. *)
Theorem exit_status {E} (connect : Client -> E) f r (Hret : run_returns connect f r) :
  match r with
  | Ok _ => exit_code r = 0 /\ exists c b s acts p,
      run connect (f_config f) (f_devAllowAll f) (f_devRole f) = Ok (c, b, s) /\ Config.Validate c = Ok tt /\
      steps (process_step b) (started b) acts p /\ Signals ∈ acts /\ shut p = listeners b
  | Err e => exit_code r = 1 /\
      (run connect (f_config f) (f_devAllowAll f) (f_devRole f) = Err e \/
       exists c b s acts p i,
         run connect (f_config f) (f_devAllowAll f) (f_devRole f) = Ok (c, b, s) /\
         steps (process_step b) (started b) acts p /\ Fails i e ∈ acts /\ shut p = [])
  end.
Proof.
  destruct Hret as [e Hrun|c b s acts p r Hrun Hacts Hph]; [by split; [|left]|].
  pose proof (po_shutdown _ _ (process_ok_reachable _ _ _ Hacts)) as Hs. unfold shutdown_ok in Hs. rewrite Hph in Hs.
  destruct r as [[]|e].
  - destruct Hs as [Hsig Hshut]. split; [done|]. exists c, b, s, acts, p.
    destruct (signalled_by _ _ _ _ Hacts Hsig) as [?|?]; [done|]. split_and!; try done.
    exact (bu_config _ _ _ _ _ (run_built _ _ _ _ _ _ _ Hrun)).
  - split; [done|right]. destruct (carries_run _ _ _ _ e Hacts) as [Hc|[i Hi]]; [right; by right| |].
    + exfalso. destruct Hc as [Hc|[(i & l & Hi)|?]]; [by apply elem_of_nil in Hc| |done].
      unfold started in Hi. simpl in Hi. apply list_elem_of_lookup_2 in Hi.
      unfold listeners in Hi. destruct (scepHandler b); simpl in Hi; set_solver.
    + by exists c, b, s, acts, p, i.
Qed.

(** The shutdown has a deadline, whatever the configuration says. *)
Lemma shutdownTimeout_positive c : 0 < shutdownTimeout c.
Proof. unfold shutdownTimeout. destruct (Z.leb_spec (ShutdownTimeout (Cfg_Server c)) 0); [done|lia]. Qed.
End Lifecycle.

(** ** A deployment goes down *)

Section Witnesses.
#[local] Existing Instances ascii_tables toyX509 toyPkcs7 exampleOs exampleYaml exampleInventory exampleKeys.

Definition exampleFlags : flags := {| f_config := "config.yaml"; f_devAllowAll := false; f_devRole := "" |}.

(** The health listener cannot bind; the signal wins the [select] all the same. *)
Definition goingDown : list act :=
  [Fails 1 "bind: address already in use"; Signals; Sends 1; TakesSignal; CallsShutdown; Closes 0; ShutdownReturns;
   CallsShutdown; ShutdownReturns; CallsShutdown; ShutdownReturns; Closes 2; Returns].

Definition exampleProcess (acts : list act) : option (broker * process) :=
  match run exampleConnect "config.yaml" false "" with
  | Ok (_, b, _) => option_map (pair b) (do_acts b (started b) acts)
  | Err _ => None
  end.

Lemma exampleProcess_run acts b p :
  exampleProcess acts = Some (b, p) ->
  steps (process_step b) (started b) acts p /\
  exists c s, run exampleConnect "config.yaml" false "" = Ok (c, b, s).
Proof.
  unfold exampleProcess. destruct (run _ _ _ _) as [[[c b'] s]|e]; [|done].
  destruct (do_acts b' (started b') acts) as [p'|] eqn:Hacts; [|done]. intros [= <- <-].
  split; [by apply do_acts_steps|eauto].
Qed.

Lemma process_ends_witness :
  exists b p, exampleProcess goingDown = Some (b, p) /\ phase_ p = Returned (Ok tt) /\
    signalled p = true /\ shut p = [EstL; HealthL; ScepL].
Proof.
  destruct (exampleProcess goingDown) as [[b p]|] eqn:Hp.
  - exists b, p. split; [reflexivity|].
    assert (Hv : option_map (fun bp => (phase_ (snd bp), listeners (fst bp))) (exampleProcess goingDown) =
                 Some (Returned (Ok tt), [EstL; HealthL; ScepL])) by (vm_compute; reflexivity).
    rewrite Hp in Hv. apply (inj Some) in Hv.
    assert (Hph : phase_ p = Returned (Ok tt)) by exact (f_equal fst Hv).
    assert (Hl : listeners b = [EstL; HealthL; ScepL]) by exact (f_equal snd Hv). split; [exact Hph|].
    destruct (process_ends b goingDown p (proj1 (exampleProcess_run _ _ _ Hp))) as (_ & _ & _ & Hend).
    rewrite Hph, Hl in Hend. exact Hend.
  - assert (Hv : match exampleProcess goingDown with Some _ => true | None => false end = true)
      by (vm_compute; reflexivity).
    rewrite Hp in Hv. discriminate Hv.
Defined.

(** A listener that cannot start ends the process with its error. *)
Definition failsToStart : list act := [Fails 0 "bind: permission denied"; Sends 0; TakesError].

Lemma exit_status_witness :
  run_returns exampleConnect exampleFlags (Err "bind: permission denied") /\
  exit_code (Err "bind: permission denied") = 1.
Proof.
  destruct (exampleProcess failsToStart) as [[b p]|] eqn:Hp.
  - destruct (exampleProcess_run _ _ _ Hp) as (Hsteps & c & s & Hrun).
    assert (Hv : option_map (fun bp => phase_ (snd bp)) (exampleProcess failsToStart) =
                 Some (Returned (Err "bind: permission denied"))) by (vm_compute; reflexivity).
    rewrite Hp in Hv. cbn [option_map fst snd] in Hv. injection Hv as Hph.
    assert (Hret : run_returns exampleConnect exampleFlags (Err "bind: permission denied"))
      by (eapply run_served; [exact Hrun|exact Hsteps|exact Hph]).
    split; [exact Hret|]. exact (proj1 (exit_status exampleConnect exampleFlags _ Hret)).
  - assert (Hv : match exampleProcess failsToStart with Some _ => true | None => false end = true)
      by (vm_compute; reflexivity).
    rewrite Hp in Hv. discriminate Hv.
Defined.
End Witnesses.
